(* ===== verification/_CoqProject ===== *)
-Q . S2P
Prelude.v
RustStd.v
Net.v
ProxyProtocol.v
HostUtil.v
Stream.v
TlsHeader.v
HelloCache.v
AcmeChallenge.v
BindAddr.v
FilePath.v
HttpHead.v
Pipeline.v
HttpPath.v
HttpRewrite.v
ChunkedBody.v
BodyReader.v
Config.v
Accounting.v
AccountingLog.v
ActiveTracker.v
EventsHub.v
AcmeDns.v
RuntimeConfig.v
Validation.v
Store.v
StoreProps.v
StoreExport.v
StoreAcme.v
StoreAcmeProps.v
StoreMigrate.v
Lru.v
LocalCa.v
ManagedTls.v
AcmeClient.v
ScanLoop.v
Renewal.v
RenewalChain.v
Resolver.v
Forward.v
ForwardProps.v
ForwardSelect.v
ForwardTable.v
Health.v
HealthLog.v
Relay.v
Dataplane.v
ErrorPages.v
StaticFiles.v
Listing.v
StaticServe.v
HttpPlane.v
HttpSafety.v
DefaultListener.v
ControlPlane.v
Terminate.v
Runtime.v
Listeners.v
TaskTree.v
ControlApi.v
ControlProps.v
Setup.v
Access.v
Backup.v
