(* ===== verification/Prelude.v ===== *)
(** * A verification development for tlsproxy

    tlsproxy is a TLS/HTTP reverse proxy written in Rust (src/src/).  It
    accepts connections on a mandatory TLS listener and on configured TLS,
    HTTP and raw listeners, decides from the first bytes where a connection
    goes, picks a healthy backend, and relays.  The development is a shallow
    embedding of the program's own logic: every definition below is a
    translation of the Rust item the file comment or the doc comment names,
    executable, with the source's names where possible.

    ** Conventions

    - Bytes and strings are [bytes := list Z]; [lit "..."] is a literal.
      Rust strings are UTF-8, so validity ([utf8_valid]) is a hypothesis where
      a theorem needs it. Integers are [Z], with the wrap-around or the
      bound of the machine type written out where the code relies on it.
    - [Result] is [result E A] with [Ok]/[Err]; [x ← m; k], [guard!],
      [foldM], [checkM] are the [?] operator and early returns.
    - A [HashMap] is a stdpp [gmap], or the list of its entries where the
      iteration order is visible; a [Vec] is a list.
    - What the code observes from outside is an argument: the clock ([now]),
      random seeds, the system resolver, regex matching, hashing, the file
      system, rustls' acceptor, TLS handshakes, signing.
    - A socket is an instance of the interface [AsyncReadOk] (Stream): the
      bytes it still delivers and a measure that decreases with every read.
      Loops over reads take that measure as fuel, and the theorems show that
      the fuel never runs out. A relay's task has three steps per read and a
      few more as its fuel. Other recursive definitions are structural or
      take the length of their input.
    - Operations that take several locks in turn are one state transformer.
      Where the code releases a lock in between and another task can come in
      the parts are separate definitions and a step relation or a schedule
      interleaves them: the two directions of a relay and its monitor
      ([relay_step]), registration and eviction of backend groups
      ([serving_step]), the reads and the write of a certificate's deletion
      ([deletion]), the two halves of a login and of a publish update.

    ** Files

    - Prelude: results, automation, folds, [max_by_key], association lists.
    - RustStd: the string and number functions of the standard library the
      program uses (split, trim, parse, print, UTF-8).
    - Net: [IpAddr] and [SocketAddr] with parsing and printing.
    - ProxyProtocol (proxy_protocol.rs): headers sent to upstreams, with
      reference decoders as specification: v1 and v2 round-trip.
    - HostUtil (hostutil.rs): "host:port" specifications; printing and
      parsing are inverse on well-formed hosts, and parsed hosts are
      well-formed.
    - Stream (conn_stream.rs): the reader interface, [ConnStream] as an
      instance of it over any other instance, exactness of [unread].
    - TlsHeader (tls_header.rs): reading a ClientHello is lossless and
      bounded; the random is found however the hello is split into records.
    - HelloCache (hello_cache.rs): the loop cache refines a map with expiry
      times and retains nothing expired.
    - AcmeChallenge (acme_challenge.rs): the challenge registry; a challenge
      resolves until it expires; what a stale guard may and does remove.
    - BindAddr (bindaddr.rs): bind patterns and interface resolution.
    - FilePath: the lexical path functions static files use.
    - HttpHead (http_header.rs): head reading and parsing: the head ends at
      the first blank line, one Host, one framing. HttpPath: stripping a
      path prefix. HttpRewrite: the rewritten head has the proxy's own
      forwarding fields and no client-supplied ones. ChunkedBody: the
      chunked reader delivers exactly one message and leaves the rest.
      BodyReader: the three body framings as one reader that delivers the
      body and stops.
    - Pipeline (dataplane/pipeline.rs, request_id.rs, dataplane/tls/mod.rs,
      dataplane/http/mod.rs): request identifiers, and the interface
      [Intercept] of a stage that looks at the first bytes of a connection,
      with ClientHello and head reading as instances: the next stage sees
      the bytes as if nothing had been read.
    - Config (config.rs, target lists of forward/mod.rs): sizes, legacy
      configuration, backend lists.
    - Accounting, AccountingLog (accounting.rs): connection records as CSV
      lines that parse back, and the log: rotation, pruning and background
      compression keep the most recent records in order.
    - ActiveTracker (active_tracker.rs, listener_stats.rs,
      dataplane/lifecycle.rs): the table of active connections and the guard
      that keeps it; the bookkeeping is exact in every reachable state.
    - EventsHub (events_hub.rs, the listing of active_tracker.rs): the
      registered listeners and their totals; snapshot and sampler publish
      the same, true figures, and a live view is told only of its listener.
    - AcmeDns (acme/dns.rs, [normalize_domain] of store/mod.rs): the public
      DNS prerequisite.
    - RuntimeConfig (runtime_config.rs): the configuration, host and path
      routing (best match, not first match), validation, migration from the
      legacy form. Validation: the conditions on a configuration stated on
      its data; the validator accepts exactly what meets them.
    - Store (store/mod.rs, store/access.rs, records of acme_types.rs and
      auth.rs): the database as typed column families and every operation on
      configuration, retention, tokens, users, sessions and samples.
      StoreProps: the history is the list of saved configurations, retention
      is exact. StoreExport: export and import of the raw families round
      trip. StoreAcme (store/acme.rs): providers, certificates, generations,
      renewals, migration. StoreAcmeProps: certificates, index, generations
      and active pointers agree in every database the store's operations and
      whole imports lead to, on stable names, and what a scoped import and a
      deletion during a renewal leave behind; one provider is the default. StoreMigrate: migration is complete.
    - Lru: the interface of the least-recently-used cache ([LruCache], with
      its laws) and an implementation, as the caches below assume it.
    - LocalCa (certificate.rs, ca.rs): the local CA's files, the leaves it
      signs and their cache: a leaf is for the name asked for and is not
      about to expire; when a stored CA is kept and when it is replaced,
      and that a restart comes up with the same authority.
    - ManagedTls (managed_tls.rs): which stored generation is usable, the
      cache the handshakes read (it holds exactly the active, usable
      generations), the fallback to the local CA, the gate and the throttle
      of the registration of new names.
    - AcmeClient (acme/client.rs): accounts, the order over the challenge
      registry, renewal information, the split of a downloaded chain: an
      order with a CA that keeps its side completes, no outcome leaves a
      challenge behind, and a stored generation serves the downloaded chain.
    - ScanLoop (acme/scheduler.rs): when scans start: requests coalesce and
      are not lost, missed ticks do not pile up. Renewal (acme/scheduler.rs,
      acme/backend.rs): a scan over the due
      certificates against the interface [RenewalBackend], and the store's
      instance of it: a renewal ends with the new generation active and
      served, and a failed one changes only its own bookkeeping.
      RenewalChain (acme/scheduler.rs, acme/backend.rs, acme/client.rs): the
      renewal with the ACME client as its issuer, from the due certificate to
      the chain a handshake gets, and the Retry-After deadline found in a
      CA's error text.
    - Resolver (resolver.rs): DNS overrides against a priority specification.
    - Forward (forward/mod.rs): the backend groups as one state record
      [Pools], and every operation on it. ForwardProps: endpoint preference,
      fairness of the sequential pick, stability of the sticky pick,
      [ensure_group]. ForwardSelect: the selection entry points against one
      specification of an admissible choice, and two defects (the shared TLS
      name, the registration race). ForwardTable: eviction.
    - Health (forward/health.rs): binding of configured backends, release,
      probe rounds; configured groups are the bound ones, every probed
      endpoint gets a verdict, and a configured group survives any
      interleaving of traffic, probe rounds and evictions that begin after
      it was configured ([serving_step]). HealthLog
      (forward/health.rs): the stored samples are the last day's, whole.
    - Relay (relay.rs, idle_tracker.rs, upstream_tls.rs): the two directions
      as tasks that any schedule interleaves with the teardown monitor: what
      each delivers, and that only silence beyond a limit cuts one; the
      self-connection check, registration of our own ClientHellos.
    - Dataplane (dataplane/policy.rs, upstream_tls.rs, sockets): the state
      of a connection handler, upstream legs and reports as a state monad.
    - ErrorPages, StaticFiles, Listing, StaticServe (dataplane/http/
      error_pages.rs, static_files.rs): path decoding, validators, ranges,
      compression, listings, and the handler: what is served depends on what
      is stored beneath the document root, and a listing besides on the
      kind, size and time of what links lead to; files are served exactly,
      listings are complete and carry no markup from file names.
    - HttpPlane (dataplane/http/mod.rs): the HTTP request handler.
      HttpSafety: one connection brings an upstream exactly one request, the
      gate of a protected path, and the spelling that passes beside it.
    - DefaultListener (listener/default.rs, dataplane/tls/passthrough.rs):
      classification and dispatch of the mandatory listener, and the
      passthrough handler from the accepted socket to the bytes both peers
      get.
    - ControlPlane (listener/control_plane.rs): a connection for the control
      hostname on its way to the control API.
    - Terminate (dataplane/l4.rs, dataplane/tls/terminate.rs): raw
      forwarding, TLS termination, termination into HTTP, and the agreement
      between the groups that are probed and those the handlers use.
    - Runtime (runtime.rs, runtime_live.rs): applying a revision, serving,
      rolling back, hot changes; rollback terminates, and accounting breaks
      reloads. Listeners (runtime.rs, listener/default.rs): what each accept
      loop does with a connection under the live configuration. TaskTree
      (controller.rs, runtime.rs, listener/default.rs): the controllers and
      the tasks of a revision over the interface [TreeContext] of
      tokio-tree-context; stopping a revision cancels its tasks and no
      others, and a listener with a reserved name never settles.
    - ControlApi (control_api.rs): the handlers, the router, logins,
      sessions and the event stream. ControlProps: who can change what, no
      update lost between concurrent saves, what
      publication hands out, and the login throttle with its gap.
    - Setup (bootstrap.rs, main.rs): the first-run setup server, and the
      offline commands: setup happens once and only with the token, recovery
      replaces a password and nothing else. Access (auth.rs): tokens and
      password hashes; what a recovered account, enabled or disabled, an
      administrator's or not, gets from the login and the router. Backup (main.rs, store/mod.rs): the copying of
      checkpoints over a file system; a restored backup opens as the
      database that was backed up.

    ** How the parts fit

    [handle_connection] (DefaultListener) reads the ClientHello (TlsHeader)
    from a [ConnStream] (Stream), asks the challenge registry
    (AcmeChallenge) and the routes (RuntimeConfig), consults the loop cache
    (HelloCache) and hands over to a handler; the layer-4 handlers select
    from the group table (Forward), announce the client (ProxyProtocol) and
    relay (Relay). The table is filled from the configuration and kept
    current by the probe loop (Health), with names mapped by Resolver and
    HostUtil. HTTP requests are read, checked and rewritten by HttpHead,
    HttpPath, HttpRewrite and ChunkedBody under the handler HttpPlane, which
    serves files through StaticServe and forwards through a Dataplane leg.
    Runtime takes the configuration from the Store, prepares it (StoreAcme,
    Resolver, Health), binds the listeners and hands connections to
    Listeners; ActiveTracker and Accounting record them. Certificates come
    from ManagedTls, which loads what Renewal activated after AcmeClient
    ordered it through AcmeChallenge, or from LocalCa. ControlApi changes the
    Store and asks Runtime to reload; Setup fills an empty Store.

    ** Bounds and fuel

    A read loop takes the measure of its reader as fuel; the chunked reader
    and the relay have theorems that this is enough. [bind] tries three
    times and a restart rebinds twenty times, as the code does. The
    supervisor [Runtime.run] takes one environment per attempt, so a run
    that never ends is a run for every list of environments.
    [copy_directory] recurses on the depth of the copied directory.

    ** Not modelled

    Logging and the contents of error messages; command-line parsing and the
    printed account list; sockets below reads and writes, the HTTP server
    under the control API (axum, hyper), the queues of the event hub, the
    delays of the rate limiter. Code of other packages is an argument or an
    interface with its documented laws: TLS sessions (rustls), X.509 and
    signing (rcgen, x509-parser), PEM files, the ACME protocol's messages,
    regular expressions, date formats, Argon2, SHA-256, compressors,
    RocksDB's files, serde, the task tree (tokio-tree-context), the LRU
    cache. Async wrappers that only move a call to another thread are the
    call. Of timers, the deadlines of reads, the scan interval and the
    expiries are modelled, as clock readings. *)

From stdpp Require Export base list gmap strings numbers sorting.
From Stdlib Require Export ZArith Lia.

(** ** Results

    A fallible Rust operation returns [Result<A, E>]; [?] is the monadic bind
    and [bail!]/[return Err] is [Err]. *)

Inductive result (E A : Type) :=
| Ok (a : A)
| Err (e : E).
Arguments Ok {_ _} _.
Arguments Err {_ _} _.

#[global] Instance result_ret E : MRet (result E) := λ A a, Ok a.
#[global] Instance result_bind E : MBind (result E) :=
  λ A B f m, match m with Ok a => f a | Err e => Err e end.
#[global] Instance result_fmap E : FMap (result E) :=
  λ A B f m, match m with Ok a => Ok (f a) | Err e => Err e end.

#[global] Instance result_eq_dec `{EqDecision E, EqDecision A} :
  EqDecision (result E A).
Proof. solve_decision. Defined.

Definition is_ok {E A} (m : result E A) : bool :=
  match m with Ok _ => true | Err _ => false end.

Definition ok_or {E A} (o : option A) (e : E) : result E A :=
  match o with Some a => Ok a | None => Err e end.

(** [guard! b else e; k]: the early return [if !b { bail!(e) }]. *)
Notation "'guard!' b 'else' e ; k" :=
  (if b%bool then k else Err e)
  (at level 100, b at level 99, e at level 99, k at level 200, right associativity).

Lemma bind_Ok_inv {E A B} (m : result E A) (f : A → result E B) b :
  (m ≫= f) = Ok b → ∃ a, m = Ok a ∧ f a = Ok b.
Proof. destruct m; cbn; [eauto | done]. Qed.

Lemma is_ok_spec {E A} (m : result E A) : is_ok m = true ↔ ∃ a, m = Ok a.
Proof. destruct m; naive_solver. Qed.

(** ** Shared automation *)

Create HintDb tlsproxy.

(** Case analysis on the first [match]/[if] scrutinee of the goal or of a
    hypothesis, keeping its equation. *)
Ltac case_goal :=
  match goal with
  | |- context [match ?x with _ => _ end] =>
      lazymatch x with
      | context [match _ with _ => _ end] => fail
      | _ => let E := fresh "E" in destruct x eqn:E
      end
  end.

Ltac case_hyp H :=
  match type of H with
  | context [match ?x with _ => _ end] =>
      lazymatch x with
      | context [match _ with _ => _ end] => fail
      | _ => let E := fresh "E" in destruct x eqn:E
      end
  end.

(** Unfolds a chain of binds that ends in [Ok]. *)
Ltac inv_bind :=
  repeat match goal with
  | H : (_ ≫= _) = Ok _ |- _ =>
      let a := fresh "a" in let Ha := fresh "Ha" in
      apply bind_Ok_inv in H as (a & Ha & H)
  end.

(** The goals an error return leaves: the result is not another error, and
    nothing has to be shown of a success. *)
Ltac err_case := split; [discriminate|intros ? [=]].

(** Boolean goals and hypotheses become propositions. *)
Ltac bool_prop :=
  repeat match goal with
  | H : (_ && _)%bool = true |- _ => apply andb_true_iff in H as [? ?]
  | H : (_ || _)%bool = false |- _ => apply orb_false_iff in H as [? ?]
  | H : negb _ = true |- _ => apply negb_true_iff in H
  | H : negb _ = false |- _ => apply negb_false_iff in H
  | H : bool_decide _ = true |- _ => apply bool_decide_eq_true_1 in H
  | H : bool_decide _ = false |- _ => apply bool_decide_eq_false_1 in H
  end.

(** ** Iteration: [for x in xs { ... ? }] over a threaded accumulator. *)

Fixpoint foldM {E A B} (f : B → A → result E B) (acc : B) (l : list A) : result E B :=
  match l with
  | [] => Ok acc
  | x :: l => acc' ← f acc x; foldM f acc' l
  end.

(** A loop that only checks: the first error wins. *)
Fixpoint checkM {E A} (f : A → result E ()) (l : list A) : result E () :=
  match l with
  | [] => Ok ()
  | x :: l => _ ← f x; checkM f l
  end.

Lemma checkM_ok {E A} (f : A → result E ()) l :
  checkM f l = Ok () ↔ Forall (λ x, f x = Ok ()) l.
Proof.
  induction l as [|x l IH]; cbn; [split; constructor|].
  rewrite Forall_cons. destruct (f x) as [[]|e]; cbn; naive_solver.
Qed.

Lemma checkM_ok_permutation {E A} (f : A → result E ()) l l' :
  l ≡ₚ l' → checkM f l = Ok () → checkM f l' = Ok ().
Proof. intros Hp. rewrite !checkM_ok. by rewrite Hp. Qed.

Lemma foldM_app {E A B} (f : B → A → result E B) l1 l2 acc :
  foldM f acc (l1 ++ l2) = (acc' ← foldM f acc l1; foldM f acc' l2).
Proof.
  revert acc; induction l1 as [|x l1 IH]; intros acc; cbn; [done|].
  destruct (f acc x); cbn; [apply IH|done].
Qed.

(** An invariant of the accumulator is kept by the whole loop. *)
Lemma foldM_inv {E A B} (P : B → Prop) (f : B → A → result E B) l acc acc' :
  (∀ b x b', x ∈ l → P b → f b x = Ok b' → P b') →
  P acc → foldM f acc l = Ok acc' → P acc'.
Proof.
  revert acc; induction l as [|x l IH]; intros acc Hf HP H; cbn in H.
  - by simplify_eq.
  - destruct (f acc x) as [b|] eqn:Hx; cbn in H; [|done].
    eapply (IH b); [|eapply Hf; eauto; set_solver|done].
    intros; eapply Hf; eauto; set_solver.
Qed.

(** ** Lists *)

Lemma filter_elem {A} (f : A → bool) (l : list A) x : x ∈ List.filter f l ↔ x ∈ l ∧ f x = true.
Proof. rewrite !list_elem_of_In. apply filter_In. Qed.
Lemma NoDup_map_filter {A B} (f : A → B) (g : A → bool) (l : list A) : NoDup (map f l) → NoDup (map f (List.filter g l)).
Proof.
  induction l as [|x l IH]; cbn; [done|]. rewrite NoDup_cons. intros [Hx Hn]. destruct (g x); cbn; [|auto].
  apply NoDup_cons. split; [|auto]. intros (y&Heq&[Hy _]%filter_elem)%list_elem_of_fmap. apply Hx. rewrite Heq. by apply list_elem_of_fmap_2.
Qed.

(** [iter().max_by_key(key)]: the last element with the greatest key. *)
Fixpoint max_by_key {A} (key : A → Z) (l : list A) : option A :=
  match l with
  | [] => None
  | x :: l =>
      match max_by_key key l with
      | Some y => if (key x <=? key y)%Z then Some y else Some x
      | None => Some x
      end
  end.

Lemma max_by_key_spec {A} (key : A → Z) l x :
  max_by_key key l = Some x → x ∈ l ∧ ∀ y, y ∈ l → (key y ≤ key x)%Z.
Proof.
  revert x; induction l as [|a l IH]; intros x; cbn; [done|].
  destruct (max_by_key key l) as [y|] eqn:E.
  - destruct (IH y eq_refl) as [Hin Hmax].
    destruct (key a <=? key y)%Z eqn:Hle; intros [= <-]; split;
      [set_solver| |set_solver|]; intros z; rewrite elem_of_cons; intros [->|Hz];
      try lia; specialize (Hmax _ Hz); lia.
  - intros [= <-]. destruct l as [|b l].
    + split; [set_solver|]. intros y; rewrite list_elem_of_singleton. intros ->; lia.
    + cbn in E. destruct (max_by_key key l); [case_match|]; done.
Qed.

Lemma max_by_key_is_Some {A} (key : A → Z) l : l ≠ [] → is_Some (max_by_key key l).
Proof. destruct l; [done|]. cbn. repeat case_match; eauto. Qed.

Lemma max_by_key_None {A} (key : A → Z) l : max_by_key key l = None ↔ l = [].
Proof.
  split; [|by intros ->]. intros H. destruct l as [|a l]; [done|].
  by destruct (max_by_key_is_Some key (a :: l)) as [? ?]; [|congruence].
Qed.

(** Keys of an association list that stands for a [HashMap] in some
    iteration order. *)
Fixpoint assoc {K V} `{EqDecision K} (k : K) (l : list (K * V)) : option V :=
  match l with
  | [] => None
  | (k', v) :: l => if decide (k = k') then Some v else assoc k l
  end.

Lemma assoc_elem_of {K V} `{EqDecision K} (k : K) (v : V) l :
  assoc k l = Some v → (k, v) ∈ l.
Proof.
  induction l as [|[k' v'] l IH]; cbn; [done|].
  case_decide; [intros [= <-]; subst; set_solver|set_solver].
Qed.

Lemma assoc_is_Some {K V} `{EqDecision K} (k : K) (l : list (K * V)) : k ∈ map fst l ↔ is_Some (assoc k l).
Proof.
  induction l as [|[k' v'] l IH]; cbn; [by split; [intros ?%not_elem_of_nil|intros [? ?]]|].
  rewrite elem_of_cons, IH. case_decide as Hk; [split; [by eexists|by left]|]. split; [by intros [?|?]|by right].
Qed.
