(* ===== verification/RustStd.v ===== *)
(** * The part of the Rust standard library the program uses

    A Rust [&str] or [&[u8]] is the list of its bytes, each byte a [Z] in
    [0, 256).  Every operation below works on bytes; for operations that take
    an ASCII [char] pattern this is exactly what [str] does, because an ASCII
    byte never occurs inside a multi-byte UTF-8 sequence.  [trim] and
    [char::is_whitespace] use Unicode White_Space, so they recognise its
    multi-byte members by their UTF-8 encodings. *)

From S2P Require Import Prelude.
From Stdlib Require Import Ascii.
From Stdlib Require String.
From stdpp Require Import strings.
Open Scope Z_scope.

Abbreviation byte := Z (only parsing).
Abbreviation bytes := (list Z) (only parsing).

(** A string literal of the source. *)
Definition lit (s : string) : bytes :=
  (λ a, Z.of_N (N_of_ascii a)) <$> String.list_ascii_of_string s.

Definition CR : byte := 13.
Definition LF : byte := 10.
Definition SP : byte := 32.
Definition HT : byte := 9.
Definition COLON : byte := 58.
Definition SLASH : byte := 47.
Definition DOT : byte := 46.
Definition COMMA : byte := 44.
Definition SEMI : byte := 59.
Definition crlf : bytes := [CR; LF].

Definition u16_max : Z := 65535.
Definition u64_max : Z := 18446744073709551615.

Definition is_byte (x : Z) : Prop := 0 ≤ x < 256.
Definition is_u16 (x : Z) : Prop := 0 ≤ x ≤ u16_max.

(** ** Slices *)

Fixpoint starts_with (p s : bytes) : bool :=
  match p, s with
  | [], _ => true
  | x :: p, y :: s => (x =? y) && starts_with p s
  | _ :: _, [] => false
  end.

Definition ends_with (p s : bytes) : bool := starts_with (rev p) (rev s).

Fixpoint strip_prefix (p s : bytes) : option bytes :=
  match p, s with
  | [], _ => Some s
  | x :: p, y :: s => if x =? y then strip_prefix p s else None
  | _ :: _, [] => None
  end.

Definition strip_suffix (p s : bytes) : option bytes :=
  @rev Z <$> strip_prefix (rev p) (rev s).

Definition contains (c : byte) (s : bytes) : bool := existsb (Z.eqb c) s.

(** [contains(['a', 'b'])] *)
Definition contains_any (cs : list byte) (s : bytes) : bool :=
  existsb (λ c, contains c s) cs.

Definition eqb_bytes (a b : bytes) : bool := bool_decide (a = b).

(** ** Splitting *)

(** [str::split_once(c)]: at the first occurrence. *)
Fixpoint split_once (c : byte) (s : bytes) : option (bytes * bytes) :=
  match s with
  | [] => None
  | x :: s =>
      if x =? c then Some ([], s)
      else match split_once c s with
           | Some (a, b) => Some (x :: a, b)
           | None => None
           end
  end.

(** [str::rsplit_once(c)]: at the last occurrence. *)
Fixpoint rsplit_once (c : byte) (s : bytes) : option (bytes * bytes) :=
  match s with
  | [] => None
  | x :: s =>
      match rsplit_once c s with
      | Some (a, b) => Some (x :: a, b)
      | None => if x =? c then Some ([], s) else None
      end
  end.

(** [str::split(p)]: always at least one piece. *)
Fixpoint split_by (p : byte → bool) (s : bytes) : list bytes :=
  match s with
  | [] => [[]]
  | x :: s =>
      if p x then [] :: split_by p s
      else match split_by p s with
           | [] => [[x]]
           | h :: t => (x :: h) :: t
           end
  end.

Definition split_char (c : byte) : bytes → list bytes := split_by (Z.eqb c).
Definition split_chars (cs : list byte) : bytes → list bytes :=
  split_by (λ x, existsb (Z.eqb x) cs).

(** [slice::join(sep)] *)
Fixpoint join (sep : bytes) (l : list bytes) : bytes :=
  match l with
  | [] => []
  | [x] => x
  | x :: l => x ++ sep ++ join sep l
  end.

(** [str::find(c)]: byte index of the first occurrence. *)
Fixpoint find_char (c : byte) (s : bytes) : option nat :=
  match s with
  | [] => None
  | x :: s => if x =? c then Some O else S <$> find_char c s
  end.

(** ** ASCII *)

Definition is_digit (c : byte) : bool := (48 <=? c) && (c <=? 57).
Definition is_ascii_upper (c : byte) : bool := (65 <=? c) && (c <=? 90).

Definition to_ascii_lower (c : byte) : byte := if is_ascii_upper c then c + 32 else c.
Definition to_ascii_lowercase (s : bytes) : bytes := map to_ascii_lower s.
Definition eq_ignore_ascii_case (a b : bytes) : bool :=
  bool_decide (to_ascii_lowercase a = to_ascii_lowercase b).

(** [u8::is_ascii_whitespace]: HT, LF, FF, CR and space (not VT). *)
Definition is_ascii_whitespace (c : byte) : bool :=
  (c =? 9) || (c =? 10) || (c =? 12) || (c =? 13) || (c =? 32).

(** [str::split_ascii_whitespace]: the non-empty runs. *)
Definition split_ascii_whitespace (s : bytes) : list bytes :=
  List.filter (λ p, negb (bool_decide (p = []))) (split_by is_ascii_whitespace s).

(** ** Unicode white space *)

(** One-byte members: U+0009..U+000D and U+0020. *)
Definition ws1 (a : byte) : bool := ((9 <=? a) && (a <=? 13)) || (a =? 32).
(** U+0085 and U+00A0. *)
Definition ws2 (a b : byte) : bool := (a =? 194) && ((b =? 133) || (b =? 160)).
(** U+1680, U+2000..U+200A, U+2028, U+2029, U+202F, U+205F and U+3000. *)
Definition ws3 (a b c : byte) : bool :=
  ((a =? 225) && (b =? 154) && (c =? 128))
  || ((a =? 226) && (b =? 128)
      && (((128 <=? c) && (c <=? 138)) || (c =? 168) || (c =? 169) || (c =? 175)))
  || ((a =? 226) && (b =? 129) && (c =? 159))
  || ((a =? 227) && (b =? 128) && (c =? 128)).

Fixpoint trim_start (s : bytes) : bytes :=
  match s with
  | [] => []
  | a :: s1 =>
      if ws1 a then trim_start s1
      else match s1 with
      | [] => s
      | b :: s2 =>
          if ws2 a b then trim_start s2
          else match s2 with
          | [] => s
          | c :: s3 => if ws3 a b c then trim_start s3 else s
          end
      end
  end.

(** The mirror image of [trim_start], on the reversed string. *)
Fixpoint trim_start_rev (s : bytes) : bytes :=
  match s with
  | [] => []
  | a :: s1 =>
      if ws1 a then trim_start_rev s1
      else match s1 with
      | [] => s
      | b :: s2 =>
          if ws2 b a then trim_start_rev s2
          else match s2 with
          | [] => s
          | c :: s3 => if ws3 c b a then trim_start_rev s3 else s
          end
      end
  end.

Definition trim_end (s : bytes) : bytes := rev (trim_start_rev (rev s)).
Definition trim (s : bytes) : bytes := trim_end (trim_start s).

(** [str::contains(char::is_whitespace)] *)
Fixpoint contains_whitespace (s : bytes) : bool :=
  match s with
  | [] => false
  | a :: s1 =>
      ws1 a
      || match s1 with
         | [] => false
         | b :: s2 => ws2 a b || match s2 with [] => false | c :: _ => ws3 a b c end
         end
      || contains_whitespace s1
  end.

(** [trim_start_matches(c)] and [trim_end_matches(c)] for an ASCII char. *)
Fixpoint trim_start_char (c : byte) (s : bytes) : bytes :=
  match s with
  | x :: s' => if x =? c then trim_start_char c s' else s
  | [] => []
  end.
Definition trim_end_char (c : byte) (s : bytes) : bytes :=
  rev (trim_start_char c (rev s)).

(** ** Integers as text *)

Definition digit_value (radix : Z) (c : byte) : option Z :=
  let d := if is_digit c then c - 48
           else if (97 <=? c) && (c <=? 122) then c - 87
           else if (65 <=? c) && (c <=? 90) then c - 55
           else 36 in
  if d <? radix then Some d else None.

(** Checked multiplication and addition at every digit. *)
Fixpoint parse_digits (radix max acc : Z) (s : bytes) : option Z :=
  match s with
  | [] => Some acc
  | c :: s =>
      match digit_value radix c with
      | None => None
      | Some d =>
          let acc' := acc * radix + d in
          if acc' <=? max then parse_digits radix max acc' s else None
      end
  end.

(** [uN::from_str_radix]: an optional leading [+], then at least one digit. *)
Definition from_str_radix (radix max : Z) (s : bytes) : option Z :=
  match s with
  | [] => None
  | c :: s' =>
      if c =? 43 then match s' with [] => None | _ => parse_digits radix max 0 s' end
      else parse_digits radix max 0 s
  end.

Definition parse_u16 : bytes → option Z := from_str_radix 10 u16_max.
Definition parse_u64 : bytes → option Z := from_str_radix 10 u64_max.

(** [Display] of an unsigned integer. The fuel bounds the number of decimal
    digits by the number of bits. *)
Fixpoint dec_digits (fuel : nat) (n : Z) (acc : bytes) : bytes :=
  match fuel with
  | O => acc
  | S fuel =>
      let acc' := (48 + n mod 10) :: acc in
      if n <? 10 then acc' else dec_digits fuel (n / 10) acc'
  end.
Definition show_dec (n : Z) : bytes := dec_digits (S (Z.to_nat (Z.log2 n))) n [].

(** [{:x}] *)
Definition hex_digit (d : Z) : byte := if d <? 10 then 48 + d else 87 + d.
Fixpoint hex_digits (fuel : nat) (n : Z) (acc : bytes) : bytes :=
  match fuel with
  | O => acc
  | S fuel =>
      let acc' := hex_digit (n mod 16) :: acc in
      if n <? 16 then acc' else hex_digits fuel (n / 16) acc'
  end.
Definition show_hex (n : Z) : bytes := hex_digits (S (Z.to_nat (Z.log2 n))) n [].

(** [uN::to_be_bytes] / [from_be_bytes] *)
Definition u16_be (n : Z) : bytes := [n / 256; n mod 256].
Definition of_be (l : bytes) : Z := foldl (λ acc b, acc * 256 + b) 0 l.

(** ** UTF-8

    One step of the standard library's decoder: whether the input starts with
    a well-formed sequence, and how many bytes that sequence (or the maximal
    ill-formed prefix) spans. *)

Definition is_cont (c : byte) : bool := (128 <=? c) && (c <=? 191).

Definition utf8_second_ok (a b : byte) : bool :=
  if a =? 224 then (160 <=? b) && (b <=? 191)
  else if a =? 237 then (128 <=? b) && (b <=? 159)
  else if a =? 240 then (144 <=? b) && (b <=? 191)
  else if a =? 244 then (128 <=? b) && (b <=? 143)
  else is_cont b.

Definition utf8_step (s : bytes) : bool * nat :=
  match s with
  | [] => (true, O)
  | a :: s1 =>
      if a <? 128 then (true, 1%nat)
      else if (194 <=? a) && (a <=? 223) then
        match s1 with
        | b :: _ => if is_cont b then (true, 2%nat) else (false, 1%nat)
        | [] => (false, 1%nat)
        end
      else if (224 <=? a) && (a <=? 239) then
        match s1 with
        | b :: s2 =>
            if utf8_second_ok a b then
              match s2 with
              | c :: _ => if is_cont c then (true, 3%nat) else (false, 2%nat)
              | [] => (false, 2%nat)
              end
            else (false, 1%nat)
        | [] => (false, 1%nat)
        end
      else if (240 <=? a) && (a <=? 244) then
        match s1 with
        | b :: s2 =>
            if utf8_second_ok a b then
              match s2 with
              | c :: s3 =>
                  if is_cont c then
                    match s3 with
                    | d :: _ => if is_cont d then (true, 4%nat) else (false, 3%nat)
                    | [] => (false, 3%nat)
                    end
                  else (false, 2%nat)
              | [] => (false, 2%nat)
              end
            else (false, 1%nat)
        | [] => (false, 1%nat)
        end
      else (false, 1%nat)
  end.

(** Every step consumes at least one byte, so the length is enough fuel. *)
Fixpoint utf8_valid_go (fuel : nat) (s : bytes) : bool :=
  match fuel, s with
  | _, [] => true
  | O, _ => false
  | S fuel, _ =>
      match utf8_step s with
      | (true, n) => utf8_valid_go fuel (drop n s)
      | (false, _) => false
      end
  end.

(** [str::from_utf8(s).is_ok()] *)
Definition utf8_valid (s : bytes) : bool := utf8_valid_go (length s) s.

Definition REPLACEMENT : bytes := [239; 191; 189].

Fixpoint from_utf8_lossy_go (fuel : nat) (s : bytes) : bytes :=
  match fuel, s with
  | _, [] => []
  | O, _ => []
  | S fuel, _ =>
      match utf8_step s with
      | (true, n) => take n s ++ from_utf8_lossy_go fuel (drop n s)
      | (false, n) => REPLACEMENT ++ from_utf8_lossy_go fuel (drop n s)
      end
  end.

(** [String::from_utf8_lossy] *)
Definition from_utf8_lossy (s : bytes) : bytes := from_utf8_lossy_go (length s) s.

#[global] Arguments digit_value : simpl never.
#[global] Arguments show_dec : simpl never.
#[global] Arguments show_hex : simpl never.
#[global] Arguments from_str_radix : simpl never.
#[global] Arguments lit : simpl never.
#[global] Arguments trim : simpl never.
#[global] Arguments utf8_valid : simpl never.
#[global] Arguments from_utf8_lossy : simpl never.

(** ** Lemmas *)

Lemma eqb_bytes_spec a b : eqb_bytes a b = true ↔ a = b.
Proof. apply bool_decide_eq_true. Qed.

Lemma starts_with_spec p s : starts_with p s = true ↔ ∃ r, s = p ++ r.
Proof.
  revert s; induction p as [|x p IH]; intros s; cbn; [naive_solver|].
  destruct s as [|y s]; [naive_solver|].
  rewrite andb_true_iff, Z.eqb_eq, IH. naive_solver.
Qed.

Lemma ends_with_spec p s : ends_with p s = true ↔ ∃ r, s = r ++ p.
Proof.
  unfold ends_with. rewrite starts_with_spec. split; intros [r Hr].
  - exists (rev r). rewrite <-(rev_involutive s), Hr, rev_app_distr, rev_involutive. done.
  - subst. exists (rev r). by rewrite rev_app_distr.
Qed.

Lemma strip_prefix_Some p s r : strip_prefix p s = Some r ↔ s = p ++ r.
Proof.
  revert s; induction p as [|x p IH]; intros s; cbn; [naive_solver|].
  destruct s as [|y s]; [naive_solver|].
  destruct (Z.eqb_spec x y); [rewrite IH|]; naive_solver.
Qed.

Lemma strip_prefix_app p r : strip_prefix p (p ++ r) = Some r.
Proof. by apply strip_prefix_Some. Qed.

Lemma strip_suffix_Some p s r : strip_suffix p s = Some r ↔ s = r ++ p.
Proof.
  unfold strip_suffix. rewrite fmap_Some. split.
  - intros (x & Hx%strip_prefix_Some & ->).
    by rewrite <-(rev_involutive s), Hx, rev_app_distr, rev_involutive.
  - intros ->. exists (rev r). rewrite rev_app_distr, strip_prefix_app, rev_involutive. done.
Qed.

Lemma contains_spec c s : contains c s = true ↔ c ∈ s.
Proof.
  unfold contains. rewrite existsb_exists, list_elem_of_In. split.
  - intros (x & Hx & ->%Z.eqb_eq). done.
  - intros H. exists c. by rewrite Z.eqb_refl.
Qed.

Lemma contains_false c s : contains c s = false ↔ c ∉ s.
Proof. rewrite <-not_true_iff_false, contains_spec. done. Qed.

Lemma split_once_Some c s a b :
  split_once c s = Some (a, b) ↔ s = a ++ c :: b ∧ c ∉ a.
Proof.
  revert a b; induction s as [|x s IH]; intros a b; cbn.
  - split; [done|]. intros [H _]. destruct a; discriminate H.
  - destruct (Z.eqb_spec x c) as [->|Hne].
    + split; [intros [= <- <-]; set_solver|].
      intros [H Hn]. destruct a as [|y a]; [naive_solver|]. set_solver.
    + split.
      * destruct (split_once c s) as [[a' b']|]; [|done].
        intros [= <- <-]. destruct (proj1 (IH a' b') eq_refl) as [-> ?]. set_solver.
      * intros [H Hn]. destruct a as [|y a]; [naive_solver|].
        simplify_eq/=. assert (split_once c (a ++ c :: b) = Some (a, b)) as ->; [|done].
        apply IH. set_solver.
Qed.

Lemma split_once_None c s : split_once c s = None ↔ c ∉ s.
Proof.
  split.
  - intros H Hin. apply list_elem_of_split in Hin as (l1 & l2 & ->).
    revert H. induction l1 as [|x l1 IH]; cbn; [by rewrite Z.eqb_refl|].
    destruct (x =? c); [done|]. destruct (split_once c (l1 ++ c :: l2)) as [[]|]; eauto; done.
  - intros H. destruct (split_once c s) as [[a b]|] eqn:E; [|done].
    apply split_once_Some in E as [-> _]. set_solver.
Qed.

Lemma rsplit_once_None c s : rsplit_once c s = None ↔ c ∉ s.
Proof.
  induction s as [|x s IH]; cbn; [set_solver|].
  destruct (rsplit_once c s) as [[a b]|] eqn:E.
  - split; [done|]. intros H. exfalso. apply H. destruct (decide (c ∈ s)); [set_solver|].
    by apply IH in n.
  - destruct (Z.eqb_spec x c); set_solver.
Qed.

Lemma rsplit_once_Some c s a b :
  rsplit_once c s = Some (a, b) ↔ s = a ++ c :: b ∧ c ∉ b.
Proof.
  revert a b; induction s as [|x s IH]; intros a b; cbn.
  - split; [done|]. intros [H _]. destruct a; discriminate H.
  - destruct (rsplit_once c s) as [[a' b']|] eqn:E.
    + destruct (proj1 (IH a' b') eq_refl) as [-> Hb].
      split; [intros [= <- <-]; done|].
      intros [H Hn]. destruct a as [|y a]; [set_solver|].
      simplify_eq/=. assert (Some (a', b') = Some (a, b)) as [= -> ->]; [|done].
      by apply IH.
    + apply rsplit_once_None in E. destruct (Z.eqb_spec x c) as [->|Hne].
      * split; [intros [= <- <-]; done|].
        intros [H Hn]. destruct a as [|y a]; [naive_solver|]. set_solver.
      * split; [done|]. intros [H Hn]. destruct a as [|y a]; [naive_solver|]. set_solver.
Qed.

Lemma join_split_by p c s :
  (∀ x, p x = true ↔ x = c) → join [c] (split_by p s) = s.
Proof.
  intros Hp. induction s as [|x s IH]; cbn; [done|].
  assert (split_by p s ≠ []) as Hne.
  { destruct s; cbn; [done|]. destruct (p z); [done|]. by destruct (split_by p s). }
  destruct (p x) eqn:Hx.
  - apply Hp in Hx as ->. cbn. destruct (split_by p s) as [|h t]; [done|]. by rewrite IH.
  - destruct (split_by p s) as [|h t]; [done|]. cbn in *. destruct t; cbn; by rewrite <-IH.
Qed.

Lemma split_by_nonempty p s : split_by p s ≠ [].
Proof. destruct s; cbn; [done|]. destruct (p z); [done|]. by destruct (split_by p s). Qed.

Lemma split_by_pieces p s piece : piece ∈ split_by p s → Forall (λ x, p x = false) piece.
Proof.
  revert piece; induction s as [|x s IH]; intros piece; cbn.
  - rewrite list_elem_of_singleton. intros ->; constructor.
  - destruct (p x) eqn:Hx.
    + rewrite elem_of_cons. intros [->|H]; [constructor|eauto].
    + pose proof (split_by_nonempty p s). destruct (split_by p s) as [|h t]; [done|].
      rewrite elem_of_cons. intros [->|H'].
      * constructor; [done|]. apply IH. set_solver.
      * apply IH. set_solver.
Qed.

Lemma to_ascii_lowercase_app a b :
  to_ascii_lowercase (a ++ b) = to_ascii_lowercase a ++ to_ascii_lowercase b.
Proof. apply map_app. Qed.

Lemma to_ascii_lower_idem c : to_ascii_lower (to_ascii_lower c) = to_ascii_lower c.
Proof.
  unfold to_ascii_lower, is_ascii_upper.
  destruct ((65 <=? c) && (c <=? 90)) eqn:E; [|by rewrite E].
  bool_prop. case_match; bool_prop; lia.
Qed.

Lemma to_ascii_lowercase_idem s :
  to_ascii_lowercase (to_ascii_lowercase s) = to_ascii_lowercase s.
Proof.
  unfold to_ascii_lowercase. rewrite map_map. apply map_ext. apply to_ascii_lower_idem.
Qed.

Lemma length_to_ascii_lowercase s : length (to_ascii_lowercase s) = length s.
Proof. apply length_map. Qed.

Lemma eq_ignore_ascii_case_spec a b :
  eq_ignore_ascii_case a b = true ↔ to_ascii_lowercase a = to_ascii_lowercase b.
Proof. apply bool_decide_eq_true. Qed.

(** Lower-casing neither creates nor removes a byte that is not a letter. *)
Lemma to_ascii_lower_eq c x :
  (c < 65 ∨ (90 < c ∧ c < 97) ∨ 122 < c) → to_ascii_lower x = c ↔ x = c.
Proof. unfold to_ascii_lower, is_ascii_upper. intros. case_match; bool_prop; lia. Qed.

Lemma elem_of_lowercase c s :
  (c < 65 ∨ (90 < c ∧ c < 97) ∨ 122 < c) → c ∈ to_ascii_lowercase s ↔ c ∈ s.
Proof.
  intros Hc. unfold to_ascii_lowercase. rewrite list_elem_of_fmap. split.
  - intros (x & Hx & Hin). symmetry in Hx. apply (to_ascii_lower_eq c x Hc) in Hx as ->. done.
  - intros H. exists c. split; [|done]. symmetry. by apply to_ascii_lower_eq.
Qed.

(** *** Decimal text round trips *)

Lemma dec_digits_digits fuel n acc :
  0 ≤ n → Forall (λ c, is_digit c = true) acc →
  Forall (λ c, is_digit c = true) (dec_digits fuel n acc).
Proof.
  revert n acc; induction fuel as [|fuel IH]; intros n acc Hn Hacc; cbn; [done|].
  assert (is_digit (48 + n mod 10) = true) as Hd.
  { unfold is_digit. pose proof (Z.mod_pos_bound n 10). lia. }
  destruct (n <? 10); [by constructor|].
  apply IH; [apply Z.div_pos; lia|by constructor].
Qed.

Lemma show_dec_digits n : 0 ≤ n → Forall (λ c, is_digit c = true) (show_dec n).
Proof. intros. apply dec_digits_digits; [done|constructor]. Qed.

Lemma dec_digits_nonempty fuel n acc : acc ≠ [] → dec_digits fuel n acc ≠ [].
Proof.
  revert n acc; induction fuel as [|fuel IH]; intros n acc H; cbn; [done|].
  destruct (n <? 10); [done|]. by apply IH.
Qed.

Lemma show_dec_nonempty n : show_dec n ≠ [].
Proof. unfold show_dec. cbn. destruct (n <? 10); [done|]. by apply dec_digits_nonempty. Qed.

Lemma digit_value_dec c : is_digit c = true → digit_value 10 c = Some (c - 48).
Proof.
  intros H. unfold digit_value. rewrite H. unfold is_digit in H. bool_prop.
  case_match; [done|]. lia.
Qed.

(** The digits of [n], read after any prefix value that is already [0]. *)
Lemma parse_dec_digits fuel max n acc :
  0 ≤ n ≤ max → n < 10 ^ Z.of_nat fuel →
  Forall (λ c, is_digit c = true) acc →
  parse_digits 10 max 0 (dec_digits fuel n acc) = parse_digits 10 max n acc.
Proof.
  revert n acc; induction fuel as [|fuel IH]; intros n acc Hn Hf Hacc.
  { cbn in *. assert (n = 0) as -> by lia. done. }
  cbn [dec_digits]. assert (is_digit (48 + n mod 10) = true) as Hd.
  { unfold is_digit. pose proof (Z.mod_pos_bound n 10). lia. }
  destruct (n <? 10) eqn:Hlt.
  - cbn [parse_digits]. rewrite digit_value_dec by done.
    rewrite Z.mod_small by lia.
    replace (0 * 10 + (48 + n - 48)) with n by lia.
    replace (n <=? max) with true by lia. done.
  - assert (0 ≤ n / 10 ≤ n) as Hdiv.
    { split; [apply Z.div_pos; lia|]. apply Z.div_le_upper_bound; lia. }
    rewrite IH; [|lia| |by constructor].
    + cbn [parse_digits]. rewrite digit_value_dec by done.
      pose proof (Z.div_mod n 10).
      replace (n / 10 * 10 + (48 + n mod 10 - 48)) with n by lia.
      replace (n <=? max) with true by lia. done.
    + replace (Z.of_nat (S fuel)) with (1 + Z.of_nat fuel) in Hf by lia.
      rewrite Z.pow_add_r in Hf by lia. apply Z.div_lt_upper_bound; lia.
Qed.

Lemma log2_fuel n : 0 ≤ n → n < 10 ^ Z.of_nat (S (Z.to_nat (Z.log2 n))).
Proof.
  intros Hn. destruct (decide (n = 0)) as [->|]; [done|].
  destruct (Z.log2_spec n) as [_ H]; [lia|].
  pose proof (Z.log2_nonneg n).
  eapply Z.lt_le_trans; [exact H|].
  replace (Z.of_nat (S (Z.to_nat (Z.log2 n)))) with (Z.succ (Z.log2 n)) by lia.
  apply Z.pow_le_mono_l. lia.
Qed.

Lemma parse_show_dec max n : 0 ≤ n ≤ max → parse_digits 10 max 0 (show_dec n) = Some n.
Proof.
  intros Hn. unfold show_dec.
  rewrite parse_dec_digits; [done|done|apply log2_fuel; lia|constructor].
Qed.

(** [n.to_string().parse::<uN>() == Ok(n)] *)
Lemma from_str_show_dec max n :
  0 ≤ n ≤ max → from_str_radix 10 max (show_dec n) = Some n.
Proof.
  intros Hn. pose proof (parse_show_dec max n Hn) as Hp.
  pose proof (show_dec_digits n ltac:(lia)) as Hd.
  pose proof (show_dec_nonempty n) as Hne.
  destruct (show_dec n) as [|c s] eqn:E; [done|]. unfold from_str_radix.
  apply Forall_cons in Hd as [Hc _]. unfold is_digit in Hc.
  destruct (Z.eqb_spec c 43); [lia|]. done.
Qed.

Lemma digit_value_hex d : 0 ≤ d < 16 → digit_value 16 (hex_digit d) = Some d.
Proof.
  intros Hd. unfold hex_digit, digit_value, is_digit. destruct (Z.ltb_spec d 10).
  - replace ((48 <=? 48 + d) && (48 + d <=? 57)) with true by lia.
    replace (48 + d - 48 <? 16) with true by lia. f_equal. lia.
  - replace ((48 <=? 87 + d) && (87 + d <=? 57)) with false by lia.
    replace ((97 <=? 87 + d) && (87 + d <=? 122)) with true by lia.
    replace (87 + d - 87 <? 16) with true by lia. f_equal. lia.
Qed.

Lemma parse_hex_digits fuel max n acc :
  0 ≤ n ≤ max → n < 16 ^ Z.of_nat fuel →
  parse_digits 16 max 0 (hex_digits fuel n acc) = parse_digits 16 max n acc.
Proof.
  revert n acc; induction fuel as [|fuel IH]; intros n acc Hn Hf.
  { cbn in *. assert (n = 0) as -> by lia. done. }
  cbn [hex_digits]. pose proof (Z.mod_pos_bound n 16 ltac:(lia)) as Hm.
  destruct (Z.ltb_spec n 16) as [Hlt|Hge].
  - cbn [parse_digits]. rewrite digit_value_hex by done. rewrite Z.mod_small by lia.
    replace (0 * 16 + n) with n by lia. replace (n <=? max) with true by lia. done.
  - assert (0 ≤ n / 16 ≤ n) as Hdiv.
    { split; [apply Z.div_pos; lia|]. apply Z.div_le_upper_bound; lia. }
    rewrite IH; [|lia|].
    + cbn [parse_digits]. rewrite digit_value_hex by done. pose proof (Z.div_mod n 16).
      replace (n / 16 * 16 + n mod 16) with n by lia. replace (n <=? max) with true by lia. done.
    + replace (Z.of_nat (S fuel)) with (1 + Z.of_nat fuel) in Hf by lia.
      rewrite Z.pow_add_r in Hf by lia. apply Z.div_lt_upper_bound; lia.
Qed.

(** Hexadecimal digits: lower-case letters and decimal digits. *)
Definition is_hex (c : byte) : bool := is_digit c || ((97 <=? c) && (c <=? 102)).

Lemma hex_digits_hex fuel n acc :
  0 ≤ n → Forall (λ c, is_hex c = true) acc → Forall (λ c, is_hex c = true) (hex_digits fuel n acc).
Proof.
  revert n acc; induction fuel as [|fuel IH]; intros n acc Hn Hacc; cbn; [done|].
  assert (is_hex (hex_digit (n mod 16)) = true) as Hd.
  { unfold is_hex, hex_digit, is_digit. pose proof (Z.mod_pos_bound n 16). case_match; lia. }
  case_match; [by constructor|]. apply IH; [apply Z.div_pos; lia|by constructor].
Qed.

Lemma hex_digits_nonempty fuel n acc : acc ≠ [] → hex_digits fuel n acc ≠ [].
Proof.
  revert n acc; induction fuel as [|fuel IH]; intros n acc H; cbn; [done|]. case_match; [done|]. by apply IH.
Qed.

Lemma show_hex_facts n : 0 ≤ n → show_hex n ≠ [] ∧ Forall (λ c, is_hex c = true) (show_hex n).
Proof.
  intros Hn. unfold show_hex. split; [|apply hex_digits_hex; [done|constructor]].
  cbn. case_match; [done|]. by apply hex_digits_nonempty.
Qed.

(** [u64::from_str_radix(&format!("{n:x}"), 16) == Ok(n)] *)
Lemma from_str_show_hex max n : 0 ≤ n ≤ max → from_str_radix 16 max (show_hex n) = Some n.
Proof.
  intros Hn. destruct (show_hex_facts n ltac:(lia)) as [Hne Hh].
  assert (parse_digits 16 max 0 (show_hex n) = Some n) as Hp.
  { unfold show_hex. rewrite parse_hex_digits; [done|done|]. pose proof (log2_fuel n ltac:(lia)) as Hl.
    eapply Z.lt_le_trans; [exact Hl|]. apply Z.pow_le_mono_l. lia. }
  destruct (show_hex n) as [|c s] eqn:E; [done|]. unfold from_str_radix.
  apply Forall_cons in Hh as [Hc _]. unfold is_hex, is_digit in Hc. destruct (Z.eqb_spec c 43); [lia|]. done.
Qed.

Lemma parse_digits_bound radix max acc s n :
  0 ≤ acc ≤ max → 0 ≤ radix → parse_digits radix max acc s = Some n → 0 ≤ n ≤ max.
Proof.
  intros Ha Hr. revert acc Ha; induction s as [|c s IH]; intros acc Ha H; cbn in H; [naive_solver|].
  destruct (digit_value radix c) as [d|] eqn:Hd; [|done].
  destruct (acc * radix + d <=? max) eqn:Hle; [|done].
  eapply IH; [|exact H]. unfold digit_value, is_digit in Hd.
  repeat case_match; simplify_eq; bool_prop; nia.
Qed.

Lemma from_str_radix_bound radix max s n :
  0 ≤ radix → 0 ≤ max → from_str_radix radix max s = Some n → 0 ≤ n ≤ max.
Proof.
  unfold from_str_radix. intros. repeat case_match; try done;
    (eapply parse_digits_bound; [| |eassumption]; lia).
Qed.

(** *** UTF-8 *)

Lemma utf8_lossy_valid s : utf8_valid s = true → from_utf8_lossy s = s.
Proof.
  unfold utf8_valid, from_utf8_lossy. generalize (length s) as fuel.
  intros fuel; revert s; induction fuel as [|fuel IH]; intros s; destruct s as [|a s]; cbn [utf8_valid_go from_utf8_lossy_go]; try done.
  destruct (utf8_step (a :: s)) as [[] n]; [|done].
  intros H. rewrite IH by done. by rewrite take_drop.
Qed.

Lemma split_char_join c l :
  l ≠ [] → Forall (λ s, c ∉ s) l → split_char c (join [c] l) = l.
Proof.
  unfold split_char. assert (∀ s t, c ∉ s → split_by (Z.eqb c) (s ++ c :: t) = s :: split_by (Z.eqb c) t) as Hcons.
  { intros s t. induction s as [|x s IH]; cbn; [by rewrite Z.eqb_refl|].
    rewrite not_elem_of_cons. intros [Hne Hs]. destruct (Z.eqb_spec c x); [done|]. by rewrite IH. }
  assert (∀ s, c ∉ s → split_by (Z.eqb c) s = [s]) as Hone.
  { intros s. induction s as [|x s IH]; cbn; [done|].
    rewrite not_elem_of_cons. intros [Hne Hs]. destruct (Z.eqb_spec c x); [done|]. by rewrite IH. }
  intros Hne. induction 1 as [|x l Hx Hl IH]; [done|]. destruct l as [|y l]; cbn; [by apply Hone|].
  rewrite Hcons by done. f_equal. by apply IH.
Qed.

(** A well-formed first character stays the first character when more input
    follows, and a step always makes progress. *)
Lemma utf8_step_app s t n :
  s ≠ [] → utf8_step s = (true, n) →
  utf8_step (s ++ t) = (true, n) ∧ (1 ≤ n ≤ length s)%nat.
Proof.
  intros Hs H. destruct s as [|a s]; [done|]. cbn in H |- *.
  destruct (a <? 128); [simplify_eq; split; [done|lia]|].
  destruct ((194 <=? a) && (a <=? 223)).
  { destruct s as [|b s]; [done|]. cbn. destruct (is_cont b); [|done]. simplify_eq. split; [done|lia]. }
  destruct ((224 <=? a) && (a <=? 239)).
  { destruct s as [|b s]; [done|]. cbn in *. destruct (utf8_second_ok a b); [|done].
    destruct s as [|c s]; [done|]. cbn. destruct (is_cont c); [|done]. simplify_eq. split; [done|lia]. }
  destruct ((240 <=? a) && (a <=? 244)); [|done].
  destruct s as [|b s]; [done|]. cbn in *. destruct (utf8_second_ok a b); [|done].
  destruct s as [|c s]; [done|]. cbn in *. destruct (is_cont c); [|done].
  destruct s as [|d s]; [done|]. cbn. destruct (is_cont d); [|done]. simplify_eq. split; [done|lia].
Qed.

Lemma utf8_step_progress s ok n : s ≠ [] → utf8_step s = (ok, n) → (1 ≤ n)%nat.
Proof.
  intros Hs H. destruct s as [|a s]; [done|]. cbn in H. repeat case_match; simplify_eq; lia.
Qed.

Lemma utf8_valid_go_fuel fuel fuel' s :
  (length s ≤ fuel)%nat → (length s ≤ fuel')%nat → utf8_valid_go fuel s = utf8_valid_go fuel' s.
Proof.
  revert fuel' s; induction fuel as [|fuel IH]; intros fuel' s H H'.
  { destruct s; [by destruct fuel'|cbn in H; lia]. }
  destruct s as [|a s]; [by destruct fuel'|]. destruct fuel' as [|fuel']; [cbn in H'; lia|].
  cbn [utf8_valid_go]. destruct (utf8_step (a :: s)) as [ok n] eqn:E. destruct ok; [|done].
  pose proof (utf8_step_progress (a :: s) true n ltac:(done) E). apply IH; rewrite length_drop; cbn in *; lia.
Qed.

Lemma utf8_valid_step s :
  s ≠ [] → utf8_valid s = match utf8_step s with (true, n) => utf8_valid (drop n s) | (false, _) => false end.
Proof.
  intros Hs. destruct s as [|a s]; [done|]. unfold utf8_valid at 1. cbn [length utf8_valid_go].
  destruct (utf8_step (a :: s)) as [ok n] eqn:E. destruct ok; [|done].
  pose proof (utf8_step_progress (a :: s) true n ltac:(done) E).
  apply utf8_valid_go_fuel; rewrite length_drop; cbn; lia.
Qed.

(** Induction on well-formed text, one character at a time. *)
Lemma utf8_ind (P : bytes → Prop) :
  P [] → (∀ c r, c ≠ [] → utf8_step (c ++ r) = (true, length c) → utf8_valid r = true → P r → P (c ++ r)) →
  ∀ s, utf8_valid s = true → P s.
Proof.
  intros Hnil Hcons s. induction s as [s IH] using (well_founded_induction (well_founded_ltof _ (@length Z))). intros Hv.
  destruct s as [|a s]; [done|]. rewrite utf8_valid_step in Hv by done.
  destruct (utf8_step (a :: s)) as [ok n] eqn:E. destruct ok; [|done].
  destruct (utf8_step_app (a :: s) [] n ltac:(done) E) as [_ Hn].
  rewrite <-(take_drop n (a :: s)). apply Hcons.
  - intros E0. apply (f_equal length) in E0. rewrite length_take in E0. cbn in E0, Hn. lia.
  - rewrite take_drop, E, length_take. do 2 f_equal. lia.
  - done.
  - apply IH; [|done]. unfold ltof. rewrite length_drop. cbn in *. lia.
Qed.

Lemma utf8_valid_app a b : utf8_valid a = true → utf8_valid (a ++ b) = utf8_valid b.
Proof.
  revert a. apply utf8_ind; [done|]. intros c r Hc Hstep Hr IH.
  rewrite <-app_assoc, utf8_valid_step by by destruct c.
  assert (c ++ r ≠ []) as Hne by by destruct c.
  destruct (utf8_step_app (c ++ r) b _ Hne Hstep) as [H _]. rewrite <-app_assoc in H. rewrite H.
  by rewrite drop_app_length.
Qed.

Lemma utf8_second_ascii a b : b < 128 → utf8_second_ok a b = false.
Proof. intros H. unfold utf8_second_ok, is_cont. repeat case_match; bool_prop; lia. Qed.

(** An ASCII byte is always a character of its own. *)
Lemma utf8_step_ascii a c b n :
  a ≠ [] → c < 128 → utf8_step (a ++ c :: b) = (true, n) → utf8_step a = (true, n) ∧ (n ≤ length a)%nat.
Proof.
  intros Ha Hc. destruct a as [|x a]; [done|]. cbn.
  assert (is_cont c = false) as Hcont by (unfold is_cont; lia).
  destruct (x <? 128); [intros [= <-]; split; [done|lia]|].
  destruct ((194 <=? x) && (x <=? 223)).
  { destruct a as [|y a]; cbn; [by rewrite Hcont|]. destruct (is_cont y); [|done]. intros [= <-]. split; [done|lia]. }
  destruct ((224 <=? x) && (x <=? 239)).
  { destruct a as [|y a]; cbn; [by rewrite utf8_second_ascii|]. destruct (utf8_second_ok x y); [|done].
    destruct a as [|z a]; cbn; [by rewrite Hcont|]. destruct (is_cont z); [|done]. intros [= <-]. split; [done|lia]. }
  destruct ((240 <=? x) && (x <=? 244)); [|done].
  destruct a as [|y a]; cbn; [by rewrite utf8_second_ascii|]. destruct (utf8_second_ok x y); [|done].
  destruct a as [|z a]; cbn; [by rewrite Hcont|]. destruct (is_cont z); [|done].
  destruct a as [|w a]; cbn; [by rewrite Hcont|]. destruct (is_cont w); [|done]. intros [= <-]. split; [done|lia].
Qed.

Lemma utf8_valid_ascii_cons c b : c < 128 → utf8_valid (c :: b) = utf8_valid b.
Proof.
  intros Hc. rewrite utf8_valid_step by done. cbn. replace (c <? 128) with true by lia. done.
Qed.

Lemma utf8_valid_ascii_split a c b :
  c < 128 → utf8_valid (a ++ c :: b) = true ↔ utf8_valid a = true ∧ utf8_valid b = true.
Proof.
  intros Hc. split.
  - induction a as [a IH] using (well_founded_induction (well_founded_ltof _ (@length Z))). destruct a as [|x a].
    { cbn [app]. rewrite utf8_valid_ascii_cons by done. done. }
    rewrite utf8_valid_step by done. destruct (utf8_step ((x :: a) ++ c :: b)) as [ok n] eqn:E.
    destruct ok; [|done]. destruct (utf8_step_ascii (x :: a) c b n ltac:(done) Hc E) as [Ea Hn].
    pose proof (utf8_step_progress (x :: a) true n ltac:(done) Ea).
    rewrite drop_app_le by done. intros Hv.
    destruct (IH (drop n (x :: a))) as [Hd Hb]; [|done|].
    { unfold ltof. rewrite length_drop. cbn in *. lia. }
    split; [|done]. rewrite utf8_valid_step, Ea by done. done.
  - intros [Ha Hb]. rewrite utf8_valid_app by done. by rewrite utf8_valid_ascii_cons.
Qed.

(** *** Splitting at bytes of a class *)

Lemma split_by_app p a c b :
  Forall (λ x, p x = false) a → p c = true → split_by p (a ++ c :: b) = a :: split_by p b.
Proof.
  intros Ha Hc. induction Ha as [|x a Hx Ha IH]; cbn; [by rewrite Hc|]. by rewrite Hx, IH.
Qed.

Lemma split_by_none p a : Forall (λ x, p x = false) a → split_by p a = [a].
Proof. induction 1 as [|x a Hx Ha IH]; cbn; [done|]. by rewrite Hx, IH. Qed.

(** Every text is one piece, or a piece, a separator and a rest. *)
Lemma split_by_cases p s :
  (Forall (λ x, p x = false) s ∧ split_by p s = [s]) ∨
  ∃ a c b, s = a ++ c :: b ∧ Forall (λ x, p x = false) a ∧ p c = true ∧ split_by p s = a :: split_by p b.
Proof.
  induction s as [|x s IH]; [left; split; [constructor|done]|].
  destruct (p x) eqn:Hx.
  - right. exists [], x, s. cbn. rewrite Hx. split_and!; [done|constructor|done|done].
  - destruct IH as [[Hall Hs]|(a & c & b & -> & Ha & Hc & Hs)].
    + left. split; [by constructor|]. cbn. by rewrite Hx, Hs.
    + right. exists (x :: a), c, b. split_and!; [done|by constructor|done|]. cbn. by rewrite Hx, Hs.
Qed.

Lemma split_by_snoc p s c : p c = true → split_by p (s ++ [c]) = split_by p s ++ [[]].
Proof.
  intros Hc. induction s as [|x s IH]; cbn; [by rewrite Hc|].
  destruct (p x); [by rewrite IH|]. rewrite IH.
  pose proof (split_by_nonempty p s). by destruct (split_by p s).
Qed.

Lemma split_by_utf8 p s piece :
  (∀ x, p x = true → x < 128) → utf8_valid s = true → piece ∈ split_by p s → utf8_valid piece = true.
Proof.
  intros Hp. induction s as [s IH] using (well_founded_induction (well_founded_ltof _ (@length Z))). intros Hv.
  destruct (split_by_cases p s) as [[_ ->]|(a & c & b & -> & _ & Hc & ->)].
  - rewrite list_elem_of_singleton. by intros ->.
  - apply utf8_valid_ascii_split in Hv as [Ha Hb]; [|by apply Hp].
    rewrite elem_of_cons. intros [->|Hin]; [done|].
    apply (IH b); [|done|done]. unfold ltof. rewrite length_app. cbn. lia.
Qed.

Lemma ascii_whitespace_ascii x : is_ascii_whitespace x = true → x < 128.
Proof. unfold is_ascii_whitespace. lia. Qed.

(** A token: non-empty and free of ASCII white space. *)
Definition token (s : bytes) : Prop := s ≠ [] ∧ Forall (λ x, is_ascii_whitespace x = false) s.

Lemma split_ws_tokens s : Forall token (split_ascii_whitespace s).
Proof.
  unfold split_ascii_whitespace. rewrite Forall_forall. intros t Ht.
  apply list_elem_of_In, filter_In in Ht as [Hin Hne]. bool_prop.
  split; [done|]. eapply split_by_pieces. by apply list_elem_of_In.
Qed.

Lemma split_ws_utf8 s : utf8_valid s = true → Forall (λ t, utf8_valid t = true) (split_ascii_whitespace s).
Proof.
  intros Hv. rewrite Forall_forall. intros t Ht. apply list_elem_of_In, filter_In in Ht as [Hin _].
  eapply split_by_utf8; [apply ascii_whitespace_ascii|exact Hv|by apply list_elem_of_In].
Qed.

Lemma split_ws_cons t c s :
  token t → is_ascii_whitespace c = true →
  split_ascii_whitespace (t ++ c :: s) = t :: split_ascii_whitespace s.
Proof.
  intros [Hne Ht] Hc. unfold split_ascii_whitespace. rewrite split_by_app by done. cbn.
  by rewrite bool_decide_false.
Qed.

Lemma split_ws_one t : token t → split_ascii_whitespace t = [t].
Proof.
  intros [Hne Ht]. unfold split_ascii_whitespace. rewrite split_by_none by done. cbn. by rewrite bool_decide_false.
Qed.

Lemma split_ws_snoc s c : is_ascii_whitespace c = true → split_ascii_whitespace (s ++ [c]) = split_ascii_whitespace s.
Proof.
  intros Hc. unfold split_ascii_whitespace. rewrite split_by_snoc by done. rewrite List.filter_app. cbn.
  by rewrite app_nil_r.
Qed.

Lemma trim_end_char_spec c s : ∃ k, s = trim_end_char c s ++ repeat c k.
Proof.
  unfold trim_end_char. assert (∀ r, ∃ k, r = repeat c k ++ trim_start_char c r) as Hgen.
  { induction r as [|x r [k IH]]; [by exists 0%nat|]. cbn. destruct (Z.eqb_spec x c) as [->|].
    - exists (S k). cbn. by f_equal.
    - by exists 0%nat. }
  destruct (Hgen (rev s)) as [k Hk]. exists k.
  rewrite <-(rev_involutive s), Hk at 1. rewrite rev_app_distr. f_equal.
  clear. induction k as [|k IH]; [done|]. cbn. rewrite IH.
  clear. induction k as [|k IH]; cbn; [done|]. by f_equal.
Qed.

Lemma trim_start_char_idem c s : trim_start_char c (trim_start_char c s) = trim_start_char c s.
Proof. induction s as [|x s IH]; cbn; [done|]. destruct (x =? c) eqn:E; [done|]. cbn. by rewrite E. Qed.
Lemma trim_end_char_idem c s : trim_end_char c (trim_end_char c s) = trim_end_char c s.
Proof. unfold trim_end_char. by rewrite rev_involutive, trim_start_char_idem. Qed.

Lemma split_ws_trim_end s c :
  is_ascii_whitespace c = true → split_ascii_whitespace (trim_end_char c s) = split_ascii_whitespace s.
Proof.
  intros Hc. destruct (trim_end_char_spec c s) as [k Hk]. rewrite Hk at 2.
  generalize (trim_end_char c s) as t. intros t. clear Hk. revert t; induction k as [|k IH]; intros t; cbn.
  - by rewrite app_nil_r.
  - rewrite <-(split_ws_snoc t c Hc), IH, <-app_assoc. done.
Qed.

Lemma find_char_Some c s i : find_char c s = Some i → ∃ a b, s = a ++ c :: b ∧ c ∉ a ∧ i = length a.
Proof.
  revert i; induction s as [|x s IH]; intros i; cbn; [done|].
  destruct (Z.eqb_spec x c) as [->|].
  - intros [= <-]. exists [], s. split_and!; [done|set_solver|done].
  - intros (j & Hj & ->)%fmap_Some. destruct (IH j Hj) as (a & b & -> & Ha & ->).
    exists (x :: a), b. split_and!; [done|set_solver|done].
Qed.

(** *** Trimming *)

Lemma trim_start_suffix s : ∃ p, s = p ++ trim_start s.
Proof.
  induction s as [s IH] using (well_founded_induction (well_founded_ltof _ (@length Z))). unfold ltof in IH.
  destruct s as [|a s]; [by exists []|]. cbn. destruct (ws1 a).
  { destruct (IH s) as [p Hp]; [cbn; lia|]. exists (a :: p). cbn. by f_equal. }
  destruct s as [|b s]; [by exists []|]. destruct (ws2 a b).
  { destruct (IH s) as [p Hp]; [cbn; lia|]. exists (a :: b :: p). cbn. by do 2 f_equal. }
  destruct s as [|c s]; [by exists []|]. destruct (ws3 a b c); [|by exists []].
  destruct (IH s) as [p Hp]; [cbn; lia|]. exists (a :: b :: c :: p). cbn. by do 3 f_equal.
Qed.

Lemma trim_start_rev_suffix s : ∃ p, s = p ++ trim_start_rev s.
Proof.
  induction s as [s IH] using (well_founded_induction (well_founded_ltof _ (@length Z))). unfold ltof in IH.
  destruct s as [|a s]; [by exists []|]. cbn. destruct (ws1 a).
  { destruct (IH s) as [p Hp]; [cbn; lia|]. exists (a :: p). cbn. by f_equal. }
  destruct s as [|b s]; [by exists []|]. destruct (ws2 b a).
  { destruct (IH s) as [p Hp]; [cbn; lia|]. exists (a :: b :: p). cbn. by do 2 f_equal. }
  destruct s as [|c s]; [by exists []|]. destruct (ws3 c b a); [|by exists []].
  destruct (IH s) as [p Hp]; [cbn; lia|]. exists (a :: b :: c :: p). cbn. by do 3 f_equal.
Qed.

Lemma trim_infix s : ∃ p q, s = p ++ trim s ++ q.
Proof.
  destruct (trim_start_suffix s) as [p Hp]. destruct (trim_start_rev_suffix (rev (trim_start s))) as [q Hq].
  exists p, (rev q). unfold trim, trim_end. rewrite <-rev_app_distr, <-Hq, rev_involutive. done.
Qed.

Lemma trim_not_elem c s : c ∉ s → c ∉ trim s.
Proof. destruct (trim_infix s) as (p & q & Hs). rewrite Hs at 1. rewrite !elem_of_app. tauto. Qed.

(** Text that starts and ends with printable ASCII is left alone. *)
Definition graphic (c : byte) : bool := (33 <=? c) && (c <=? 126).

Lemma trim_start_graphic c s : graphic c = true → trim_start (c :: s) = c :: s.
Proof.
  unfold graphic. intros Hc. bool_prop. cbn. unfold ws1, ws2, ws3.
  repeat (case_match; bool_prop; try lia; try done).
Qed.

Lemma trim_start_rev_graphic c s : graphic c = true → trim_start_rev (c :: s) = c :: s.
Proof.
  unfold graphic. intros Hc. bool_prop. cbn.
  replace (ws1 c) with false by (unfold ws1; lia). destruct s as [|b s]; [done|].
  replace (ws2 b c) with false by (unfold ws2; lia). destruct s as [|a s]; [done|].
  replace (ws3 a b c) with false by (unfold ws3; lia). done.
Qed.

Lemma trim_graphic c s d t :
  graphic c = true → graphic d = true → c :: s = t ++ [d] → trim (c :: s) = c :: s.
Proof.
  intros Hc Hd Heq. unfold trim, trim_end. rewrite trim_start_graphic by done.
  rewrite Heq, rev_app_distr. cbn [rev app].
  rewrite trim_start_rev_graphic by done. cbn. by rewrite rev_involutive.
Qed.

Lemma is_digit_graphic c : is_digit c = true → graphic c = true.
Proof. unfold is_digit, graphic. lia. Qed.

(** ** Byte order *)

(** [Ord] of byte strings. *)
Fixpoint bytes_le (a b : bytes) : bool :=
  match a, b with
  | [], _ => true
  | _ :: _, [] => false
  | x :: a, y :: b => if x <? y then true else if y <? x then false else bytes_le a b
  end.

Lemma bytes_le_refl a : bytes_le a a = true.
Proof. induction a as [|x a IH]; cbn; [done|]. by rewrite Z.ltb_irrefl. Qed.
Lemma bytes_le_trans a b c : bytes_le a b = true → bytes_le b c = true → bytes_le a c = true.
Proof.
  revert b c. induction a as [|x a IH]; intros [|y b] [|z c]; cbn; try done.
  destruct (Z.ltb_spec x y), (Z.ltb_spec y x), (Z.ltb_spec y z), (Z.ltb_spec z y), (Z.ltb_spec x z), (Z.ltb_spec z x);
    try lia; try done. apply IH.
Qed.
Lemma bytes_le_antisym a b : bytes_le a b = true → bytes_le b a = true → a = b.
Proof.
  revert b. induction a as [|x a IH]; intros [|y b]; cbn; try done.
  destruct (Z.ltb_spec x y), (Z.ltb_spec y x); try lia; try done. intros. assert (x = y) as -> by lia. f_equal. by apply IH.
Qed.
Lemma bytes_le_total a b : bytes_le a b = true ∨ bytes_le b a = true.
Proof.
  revert b. induction a as [|x a IH]; intros [|y b]; cbn; auto.
  destruct (Z.ltb_spec x y), (Z.ltb_spec y x); auto; lia.
Qed.

(** The bytes [0, 1, ..., n - 1], for examples. *)
Definition seq_bytes (n : nat) : bytes := Z.of_nat <$> seq 0 n.
