(* ===== verification/Net.v ===== *)
(** * [std::net]: IP and socket addresses

    An IPv4 address is its four octets and an IPv6 address its eight 16-bit
    segments. [SocketAddrV6]'s flow label and scope id are not modelled: the
    program builds every address it formats with [SocketAddr::new], which sets
    both to zero. *)

From S2P Require Import Prelude RustStd.
Open Scope Z_scope.

Inductive IpAddr :=
| V4 (octets : list Z)
| V6 (segments : list Z).

Record SocketAddr := MkSocketAddr { sa_ip : IpAddr; sa_port : Z }.

#[global] Instance IpAddr_eq_dec : EqDecision IpAddr.
Proof. solve_decision. Defined.
#[global] Instance SocketAddr_eq_dec : EqDecision SocketAddr.
Proof. solve_decision. Defined.

Definition ip_wf (a : IpAddr) : Prop :=
  match a with
  | V4 o => length o = 4%nat ∧ Forall is_byte o
  | V6 s => length s = 8%nat ∧ Forall is_u16 s
  end.
Definition sa_wf (a : SocketAddr) : Prop := ip_wf (sa_ip a) ∧ is_u16 (sa_port a).

Definition is_v4 (a : IpAddr) : bool := match a with V4 _ => true | V6 _ => false end.
Definition is_ipv4 (a : SocketAddr) : bool := is_v4 (sa_ip a).

(** [Ipv6Addr::octets] *)
Definition v6_octets (s : list Z) : bytes := s ≫= u16_be.

(** [Ipv6Addr::to_ipv4_mapped]: [::ffff:a.b.c.d]. *)
Definition to_ipv4_mapped (s : list Z) : option (list Z) :=
  match s with
  | [s0; s1; s2; s3; s4; s5; s6; s7] =>
      if (s0 =? 0) && (s1 =? 0) && (s2 =? 0) && (s3 =? 0) && (s4 =? 0) && (s5 =? 65535)
      then Some (u16_be s6 ++ u16_be s7) else None
  | _ => None
  end.

(** [Ipv4Addr::to_ipv6_mapped] *)
Definition to_ipv6_mapped (o : list Z) : list Z :=
  match o with
  | [a; b; c; d] => [0; 0; 0; 0; 0; 65535; a * 256 + b; c * 256 + d]
  | _ => []
  end.

(** [IpAddr::to_canonical] *)
Definition to_canonical (a : IpAddr) : IpAddr :=
  match a with
  | V4 o => V4 o
  | V6 s => match to_ipv4_mapped s with Some o => V4 o | None => V6 s end
  end.

Definition is_loopback (a : IpAddr) : bool :=
  match a with
  | V4 o => match o with x :: _ => x =? 127 | [] => false end
  | V6 s => bool_decide (s = [0; 0; 0; 0; 0; 0; 0; 1])
  end.

Definition is_unspecified (a : IpAddr) : bool :=
  match a with
  | V4 o => bool_decide (o = [0; 0; 0; 0])
  | V6 s => bool_decide (s = [0; 0; 0; 0; 0; 0; 0; 0])
  end.

(** ** Display *)

Definition show_v4 (o : list Z) : bytes := join [DOT] (map show_dec o).

(** The longest run of zero segments, the first one on a tie:
    (start, length). *)
Fixpoint zero_span_go (i : nat) (s : list Z) (cur best : nat * nat) : nat * nat :=
  match s with
  | [] => best
  | x :: s =>
      if x =? 0 then
        let cur := (if decide (cur.2 = O) then i else cur.1, S cur.2) in
        let best := if decide (best.2 < cur.2)%nat then cur else best in
        zero_span_go (S i) s cur best
      else zero_span_go (S i) s (O, O) best
  end.
Definition zero_span (s : list Z) : nat * nat := zero_span_go O s (O, O) (O, O).

Definition show_segments (s : list Z) : bytes := join [COLON] (map show_hex s).

Definition show_v6 (s : list Z) : bytes :=
  match to_ipv4_mapped s with
  | Some o => lit "::ffff:" ++ show_v4 o
  | None =>
      let '(start, len) := zero_span s in
      if decide (1 < len)%nat then
        show_segments (take start s) ++ lit "::" ++ show_segments (drop (start + len) s)
      else show_segments s
  end.

Definition show_ip (a : IpAddr) : bytes :=
  match a with V4 o => show_v4 o | V6 s => show_v6 s end.

Definition show_sockaddr (a : SocketAddr) : bytes :=
  match sa_ip a with
  | V4 o => show_v4 o ++ [COLON] ++ show_dec (sa_port a)
  | V6 s => lit "[" ++ show_v6 s ++ lit "]:" ++ show_dec (sa_port a)
  end.

(** ** Parsing

    The standard library's recursive-descent parser; a parser returns the
    value and the remaining input. *)

Definition parser (A : Type) : Type := bytes → option (A * bytes).

Definition read_given_char (c : byte) : parser () := λ s,
  match s with x :: s => if x =? c then Some ((), s) else None | [] => None end.

(** Up to [max_digits] digits of [radix]; a value above [max] fails. *)
Fixpoint read_digits (radix max : Z) (max_digits : nat) (acc : Z) (n : nat) (s : bytes)
  {struct s} : option (Z * nat * bytes) :=
  match s with
  | c :: s' =>
      match digit_value radix c with
      | Some d =>
          match max_digits with
          | O => None
          | S k =>
              let acc := acc * radix + d in
              if acc <=? max then read_digits radix max k acc (S n) s' else None
          end
      | None => Some (acc, n, s)
      end
  | [] => Some (acc, n, s)
  end.

Definition read_number (radix max : Z) (max_digits : nat) (allow_zero_prefix : bool)
  : parser Z := λ s,
  match read_digits radix max max_digits 0 O s with
  | Some (v, n, s') =>
      if decide (n = O) then None
      else if negb allow_zero_prefix && starts_with (lit "0") s && bool_decide (1 < n)%nat
      then None else Some (v, s')
  | None => None
  end.

Definition read_octet : parser Z := read_number 10 255 3 false.

Definition read_ipv4 : parser (list Z) := λ s,
  '(a, s) ← read_octet s;
  '(_, s) ← read_given_char DOT s;
  '(b, s) ← read_octet s;
  '(_, s) ← read_given_char DOT s;
  '(c, s) ← read_octet s;
  '(_, s) ← read_given_char DOT s;
  '(d, s) ← read_octet s;
  Some ([a; b; c; d], s).

(** [read_separator(':', i, inner)]: the separator is only read for [i > 0]. *)
Definition read_separator {A} (i : nat) (inner : parser A) : parser A := λ s,
  match i with
  | O => inner s
  | S _ => '(_, s) ← read_given_char COLON s; inner s
  end.

(** Reads up to [limit - i] groups; the flag says that the last two came from
    an embedded IPv4 address. *)
Fixpoint read_groups (limit i : nat) (s : bytes) : list Z * bool * bytes :=
  match limit with
  | O => ([], false, s)
  | S limit' =>
      let v4 := match limit' with O => None | S _ => read_separator i read_ipv4 s end in
      match v4 with
      | Some ([a; b; c; d], s') => ([a * 256 + b; c * 256 + d], true, s')
      | _ =>
          match read_separator i (read_number 16 65535 4 true) s with
          | Some (g, s') =>
              let '(gs, is4, s'') := read_groups limit' (S i) s' in
              (g :: gs, is4, s'')
          | None => ([], false, s)
          end
      end
  end.

Definition read_ipv6 : parser (list Z) := λ s,
  let '(head, head4, s) := read_groups 8 O s in
  if decide (length head = 8%nat) then Some (head, s)
  else if head4 then None
  else
    '(_, s) ← read_given_char COLON s;
    '(_, s) ← read_given_char COLON s;
    let limit := (8 - (length head + 1))%nat in
    let '(tail, _, s) := read_groups limit O s in
    Some (head ++ replicate (8 - length head - length tail) 0 ++ tail, s).

Definition parse_with {A} (p : parser A) (s : bytes) : option A :=
  match p s with Some (a, []) => Some a | _ => None end.

(** [str::parse::<IpAddr>()]. An IPv4 text longer than 15 bytes cannot be
    consumed entirely by [read_ipv4], so the length pre-check is implied. *)
Definition parse_ip (s : bytes) : option IpAddr :=
  match parse_with read_ipv4 s with
  | Some o => Some (V4 o)
  | None => V6 <$> parse_with read_ipv6 s
  end.

(** The port has no digit limit: the input length bounds it. *)
Definition read_port : parser Z := λ s,
  '(_, s) ← read_given_char COLON s; read_number 10 65535 (length s) true s.

Definition read_sockaddr_v4 : parser SocketAddr := λ s,
  '(o, s) ← read_ipv4 s; '(p, s) ← read_port s; Some (MkSocketAddr (V4 o) p, s).

Definition read_sockaddr_v6 : parser SocketAddr := λ s,
  '(_, s) ← read_given_char 91 s;
  '(g, s) ← read_ipv6 s;
  '(_, s) ← read_given_char 93 s;
  '(p, s) ← read_port s;
  Some (MkSocketAddr (V6 g) p, s).

(** [str::parse::<SocketAddr>()] *)
Definition parse_sockaddr (s : bytes) : option SocketAddr :=
  match parse_with read_sockaddr_v4 s with
  | Some a => Some a
  | None => parse_with read_sockaddr_v6 s
  end.

(** ** Lemmas: printing then parsing is the identity *)

Definition no_digit_head (radix : Z) (s : bytes) : Prop :=
  match s with c :: _ => digit_value radix c = None | [] => True end.

Lemma read_digits_app radix max k acc n s v n' rest :
  read_digits radix max k acc n s = Some (v, n', []) → no_digit_head radix rest →
  read_digits radix max k acc n (s ++ rest) = Some (v, n', rest).
Proof.
  intros H Hrest. revert k acc n H; induction s as [|c s IH]; intros k acc n H; cbn in H |- *.
  - simplify_eq. destruct rest as [|c rest]; cbn in *; [done|]. by rewrite Hrest.
  - destruct (digit_value radix c); [|done]. destruct k; [done|].
    destruct (_ <=? max); [|done]. by apply IH.
Qed.

Lemma read_digits_suffix radix max k acc n s v n' rest :
  read_digits radix max k acc n s = Some (v, n', rest) → ∃ pre, s = pre ++ rest.
Proof.
  revert k acc n; induction s as [|c s IH]; intros k acc n H; cbn in H.
  - exists []. naive_solver.
  - destruct (digit_value radix c); [|exists []; naive_solver].
    destruct k; [done|]. destruct (_ <=? max); [|done].
    apply IH in H as [pre ->]. by exists (c :: pre).
Qed.

Lemma read_number_app radix max k z s v rest :
  read_number radix max k z s = Some (v, []) → no_digit_head radix rest →
  read_number radix max k z (s ++ rest) = Some (v, rest).
Proof.
  unfold read_number. intros H Hrest.
  destruct (read_digits radix max k 0 0 s) as [[[v' n'] r]|] eqn:E; [|done].
  case_decide; [done|]. case_match eqn:Hz; [done|]. simplify_eq.
  erewrite read_digits_app by eauto. rewrite decide_False by done.
  assert (starts_with (lit "0") (s ++ rest) = starts_with (lit "0") s) as ->.
  { destruct s; [|done]. cbn in E. simplify_eq. }
  by rewrite Hz.
Qed.

(** The numbers an address is made of are few enough to check them all. *)
Definition octet_ok (n : Z) : bool :=
  bool_decide (read_octet (show_dec n) = Some (n, [])) && bool_decide (length (show_dec n) ≤ 3)%nat.
Fixpoint all_from (f : Z → bool) (n : nat) (z : Z) : bool :=
  match n with O => true | S n => if f z then all_from f n (z + 1) else false end.
Definition all_below (f : Z → bool) (n : nat) : bool := all_from f n 0.

Lemma all_below_spec f n x : all_below f n = true → 0 ≤ x < Z.of_nat n → f x = true.
Proof.
  unfold all_below. intros H. assert (∀ z, all_from f n z = true → z ≤ x < z + Z.of_nat n → f x = true) as Hgen.
  { clear H. induction n as [|n IH]; intros z; cbn [all_from]; [lia|].
    destruct (f z) eqn:Hz; [|done]. intros H Hx.
    destruct (decide (x = z)) as [->|]; [done|]. apply (IH (z + 1)); [done|lia]. }
  intros Hx. apply (Hgen 0); [done|lia].
Qed.

Lemma octets_all_ok : all_below octet_ok 256 = true.
Proof. vm_compute. reflexivity. Qed.

Lemma read_octet_show n : is_byte n → read_octet (show_dec n) = Some (n, []).
Proof.
  intros H. pose proof (all_below_spec _ _ n octets_all_ok ltac:(unfold is_byte in H; lia)) as Hok.
  unfold octet_ok in Hok. bool_prop. done.
Qed.
Lemma length_show_octet n : is_byte n → (length (show_dec n) ≤ 3)%nat.
Proof.
  intros H. pose proof (all_below_spec _ _ n octets_all_ok ltac:(unfold is_byte in H; lia)) as Hok.
  unfold octet_ok in Hok. bool_prop. done.
Qed.
(** The digits of [v] are read back, one unit of digit budget each. *)
Lemma read_hex_digits fuel max v acc :
  0 ≤ v ≤ max → v < 16 ^ Z.of_nat fuel → (0 < fuel)%nat →
  ∃ d, length (hex_digits fuel v acc) = (d + length acc)%nat ∧ (0 < d)%nat ∧
    (∀ m, (0 < m)%nat → v < 16 ^ Z.of_nat m → (d ≤ m)%nat) ∧
    ∀ k, (d ≤ k)%nat →
      read_digits 16 max k 0 0 (hex_digits fuel v acc) = read_digits 16 max (k - d) v d acc.
Proof.
  revert v acc; induction fuel as [|fuel IH]; intros v acc Hv Hf Hpos; [lia|]. cbn [hex_digits].
  assert (digit_value 16 (hex_digit (v mod 16)) = Some (v mod 16)) as Hd.
  { pose proof (Z.mod_pos_bound v 16). unfold hex_digit, digit_value, is_digit.
    destruct (Z.ltb_spec (v mod 16) 10); repeat case_match; bool_prop; try lia; f_equal; lia. }
  destruct (Z.ltb_spec v 16) as [Hlt|Hge].
  - exists 1%nat. split_and!; [done|lia|lia|]. intros k Hk. destruct k as [|k]; [lia|].
    cbn [read_digits]. rewrite Hd. rewrite Z.mod_small by lia.
    replace (0 * 16 + v <=? max) with true by lia. cbn. by rewrite Nat.sub_0_r.
  - assert (0 ≤ v / 16 ≤ v) as Hdiv.
    { split; [apply Z.div_pos; lia|]. apply Z.div_le_upper_bound; lia. }
    destruct fuel as [|fuel']; [cbn in Hf; lia|].
    assert (∀ m, v < 16 ^ Z.of_nat (S m) → v / 16 < 16 ^ Z.of_nat m) as Hpow.
    { intros m Hm. replace (Z.of_nat (S m)) with (1 + Z.of_nat m) in Hm by lia.
      rewrite Z.pow_add_r in Hm by lia. apply Z.div_lt_upper_bound; lia. }
    destruct (IH (v / 16) (hex_digit (v mod 16) :: acc)) as (d & Hlen & Hd0 & Hmin & Hread);
      [lia|by apply Hpow|lia|].
    exists (S d). split_and!; [cbn in *; lia|lia| |].
    + intros m Hm Hvm. destruct m as [|[|m]]; [lia|cbn in Hvm; lia|].
      apply Hpow in Hvm. specialize (Hmin (S m) ltac:(lia) Hvm). lia.
    + intros k Hk. rewrite Hread by lia. destruct (k - d)%nat as [|j] eqn:Hj; [lia|].
      cbn [read_digits]. rewrite Hd. pose proof (Z.div_mod v 16).
      replace (v / 16 * 16 + v mod 16) with v by lia.
      replace (v <=? max) with true by lia. f_equal. lia.
Qed.

Lemma hex_digits_not_elem c fuel n acc :
  (∀ d, 0 ≤ d < 16 → hex_digit d ≠ c) → c ∉ acc → c ∉ hex_digits fuel n acc.
Proof.
  intros Hc. revert n acc; induction fuel as [|fuel IH]; intros n acc Hacc; cbn; [done|].
  assert (hex_digit (n mod 16) ≠ c) by (apply Hc, Z.mod_pos_bound; lia).
  destruct (n <? 16); [set_solver|]. apply IH. set_solver.
Qed.

Lemma segment_facts n : is_u16 n →
  read_number 16 65535 4 true (show_hex n) = Some (n, []) ∧
  (length (show_hex n) ≤ 4)%nat ∧ (DOT ∉ show_hex n) ∧ (COLON ∉ show_hex n).
Proof.
  intros [H0 H]. unfold u16_max in H.
  assert (n < 16 ^ Z.of_nat (S (Z.to_nat (Z.log2 n)))) as Hfuel.
  { eapply Z.lt_le_trans; [by apply log2_fuel|]. apply Z.pow_le_mono_l. lia. }
  destruct (read_hex_digits (S (Z.to_nat (Z.log2 n))) 65535 n []) as (d & Hlen & Hd & Hmin & Hread);
    [lia|done|lia|].
  assert (d ≤ 4)%nat as Hd4 by (apply Hmin; [lia|change (16 ^ Z.of_nat 4) with 65536; lia]).
  unfold show_hex. split_and!.
  - unfold read_number. rewrite Hread by done. cbn [read_digits]. by rewrite decide_False by lia.
  - rewrite Hlen. cbn. lia.
  - apply hex_digits_not_elem; [|set_solver]. intros x Hx. unfold hex_digit, DOT. case_match; lia.
  - apply hex_digits_not_elem; [|set_solver]. intros x Hx. unfold hex_digit, COLON. case_match; lia.
Qed.

Lemma read_groups_step limit i s g s' :
  read_separator i read_ipv4 s = None →
  read_separator i (read_number 16 65535 4 true) s = Some (g, s') →
  read_groups (S limit) i s
  = (g :: (read_groups limit (S i) s').1.1, (read_groups limit (S i) s').1.2, (read_groups limit (S i) s').2).
Proof.
  intros H4 Hn. cbn [read_groups]. rewrite H4, Hn.
  destruct (read_groups limit (S i) s') as [[gs b] r]. by destruct limit.
Qed.

Lemma read_groups_v4 limit i s a b c d s' :
  read_separator i read_ipv4 s = Some ([a; b; c; d], s') →
  read_groups (S (S limit)) i s = ([a * 256 + b; c * 256 + d], true, s').
Proof. intros H. cbn [read_groups]. by rewrite H. Qed.

Lemma read_ipv4_show o rest :
  length o = 4%nat → Forall is_byte o → no_digit_head 10 rest →
  read_ipv4 (show_v4 o ++ rest) = Some (o, rest).
Proof.
  intros Hl Hb Hrest. destruct o as [|a [|b [|c [|d [|]]]]]; try done.
  rewrite !Forall_cons in Hb. destruct Hb as (Ha & Hb & Hc & Hd & _).
  unfold show_v4, read_ipv4. cbn [map join]. rewrite <-!app_assoc. cbn [app].
  pose proof (λ n t Hn, read_number_app 10 255 3 false _ n (DOT :: t) (read_octet_show n Hn)) as Hoct.
  unfold read_octet in *.
  rewrite Hoct by done. cbn. rewrite Hoct by done. cbn. rewrite Hoct by done. cbn.
  erewrite read_number_app; [|by apply read_octet_show|done]. done.
Qed.

Lemma read_number_suffix radix max k z s v rest :
  read_number radix max k z s = Some (v, rest) → ∃ pre, s = pre ++ rest.
Proof.
  unfold read_number. intros H.
  destruct (read_digits radix max k 0 0 s) as [[[v' n'] r]|] eqn:E; [|done].
  apply read_digits_suffix in E. repeat case_match; naive_solver.
Qed.

Lemma read_ipv4_no_dot s : DOT ∉ s → read_ipv4 s = None.
Proof.
  intros H. unfold read_ipv4.
  destruct (read_octet s) as [[a r]|] eqn:E; [|done]. cbn.
  apply read_number_suffix in E as [pre ->].
  destruct r as [|x r]; [done|]. cbn. destruct (Z.eqb_spec x DOT); [set_solver|done].
Qed.

(** What may follow a printed group: neither a hexadecimal digit nor a
    colon that starts another group. *)
Definition group_end (i : nat) (rest : bytes) : Prop :=
  (DOT ∉ rest) ∧ no_digit_head 16 rest ∧
  match rest with
  | c :: r => if c =? COLON then no_digit_head 16 r else True
  | [] => True
  end.

Lemma read_number_no_digit radix max k z s : no_digit_head radix s → read_number radix max k z s = None.
Proof.
  intros H. unfold read_number. destruct s as [|c s]; cbn in *; [done|]. by rewrite H.
Qed.

Lemma read_groups_end limit i rest : group_end i rest →
  read_groups limit i rest = ([], false, rest).
Proof.
  intros (Hdot & Hd & Hc). destruct limit as [|limit]; [done|]. cbn [read_groups].
  assert (read_separator i read_ipv4 rest = None) as Hv4.
  { destruct i; cbn; [by apply read_ipv4_no_dot|].
    destruct rest as [|x r]; [done|]. cbn. destruct (x =? COLON); [|done]. cbn.
    apply read_ipv4_no_dot. set_solver. }
  assert (read_separator i (read_number 16 65535 4 true) rest = None) as Hn.
  { destruct i; cbn; [by apply read_number_no_digit|].
    destruct rest as [|x r]; [done|]. cbn. destruct (x =? COLON); [|done]. cbn.
    by apply read_number_no_digit. }
  rewrite Hn. destruct limit; [done|]. by rewrite Hv4.
Qed.

Lemma dot_show_segments s : Forall is_u16 s → DOT ∉ show_segments s.
Proof.
  unfold show_segments. induction 1 as [|x s Hx Hs IH]; cbn [map join]; [set_solver|].
  destruct (segment_facts x Hx) as (_ & _ & Hd & _).
  destruct (map show_hex s) eqn:E; [done|]. rewrite !elem_of_app, list_elem_of_singleton.
  intros [?|[?|?]]; done.
Qed.

(** A run of printed groups, each but the first after a colon. *)
Fixpoint show_groups (i : nat) (s : list Z) : bytes :=
  match s with
  | [] => []
  | x :: s => (match i with O => [] | S _ => [COLON] end) ++ show_hex x ++ show_groups (S i) s
  end.

Lemma show_groups_S i j s : show_groups (S i) s = show_groups (S j) s.
Proof. revert i j; induction s as [|x s IH]; intros i j; cbn; [done|]. do 2 f_equal. apply IH. Qed.

Lemma show_groups_0 s : show_groups O s = show_segments s.
Proof.
  unfold show_segments. destruct s as [|x s]; [done|]. cbn. revert x.
  induction s as [|y s IH]; intros x; cbn [map join show_groups]; [by rewrite app_nil_r|].
  cbn. do 2 f_equal. rewrite (show_groups_S 1 0). apply IH.
Qed.

Lemma dot_show_groups i s : Forall is_u16 s → DOT ∉ show_groups i s.
Proof.
  intros H; revert i; induction H as [|x s Hx Hs IH]; intros i; cbn; [set_solver|].
  destruct (segment_facts x Hx) as (_ & _ & Hd & _). rewrite !elem_of_app.
  intros [Hc|[Hc|Hc]]; [destruct i; set_solver|done|by eapply IH].
Qed.

Lemma read_groups_show limit i s rest :
  (length s ≤ limit)%nat → Forall is_u16 s → group_end (i + length s) rest →
  read_groups limit i (show_groups i s ++ rest) = (s, false, rest).
Proof.
  revert limit i; induction s as [|x s IH]; intros limit i Hlen Hs Hend.
  { by apply read_groups_end. }
  destruct limit as [|limit]; [cbn in Hlen; lia|].
  apply Forall_cons in Hs as [Hx Hs]. destruct (segment_facts x Hx) as (Hr & _ & Hd & _).
  assert (DOT ∉ show_groups (S i) s ++ rest) as Hdot.
  { rewrite elem_of_app. intros [Hin|Hin]; [by eapply dot_show_groups|].
    destruct Hend as [Hend _]. done. }
  assert (no_digit_head 16 (show_groups (S i) s ++ rest)) as Hh.
  { destruct s; cbn; [|done]. by destruct Hend as (_ & ? & _). }
  cbn [show_groups]. rewrite <-!app_assoc. cbn [read_groups].
  set (tl := show_groups (S i) s ++ rest) in *.
  set (pre := match i with O => [] | S _ => [COLON] end).
  assert (∀ (A : Type) (p : parser A), read_separator i p (pre ++ show_hex x ++ tl) = p (show_hex x ++ tl)) as Hsep.
  { intros A p. unfold pre. by destruct i. }
  rewrite !Hsep. rewrite read_ipv4_no_dot by (rewrite elem_of_app; tauto).
  rewrite (read_number_app _ _ _ _ _ _ _ Hr Hh). unfold tl.
  rewrite IH; [|cbn in Hlen; lia|done|by rewrite Nat.add_succ_comm]. by destruct limit.
Qed.

(** [zero_span] names a run of zero segments inside the address. *)
Lemma zero_span_go_spec s i cur best pre :
  length pre = i →
  (cur.2 = O ∨ (cur.1 + cur.2 = i)%nat) →
  (∀ k, (cur.1 ≤ k < cur.1 + cur.2)%nat → pre !! k = Some 0) →
  (best.1 + best.2 ≤ i)%nat →
  (∀ k, (best.1 ≤ k < best.1 + best.2)%nat → pre !! k = Some 0) →
  let r := zero_span_go i s cur best in
  (r.1 + r.2 ≤ i + length s)%nat ∧
  ∀ k, (r.1 ≤ k < r.1 + r.2)%nat → (pre ++ s) !! k = Some 0.
Proof.
  revert i cur best pre; induction s as [|x s IH]; intros i cur best pre Hp Hc Hcz Hb Hbz; cbn.
  { rewrite app_nil_r. split; [lia|done]. }
  assert (pre ++ x :: s = (pre ++ [x]) ++ s) as -> by (by rewrite <-app_assoc).
  replace (i + S (length s))%nat with (S i + length s)%nat by lia.
  assert (∀ k n, (k < n)%nat → (n ≤ length pre)%nat → (pre ++ [x]) !! k = pre !! k) as Hl.
  { intros. rewrite lookup_app_l; [done|lia]. }
  destruct (Z.eqb_spec x 0) as [->|Hx].
  - set (cur' := (if decide (cur.2 = O) then i else cur.1, S cur.2)).
    assert (cur'.1 + cur'.2 = S i)%nat as Hc'.
    { unfold cur'. cbn. case_decide; lia. }
    assert (∀ k, (cur'.1 ≤ k < cur'.1 + cur'.2)%nat → (pre ++ [0]) !! k = Some 0) as Hz'.
    { intros k Hk. destruct (decide (k = i)) as [->|].
      - rewrite lookup_app_r by lia. by rewrite Hp, Nat.sub_diag.
      - rewrite (Hl k i) by lia. apply Hcz. revert Hk. unfold cur'. cbn. case_decide; lia. }
    apply IH; [rewrite length_app; cbn; lia|by right|done| |].
    + case_decide; lia.
    + case_decide; [done|]. intros k Hk. rewrite (Hl k i) by lia. by apply Hbz.
  - apply IH; [rewrite length_app; cbn; lia|by left|cbn; lia|lia|].
    intros k Hk. rewrite (Hl k i) by lia. by apply Hbz.
Qed.

Lemma zero_span_spec s start len :
  zero_span s = (start, len) →
  (start + len ≤ length s)%nat ∧ s = take start s ++ replicate len 0 ++ drop (start + len) s.
Proof.
  intros H. destruct (zero_span_go_spec s O (O, O) (O, O) []) as [Hle Hz]; cbn; try lia; try by left.
  fold (zero_span s) in Hle, Hz. rewrite H in Hle, Hz. cbn in Hle, Hz.
  split; [done|]. apply list_eq. intros k.
  destruct (decide (k < start)%nat).
  { by rewrite lookup_app_l, lookup_take_lt by (rewrite ?length_take; lia). }
  rewrite lookup_app_r by (rewrite length_take; lia). rewrite length_take, Nat.min_l by lia.
  destruct (decide (k < start + len)%nat).
  { rewrite lookup_app_l by (rewrite length_replicate; lia).
    rewrite Hz by lia. symmetry. apply lookup_replicate. split; [done|lia]. }
  rewrite lookup_app_r by (rewrite length_replicate; lia).
  rewrite length_replicate, lookup_drop. f_equal. lia.
Qed.

Lemma group_end_close i rest : group_end i (93 :: rest) ↔ DOT ∉ rest.
Proof. unfold group_end. cbn. rewrite not_elem_of_cons. naive_solver. Qed.

(** [to_ipv4_mapped] and [to_ipv6_mapped] are inverse. *)
Lemma to_ipv4_mapped_Some s o :
  Forall is_u16 s → to_ipv4_mapped s = Some o →
  s = to_ipv6_mapped o ∧ length o = 4%nat ∧ Forall is_byte o.
Proof.
  intros Hs H. do 8 (destruct s as [|? s]; [done|]). destruct s; [|done]. cbn in H.
  case_match; [|done]. bool_prop. simplify_eq. rewrite !Forall_cons in Hs.
  destruct Hs as (_ & _ & _ & _ & _ & _ & H6 & H7 & _). unfold is_u16, u16_max in *.
  rewrite !Z.eqb_eq in *. subst. cbn. split_and!; [|done|].
  - pose proof (Z.div_mod z5 256). pose proof (Z.div_mod z6 256). repeat f_equal; lia.
  - unfold is_byte. repeat constructor; try apply Z.mod_pos_bound; try apply Z.div_pos; try lia;
      apply Z.div_lt_upper_bound; lia.
Qed.

Lemma to_ipv4_mapped_v6_mapped o :
  length o = 4%nat → Forall is_byte o → to_ipv4_mapped (to_ipv6_mapped o) = Some o.
Proof.
  intros Hl Hb. destruct o as [|a [|b [|c [|d [|]]]]]; try done.
  rewrite !Forall_cons in Hb. unfold is_byte in Hb. cbn. unfold u16_be.
  rewrite !Z.div_add_l, !(Z.div_small _ 256) by lia.
  rewrite !(Z.add_comm (_ * 256)), !Z_mod_plus_full, !Z.mod_small by lia. cbn.
  by rewrite !Z.add_0_r.
Qed.

Lemma read_ipv6_show s rest :
  length s = 8%nat → Forall is_u16 s → to_ipv4_mapped s = None →
  group_end 8 rest → no_digit_head 16 rest →
  (match rest with c :: _ => c ≠ COLON | [] => True end) →
  read_ipv6 (show_v6 s ++ rest) = Some (s, rest).
Proof.
  intros Hl Hs Hm Hend Hrest Hcol. unfold show_v6. rewrite Hm.
  destruct (zero_span s) as [start len] eqn:Hz. destruct (zero_span_spec s start len Hz) as [Hle Hsplit].
  unfold read_ipv6. case_decide as Hlen.
  - rewrite <-!show_groups_0, <-!app_assoc.
    rewrite read_groups_show; [|rewrite length_take; lia|by apply Forall_take|].
    2: { split_and!; cbn; [|done|done]. rewrite show_groups_0.
         change (lit "::") with [COLON; COLON]. cbn. rewrite !not_elem_of_cons, elem_of_app.
         split_and!; [done|done|]. intros [Hin|Hin]; [|by destruct Hend].
         eapply dot_show_segments; [|exact Hin]. by apply Forall_drop. }
    rewrite length_take, Nat.min_l by lia.
    rewrite decide_False by lia. change (lit "::") with [COLON; COLON]. cbn -[read_groups].
    rewrite read_groups_show; [|rewrite length_drop; lia|by apply Forall_drop|].
    2: { destruct Hend as (? & ? & _). split_and!; [done|done|]. destruct rest as [|c r]; [done|].
         destruct (Z.eqb_spec c COLON); done. }
    rewrite length_drop, Hl. do 2 f_equal. rewrite Hsplit at 3. do 2 f_equal. f_equal. lia.
  - rewrite <-show_groups_0. rewrite read_groups_show; [|lia|done|].
    + by rewrite decide_True by done.
    + rewrite Hl. done.
Qed.

Lemma parse_ip_show a : ip_wf a → parse_ip (show_ip a) = Some a.
Proof.
  intros Hwf. unfold parse_ip, parse_with. destruct a as [o|s]; destruct Hwf as [Hl Hf]; cbn [show_ip].
  - rewrite <-(app_nil_r (show_v4 o)). by rewrite read_ipv4_show.
  - destruct (to_ipv4_mapped s) as [o|] eqn:Hm.
    + unfold show_v6. rewrite Hm. destruct (to_ipv4_mapped_Some s o Hf Hm) as (-> & Ho & Hob).
      pose proof (read_ipv4_show o [] Ho Hob I) as Hr. rewrite app_nil_r in Hr.
      change (lit "::ffff:") with [58; 58; 102; 102; 102; 102; 58].
      set (t := show_v4 o) in *. clearbody t.
      assert (read_ipv4 ([58; 58; 102; 102; 102; 102; 58] ++ t) = None) as -> by done.
      assert (read_ipv6 ([58; 58; 102; 102; 102; 102; 58] ++ t) = Some (to_ipv6_mapped o, [])) as ->; [|done].
      destruct o as [|a [|b [|c [|d [|]]]]]; try done.
      unfold read_ipv6.
      assert (read_groups 8 0 ([58; 58; 102; 102; 102; 102; 58] ++ t)
              = ([], false, [58; 58; 102; 102; 102; 102; 58] ++ t)) as -> by done.
      cbn -[read_groups].
      assert (read_groups 7 0 (102 :: 102 :: 102 :: 102 :: 58 :: t)
              = ([65535; a * 256 + b; c * 256 + d], true, [])) as ->; [|done].
      erewrite read_groups_step by done. erewrite read_groups_v4 by exact Hr. done.
    + assert (read_ipv4 (show_v6 s) = None) as ->.
      { apply read_ipv4_no_dot. unfold show_v6. rewrite Hm. destruct (zero_span s) as [st ln].
        case_decide; [|by apply dot_show_segments]. rewrite !elem_of_app.
        intros [Hd|[Hd|Hd]]; [|revert Hd; change (lit "::") with [COLON; COLON]; set_solver|];
          (eapply dot_show_segments; [|exact Hd]); [by apply Forall_take|by apply Forall_drop]. }
      pose proof (read_ipv6_show s [] Hl Hf Hm) as H. rewrite app_nil_r in H.
      rewrite H; [done|split_and!|done|done]; set_solver.
Qed.

(** ** Lengths of printed addresses *)

Lemma length_show_v4 o : length o = 4%nat → Forall is_byte o → (length (show_v4 o) ≤ 15)%nat.
Proof.
  intros Hl Hb. destruct o as [|a [|b [|c [|d [|]]]]]; try done.
  rewrite !Forall_cons in Hb. destruct Hb as (Ha & Hb & Hc & Hd & _). unfold show_v4. cbn.
  rewrite !length_app; cbn; rewrite !length_app; cbn; rewrite !length_app; cbn.
  apply length_show_octet in Ha, Hb, Hc, Hd. lia.
Qed.

Lemma length_show_segments s :
  Forall is_u16 s → (length (show_segments s) ≤ 5 * length s - 1)%nat.
Proof.
  unfold show_segments. induction 1 as [|x s Hx Hs IH]; cbn [map join length]; [lia|].
  destruct (segment_facts x Hx) as (_ & Hlen & _).
  destruct s as [|y s]; cbn [map join] in *; [cbn; lia|].
  rewrite !length_app in *. cbn [length] in *. lia.
Qed.

Lemma length_show_ip a : ip_wf a → (length (show_ip a) ≤ 39)%nat.
Proof.
  destruct a as [o|s]; intros [Hl Hf]; cbn [show_ip].
  - pose proof (length_show_v4 o Hl Hf). lia.
  - unfold show_v6. destruct (to_ipv4_mapped s) as [o|] eqn:Hm.
    + destruct (to_ipv4_mapped_Some s o Hf Hm) as (_ & Ho & Hob). rewrite length_app.
      pose proof (length_show_v4 o Ho Hob).
      change (length (lit "::ffff:")) with 7%nat. lia.
    + destruct (zero_span s) as [st ln] eqn:Hz. apply zero_span_spec in Hz as [Hle _].
      pose proof (length_show_segments s Hf).
      pose proof (length_show_segments (take st s) ltac:(by apply Forall_take)) as H1.
      pose proof (length_show_segments (drop (st + ln) s) ltac:(by apply Forall_drop)) as H2.
      case_decide; [|lia]. rewrite length_take in H1. rewrite length_drop in H2.
      rewrite !length_app. cbn [length]. change (length (lit "::")) with 2%nat. lia.
Qed.

Lemma length_dec_digits fuel n acc m :
  0 ≤ n < 10 ^ Z.of_nat m → (0 < m)%nat →
  (length (dec_digits fuel n acc) ≤ m + length acc)%nat.
Proof.
  revert n acc m; induction fuel as [|fuel IH]; intros n acc m Hn Hm; cbn; [lia|].
  destruct (Z.ltb_spec n 10); [cbn; lia|].
  destruct m as [|[|m]]; [lia|cbn in Hn; lia|].
  etransitivity; [apply (IH _ _ (S m)); [|lia]|cbn; lia].
  split; [apply Z.div_pos; lia|]. replace (Z.of_nat (S (S m))) with (1 + Z.of_nat (S m)) in Hn by lia.
  rewrite Z.pow_add_r in Hn by lia. apply Z.div_lt_upper_bound; lia.
Qed.

Lemma length_show_port p : is_u16 p → (length (show_dec p) ≤ 5)%nat.
Proof.
  intros [? H]. unfold u16_max in H.
  pose proof (length_dec_digits (S (Z.to_nat (Z.log2 p))) p [] 5) as Hl.
  change (10 ^ Z.of_nat 5) with 100000 in Hl. cbn [length] in Hl. unfold show_dec. lia.
Qed.

(** Printed addresses and numbers contain no space. *)
Lemma digits_no_space s : Forall (λ c, is_digit c = true) s → SP ∉ s.
Proof.
  rewrite Forall_forall. intros H Hin. apply H in Hin. done.
Qed.

Lemma show_dec_no_space n : 0 ≤ n → SP ∉ show_dec n.
Proof. intros. by apply digits_no_space, show_dec_digits. Qed.

Lemma join_no_elem (c : byte) sep l : c ∉ sep → Forall (λ s, c ∉ s) l → c ∉ join sep l.
Proof.
  intros Hs. induction 1 as [|x l Hx Hl IH]; cbn; [set_solver|].
  destruct l; [done|]. rewrite !elem_of_app. tauto.
Qed.

Lemma show_ip_no_space a : ip_wf a → SP ∉ show_ip a.
Proof.
  assert (∀ o, Forall is_byte o → SP ∉ show_v4 o) as Hv4.
  { intros o Ho. apply join_no_elem; [set_solver|]. apply Forall_map.
    eapply Forall_impl; [exact Ho|]. intros x [? ?]. by apply show_dec_no_space. }
  assert (∀ s, Forall is_u16 s → SP ∉ show_segments s) as Hv6.
  { intros s Hs. apply join_no_elem; [set_solver|]. apply Forall_map.
    eapply Forall_impl; [exact Hs|]. intros x [? ?]. apply hex_digits_not_elem; [|set_solver].
    intros d Hd. unfold hex_digit, SP. case_match; lia. }
  destruct a as [o|s]; intros [Hl Hf]; cbn [show_ip]; [by apply Hv4|].
  unfold show_v6. destruct (to_ipv4_mapped s) as [o|] eqn:Hm.
  - rewrite elem_of_app. intros [H|H]; [revert H; change (lit "::ffff:") with [58; 58; 102; 102; 102; 102; 58]; set_solver|].
    eapply Hv4; [|exact H]. by eapply to_ipv4_mapped_Some.
  - destruct (zero_span s) as [st ln]. case_decide; [|by apply Hv6].
    change (lit "::") with [58; 58]. rewrite !elem_of_app.
    intros [Hi|[Hi|Hi]]; [|set_solver|]; (eapply Hv6; [|exact Hi]); [by apply Forall_take|by apply Forall_drop].
Qed.
