(* ===== verification/ProxyProtocol.v ===== *)
(** * PROXY protocol headers (src/proxy_protocol.rs)

    The sending side: the header announced to an upstream before any other
    byte.  The receiving side is not part of the program, so correctness is
    stated against a decoder written from the published format of both
    versions ([decode_v1], [decode_v2]). *)

From S2P Require Import Prelude RustStd Net.
Open Scope Z_scope.

Module ProxyProtocol.

Inductive ProxyProtocol := PNone | PV1 | PV2.

#[global] Instance ProxyProtocol_eq_dec : EqDecision ProxyProtocol.
Proof. solve_decision. Defined.

Definition V2_SIGNATURE : bytes := [13; 10; 13; 10; 0; 13; 10; 81; 85; 73; 84; 10].

Definition is_none (p : ProxyProtocol) : bool :=
  match p with PNone => true | _ => false end.

Definition label (p : ProxyProtocol) : bytes :=
  match p with PNone => lit "none" | PV1 => lit "v1" | PV2 => lit "v2" end.

Definition to_v6 (a : IpAddr) : list Z :=
  match a with V4 o => to_ipv6_mapped o | V6 s => s end.

(** Both addresses in one family: mapped addresses are unwrapped first, a
    pair that still disagrees is widened to IPv6. *)
Definition same_family (client loc : SocketAddr) : SocketAddr * SocketAddr :=
  let client := MkSocketAddr (to_canonical (sa_ip client)) (sa_port client) in
  let loc := MkSocketAddr (to_canonical (sa_ip loc)) (sa_port loc) in
  if Bool.eqb (is_ipv4 client) (is_ipv4 loc) then (client, loc)
  else (MkSocketAddr (V6 (to_v6 (sa_ip client))) (sa_port client),
        MkSocketAddr (V6 (to_v6 (sa_ip loc))) (sa_port loc)).

Definition header (p : ProxyProtocol) (client loc : SocketAddr) : bytes :=
  let '(client, loc) := same_family client loc in
  match p with
  | PNone => []
  | PV1 =>
      let family := if is_ipv4 client then lit "TCP4" else lit "TCP6" in
      lit "PROXY " ++ family ++ [SP] ++ show_ip (sa_ip client) ++ [SP]
        ++ show_ip (sa_ip loc) ++ [SP] ++ show_dec (sa_port client) ++ [SP]
        ++ show_dec (sa_port loc) ++ crlf
  | PV2 =>
      V2_SIGNATURE ++ [33]
        ++ match sa_ip client, sa_ip loc with
           | V4 source, V4 destination => [17] ++ u16_be 12 ++ source ++ destination
           | source, destination =>
               [33] ++ u16_be 36 ++ v6_octets (to_v6 source) ++ v6_octets (to_v6 destination)
           end
        ++ u16_be (sa_port client) ++ u16_be (sa_port loc)
  end.

Definition local_header (p : ProxyProtocol) : bytes :=
  match p with
  | PNone => []
  | PV1 => lit "PROXY UNKNOWN" ++ crlf
  | PV2 => V2_SIGNATURE ++ [32; 0; 0; 0]
  end.

(** The bytes on a fresh upstream connection after [announce]. *)
Definition announce (p : ProxyProtocol) (upstream : bytes) (client loc : SocketAddr) : bytes :=
  if is_none p then upstream else upstream ++ header p client loc.

(** ** Reference decoders *)

Inductive announcement :=
| Announced (source destination : SocketAddr)
| NoClient.

(** The value of a fixed-width big-endian field and the rest of the block. *)
Definition field (n : nat) (s : bytes) : option (bytes * bytes) :=
  if decide (n ≤ length s)%nat then Some (take n s, drop n s) else None.

Fixpoint pairs_be (s : bytes) : list Z :=
  match s with a :: b :: s => (a * 256 + b) :: pairs_be s | _ => [] end.

(** A version-2 header: signature, version/command byte, family byte, length,
    address block; what follows the block is payload. *)
Definition decode_v2 (s : bytes) : option (announcement * bytes) :=
  s ← strip_prefix V2_SIGNATURE s;
  match s with
  | cmd :: fam :: l1 :: l0 :: s =>
      '(block, payload) ← field (Z.to_nat (l1 * 256 + l0)) s;
      if cmd =? 32 then Some (NoClient, payload)
      else if negb (cmd =? 33) then None
      else
        let width := if fam =? 17 then 4%nat else 16%nat in
        '(src, block) ← field width block;
        '(dst, block) ← field width block;
        let ip b := if fam =? 17 then V4 b else V6 (pairs_be b) in
        match block with
        | [p1; p0; q1; q0] =>
            Some (Announced (MkSocketAddr (ip src) (p1 * 256 + p0))
                            (MkSocketAddr (ip dst) (q1 * 256 + q0)), payload)
        | _ => None
        end
  | _ => None
  end.

(** A version-1 line without its payload. *)
Definition decode_v1 (s : bytes) : option announcement :=
  s ← strip_suffix crlf s;
  match split_char SP s with
  | [proxy; fam; src; dst; sp; dp] =>
      if negb (eqb_bytes proxy (lit "PROXY")) then None else
      src ← parse_ip src; dst ← parse_ip dst;
      sp ← parse_u16 sp; dp ← parse_u16 dp;
      let ok v4 := Bool.eqb (is_v4 src) v4 && Bool.eqb (is_v4 dst) v4 in
      if (eqb_bytes fam (lit "TCP4") && ok true) || (eqb_bytes fam (lit "TCP6") && ok false)
      then Some (Announced (MkSocketAddr src sp) (MkSocketAddr dst dp)) else None
  | [proxy; unknown] =>
      if eqb_bytes proxy (lit "PROXY") && eqb_bytes unknown (lit "UNKNOWN")
      then Some NoClient else None
  | _ => None
  end.

(** ** Lemmas *)

Lemma to_v6_wf a : ip_wf a → length (to_v6 a) = 8%nat ∧ Forall is_u16 (to_v6 a).
Proof.
  destruct a as [o|s]; cbn; [|done]. intros [Hl Hb].
  destruct o as [|a [|b [|c [|d [|]]]]]; try done. split; [done|]. cbn.
  rewrite !Forall_cons in Hb. unfold is_byte, is_u16, u16_max in *.
  repeat (constructor; [lia|]). constructor.
Qed.

Lemma to_canonical_wf a : ip_wf a → ip_wf (to_canonical a).
Proof.
  destruct a as [o|s]; cbn; [done|]. intros [Hl Hf].
  destruct (to_ipv4_mapped s) as [o|] eqn:Hm; [|done].
  by destruct (to_ipv4_mapped_Some s o Hf Hm) as (_ & ? & ?).
Qed.

Lemma same_family_wf c l :
  sa_wf c → sa_wf l → sa_wf (same_family c l).1 ∧ sa_wf (same_family c l).2.
Proof.
  intros [Hc Hcp] [Hl Hlp]. unfold same_family.
  pose proof (to_canonical_wf _ Hc). pose proof (to_canonical_wf _ Hl).
  case_match; cbn; split; (split; [|done]); cbn; try done; by apply to_v6_wf.
Qed.

Lemma same_family_agree c l :
  is_ipv4 (same_family c l).1 = is_ipv4 (same_family c l).2.
Proof. unfold same_family. case_match eqn:E; cbn; [by apply eqb_prop in E|done]. Qed.

Lemma length_v6_octets s : length (v6_octets s) = (2 * length s)%nat.
Proof. unfold v6_octets. induction s as [|x s IH]; cbn in *; lia. Qed.

Lemma pairs_be_v6_octets s : Forall is_u16 s → pairs_be (v6_octets s) = s.
Proof.
  induction 1 as [|x s Hx Hs IH]; [done|]. cbn. unfold v6_octets in IH. rewrite IH.
  pose proof (Z.div_mod x 256). f_equal. lia.
Qed.

Lemma field_app n a s : length a = n → field n (a ++ s) = Some (a, s).
Proof.
  intros <-. unfold field. rewrite decide_True by (rewrite length_app; lia).
  by rewrite take_app_length, drop_app_length.
Qed.

Lemma be_port p : is_u16 p → p / 256 * 256 + p mod 256 = p.
Proof. intros _. pose proof (Z.div_mod p 256). lia. Qed.

Lemma decode_v2_block fam l1 l0 w src dst sp dp payload :
  w = (if fam =? 17 then 4%nat else 16%nat) → Z.to_nat (l1 * 256 + l0) = (2 * w + 4)%nat →
  length src = w → length dst = w →
  decode_v2 (V2_SIGNATURE ++ 33 :: fam :: l1 :: l0 ::
               (src ++ dst ++ u16_be sp ++ u16_be dp) ++ payload)
  = let ip b := if fam =? 17 then V4 b else V6 (pairs_be b) in
    Some (Announced (MkSocketAddr (ip src) sp) (MkSocketAddr (ip dst) dp), payload).
Proof.
  intros Hw Hlen Hs Hd. unfold decode_v2. rewrite strip_prefix_app.
  cbn [mbind option_bind]. rewrite Hlen.
  rewrite field_app by (rewrite !length_app; cbn; lia). cbn [mbind option_bind].
  change (33 =? 32) with false. cbn [negb Z.eqb Pos.eqb]. rewrite <-Hw.
  rewrite field_app by done. cbn [mbind option_bind]. rewrite field_app by done. cbn.
  pose proof (Z.div_mod sp 256). pose proof (Z.div_mod dp 256). repeat f_equal; lia.
Qed.

(** ** Properties *)

(** C37: a version-2 header announces exactly the pair of addresses
    [same_family] computes, and the payload written after it is left intact. *)
Theorem v2_roundtrip client loc payload :
  sa_wf client → sa_wf loc →
  decode_v2 (header PV2 client loc ++ payload)
  = Some (Announced (same_family client loc).1 (same_family client loc).2, payload).
Proof.
  intros Hc Hl. destruct (same_family_wf client loc Hc Hl) as [[Hci Hcp] [Hli Hlp]].
  pose proof (same_family_agree client loc) as Hag. unfold header.
  destruct (same_family client loc) as [[ci cp] [li lp]]; cbn [fst snd sa_ip sa_port] in *.
  destruct ci as [co|cs], li as [lo|ls]; try done; rewrite <-!app_assoc.
  - destruct Hci as [Hc4 _], Hli as [Hl4 _].
    etransitivity; [|by apply (decode_v2_block 17 0 12 4 co lo)]. by rewrite <-!app_assoc.
  - destruct Hci as [Hc8 Hcf], Hli as [Hl8 Hlf]. cbn [to_v6].
    pose proof (length_v6_octets cs). pose proof (length_v6_octets ls).
    pose proof (decode_v2_block 33 0 36 16 (v6_octets cs) (v6_octets ls) cp lp payload) as Hdec.
    cbn [Z.eqb Pos.eqb] in Hdec. rewrite !pairs_be_v6_octets in Hdec by done.
    etransitivity; [|apply Hdec; [done|done|lia|lia]]. by rewrite <-!app_assoc.
Qed.

Lemma v2_roundtrip_witness :
  decode_v2 (header PV2 (MkSocketAddr (V6 [0; 0; 0; 0; 0; 65535; 51968; 28935]) 51234)
                        (MkSocketAddr (V4 [192; 0; 2; 1]) 443) ++ lit "payload")
  = Some (Announced (MkSocketAddr (V4 [203; 0; 113; 7]) 51234)
                    (MkSocketAddr (V4 [192; 0; 2; 1]) 443), lit "payload").
Proof.
  rewrite v2_roundtrip; [reflexivity| |]; repeat constructor; vm_compute; congruence.
Defined.

(** A version-1 header is one line that a version-1 reader decodes to the
    pair of addresses [same_family] computes. *)
Theorem v1_roundtrip client loc :
  sa_wf client → sa_wf loc →
  decode_v1 (header PV1 client loc)
  = Some (Announced (same_family client loc).1 (same_family client loc).2).
Proof.
  intros Hc Hl. destruct (same_family_wf client loc Hc Hl) as [[Hci Hcp] [Hli Hlp]].
  pose proof (same_family_agree client loc) as Hag. unfold header.
  destruct (same_family client loc) as [[ci cp] [li lp]]; cbn [fst snd sa_ip sa_port is_ipv4] in *.
  set (fam := if is_v4 ci then lit "TCP4" else lit "TCP6").
  assert (∀ l, lit "PROXY " ++ fam ++ [SP] ++ show_ip ci ++ [SP] ++ show_ip li ++ [SP]
            ++ show_dec cp ++ [SP] ++ show_dec lp ++ l
          = join [SP] [lit "PROXY"; fam; show_ip ci; show_ip li; show_dec cp; show_dec lp] ++ l) as Hjoin.
  { intros l. cbn [join]. change (lit "PROXY ") with (lit "PROXY" ++ [SP]). by rewrite <-!app_assoc. }
  unfold decode_v1. fold fam. rewrite Hjoin.
  rewrite (proj2 (strip_suffix_Some crlf _ _) eq_refl). cbn [mbind option_bind].
  unfold is_u16 in *. rewrite split_char_join; [|done|].
  2: { repeat constructor; try by apply show_ip_no_space. all: try (apply show_dec_no_space; lia).
       all: unfold fam; repeat case_match; apply contains_false; done. }
  cbn [negb]. change (eqb_bytes (lit "PROXY") (lit "PROXY")) with true. cbn [negb].
  rewrite !parse_ip_show by done. cbn [mbind option_bind]. unfold parse_u16.
  rewrite !from_str_show_dec by lia. cbn [mbind option_bind]. unfold fam.
  change (is_v4 ci = is_v4 li) in Hag. rewrite <-Hag. by destruct (is_v4 ci).
Qed.

Lemma v1_roundtrip_witness :
  decode_v1 (header PV1 (MkSocketAddr (V4 [203; 0; 113; 7]) 51234)
                        (MkSocketAddr (V6 [8193; 3512; 0; 0; 0; 0; 0; 1]) 443))
  = Some (Announced (MkSocketAddr (V6 [0; 0; 0; 0; 0; 65535; 51968; 28935]) 51234)
                    (MkSocketAddr (V6 [8193; 3512; 0; 0; 0; 0; 0; 1]) 443)).
Proof.
  rewrite v1_roundtrip; [reflexivity| |]; repeat constructor; vm_compute; congruence.
Defined.

(** A version-1 header never exceeds the 107 bytes a receiver has to
    buffer (it is in fact at most 104 bytes long). *)
Theorem v1_length_bound client loc :
  sa_wf client → sa_wf loc → (length (header PV1 client loc) ≤ 104)%nat.
Proof.
  intros Hc Hl. destruct (same_family_wf client loc Hc Hl) as [[Hci Hcp] [Hli Hlp]].
  unfold header. destruct (same_family client loc) as [[ci cp] [li lp]]; cbn [fst snd sa_ip sa_port is_ipv4] in *.
  apply length_show_ip in Hci, Hli. apply length_show_port in Hcp, Hlp.
  rewrite !length_app.
  assert (length (if is_ipv4 (MkSocketAddr ci cp) then lit "TCP4" else lit "TCP6") = 4%nat) as ->
    by (by case_match).
  change (length (lit "PROXY ")) with 6%nat. cbn [length crlf]. lia.
Qed.

Lemma v1_length_bound_witness :
  (length (header PV1 (MkSocketAddr (V6 (replicate 8 65535%Z)) 65535%Z)
                      (MkSocketAddr (V6 (replicate 8 65535%Z)) 65535%Z)) ≤ 104)%nat.
Proof. apply v1_length_bound; repeat constructor; vm_compute; congruence. Defined.

(** A dual-stack listener's IPv4-mapped pair is announced as plain IPv4,
    and whatever the two families are the header carries a single one. *)
Theorem same_family_canonical a b p q c l :
  ip_wf (V4 a) → ip_wf (V4 b) →
  same_family (MkSocketAddr (V6 (to_ipv6_mapped a)) p) (MkSocketAddr (V6 (to_ipv6_mapped b)) q)
    = (MkSocketAddr (V4 a) p, MkSocketAddr (V4 b) q)
  ∧ is_ipv4 (same_family c l).1 = is_ipv4 (same_family c l).2.
Proof.
  intros [Ha Hab] [Hb Hbb]. split; [|apply same_family_agree].
  unfold same_family. cbn [sa_ip to_canonical]. rewrite !to_ipv4_mapped_v6_mapped by done. done.
Qed.

Lemma same_family_canonical_witness :
  same_family (MkSocketAddr (V6 (to_ipv6_mapped [203; 0; 113; 7])) 51234)
              (MkSocketAddr (V6 (to_ipv6_mapped [192; 0; 2; 1])) 443)
  = (MkSocketAddr (V4 [203; 0; 113; 7]) 51234, MkSocketAddr (V4 [192; 0; 2; 1]) 443).
Proof.
  eapply (same_family_canonical _ _ _ _ (MkSocketAddr (V4 []) 0) (MkSocketAddr (V4 []) 0));
    repeat constructor; vm_compute; congruence.
Defined.

(** A probe's header tells a receiver that there is no client and leaves
    the bytes after it untouched; [PNone] writes nothing at all. *)
Theorem probe_header_announces_no_client payload client loc :
  decode_v2 (local_header PV2 ++ payload) = Some (NoClient, payload)
  ∧ decode_v1 (local_header PV1) = Some NoClient
  ∧ local_header PNone = [] ∧ announce PNone payload client loc = payload.
Proof. split_and!; done. Qed.

End ProxyProtocol.
