(* ===== verification/HostUtil.v ===== *)
(** * Host and port specifications (src/hostutil.rs)

    [HostAndPort::from_str] tries four fixed regular expressions in order.
    Each is a concatenation of greedy character-class repetitions, so the
    regex engine's leftmost-first search is the backtracking matcher
    [match_items] below, and the four patterns are data ([SUPPORTED_REGEX_LIST])
    in the order of the source. Patterns are matched on characters: a character
    is the list of its UTF-8 bytes. *)

From S2P Require Import Prelude RustStd.
Open Scope Z_scope.

(** ** Characters *)

Fixpoint chars_go (fuel : nat) (s : bytes) : list bytes :=
  match fuel, s with
  | _, [] => []
  | O, _ => []
  | S fuel, _ => let n := (utf8_step s).2 in take n s :: chars_go fuel (drop n s)
  end.
Definition chars (s : bytes) : list bytes := chars_go (length s) s.

Definition ws_char (c : bytes) : bool :=
  match c with
  | [a] => ws1 a
  | [a; b] => ws2 a b
  | [a; b; c] => ws3 a b c
  | _ => false
  end.

Definition code_point (c : bytes) : Z :=
  match c with
  | [a] => a
  | [a; b] => (a - 192) * 64 + (b - 128)
  | [a; b; c] => (a - 224) * 4096 + (b - 128) * 64 + (c - 128)
  | [a; b; c; d] => (a - 240) * 262144 + (b - 128) * 4096 + (c - 128) * 64 + (d - 128)
  | _ => 0
  end.

(** Unicode general category Nd: blocks of ten consecutive digits. *)
Definition nd_zeros : list Z :=
  [0x30; 0x660; 0x6F0; 0x7C0; 0x966; 0x9E6; 0xA66; 0xAE6; 0xB66; 0xBE6; 0xC66; 0xCE6; 0xD66;
   0xDE6; 0xE50; 0xED0; 0xF20; 0x1040; 0x1090; 0x17E0; 0x1810; 0x1946; 0x19D0; 0x1A80; 0x1A90;
   0x1B50; 0x1BB0; 0x1C40; 0x1C50; 0xA620; 0xA8D0; 0xA900; 0xA9D0; 0xA9F0; 0xAA50; 0xABF0;
   0xFF10; 0x104A0; 0x10D30; 0x10D40; 0x11066; 0x110F0; 0x11136; 0x111D0; 0x112F0; 0x11450;
   0x114D0; 0x11650; 0x116C0; 0x116D0; 0x116DA; 0x11730; 0x118E0; 0x11950; 0x11BF0; 0x11C50;
   0x11D50; 0x11DA0; 0x11F50; 0x16130; 0x16A60; 0x16AC0; 0x16B50; 0x16D70; 0x1D7CE; 0x1D7D8;
   0x1D7E2; 0x1D7EC; 0x1D7F6; 0x1E140; 0x1E2F0; 0x1E4D0; 0x1E5F1; 0x1E950; 0x1FBF0].

Definition nd_char (c : bytes) : bool :=
  let p := code_point c in existsb (λ z, (z <=? p) && (p <=? z + 9)) nd_zeros.

#[global] Arguments nd_char : simpl never.
#[global] Arguments ws_char : simpl never.
#[global] Arguments chars : simpl never.

(** ** Patterns *)

Inductive quantifier := One | Star | Plus.
Record item := Item { cls : bytes → bool; quant : quantifier; capture : bool }.

(** A literal under [(?i)]; [s] also folds to U+017F. *)
Definition ci_char (lower : Z) : item :=
  Item (λ c, match c with
             | [a] => (a =? lower) || (to_ascii_lower a =? lower)
             | [a; b] => (lower =? 115) && (a =? 197) && (b =? 191)
             | _ => false
             end) One false.
Definition WS : item := Item ws_char Star false.
Definition HOST : item := Item (λ c, negb (ws_char c)) Plus true.
Definition PORT : item := Item nd_char Plus true.
Definition ci_word (w : string) : list item := map ci_char (lit w).

(** [^\s*host\s*=\s*(\S+)\s*,\s*port\s*=\s*(\d+)\s*$] *)
Definition re_named : list item :=
  [WS] ++ ci_word "host" ++ [WS; ci_char 61; WS; HOST; WS; ci_char 44; WS]
    ++ ci_word "port" ++ [WS; ci_char 61; WS; PORT; WS].
(** [^\s*(\S+)\s*<sep>\s*(\d+)\s*$] *)
Definition re_sep (sep : Z) : list item := [WS; HOST; WS; ci_char sep; WS; PORT; WS].

Definition SUPPORTED_REGEX_LIST : list (list item) :=
  [re_named; re_sep 58; re_sep 64; re_sep 124].

Fixpoint run_length (p : bytes → bool) (s : list bytes) : nat :=
  match s with
  | c :: s => if p c then S (run_length p s) else O
  | [] => O
  end.

(** The longest admissible repetition first, then shorter ones. *)
Fixpoint try_down {R} (n lo : nat) (f : nat → option R) : option R :=
  if decide (n < lo)%nat then None
  else match f n with
       | Some r => Some r
       | None => match n with O => None | S n => try_down n lo f end
       end.

(** Captures of a match that consumes the whole input. *)
Fixpoint match_items (its : list item) (s : list bytes) : option (list bytes) :=
  match its with
  | [] => match s with [] => Some [] | _ => None end
  | it :: its =>
      let step n :=
        match match_items its (drop n s) with
        | Some caps => Some (if capture it then concat (take n s) :: caps else caps)
        | None => None
        end in
      let run := run_length (cls it) s in
      match quant it with
      | One => if decide (1 ≤ run)%nat then step 1%nat else None
      | Star => try_down run 0 step
      | Plus => try_down run 1 step
      end
  end.

(** ** HostAndPort *)

Record HostAndPort := MkHostAndPort { hp_host : bytes; hp_port : Z }.

Inductive ParseError := InvalidPort (port_str input : bytes) | UnsupportedSpec (input : bytes).

#[global] Instance HostAndPort_eq_dec : EqDecision HostAndPort.
Proof. solve_decision. Defined.

Definition try_match (re : list item) (input : bytes) : option (result ParseError HostAndPort) :=
  match match_items re (chars input) with
  | Some [host; port_str] =>
      match parse_u16 port_str with
      | Some port => Some (Ok (MkHostAndPort host port))
      | None => Some (Err (InvalidPort port_str input))
      end
  | _ => None
  end.

Fixpoint first_match (res : list (list item)) (input : bytes) : result ParseError HostAndPort :=
  match res with
  | [] => Err (UnsupportedSpec input)
  | re :: res =>
      match try_match re input with
      | Some r => r
      | None => first_match res input
      end
  end.

(** [HostAndPort::from_str] *)
Definition from_str (input : bytes) : result ParseError HostAndPort :=
  first_match SUPPORTED_REGEX_LIST input.

Definition parse_or_default (host : bytes) (default_port : Z) : HostAndPort :=
  match from_str host with
  | Ok hp => hp
  | Err _ => MkHostAndPort host default_port
  end.

(** [Display] *)
Definition hp_to_string (hp : HostAndPort) : bytes :=
  hp_host hp ++ [COLON] ++ show_dec (hp_port hp).

(** A host the patterns can capture: some characters, none of them white
    space, in well-formed UTF-8. *)
Definition host_wf (h : bytes) : Prop :=
  utf8_valid h = true ∧ h ≠ [] ∧ Forall (λ c, ws_char c = false) (chars h).

(** ** Matching: what a successful match consumed *)

Lemma try_down_Some {R} n lo (f : nat → option R) r :
  try_down n lo f = Some r → ∃ k, (lo ≤ k ≤ n)%nat ∧ f k = Some r.
Proof.
  induction n as [|n IH]; cbn; case_decide; try done.
  - destruct (f 0%nat) eqn:E; [|done]. intros [= <-]. exists O. split; [lia|done].
  - destruct (f (S n)) eqn:E.
    + intros [= <-]. exists (S n). split; [lia|done].
    + intros H'. destruct (IH H') as (k & Hk & Hf). exists k. split; [lia|done].
Qed.

Lemma try_down_complete {R} n lo (f : nat → option R) k :
  (lo ≤ k ≤ n)%nat → is_Some (f k) → is_Some (try_down n lo f).
Proof.
  intros Hk Hf. induction n as [|n IH]; cbn; rewrite decide_False by lia.
  - assert (k = O) as -> by lia. destruct Hf as [r ->]. eauto.
  - destruct (f (S n)) eqn:E; [eauto|].
    destruct (decide (k = S n)) as [->|]; [rewrite E in Hf; by destruct Hf|]. apply IH. lia.
Qed.

Lemma run_length_take p s n : (n ≤ run_length p s)%nat → Forall (λ c, p c = true) (take n s).
Proof.
  revert n; induction s as [|c s IH]; intros n Hn; cbn in *.
  - assert (n = O) as -> by lia. constructor.
  - destruct (p c) eqn:E; [|assert (n = O) as -> by lia; constructor].
    destruct n; cbn; [constructor|]. constructor; [done|]. apply IH. lia.
Qed.

Lemma run_length_app p s c t :
  Forall (λ c, p c = true) s → p c = false → run_length p (s ++ c :: t) = length s.
Proof. induction 1 as [|x s Hx Hs IH]; intros Hc; cbn; [by rewrite Hc|]. rewrite Hx, IH by done. done. Qed.

Lemma run_length_all p s : Forall (λ c, p c = true) s → run_length p s = length s.
Proof. induction 1 as [|x s Hx Hs IH]; cbn; [done|]. by rewrite Hx, IH. Qed.

Lemma run_length_lower p s t :
  Forall (λ c, p c = true) s → (length s ≤ run_length p (s ++ t))%nat.
Proof. induction 1 as [|x s Hx Hs IH]; cbn; [lia|]. rewrite Hx. lia. Qed.

(** The pieces a match consumes: one per item, in order. *)
Inductive matches : list item → list (list bytes) → Prop :=
| matches_nil : matches [] []
| matches_cons it its w ws :
    Forall (λ c, cls it c = true) w →
    match quant it with One => length w = 1%nat | Star => True | Plus => w ≠ [] end →
    matches its ws → matches (it :: its) (w :: ws).

Fixpoint captures (its : list item) (ws : list (list bytes)) : list bytes :=
  match its, ws with
  | it :: its, w :: ws => if capture it then concat w :: captures its ws else captures its ws
  | _, _ => []
  end.

Lemma match_items_sound its s caps :
  match_items its s = Some caps →
  ∃ ws, matches its ws ∧ s = concat ws ∧ caps = captures its ws.
Proof.
  revert s caps; induction its as [|it its IH]; intros s caps H; cbn in H.
  - destruct s; [|done]. simplify_eq. exists []. split_and!; constructor.
  - set (step := λ n, match match_items its (drop n s) with
        | Some caps => Some (if capture it then concat (take n s) :: caps else caps)
        | None => None end) in *.
    assert (∃ k, (k ≤ run_length (cls it) s)%nat ∧ step k = Some caps ∧
              match quant it with One => k = 1%nat | Star => True | Plus => (1 ≤ k)%nat end)
      as (k & Hk & Hstep & Hq).
    { destruct (quant it).
      - case_decide; [|done]. exists 1%nat. done.
      - apply try_down_Some in H as (k & ? & ?). exists k. split_and!; [lia|done|done].
      - apply try_down_Some in H as (k & ? & ?). exists k. split_and!; [lia|done|lia]. }
    assert (run_length (cls it) s ≤ length s)%nat as Hrun.
    { clear. induction s as [|c s IH]; cbn; [lia|]. destruct (cls it c); lia. }
    unfold step in Hstep. destruct (match_items its (drop k s)) as [caps'|] eqn:E; [|done].
    apply IH in E as (ws & Hws & Hd & ->). exists (take k s :: ws). split_and!.
    + constructor; [by apply run_length_take| |done].
      assert (length (take k s) = k) as Hlen by (rewrite length_take; lia).
      destruct (quant it); [congruence|done|]. intros Hnil. rewrite Hnil in Hlen. cbn in Hlen. lia.
    + cbn. by rewrite <-Hd, take_drop.
    + cbn. destruct (capture it); congruence.
Qed.

Lemma match_items_complete its ws :
  matches its ws → is_Some (match_items its (concat ws)).
Proof.
  induction 1 as [|it its w ws Hw Hq Hws IH]; cbn; [eauto|].
  set (step := λ n, match match_items its (drop n (w ++ concat ws)) with
      | Some caps => Some (if capture it then concat (take n (w ++ concat ws)) :: caps else caps)
      | None => None end).
  assert (is_Some (step (length w))) as Hstep.
  { unfold step. rewrite drop_app_length. destruct IH as [caps ->]. eauto. }
  pose proof (run_length_lower (cls it) w (concat ws) Hw) as Hrun.
  destruct (quant it).
  - rewrite decide_True by lia. by rewrite <-Hq.
  - eapply try_down_complete; [|exact Hstep]. lia.
  - eapply try_down_complete; [|exact Hstep]. destruct w; [done|]. cbn in *. lia.
Qed.

(** The split before a maximal run at the end of a list is unique. *)
Lemma suffix_run_unique {A} (p : A → bool) l1 a d1 l2 b d2 :
  l1 ++ a :: d1 = l2 ++ b :: d2 →
  Forall (λ x, p x = true) d1 → Forall (λ x, p x = true) d2 → p a = false → p b = false →
  l1 = l2 ∧ a = b ∧ d1 = d2.
Proof.
  assert (∀ l1 l2 : list A, l1 ++ a :: d1 = l2 ++ b :: d2 →
    Forall (λ x, p x = true) d1 → Forall (λ x, p x = true) d2 → p a = false → p b = false →
    l1 = l2 ∧ a = b ∧ d1 = d2); [|auto].
  clear l1 l2. induction l1 as [|x l1 IH]; intros [|y l2] H H1 H2 Ha Hb; simplify_eq/=.
  - done.
  - rewrite Forall_app, Forall_cons in H1. destruct H1 as (_ & ? & _). congruence.
  - rewrite Forall_app, Forall_cons in H2. destruct H2 as (_ & ? & _). congruence.
  - edestruct IH as (-> & -> & ->); eauto.
Qed.

(** *** Characters of concatenations *)

Lemma chars_go_app fuel fuel' s t :
  (length s ≤ fuel)%nat → (length (s ++ t) ≤ fuel')%nat → utf8_valid_go (length s) s = true →
  chars_go fuel' (s ++ t) = chars_go fuel s ++ chars_go (fuel' - length (chars_go fuel s)) t.
Proof.
  intros Hf Hf'. assert (∀ k fuel fuel' s, (length s ≤ k)%nat → (length s ≤ fuel)%nat →
    (length (s ++ t) ≤ fuel')%nat → utf8_valid_go k s = true →
    chars_go fuel' (s ++ t) = chars_go fuel s ++ chars_go (fuel' - length (chars_go fuel s)) t) as Hgen;
    [|intros; by apply (Hgen (length s))].
  clear. induction k as [|k IH]; intros fuel fuel' s Hk Hf Hf' Hv.
  { destruct s; [|cbn in Hk; lia]. cbn. destruct fuel; cbn; by rewrite Nat.sub_0_r. }
  destruct s as [|a s].
  { destruct fuel; cbn; by rewrite Nat.sub_0_r. }
  cbn [utf8_valid_go] in Hv. destruct (utf8_step (a :: s)) as [[] n] eqn:E; [|done].
  destruct (utf8_step_app (a :: s) t n ltac:(done) E) as [E' Hn].
  destruct fuel as [|fuel]; [cbn in Hf; lia|]. destruct fuel' as [|fuel']; [cbn in Hf'; lia|].
  change ((a :: s) ++ t) with (a :: (s ++ t)) in *.
  cbn [chars_go]. change (a :: s ++ t) with ((a :: s) ++ t) in *. rewrite E', E. cbn [snd].
  rewrite take_app_le, drop_app_le by lia. cbn [app length]. f_equal.
  cbn [Nat.sub]. apply IH; [rewrite length_drop; cbn in *; lia..| |done].
  rewrite length_app, length_drop. rewrite length_app in Hf'. cbn in *. lia.
Qed.

Lemma concat_chars_go fuel s : (length s ≤ fuel)%nat → utf8_valid_go fuel s = true → concat (chars_go fuel s) = s.
Proof.
  revert s; induction fuel as [|fuel IH]; intros s Hf Hv; destruct s as [|a s]; try done.
  cbn [utf8_valid_go] in Hv. destruct (utf8_step (a :: s)) as [[] n] eqn:E; [|done].
  destruct (utf8_step_app (a :: s) [] n ltac:(done) E) as [_ Hn].
  cbn [chars_go]. rewrite E. cbn [snd concat].
  rewrite IH; [apply take_drop| |done]. rewrite length_drop. cbn in *. lia.
Qed.

Lemma chars_go_ascii fuel s :
  (length s ≤ fuel)%nat → Forall (λ c, c < 128) s → chars_go fuel s = map (λ c, [c]) s.
Proof.
  intros Hf Hs; revert fuel Hf; induction Hs as [|c s Hc Hs IH]; intros fuel Hf.
  - by destruct fuel.
  - destruct fuel as [|fuel]; [cbn in Hf; lia|]. cbn [chars_go utf8_step].
    replace (c <? 128) with true by lia. cbn. f_equal. apply IH. cbn in Hf. lia.
Qed.

Lemma chars_length fuel s : (length (chars_go fuel s) ≤ fuel)%nat.
Proof.
  revert s; induction fuel as [|fuel IH]; intros s; destruct s; cbn; try lia.
  specialize (IH (drop (utf8_step (z :: s)).2 (z :: s))). cbn in IH. lia.
Qed.

Lemma chars_valid_length k fuel s : (length s ≤ k)%nat → utf8_valid_go k s = true →
  (length (chars_go fuel s) ≤ length s)%nat.
Proof.
  revert fuel s; induction k as [|k IH]; intros fuel s Hk Hv.
  - destruct s; [destruct fuel; cbn; lia|cbn in Hk; lia].
  - destruct s as [|a s]; [destruct fuel; cbn; lia|].
    cbn [utf8_valid_go] in Hv. destruct (utf8_step (a :: s)) as [[] n] eqn:E; [|done].
    destruct (utf8_step_app (a :: s) [] n ltac:(done) E) as [_ Hn].
    destruct fuel as [|fuel]; [cbn; lia|]. cbn [chars_go]. rewrite E. cbn [snd length].
    pose proof (IH fuel (drop n (a :: s))) as Hi. rewrite length_drop in Hi. cbn [length] in *.
    specialize (Hi ltac:(lia) Hv). lia.
Qed.

Lemma chars_app_ascii h t :
  utf8_valid h = true → Forall (λ c, c < 128) t →
  chars (h ++ t) = chars h ++ map (λ c, [c]) t.
Proof.
  intros Hv Ht. unfold chars. rewrite (chars_go_app (length h)); [|lia|lia|done]. f_equal.
  apply chars_go_ascii; [|done].
  pose proof (chars_valid_length (length h) (length h) h ltac:(lia) Hv).
  rewrite length_app. lia.
Qed.

Lemma concat_chars s : utf8_valid s = true → concat (chars s) = s.
Proof. intros. by apply concat_chars_go. Qed.

Lemma ci_char_sep sep c :
  (sep < 65 ∨ (90 < sep ∧ sep < 97) ∨ 122 < sep) → cls (ci_char sep) c = true → c = [sep].
Proof.
  intros Hsep. cbn. destruct c as [|a [|b [|]]]; try done.
  - rewrite orb_true_iff, !Z.eqb_eq, to_ascii_lower_eq by done. intros [->| ->]; done.
  - intros H. bool_prop. lia.
Qed.

Ltac inv_matches :=
  repeat match goal with
  | H : matches (_ :: _) _ |- _ => inversion H; clear H; subst
  | H : matches [] _ |- _ => inversion H; clear H; subst
  end.

Lemma snoc_inv {A} (w : list A) : w = [] ∨ ∃ l x, w = l ++ [x].
Proof. destruct w as [|x w] using rev_ind; [by left|right; eauto]. Qed.

Lemma ws_not_nd c : ws_char c = true → nd_char c = false.
Proof.
  unfold ws_char, ws1, ws2, ws3. destruct c as [|a [|b [|c [|]]]]; try done.
  - intros H. assert (a = 9 ∨ a = 10 ∨ a = 11 ∨ a = 12 ∨ a = 13 ∨ a = 32) as Ha by lia.
    by destruct Ha as [->|[->|[->|[->|[->| ->]]]]].
  - intros H. assert (a = 194 ∧ (b = 133 ∨ b = 160)) as [-> Hb] by lia.
    by destruct Hb as [->| ->].
  - intros H.
    assert ((a = 225 ∧ b = 154 ∧ c = 128) ∨ (a = 226 ∧ b = 129 ∧ c = 159) ∨ (a = 227 ∧ b = 128 ∧ c = 128)
      ∨ (a = 226 ∧ b = 128 ∧ (c = 128 ∨ c = 129 ∨ c = 130 ∨ c = 131 ∨ c = 132 ∨ c = 133 ∨ c = 134
        ∨ c = 135 ∨ c = 136 ∨ c = 137 ∨ c = 138 ∨ c = 168 ∨ c = 169 ∨ c = 175))) as Hc by lia.
    naive_solver.
Qed.

(** Every match ends in a separator, optional blanks, a run of digits and
    optional blanks; when the text ends in [sep] and digits, that is where. *)
Lemma match_tail l sep w1 w2 w3 pre d :
  l ++ sep :: w1 ++ w2 ++ w3 = pre ++ [COLON] :: d →
  Forall (λ c, ws_char c = true) w1 → Forall (λ c, nd_char c = true) w2 → w2 ≠ [] →
  Forall (λ c, ws_char c = true) w3 → nd_char sep = false →
  Forall (λ c, nd_char c = true) d → Forall (λ c, ws_char c = false) d → d ≠ [] →
  l = pre ∧ sep = [COLON] ∧ w1 = [] ∧ w2 = d ∧ w3 = [].
Proof.
  intros Heq H1 H2 Hw2 H3 Hsep Hd Hdw Hdne.
  assert (w3 = []) as ->.
  { destruct (snoc_inv w3) as [->|(l' & x & ->)]; [done|]. exfalso.
    destruct (snoc_inv d) as [->|(d' & y & ->)]; [done|].
    apply Forall_app in H3 as [_ H3%Forall_inv]. apply Forall_app in Hdw as [_ Hdw%Forall_inv].
    rewrite !app_comm_cons, !app_assoc in Heq. apply app_inj_tail in Heq as [_ ->].
    cbn in H3, Hdw. congruence. }
  rewrite app_nil_r in Heq.
  assert (w1 = [] ∧ l = pre ∧ sep = [COLON] ∧ w2 = d) as (-> & -> & -> & ->); [|done].
  destruct (snoc_inv w1) as [->|(l' & x & ->)].
  - cbn in Heq. apply (suffix_run_unique nd_char) in Heq as (-> & -> & ->); done.
  - apply Forall_app in H1 as [_ H1%Forall_inv].
    rewrite <-app_assoc, app_comm_cons, (app_assoc l) in Heq. cbn in Heq.
    apply (suffix_run_unique nd_char) in Heq as (_ & -> & _); try done. by apply ws_not_nd.
Qed.

Lemma digits_nd s : Forall (λ c, is_digit c = true) s →
  Forall (λ c, nd_char c = true) (map (λ c, [c]) s) ∧
  Forall (λ c, ws_char c = false) (map (λ c, [c]) s) ∧ Forall (λ c, c < 128) s.
Proof.
  unfold is_digit. induction 1 as [|c s Hc Hs (IH1 & IH2 & IH3)]; [done|]. bool_prop.
  split_and!; constructor; try done; try lia.
  - unfold nd_char, nd_zeros. cbn [existsb code_point].
    replace ((48 <=? c) && (c <=? 48 + 9)) with true by lia. done.
  - unfold ws_char, ws1. lia.
Qed.

Lemma concat_singletons (s : bytes) : concat (map (λ c, [c]) s) = s.
Proof. induction s; cbn; [done|]. by f_equal. Qed.

Lemma matches_app_inv its1 its2 ws :
  matches (its1 ++ its2) ws →
  ∃ ws1 ws2, ws = ws1 ++ ws2 ∧ matches its1 ws1 ∧ matches its2 ws2.
Proof.
  revert ws; induction its1 as [|it its1 IH]; intros ws H; cbn in H.
  - exists [], ws. split_and!; [done|constructor|done].
  - inversion H as [|? ? w ws' Hw Hq Hm]; subst.
    destruct (IH _ Hm) as (ws1 & ws2 & -> & H1 & H2).
    exists (w :: ws1), ws2. split_and!; [done|by constructor|done].
Qed.

(** The tail all four patterns share, decomposed. *)
Lemma matches_tail_inv sep ws :
  matches [ci_char sep; WS; PORT; WS] ws →
  ∃ c w1 w2 w3, ws = [[c]; w1; w2; w3] ∧ cls (ci_char sep) c = true ∧
    Forall (λ c, ws_char c = true) w1 ∧ Forall (λ c, nd_char c = true) w2 ∧ w2 ≠ [] ∧
    Forall (λ c, ws_char c = true) w3.
Proof.
  intros H. inversion H as [|? ? w0 ws0 Hs Hq Hm]; subst; clear H.
  inversion Hm as [|? ? w1 ws1 Hw1 _ Hm1]; subst; clear Hm.
  inversion Hm1 as [|? ? w2 ws2 Hw2 Hq2 Hm2]; subst; clear Hm1.
  inversion Hm2 as [|? ? w3 ws3 Hw3 _ Hm3]; subst; clear Hm2. inversion Hm3; subst.
  cbn in Hq, Hq2. destruct w0 as [|c [|]]; try done.
  exists c, w1, w2, w3. apply Forall_inv in Hs. split_and!; done.
Qed.

Lemma re_named_no_match pre d :
  Forall (λ c, nd_char c = true) d → Forall (λ c, ws_char c = false) d → d ≠ [] →
  match_items re_named (pre ++ [COLON] :: d) = None.
Proof.
  intros Hd Hdw Hdne. destruct (match_items re_named _) as [caps|] eqn:E; [exfalso|done].
  apply match_items_sound in E as (ws & Hm & Heq & _).
  change re_named with (([WS] ++ ci_word "host" ++ [WS; ci_char 61; WS; HOST; WS; ci_char 44; WS]
    ++ ci_word "port" ++ [WS]) ++ [ci_char 61; WS; PORT; WS]) in Hm.
  apply matches_app_inv in Hm as (ws1 & ws2 & -> & _ & Hm).
  apply matches_tail_inv in Hm as (c & w1 & w2 & w3 & -> & Hc & Hw1 & Hw2 & Hne & Hw3).
  apply ci_char_sep in Hc as ->; [|lia].
  rewrite concat_app in Heq. cbn in Heq. rewrite app_nil_r in Heq. symmetry in Heq.
  eapply match_tail in Heq as (_ & Hbad & _); eauto. done.
Qed.

Lemma re_sep_match h d :
  Forall (λ c, ws_char c = false) h → h ≠ [] →
  Forall (λ c, nd_char c = true) d → Forall (λ c, ws_char c = false) d → d ≠ [] →
  match_items (re_sep COLON) (h ++ [COLON] :: d) = Some [concat h; concat d].
Proof.
  intros Hh Hne Hd Hdw Hdne.
  assert (matches (re_sep COLON) [[]; h; []; [[COLON]]; []; d; []]) as Hm.
  { unfold re_sep. repeat (constructor; try done).
    eapply Forall_impl; [exact Hh|]. intros c Hc. cbn. by rewrite Hc. }
  apply match_items_complete in Hm as [caps Hcaps].
  replace (concat [[]; h; []; [[COLON]]; []; d; []]) with (h ++ [COLON] :: d) in Hcaps
    by (cbn; by rewrite app_nil_r).
  rewrite Hcaps. f_equal. apply match_items_sound in Hcaps as (ws & Hm & Heq & ->).
  change (re_sep COLON) with ([WS; HOST; WS] ++ [ci_char COLON; WS; PORT; WS]) in Hm |- *.
  apply matches_app_inv in Hm as (ws1 & ws2 & -> & Hm1 & Hm).
  apply matches_tail_inv in Hm as (c & w1 & w2 & w3 & -> & Hc & Hw1 & Hw2 & Hw2ne & Hw3).
  apply ci_char_sep in Hc as ->; [|unfold COLON; lia].
  inversion Hm1 as [|? ? a0 ? Ha0 _ Hm2]; subst. inversion Hm2 as [|? ? a1 ? Ha1 _ Hm3]; subst.
  inversion Hm3 as [|? ? a2 ? Ha2 _ Hm4]; subst. inversion Hm4; subst.
  rewrite concat_app in Heq. cbn in Heq, Ha0, Ha1, Ha2. rewrite !app_nil_r in Heq. symmetry in Heq.
  eapply match_tail in Heq as (Hpre & _ & -> & -> & ->); eauto.
  assert (∀ w, Forall (λ c, ws_char c = true) w → Forall (λ c, ws_char c = false) w → w = []) as Hboth.
  { intros [|x w] Hx Hy; [done|]. apply Forall_inv in Hx, Hy. congruence. }
  rewrite <-Hpre, !Forall_app in Hh. destruct Hh as (H0 & H1 & H2).
  rewrite (Hboth a0), (Hboth a2) in * by done. cbn in *. rewrite app_nil_r in Hpre. by subst.
Qed.

(** Printing a well-formed pair and parsing it back is the identity. *)
Lemma from_str_to_string hp :
  host_wf (hp_host hp) → is_u16 (hp_port hp) → from_str (hp_to_string hp) = Ok hp.
Proof.
  destruct hp as [h p]. intros (Hv & Hne & Hws) [Hp0 Hp]. unfold hp_to_string. cbn [hp_host hp_port] in *.
  destruct (digits_nd _ (show_dec_digits p Hp0)) as (Hd & Hdw & Hda).
  assert (chars (h ++ [COLON] ++ show_dec p) = chars h ++ [COLON] :: map (λ c, [c]) (show_dec p)) as Hchars.
  { rewrite chars_app_ascii; [done|done|]. constructor; [done|done]. }
  assert (map (λ c, [c]) (show_dec p) ≠ []) as Hdne.
  { pose proof (show_dec_nonempty p). by destruct (show_dec p). }
  assert (chars h ≠ []) as Hhne.
  { intros Hnil. apply Hne. rewrite <-(concat_chars h Hv). by rewrite Hnil. }
  unfold from_str, SUPPORTED_REGEX_LIST. cbn [first_match]. unfold try_match. rewrite Hchars.
  rewrite re_named_no_match by done. rewrite re_sep_match by done.
  rewrite concat_chars by done. rewrite concat_singletons. unfold parse_u16.
  rewrite from_str_show_dec by done. done.
Qed.

(** ** Properties *)

(** [Display] then [FromStr] is the identity on every pair whose host is
    non-empty and free of white space, whatever other characters it has
    (colons of an IPv6 literal, [@], [|], [=] included). *)
Theorem host_and_port_roundtrip hp default :
  host_wf (hp_host hp) → is_u16 (hp_port hp) →
  from_str (hp_to_string hp) = Ok hp ∧ parse_or_default (hp_to_string hp) default = hp.
Proof.
  intros Hh Hp. unfold parse_or_default. rewrite from_str_to_string by done. done.
Qed.

Lemma host_and_port_roundtrip_witness :
  from_str (hp_to_string (MkHostAndPort (lit "[2001:db8::1]") 8443))
  = Ok (MkHostAndPort (lit "[2001:db8::1]") 8443).
Proof.
  apply (host_and_port_roundtrip _ 0).
  - split_and!; [reflexivity|done|]. apply (bool_decide_unpack _). vm_compute. exact I.
  - vm_compute. split; congruence.
Defined.

(** What a successful parse produced: a port of 16 bits and a host that is
    non-empty and free of white space. *)
Lemma from_str_Ok_sound input hp :
  from_str input = Ok hp →
  is_u16 (hp_port hp) ∧ ∃ pre w post,
    w ≠ [] ∧ Forall (λ c, ws_char c = false) w ∧ chars input = pre ++ w ++ post ∧ hp_host hp = concat w.
Proof.
  assert (∀ re, re ∈ SUPPORTED_REGEX_LIST → ∃ f m t, re = f ++ [HOST] ++ m ++ [PORT; WS]
    ∧ Forall (λ it, capture it = false) f ∧ Forall (λ it, capture it = false) m ∧ t = tt) as Hshape.
  { intros re. unfold SUPPORTED_REGEX_LIST. rewrite !elem_of_cons, elem_of_nil.
    intros [->|[->|[->|[->|[]]]]];
      [exists ([WS] ++ ci_word "host" ++ [WS; ci_char 61; WS]), ([WS; ci_char 44; WS] ++ ci_word "port" ++ [WS; ci_char 61; WS]), tt
      |exists [WS], [WS; ci_char 58; WS], tt|exists [WS], [WS; ci_char 64; WS], tt|exists [WS], [WS; ci_char 124; WS], tt];
      (split_and!; [reflexivity|repeat constructor|repeat constructor|done]). }
  unfold from_str. generalize dependent SUPPORTED_REGEX_LIST.
  induction l as [|re res IH]; intros Hshape; cbn [first_match]; [done|].
  destruct (try_match re input) as [r|] eqn:E; [|apply IH; set_solver].
  intros ->. destruct (Hshape re ltac:(set_solver)) as (f & m & _ & -> & Hf & Hm & _).
  unfold try_match in E. destruct (match_items _ _) as [caps|] eqn:Hmi; [|done].
  apply match_items_sound in Hmi as (ws & Hmt & Hin & Hcaps).
  apply matches_app_inv in Hmt as (ws1 & ws' & -> & H1 & Hmt).
  apply matches_app_inv in Hmt as (ws2 & ws'' & -> & H2 & _).
  inversion H2 as [|? ? w ? Hw Hq Hn]; subst. inversion Hn; subst. cbn in Hw, Hq.
  assert (∀ its ws rest ws', matches its ws → Forall (λ it, capture it = false) its →
    captures (its ++ rest) (ws ++ ws') = captures rest ws') as Hskip.
  { induction 1 as [|it its' w' ws0 Hw' Hq' Hms IH']; intros Hc; [done|].
    apply Forall_cons in Hc as [Hc1 Hc2]. cbn. rewrite Hc1. by apply IH'. }
  rewrite Hskip in E by done. cbn [app captures capture HOST] in E.
  destruct (captures (m ++ [PORT; WS]) ws'') as [|port [|]]; try done.
  destruct (parse_u16 port) as [p|] eqn:Hp; [|done]. injection E as <-. cbn. split.
  - apply from_str_radix_bound in Hp; [done|lia|unfold u16_max; lia].
  - exists (concat ws1), w, (concat ws''). split_and!; [done| | |done].
    + eapply Forall_impl; [exact Hw|]. intros c Hc. by apply negb_true_iff.
    + rewrite Hin, !concat_app. cbn [concat app]. by rewrite app_nil_r.
Qed.

(** *** Captured hosts are well-formed *)

Lemma chars_go_fuel fuel fuel' s :
  (length s ≤ fuel)%nat → (length s ≤ fuel')%nat → chars_go fuel s = chars_go fuel' s.
Proof.
  revert fuel' s; induction fuel as [|fuel IH]; intros [|fuel'] [|a s] Hf Hf'; cbn in Hf, Hf'; try done; try lia.
  cbn [chars_go]. destruct (utf8_step (a :: s)) as [ok n] eqn:E. apply utf8_step_progress in E; [|done]. cbn [snd].
  f_equal. apply IH; rewrite length_drop; cbn; lia.
Qed.

Lemma chars_app h t : utf8_valid h = true → chars (h ++ t) = chars h ++ chars t.
Proof.
  intros Hv. unfold chars. rewrite (chars_go_app (length h)); [|lia|lia|done]. f_equal. apply chars_go_fuel; [|lia].
  pose proof (chars_valid_length (length h) (length h) h ltac:(lia) Hv). rewrite length_app. lia.
Qed.

Lemma utf8_step_char c r : c ≠ [] → utf8_step (c ++ r) = (true, length c) → utf8_step c = (true, length c).
Proof.
  intros Hc H. destruct c as [|x1 [|x2 [|x3 [|x4 c]]]]; [done|..]; cbn in H |- *;
    repeat case_match; simplify_eq; try done; try lia; congruence.
Qed.

(** The characters of valid text are valid, and split text exactly. *)
Definition char_wf (c : bytes) : Prop := utf8_valid c = true ∧ chars c = [c].

Lemma chars_wf s : utf8_valid s = true → Forall char_wf (chars s).
Proof.
  revert s. apply utf8_ind; [constructor|]. intros c r Hc Hstep Hr IH. apply utf8_step_char in Hstep; [|done].
  assert (utf8_valid c = true) as Hv by by rewrite utf8_valid_step, Hstep, drop_all.
  rewrite chars_app by done. apply Forall_app. split; [|done].
  assert (chars c = [c]) as Hcc.
  { unfold chars. destruct c as [|x c]; [done|]. cbn [length chars_go]. rewrite Hstep. cbn [snd]. rewrite take_ge, drop_all by lia.
    by destruct (length c). }
  rewrite Hcc. by constructor.
Qed.

Lemma chars_concat w : Forall char_wf w → utf8_valid (concat w) = true ∧ chars (concat w) = w.
Proof.
  induction 1 as [|c w [Hv Hc] Hw [IHv IHc]]; [done|]. cbn [concat]. rewrite utf8_valid_app, chars_app by done.
  by rewrite IHv, Hc, IHc.
Qed.

(** The host of a parsed specification can be printed and parsed again. *)
Lemma from_str_host_wf input hp :
  utf8_valid input = true → from_str input = Ok hp → host_wf (hp_host hp) ∧ is_u16 (hp_port hp).
Proof.
  intros Hv H. apply from_str_Ok_sound in H as (Hp & pre & w & post & Hne & Hws & Hc & ->). split; [|done].
  pose proof (chars_wf input Hv) as Hwf. rewrite Hc, !Forall_app in Hwf. destruct Hwf as (_ & Hwf & _).
  destruct (chars_concat w Hwf) as [Hvw Hcw]. split_and!; [done| |by rewrite Hcw].
  intros E. rewrite E in Hcw. by subst.
Qed.
