(* ===== verification/Stream.v ===== *)
(** * Byte streams: the reader interface and [ConnStream] (src/conn_stream.rs)

    The interception layers read from any [AsyncRead].  The interface
    [AsyncReadOk] states what they rely on: the bytes still to come, and that
    a read delivers a non-empty prefix of them.  [ConnStream] implements the
    interface over any reader that does, and [unread] puts bytes back in
    front. *)

From S2P Require Import Prelude RustStd.
Open Scope Z_scope.

(** The outcome of awaiting one [read] into a non-empty buffer; [RDeadline]
    is the enclosing timeout firing while the read is pending. *)
Inductive read_outcome :=
| RData (d : bytes)
| REof
| RErr
| RDeadline.

Class AsyncRead (S : Type) := poll_read : nat → S → read_outcome * S.

Class AsyncReadOk (S : Type) `{AsyncRead S} := {
  (** The bytes the stream still delivers before it ends or fails. *)
  contents : S → bytes;
  (** Decreases with every read that delivers data. *)
  rmeasure : S → nat;
  read_data n s d s' : (0 < n)%nat → poll_read n s = (RData d, s') →
    d ≠ [] ∧ (length d ≤ n)%nat ∧ contents s = d ++ contents s' ∧ (rmeasure s' < rmeasure s)%nat;
  read_stop n s o s' : (0 < n)%nat → poll_read n s = (o, s') →
    (∀ d, o ≠ RData d) → contents s = [];
}.

(** ** A peer: segments in arrival order, then end of stream *)

Inductive arrival := Seg (d : bytes) | Fail | Late.
Definition Source := list arrival.

#[global] Instance Source_read : AsyncRead Source := λ n s,
  match s with
  | [] => (REof, [])
  | Seg [] :: r => (REof, r)
  | Seg d :: r =>
      if decide (length d ≤ n)%nat then (RData d, r)
      else (RData (take n d), Seg (drop n d) :: r)
  | Fail :: r => (RErr, r)
  | Late :: r => (RDeadline, r)
  end.

Fixpoint source_contents (s : Source) : bytes :=
  match s with
  | Seg [] :: _ => []
  | Seg d :: r => d ++ source_contents r
  | _ => []
  end.
Fixpoint source_measure (s : Source) : nat :=
  match s with
  | Seg d :: r => S (length d + source_measure r)
  | _ :: r => S (source_measure r)
  | [] => O
  end.

#[global] Program Instance Source_read_ok : AsyncReadOk Source := {|
  contents := source_contents; rmeasure := source_measure |}.
Next Obligation.
  intros n s d s' Hn. unfold poll_read, Source_read.
  destruct s as [|[[|x d0]| |] r]; try done. case_decide as Hle; intros [= <- <-].
  - split_and!; [done|done|done|cbn; lia].
  - assert (∃ y e, drop n (x :: d0) = y :: e) as (y & e & He).
    { destruct (drop n (x :: d0)) eqn:E; [|eauto].
      apply (f_equal length) in E. rewrite length_drop in E. cbn in *. lia. }
    split_and!; [by destruct n; [lia|]|rewrite length_take; lia| |].
    + rewrite He. cbn [source_contents]. rewrite <-He, app_assoc, take_drop. done.
    + cbn [source_measure]. rewrite length_drop. cbn. lia.
Qed.
Next Obligation.
  intros n s o s' Hn. unfold poll_read, Source_read.
  destruct s as [|[[|x d0]| |] r]; try done.
  case_decide; intros [= <- <-] Hno; by destruct (Hno _ eq_refl).
Qed.

(** ** ConnStream *)

Record ConnStream (T : Type) := MkConnStream {
  inner : T;
  request_id : Z;
  pushback : bytes;
  pushback_offset : nat;
}.
Arguments MkConnStream {_} _ _ _ _.
Arguments inner {_} _.
Arguments request_id {_} _.
Arguments pushback {_} _.
Arguments pushback_offset {_} _.

(** [ConnStream::with_request_id]; [ConnStream::of] draws a fresh id. *)
Definition with_request_id {T} (t : T) (id : Z) : ConnStream T := MkConnStream t id [] 0.

(** [poll_read]: restored bytes first, released once they are all consumed. *)
#[global] Instance ConnStream_poll_read {T} `{AsyncRead T} : AsyncRead (ConnStream T) := λ n s,
  if decide (pushback_offset s < length (pushback s))%nat then
    let available := drop (pushback_offset s) (pushback s) in
    let count := (length available `min` n)%nat in
    let offset := (pushback_offset s + count)%nat in
    (RData (take count available),
     if decide (offset = length (pushback s))
     then MkConnStream (inner s) (request_id s) [] 0
     else MkConnStream (inner s) (request_id s) (pushback s) offset)
  else
    let '(o, t) := poll_read n (inner s) in
    (o, MkConnStream t (request_id s) (pushback s) (pushback_offset s)).

(** [unread]: the given bytes, then what is left of earlier pushback. *)
Definition unread {T} (b : bytes) (s : ConnStream T) : ConnStream T :=
  match b with
  | [] => s
  | _ => MkConnStream (inner s) (request_id s) (b ++ drop (pushback_offset s) (pushback s)) 0
  end.

Section conn_stream.
Context {T : Type} `{AsyncReadOk T}.

Definition conn_contents (s : ConnStream T) : bytes :=
  drop (pushback_offset s) (pushback s) ++ contents (inner s).
Definition conn_measure (s : ConnStream T) : nat :=
  (length (drop (pushback_offset s) (pushback s)) + rmeasure (inner s))%nat.

#[global] Program Instance ConnStream_read_ok : AsyncReadOk (ConnStream T) := {|
  contents := conn_contents; rmeasure := conn_measure |}.
Next Obligation.
  intros n s d s' Hn. unfold poll_read, ConnStream_poll_read, conn_contents, conn_measure.
  case_decide as Hoff.
  - intros [= <- <-]. set (av := drop (pushback_offset s) (pushback s)).
    assert (length av = (length (pushback s) - pushback_offset s)%nat) as Hav by apply length_drop.
    set (k := (length av `min` n)%nat).
    assert (0 < k ≤ length av)%nat as Hk by (unfold k; lia).
    assert (length (take k av) = k) as Htk by (rewrite length_take; lia).
    assert (take k av ≠ []) by (intros E; rewrite E in Htk; cbn in Htk; lia).
    split_and!; [done|unfold k in *; lia| |].
    + case_decide as Hend; cbn [inner pushback pushback_offset].
      * assert (k = length av) as -> by lia. by rewrite take_ge by lia.
      * rewrite <-drop_drop. fold av. by rewrite app_assoc, take_drop.
    + case_decide as Hend; cbn [inner pushback pushback_offset]; [cbn; lia|].
      rewrite <-drop_drop. fold av. rewrite length_drop. lia.
  - destruct (poll_read n (inner s)) as [o t] eqn:E. intros [= -> <-]. cbn.
    rewrite drop_ge by lia. destruct (read_data n _ _ _ Hn E) as (? & ? & ? & ?). done.
Qed.
Next Obligation.
  intros n s o s' Hn. unfold poll_read, ConnStream_poll_read, conn_contents.
  case_decide as Hoff; [intros [= <- <-] Hno; by destruct (Hno _ eq_refl)|].
  destruct (poll_read n (inner s)) as [o' t] eqn:E. intros [= -> <-] Hno.
  rewrite drop_ge by lia. by apply (read_stop n _ _ _ Hn E).
Qed.

Lemma contents_unread b (s : ConnStream T) : contents (unread b s) = b ++ contents s.
Proof.
  destruct b as [|x b]; [done|]. cbn [contents ConnStream_read_ok unread]. unfold conn_contents.
  cbn [pushback pushback_offset inner]. by rewrite drop_0, <-app_assoc.
Qed.

End conn_stream.

(** ** Reading to the end *)

Section read_all.
Context {S : Type} `{AsyncReadOk S}.

(** [read_to_end] with a buffer of [n] bytes; the measure of the stream is
    enough fuel. *)
Fixpoint read_all_go (fuel n : nat) (s : S) : bytes * S :=
  match fuel with
  | O => ([], s)
  | Datatypes.S fuel =>
      match poll_read n s with
      | (RData d, s') => let '(r, s'') := read_all_go fuel n s' in (d ++ r, s'')
      | (_, s') => ([], s')
      end
  end.
Definition read_all (n : nat) (s : S) : bytes := (read_all_go (Datatypes.S (rmeasure s)) n s).1.

Lemma read_all_go_contents fuel n s :
  (0 < n)%nat → (rmeasure s < fuel)%nat → (read_all_go fuel n s).1 = contents s.
Proof.
  intros Hn. revert s; induction fuel as [|fuel IH]; intros s Hf; [lia|]. cbn.
  destruct (poll_read n s) as [o s'] eqn:E. destruct o as [d| | |].
  - destruct (read_data n s d s' Hn E) as (_ & _ & Hc & Hm).
    specialize (IH s' ltac:(lia)). destruct (read_all_go fuel n s') as [r s'']. cbn in *.
    by rewrite Hc, IH.
  - symmetry. by apply (read_stop n s _ _ Hn E).
  - symmetry. by apply (read_stop n s _ _ Hn E).
  - symmetry. by apply (read_stop n s _ _ Hn E).
Qed.

Lemma read_all_contents n s : (0 < n)%nat → read_all n s = contents s.
Proof. intros. apply read_all_go_contents; [done|lia]. Qed.

End read_all.

(** ** Properties *)

(** Restoring bytes onto a stream is exact: whatever was restored before
    and whatever chunk size the next layer reads with, it sees the restored
    bytes in order and then the rest of the connection. *)
Theorem unread_then_read {T} `{AsyncReadOk T} (b : bytes) (s : ConnStream T) (n : nat) :
  (0 < n)%nat → read_all n (unread b s) = b ++ contents s.
Proof. intros Hn. rewrite read_all_contents by done. apply contents_unread. Qed.

Lemma unread_then_read_witness :
  read_all 3 (unread (lit "GET ") (unread (lit "/") (with_request_id [Seg (lit "abc"); Seg (lit "d")] 7)))
  = lit "GET /abcd".
Proof. rewrite (unread_then_read (T := Source)) by lia. reflexivity. Defined.

(** Peeking is undone by [unread]: after any one read of a connection,
    pushing the delivered bytes back restores its contents. *)
Theorem unread_undoes_read {T} `{AsyncReadOk T} (s s' : ConnStream T) (d : bytes) (n : nat) :
  (0 < n)%nat → poll_read n s = (RData d, s') → contents (unread d s') = contents s.
Proof.
  intros Hn E. rewrite contents_unread. by destruct (read_data n s d s' Hn E) as (_ & _ & -> & _).
Qed.

Lemma unread_undoes_read_witness :
  contents (unread (lit "ab") (MkConnStream [Seg (lit "cd")] 7 (lit "abxy") 2))
  = contents (MkConnStream [Seg (lit "cd")] 7 (lit "abxy") 0).
Proof.
  apply (unread_undoes_read (T := Source) (MkConnStream [Seg (lit "cd")] 7 (lit "abxy") 0) _ _ 2);
    [lia|reflexivity].
Defined.
