(* ===== verification/TlsHeader.v ===== *)
(** * ClientHello interception (src/tls_header.rs)

    [read_client_hello] feeds the socket's bytes to rustls' [Acceptor] until
    it yields a ClientHello.  The acceptor is a third-party state machine: its
    state, [accept] and [read_tls] are parameters.  [extract_client_random]
    is the program's own record parser. *)

From S2P Require Import Prelude RustStd Stream.
Open Scope Z_scope.

Definition DEFAULT_MAX_CLIENT_HELLO_SIZE : Z := 64 * 1024.

Record ClientHello := MkClientHello {
  sni_host : bytes;
  alpn_protocols : list bytes;
  random : bytes;
  buffered : bytes;
}.

Inductive hello_error :=
| HelloTimedOut
| HelloNoSni
| HelloNoRandom
| HelloInvalid
| HelloTooLarge
| HelloReadFailed
| HelloClosed
| HelloBufferFailed
| HelloOutOfFuel.

(** ** The record parser *)

Definition HANDSHAKE_PREFIX : nat := 4 + 2.
Definition NEEDED : nat := HANDSHAKE_PREFIX + 32.

(** The [while] loop: [rest] is [buffered[offset..]]. Every round consumes a
    five-byte header, so the length of the buffer is enough fuel. *)
Fixpoint reassemble (fuel : nat) (handshake rest : bytes) : option bytes :=
  if decide (NEEDED ≤ length handshake)%nat then Some handshake
  else match fuel with
  | O => None
  | S fuel =>
      match rest with
      | ty :: _ :: _ :: l1 :: l0 :: payload =>
          if negb (ty =? 22) then None
          else
            let record_len := Z.to_nat (l1 * 256 + l0) in
            reassemble fuel (handshake ++ take record_len payload) (drop record_len payload)
      | _ => None
      end
  end.

Definition extract_client_random (buffered : bytes) : option bytes :=
  handshake ← reassemble (S (length buffered)) [] buffered;
  match handshake with
  | h :: _ => if h =? 1 then Some (take 32 (drop HANDSHAKE_PREFIX handshake)) else None
  | [] => None
  end.

(** ** The read loop *)

Section acceptor.
(** rustls: the acceptor's state, what [accept] answers and [read_tls]. *)
Context {A : Type}.
Inductive accept_result :=
| Accepted (server_name : option bytes) (alpn : option (list bytes))
| NeedMore
| Rejected.
Context (acceptor_default : A).
Context (accept : A → accept_result * A).
Context (read_tls : A → bytes → option A).
Context {S : Type} `{AsyncReadOk S}.

Fixpoint read_client_hello_go (fuel : nat) (max_size : Z) (acceptor : A) (buffered : bytes) (reader : S)
  : result hello_error ClientHello * S :=
  match fuel with
  | O => (Err HelloOutOfFuel, reader)
  | Datatypes.S fuel =>
      match accept acceptor with
      | (Accepted server_name alpn, _) =>
          (sni ← ok_or server_name HelloNoSni;
           random ← ok_or (extract_client_random buffered) HelloNoRandom;
           Ok (MkClientHello sni (default [] alpn) random buffered), reader)
      | (Rejected, _) => (Err HelloInvalid, reader)
      | (NeedMore, acceptor) =>
          if (max_size <=? Z.of_nat (length buffered)) then (Err HelloTooLarge, reader)
          else
            let read_size := Z.to_nat (Z.min (max_size - Z.of_nat (length buffered)) 4096) in
            match poll_read read_size reader with
            | (RDeadline, reader) => (Err HelloTimedOut, reader)
            | (RErr, reader) => (Err HelloReadFailed, reader)
            | (REof, reader) => (Err HelloClosed, reader)
            | (RData chunk, reader) =>
                match read_tls acceptor chunk with
                | Some acceptor => read_client_hello_go fuel max_size acceptor (buffered ++ chunk) reader
                | None => (Err HelloBufferFailed, reader)
                end
            end
      end
  end.

(** The timeout of [read_client_hello] is the deadline of the reads inside. *)
Definition read_client_hello (reader : S) (max_size : Z) : result hello_error ClientHello * S :=
  read_client_hello_go (Datatypes.S (rmeasure reader)) max_size acceptor_default [] reader.

Lemma read_client_hello_go_spec fuel max_size acceptor buf reader r reader' :
  (rmeasure reader < fuel)%nat → Z.of_nat (length buf) ≤ Z.max 0 max_size →
  read_client_hello_go fuel max_size acceptor buf reader = (r, reader') →
  r ≠ Err HelloOutOfFuel ∧
  ∀ hello, r = Ok hello →
    buffered hello ++ contents reader' = buf ++ contents reader ∧
    Z.of_nat (length (buffered hello)) ≤ Z.max 0 max_size ∧
    extract_client_random (buffered hello) = Some (random hello).
Proof.
  revert acceptor buf reader; induction fuel as [|fuel IH]; intros acceptor buf reader Hf Hb; [lia|].
  cbn [read_client_hello_go]. destruct (accept acceptor) as [[sn al| |] acc'].
  - intros [= <- <-]. destruct sn as [sn|]; cbn [mbind result_bind ok_or]; [|err_case].
    destruct (extract_client_random buf) as [rnd|] eqn:Er; cbn [mbind result_bind ok_or]; [|err_case].
    split; [done|]. intros hello [= <-]. done.
  - destruct (Z.leb_spec max_size (Z.of_nat (length buf))) as [|Hlt]; [intros [= <- <-]; err_case|].
    set (n := Z.to_nat (Z.min (max_size - Z.of_nat (length buf)) 4096)).
    destruct (poll_read n reader) as [o rd] eqn:E. destruct o as [d| | |]; try (intros [= <- <-]; err_case).
    destruct (read_data n reader d rd ltac:(unfold n; lia) E) as (_ & Hlen & Hc & Hm).
    destruct (read_tls acc' d) as [acc''|]; [|intros [= <- <-]; err_case].
    intros Hgo. apply IH in Hgo as [Hne Hok]; [|lia|rewrite length_app; unfold n in Hlen; lia].
    split; [done|]. intros hello Hr. destruct (Hok hello Hr) as (Heq & ? & ?).
    split_and!; [|done|done]. by rewrite Heq, Hc, app_assoc.
  - intros [= <- <-]. err_case.
Qed.

(** Reading a ClientHello always produces a result (the loop never runs
    out of the stream's measure), never buffers more than [max_size] bytes,
    and is lossless: the buffered bytes followed by what the connection still
    holds are exactly what it held, and the random is that of the buffer. *)
Lemma read_client_hello_lossless reader max_size r reader' :
  read_client_hello reader max_size = (r, reader') →
  r ≠ Err HelloOutOfFuel ∧
  ∀ hello, r = Ok hello →
    buffered hello ++ contents reader' = contents reader ∧
    Z.of_nat (length (buffered hello)) ≤ Z.max 0 max_size ∧
    extract_client_random (buffered hello) = Some (random hello).
Proof.
  unfold read_client_hello. intros Hr. apply read_client_hello_go_spec in Hr; [done|lia|cbn; lia].
Qed.

End acceptor.

(** An acceptor that recognises a whole handshake record by its length. *)
Definition sample_accept (seen : bytes) : accept_result * bytes :=
  (if decide (43 ≤ length seen)%nat then Accepted (Some (lit "a.example")) None else NeedMore, seen).
Definition sample_hello : bytes := [22; 3; 1; 0; 38; 1; 0; 0; 34; 3; 3] ++ seq_bytes 32.

(** ** Fragmentation *)

(** One TLS handshake record carrying [payload]. *)
Definition handshake_record (payload : bytes) : bytes :=
  [22; 3; 1] ++ u16_be (Z.of_nat (length payload)) ++ payload.

Lemma reassemble_records fuel acc records tail :
  Forall (λ p, (Z.of_nat (length p) ≤ u16_max)) records →
  (length records < fuel)%nat → (NEEDED ≤ length (acc ++ concat records))%nat →
  ∃ more, reassemble fuel acc (concat (map handshake_record records) ++ tail) = Some more ∧
    (NEEDED ≤ length more)%nat ∧ more `prefix_of` acc ++ concat records.
Proof.
  intros Hr; revert fuel acc; induction Hr as [|p records Hp Hr IH]; intros fuel acc Hf Hlen.
  - cbn in Hlen. rewrite app_nil_r in Hlen. destruct fuel; [lia|]. cbn [reassemble].
    rewrite decide_True by done. exists acc. split_and!; [done|done|]. apply prefix_app_r. done.
  - destruct fuel as [|fuel]; [cbn in Hf; lia|]. cbn [reassemble]. case_decide as Hn.
    { exists acc. split_and!; [done|done|]. by apply prefix_app_r. }
    cbn [map concat]. unfold handshake_record at 1. rewrite <-!app_assoc. cbn [app u16_be].
    change (22 =? 22) with true. cbn [negb].
    pose proof (Z.div_mod (Z.of_nat (length p)) 256).
    replace (Z.to_nat _) with (length p) by lia.
    rewrite take_app_length, drop_app_length.
    destruct (IH fuel (acc ++ p)) as (more & Hmore & Hl & Hpre).
    + cbn in Hf. lia.
    + cbn in Hlen. by rewrite <-app_assoc.
    + exists more. split_and!; [done|done|]. by rewrite <-app_assoc in Hpre.
Qed.

Lemma take_drop_prefix (a b : bytes) i n :
  a `prefix_of` b → (i + n ≤ length a)%nat → take n (drop i a) = take n (drop i b).
Proof.
  intros [c ->] Hl. rewrite drop_app_le by lia. rewrite take_app_le; [done|]. rewrite length_drop. lia.
Qed.

(** The random is recovered from every fragmentation: however the peer
    cuts a ClientHello handshake message into records (empty records
    included) and whatever follows the last one, the 32 bytes after the
    handshake header and legacy version are returned. *)
Theorem extract_client_random_fragmented records hdr rnd body tail :
  Forall (λ p, Z.of_nat (length p) ≤ u16_max) records →
  concat records = 1 :: hdr ++ rnd ++ body → length hdr = 5%nat → length rnd = 32%nat →
  extract_client_random (concat (map handshake_record records) ++ tail) = Some rnd.
Proof.
  intros Hr Hc Hh Hrnd. unfold extract_client_random.
  assert (length records ≤ length (concat (map handshake_record records) ++ tail))%nat as Hfuel.
  { rewrite length_app. clear. induction records as [|p records IH]; cbn; [lia|].
    rewrite length_app. lia. }
  destruct (reassemble_records (S (length (concat (map handshake_record records) ++ tail))) [] records tail)
    as (more & -> & Hl & Hpre); [done|lia| |].
  { cbn [app]. rewrite Hc. cbn. rewrite !length_app. unfold NEEDED, HANDSHAKE_PREFIX. lia. }
  cbn [mbind option_bind app] in *. rewrite Hc in Hpre. destruct more as [|h more]; [unfold NEEDED in Hl; cbn in Hl; lia|].
  pose proof Hpre as Hpre'. apply prefix_cons_inv_1 in Hpre' as ->. change (1 =? 1) with true. cbn [negb].
  f_equal. rewrite (take_drop_prefix _ _ _ _ Hpre) by (unfold NEEDED in Hl; lia).
  change (1 :: hdr ++ rnd ++ body) with ((1 :: hdr) ++ rnd ++ body).
  rewrite drop_app_length' by (cbn; lia). rewrite take_app_length' by done. done.
Qed.

Lemma extract_client_random_fragmented_witness :
  extract_client_random
    (concat (map handshake_record [[1; 0]; []; [0; 34; 3] ++ 3 :: seq_bytes 20; drop 20 (seq_bytes 32) ++ [9; 9]]) ++ [1; 2])
  = Some (seq_bytes 32).
Proof.
  apply (extract_client_random_fragmented _ [0; 0; 34; 3; 3] (seq_bytes 32) [9; 9]); [|reflexivity..].
  repeat constructor; vm_compute; congruence.
Defined.
