(* ===== verification/HelloCache.v ===== *)
(** * Self-connection loop detection (src/hello_cache.rs)

    A cache of the identifiers recently sent upstream.  [by_key] is the
    [HashMap], [by_insertion] the [VecDeque], front first; an [Instant] is a
    [Z] and [Instant::now()] an argument.  [Spec] below is the promise: a map
    from identifiers to expiry times that is never cleaned up. *)

From S2P Require Import Prelude RustStd.
Open Scope Z_scope.

Definition DEFAULT_TTL : Z := 10.

Section cache.
Context {K : Type} `{Countable K}.

Record Cache := MkCache {
  by_key : gmap K Z;
  by_insertion : list (K * Z);
}.

Definition cache_new : Cache := MkCache ∅ [].

(** The [while] loop pops expired nodes off the front. *)
Fixpoint evict_go (now : Z) (m : gmap K Z) (q : list (K * Z)) : Cache :=
  match q with
  | [] => MkCache m []
  | (k, expires_at) :: q' =>
      if now <? expires_at then MkCache m q
      else evict_go now (if decide (m !! k = Some expires_at) then delete k m else m) q'
  end.
Definition evict_expired (now : Z) (c : Cache) : Cache := evict_go now (by_key c) (by_insertion c).

Definition cache_insert (now ttl : Z) (k : K) (c : Cache) : Cache :=
  let c := evict_expired now c in
  let expires_at := now + ttl in
  MkCache (<[k := expires_at]> (by_key c)) (by_insertion c ++ [(k, expires_at)]).

Definition cache_is_looped (now : Z) (k : K) (c : Cache) : bool * Cache :=
  let found := by_key c !! k in
  let c := MkCache (delete k (by_key c)) (by_insertion c) in
  (match found with Some expires_at => now <? expires_at | None => false end, c).

(** ** Runs: timestamped calls on one locked cache *)

Inductive call := Insert (k : K) | IsLooped (k : K).

Definition cache_step (c : Cache) (ev : Z * call) : option bool * Cache :=
  match ev with
  | (now, Insert k) => (None, cache_insert now DEFAULT_TTL k c)
  | (now, IsLooped k) => let '(b, c) := cache_is_looped now k c in (Some b, c)
  end.

Fixpoint cache_run (c : Cache) (evs : list (Z * call)) : list (option bool) * Cache :=
  match evs with
  | [] => ([], c)
  | ev :: evs =>
      let '(a, c) := cache_step c ev in
      let '(l, c) := cache_run c evs in (a :: l, c)
  end.

(** The clock is monotonic: the calls happen at non-decreasing times from [t]. *)
Fixpoint clock_from (t : Z) (evs : list (Z * call)) : Prop :=
  match evs with
  | [] => True
  | (now, _) :: evs => t ≤ now ∧ clock_from now evs
  end.

(** ** The promise *)

Abbreviation Spec := (gmap K Z).
Definition spec_step (m : Spec) (ev : Z * call) : option bool * Spec :=
  match ev with
  | (now, Insert k) => (None, <[k := now + DEFAULT_TTL]> m)
  | (now, IsLooped k) =>
      (Some (match m !! k with Some e => now <? e | None => false end), delete k m)
  end.
Fixpoint spec_run (m : Spec) (evs : list (Z * call)) : list (option bool) * Spec :=
  match evs with
  | [] => ([], m)
  | ev :: evs =>
      let '(a, m) := spec_step m ev in
      let '(l, m) := spec_run m evs in (a :: l, m)
  end.

(** At time [t] the cache holds every entry of the promise that has not
    expired, and nothing else. *)
Definition simulates (t : Z) (c : Cache) (m : Spec) : Prop :=
  (∀ k e, m !! k = Some e → t < e → by_key c !! k = Some e) ∧ by_key c ⊆ m.

Lemma evict_go_keeps now m q k e : now < e → m !! k = Some e → by_key (evict_go now m q) !! k = Some e.
Proof.
  intros Hlt. revert m; induction q as [|[k' e'] q IH]; intros m Hk; cbn; [done|].
  destruct (Z.ltb_spec now e'); [done|]. apply IH. case_decide as Hd; [|done].
  rewrite lookup_delete_ne; [done|]. intros ->. simplify_eq. lia.
Qed.

Lemma evict_go_sub now m q : by_key (evict_go now m q) ⊆ m.
Proof.
  revert m; induction q as [|[k' e'] q IH]; intros m; cbn; [done|].
  destruct (now <? e'); [done|]. etrans; [apply IH|]. case_decide; [apply delete_subseteq|done].
Qed.

Lemma simulates_step t now c m op :
  t ≤ now → simulates t c m →
  (cache_step c (now, op)).1 = (spec_step m (now, op)).1 ∧
  simulates now (cache_step c (now, op)).2 (spec_step m (now, op)).2.
Proof.
  intros Ht [Hall Hsub]. destruct op as [k|k]; cbn.
  - split; [done|]. split; cbn.
    + intros k' e He Hlt. destruct (decide (k = k')) as [->|]; [by rewrite !lookup_insert_eq in *|].
      rewrite lookup_insert_ne in * by done. apply evict_go_keeps; [done|]. apply Hall; [done|lia].
    + apply insert_mono. etrans; [apply evict_go_sub|done].
  - assert (by_key c !! k = m !! k ∨ by_key c !! k = None ∧ ∃ e, m !! k = Some e ∧ e ≤ t) as Hk.
    { destruct (by_key c !! k) as [e|] eqn:E; [left; symmetry; by eapply lookup_weaken|].
      destruct (m !! k) as [e|] eqn:Em; [|by left]. right. split; [done|]. exists e. split; [done|].
      apply Z.nlt_ge. intros Hlt. by rewrite (Hall k e Em Hlt) in E. }
    split.
    + destruct Hk as [->|(-> & e & -> & He)]; [done|]. f_equal. symmetry. apply Z.ltb_ge. lia.
    + split; cbn; [|by apply delete_mono].
      intros k' e He Hlt. destruct (decide (k = k')) as [->|]; [by rewrite lookup_delete_eq in He|].
      rewrite lookup_delete_ne in * by done. apply Hall; [done|lia].
Qed.

Lemma simulates_run t c m evs :
  clock_from t evs → simulates t c m → (cache_run c evs).1 = (spec_run m evs).1.
Proof.
  revert t c m; induction evs as [|[now op] evs IH]; intros t c m Hc Hs; cbn [cache_run spec_run]; [done|].
  destruct Hc as [Ht Hc]. destruct (simulates_step t now c m op Ht Hs) as [Ha Hs'].
  destruct (cache_step c (now, op)) as [a c'], (spec_step m (now, op)) as [a' m']. cbn in *.
  specialize (IH now c' m' Hc Hs').
  destruct (cache_run c' evs), (spec_run m' evs). cbn in *. congruence.
Qed.

(** ** Retention *)

(** The nodes a run has pushed, oldest first. *)
Fixpoint inserted (evs : list (Z * call)) : list (K * Z) :=
  match evs with
  | [] => []
  | (now, Insert k) :: evs => (k, now + DEFAULT_TTL) :: inserted evs
  | (_, IsLooped _) :: evs => inserted evs
  end.

Definition live (now : Z) (q : list (K * Z)) : list (K * Z) := List.filter (λ n, now <? n.2) q.

Definition ordered (q : list (K * Z)) : Prop := Sorted (λ a b, a.2 ≤ b.2) q.

Lemma ordered_strong q : ordered q → StronglySorted (λ a b : K * Z, a.2 ≤ b.2) q.
Proof. apply Sorted_StronglySorted. intros ???; lia. Qed.

(** On an expiry-ordered deque, popping from the front finds every expired node. *)
Lemma evict_go_live now m q :
  StronglySorted (λ a b : K * Z, a.2 ≤ b.2) q → by_insertion (evict_go now m q) = live now q.
Proof.
  intros Hs; revert m; induction Hs as [|[k e] q Hs IH Hall]; intros m; cbn; [done|].
  destruct (Z.ltb_spec now e) as [Hlt|Hge]; cbn; [|apply IH].
  f_equal. clear IH Hs. induction Hall as [|[k' e'] q He Hall IH]; cbn in *; [done|].
  replace (now <? e') with true by lia. by f_equal.
Qed.

Lemma evict_go_accounted now m q :
  (∀ k e, m !! k = Some e → (k, e) ∈ q) →
  ∀ k e, by_key (evict_go now m q) !! k = Some e → (k, e) ∈ by_insertion (evict_go now m q).
Proof.
  revert m; induction q as [|[k' e'] q IH]; intros m Hm k e; cbn; [apply Hm|].
  destruct (now <? e'); [apply Hm|]. apply IH. intros k0 e0 Hk0. case_decide as Hd.
  - rewrite lookup_delete_Some in Hk0. destruct Hk0 as [Hne Hk0].
    apply Hm in Hk0. set_solver.
  - apply Hm in Hk0 as Hin. rewrite elem_of_cons in Hin. destruct Hin as [[= -> ->]|]; done.
Qed.

(** What the deque holds between calls: the pushed nodes that had not expired
    when an insert last swept it ([swept]), in expiry order; and every map
    entry has a node. *)
Definition retained (swept last : Z) (pushed : list (K * Z)) (c : Cache) : Prop :=
  by_insertion c = live swept pushed ∧ ordered pushed ∧ swept ≤ last ∧
  Forall (λ n, n.2 ≤ last + DEFAULT_TTL) pushed ∧
  (∀ k e, by_key c !! k = Some e → (k, e) ∈ by_insertion c).

Lemma live_live a b q : a ≤ b → live b (live a q) = live b q.
Proof.
  intros Hab. induction q as [|[k e] q IH]; cbn; [done|].
  destruct (Z.ltb_spec a e), (Z.ltb_spec b e); cbn; try lia; try done.
  - replace (b <? e) with true by lia. by f_equal.
  - by replace (b <? e) with false by lia.
Qed.

Lemma live_ordered a q : ordered q → StronglySorted (λ a b : K * Z, a.2 ≤ b.2) (live a q).
Proof.
  intros Hs%ordered_strong. induction Hs as [|[k e] q Hs IH Hall]; cbn; [constructor|].
  destruct (a <? e); [|done]. constructor; [done|]. cbn.
  rewrite Forall_forall in *. intros x Hx%list_elem_of_In%filter_In. apply Hall.
  apply list_elem_of_In. tauto.
Qed.

Lemma ordered_snoc q n b :
  ordered q → Forall (λ x : K * Z, x.2 ≤ b) q → b ≤ n.2 → ordered (q ++ [n]).
Proof.
  intros Ho Hb Hn. unfold ordered. induction Ho as [|x q Ho IH Hx]; cbn; [by repeat constructor|].
  apply Forall_cons in Hb as [Hxb Hb]. constructor; [by apply IH|].
  destruct Hx; cbn; constructor; [lia|done].
Qed.

Lemma retained_insert swept last pushed c now k :
  last ≤ now → retained swept last pushed c →
  retained now now (pushed ++ [(k, now + DEFAULT_TTL)]) (cache_insert now DEFAULT_TTL k c) ∧
  by_insertion (cache_insert now DEFAULT_TTL k c) = live now pushed ++ [(k, now + DEFAULT_TTL)].
Proof.
  intros Hl (Hq & Ho & Hs & Hb & Hk).
  assert (by_insertion (evict_expired now c) = live now pushed) as Hev.
  { unfold evict_expired. rewrite Hq, evict_go_live by by apply live_ordered. apply live_live. lia. }
  assert (by_insertion (cache_insert now DEFAULT_TTL k c) = live now pushed ++ [(k, now + DEFAULT_TTL)]) as Hins.
  { cbn. by rewrite Hev. }
  split; [|done]. split_and!; [|eapply ordered_snoc; [done|done|cbn; lia]|lia| |].
  - rewrite Hins. unfold live. rewrite List.filter_app. cbn.
    replace (now <? now + DEFAULT_TTL) with true; [done|]. unfold DEFAULT_TTL. lia.
  - apply Forall_app. split; [|by repeat constructor].
    eapply Forall_impl; [exact Hb|]. cbn. intros; lia.
  - intros k' e Hk'. rewrite Hins, <-Hev. cbn in Hk'. rewrite lookup_insert_Some in Hk'.
    destruct Hk' as [[-> <-]|[_ Hk']]; [set_solver|].
    rewrite elem_of_app. left. by apply evict_go_accounted.
Qed.

Lemma retained_run swept last pushed c evs :
  clock_from last evs → retained swept last pushed c →
  ∃ swept' last', retained swept' last' (pushed ++ inserted evs) (cache_run c evs).2 ∧
    (∀ now, clock_from last (evs ++ [now]) → last' ≤ now.1).
Proof.
  revert swept last pushed c; induction evs as [|[now [k|k]] evs IH]; intros swept last pushed c Hc Hr;
    cbn [cache_run inserted cache_step].
  - exists swept, last. rewrite app_nil_r. split; [done|]. intros [now ?]. cbn. tauto.
  - destruct Hc as [Hl Hc]. destruct (retained_insert _ _ _ _ now k Hl Hr) as [Hr' _].
    destruct (IH _ _ _ _ Hc Hr') as (s & l & Hret & Hclk).
    destruct (cache_run _ evs) as [? c'] eqn:E. exists s, l. rewrite <-app_assoc in Hret. split; [done|].
    intros now' [_ Hcl]. by apply Hclk.
  - destruct Hc as [Hl Hc].
    destruct (IH swept now pushed (cache_is_looped now k c).2 Hc) as (s & l & Hret & Hclk).
    { destruct Hr as (Hq & Ho & Hs & Hb & Hk). split_and!; [done|done|lia| |].
      - eapply Forall_impl; [exact Hb|]. cbn. intros; lia.
      - cbn. intros k' e Hk'. rewrite lookup_delete_Some in Hk'. apply Hk. tauto. }
    cbn [cache_is_looped]. cbn [cache_is_looped snd] in Hret. destruct (cache_run _ evs) as [? c'] eqn:E. exists s, l. split; [done|].
    intros now' [_ Hcl]. by apply Hclk.
Qed.

Lemma retained_new t : retained t t [] cache_new.
Proof. split_and!; [done|constructor|lia|constructor|]. intros k e. cbn. by rewrite lookup_empty. Qed.

Lemma clock_from_app_l t evs evs' : clock_from t (evs ++ evs') → clock_from t evs.
Proof. revert t; induction evs as [|[? ?] evs IH]; intros t; cbn; [done|]. naive_solver. Qed.

End cache.
Arguments Cache _ {_ _}.
Arguments call _ : clear implicits.
Arguments cache_new {_ _ _}.

(** ** Request tokens *)

(** [{:032x}]: at least 32 digits, zero-padded. *)
Definition pad32 (s : bytes) : bytes := repeat 48 (32 - length s) ++ s.

(** [mint_request_token]: formats a random [u128] and registers it. *)
Definition mint_request_token (random now : Z) (c : Cache bytes) : bytes * Cache bytes :=
  let token := pad32 (show_hex random) in
  (token, cache_insert now DEFAULT_TTL token c).

Definition request_token_is_looped (now : Z) (token : bytes) (c : Cache bytes) : bool * Cache bytes :=
  cache_is_looped now token c.

(** ** Properties *)

Section properties.
Context {K : Type} `{Countable K}.
Implicit Types evs : list (Z * call K).

(** C32: lazy eviction is invisible: on every sequence of calls at
    non-decreasing times the cache answers like a map that never evicts. *)
Theorem cache_refines_spec t evs :
  clock_from t evs → (cache_run cache_new evs).1 = (spec_run ∅ evs).1.
Proof.
  intros Hc. apply (simulates_run t); [done|]. split; cbn; [|done].
  intros k e. by rewrite lookup_empty.
Qed.

(** Memory is bounded by the traffic of one TTL: after an insert the
    deque holds exactly the nodes pushed within the last TTL plus the new
    one, and every map entry has its node in the deque. *)
Theorem cache_retention t evs now k :
  clock_from t (evs ++ [(now, Insert k)]) →
  let c := cache_insert now DEFAULT_TTL k (cache_run cache_new evs).2 in
  by_insertion c = live now (inserted evs) ++ [(k, now + DEFAULT_TTL)] ∧
  ∀ k' e, by_key c !! k' = Some e → (k', e) ∈ by_insertion c.
Proof.
  intros Hc. destruct (retained_run t t [] cache_new evs (clock_from_app_l _ _ _ Hc) (retained_new t))
    as (s & l & Hret & Hl).
  specialize (Hl (now, Insert k) Hc). cbn in Hl.
  destruct (retained_insert _ _ _ _ now k Hl Hret) as [(_ & _ & _ & _ & Hk) Hq].
  cbn zeta. split; [exact Hq|exact Hk].
Qed.

End properties.

Lemma cache_refines_spec_witness :
  (cache_run cache_new [(0, Insert 1); (5, Insert 2); (11, Insert 3); (12, IsLooped 2); (12, IsLooped 2); (13, IsLooped 1)]).1
  = [None; None; None; Some true; Some false; Some false].
Proof.
  rewrite (cache_refines_spec 0) by (cbn; lia). vm_compute. reflexivity.
Defined.

Lemma cache_retention_witness :
  by_insertion (cache_insert 11 DEFAULT_TTL 3 (cache_run cache_new [(0, Insert 1); (5, Insert 2)]).2)
  = [(2, 15); (3, 21)].
Proof.
  destruct (cache_retention 0 [(0, Insert 1); (5, Insert 2)] 11 3 ltac:(cbn; lia)) as [Hq _].
  cbn zeta in Hq. rewrite Hq. vm_compute. reflexivity.
Defined.

(** A minted token that comes back within the TTL is recognised as a
    loop exactly once, whatever the cache held. *)
Theorem minted_token_detected_once random now now' c :
  now' < now + DEFAULT_TTL →
  let '(token, c) := mint_request_token random now c in
  let '(hit, c) := request_token_is_looped now' token c in
  hit = true ∧ ∀ later, (request_token_is_looped later token c).1 = false.
Proof.
  intros Ht. cbn. rewrite lookup_insert_eq. split; [lia|]. intros later. by rewrite lookup_delete_eq.
Qed.

Lemma minted_token_detected_once_witness :
  let '(token, c) := mint_request_token 255 7 cache_new in
  let '(hit, c) := request_token_is_looped 16 token c in
  hit = true ∧ ∀ later, (request_token_is_looped later token c).1 = false.
Proof. apply (minted_token_detected_once 255 7 16 cache_new). vm_compute. reflexivity. Defined.
