(* ===== verification/AcmeChallenge.v ===== *)
(** * The TLS-ALPN-01 challenge registry (src/acme_challenge.rs)

    A map from domains to the certificate that answers the pending challenge.
    Certificate construction calls rcgen, sha2 and rustls: their operations
    are the parameters of [make_challenge_certificate].  [Instant::now()] is
    an argument. *)

From S2P Require Import Prelude RustStd Stream.
Open Scope Z_scope.

Definition TLS_ALPN_PROTOCOL : bytes := lit "acme-tls/1".
Definition DEFAULT_GATE_TTL : Z := 10 * 60.
Definition ACME_IDENTIFIER_OID : list Z := [1; 3; 6; 1; 5; 5; 7; 1; 31].
Definition u64_wrap (n : Z) : Z := n mod (u64_max + 1).

Inductive challenge_error :=
| InvalidDomain
| KeyGeneration
| BadParams
| SigningFailed
| KeyLoading.

Definition normalize_domain (domain : bytes) : result challenge_error bytes :=
  let domain := to_ascii_lowercase (trim_end_char DOT (trim domain)) in
  if bool_decide (domain = []) || contains SLASH domain || contains 0 domain
  then Err InvalidDomain else Ok domain.

(** ** The challenge certificate *)

Record CustomExtension := MkExtension { oid : list Z; content : bytes; critical : bool }.
Record CertificateParams := MkParams {
  subject_alt_names : list bytes;
  not_before : Z;
  not_after : Z;
  custom_extensions : list CustomExtension;
}.

Section certificate.
Context {KeyPair Der Signer : Type}.
(** rcgen *)
Context (generate : option KeyPair).
Context (params_new : list bytes → option CertificateParams).
Context (self_signed : CertificateParams → KeyPair → option Der).
(** sha2 and rustls *)
Context (sha256 : bytes → bytes).
Context (load_private_key : KeyPair → option Signer).

Definition make_challenge_certificate (now : Z) (domain key_authorization : bytes)
  : result challenge_error (Der * Signer) :=
  key ← ok_or generate KeyGeneration;
  params ← ok_or (params_new [domain]) BadParams;
  let der_value := [4; 32] ++ sha256 key_authorization in
  let extension := MkExtension ACME_IDENTIFIER_OID der_value true in
  let params := MkParams (subject_alt_names params) (now - 60) (now + 15 * 60)
                  (custom_extensions params ++ [extension]) in
  cert ← ok_or (self_signed params key) SigningFailed;
  signer ← ok_or (load_private_key key) KeyLoading;
  Ok (cert, signer).

End certificate.

(** ** The registry *)

Record ChallengeEntry (CertifiedKey : Type) := MkEntry {
  certificate : CertifiedKey;
  expires_at : Z;
  nonce : Z;
}.
Arguments MkEntry {_} _ _ _.
Arguments certificate {_} _.
Arguments expires_at {_} _.
Arguments nonce {_} _.
Record ChallengeGuard := MkGuard { guard_domain : bytes; guard_nonce : Z }.

Section registry.
Context {CertifiedKey : Type}.
Context (make_cert : bytes → bytes → result challenge_error CertifiedKey).
(** [Arc<Mutex<HashMap<String, ChallengeEntry>>>] *)
Abbreviation ChallengeRegistry := (gmap bytes (ChallengeEntry CertifiedKey)).

Definition register (now ttl : Z) (domain key_authorization : bytes) (entries : ChallengeRegistry)
  : result challenge_error (ChallengeGuard * ChallengeRegistry) :=
  domain ← normalize_domain domain;
  certificate ← make_cert domain key_authorization;
  let nonce := match entries !! domain with Some e => u64_wrap (nonce e + 1) | None => 1 end in
  Ok (MkGuard domain nonce, <[domain := MkEntry certificate (now + ttl) nonce]> entries).

Definition challenge_resolve (now : Z) (domain : bytes) (entries : ChallengeRegistry)
  : option CertifiedKey * ChallengeRegistry :=
  match normalize_domain domain with
  | Err _ => (None, entries)
  | Ok domain =>
      match entries !! domain with
      | None => (None, entries)
      | Some entry =>
          if expires_at entry <=? now then (None, delete domain entries)
          else (Some (certificate entry), entries)
      end
  end.

Definition purge_expired (now : Z) (entries : ChallengeRegistry) : ChallengeRegistry :=
  filter (λ '(_, entry), now < expires_at entry) entries.

(** [Drop for ChallengeGuard] *)
Definition drop_guard (g : ChallengeGuard) (entries : ChallengeRegistry) : ChallengeRegistry :=
  match entries !! guard_domain g with
  | Some entry => if nonce entry =? guard_nonce g then delete (guard_domain g) entries else entries
  | None => entries
  end.

(** [accept_buffered] hands the acceptor the stream with the peeked bytes
    restored. *)
Definition accept_buffered_stream {T} (buffered : bytes) (stream : ConnStream T) : ConnStream T :=
  unread buffered stream.

(** ** Steps of the tasks that share the registry *)

Inductive registry_step : ChallengeRegistry → ChallengeRegistry → Prop :=
| StepRegister now ttl domain ka entries g entries' :
    register now ttl domain ka entries = Ok (g, entries') → registry_step entries entries'
| StepResolve now domain entries :
    registry_step entries (challenge_resolve now domain entries).2
| StepPurge now entries : registry_step entries (purge_expired now entries)
| StepDrop g entries : registry_step entries (drop_guard g entries).

(** The nonce a domain's entry carries, and how far it is past [n]. *)
Definition nonce_at (entries : ChallengeRegistry) (d : bytes) : option Z := nonce <$> entries !! d.

(** A run during which [d] stays registered: [k] counts its re-registrations. *)
Inductive keeps_registered (d : bytes) : nat → ChallengeRegistry → ChallengeRegistry → Prop :=
| keeps_refl entries : keeps_registered d 0 entries entries
| keeps_other k entries entries' entries'' :
    keeps_registered d k entries entries' → registry_step entries' entries'' →
    entries'' !! d = entries' !! d → keeps_registered d k entries entries''
| keeps_again k entries entries' entries'' now ttl domain ka n :
    keeps_registered d k entries entries' →
    register now ttl domain ka entries' = Ok (MkGuard d n, entries'') →
    keeps_registered d (S k) entries entries''.

Lemma register_spec now ttl domain ka entries g entries' :
  register now ttl domain ka entries = Ok (g, entries') →
  ∃ d c, normalize_domain domain = Ok d ∧ make_cert d ka = Ok c ∧
    g = MkGuard d (match entries !! d with Some e => u64_wrap (nonce e + 1) | None => 1 end) ∧
    entries' = <[d := MkEntry c (now + ttl) (guard_nonce g)]> entries.
Proof.
  unfold register. intros H. apply bind_Ok_inv in H as (d & Hd & H).
  apply bind_Ok_inv in H as (c & Hc & H). simplify_eq. eauto 10.
Qed.

Lemma keeps_nonce d k entries entries' n :
  keeps_registered d k entries entries' → nonce_at entries d = Some n →
  is_Some (nonce_at entries' d) ∧
  (u64_wrap n = n → nonce_at entries' d = Some (u64_wrap (n + Z.of_nat k))).
Proof.
  intros Hk Hn. induction Hk as [entries|k entries e1 e2 Hk IH Hs Heq|k entries e1 e2 now ttl domain ka m Hk IH Hr].
  - split; [eauto|]. intros Hw. rewrite Z.add_0_r, Hw. done.
  - unfold nonce_at in *. rewrite Heq. by apply IH.
  - destruct (IH Hn) as [[n1 Hn1] Hval].
    apply register_spec in Hr as (d' & c & _ & _ & [= <- ->] & ->).
    unfold nonce_at in *. rewrite lookup_insert_eq. split; [by eauto|].
    intros Hw. specialize (Hval Hw). cbn. destruct (e1 !! d) as [e|]; [|done]. cbn in Hval.
    simplify_eq. f_equal. replace (nonce e) with (u64_wrap (n + Z.of_nat k)) by congruence.
    unfold u64_wrap. rewrite Z.add_mod_idemp_l by done. f_equal. lia.
Qed.

End registry.

(** ** Properties *)

Section properties.
Context {CertifiedKey : Type}.
Context (make_cert : bytes → bytes → result challenge_error CertifiedKey).

(** A registration is served until it expires and never after: resolving
    the registered name (or any spelling with the same normal form) before
    the deadline returns the certificate and keeps the entry; from the
    deadline on it returns nothing and drops the entry. *)
Theorem registered_until_expiry now ttl domain spelling ka entries g entries' t :
  register make_cert now ttl domain ka entries = Ok (g, entries') →
  normalize_domain spelling = normalize_domain domain →
  ∃ cert, make_cert (guard_domain g) ka = Ok cert ∧
    challenge_resolve t spelling entries' =
      if now + ttl <=? t then (None, delete (guard_domain g) entries') else (Some cert, entries').
Proof.
  intros (d & c & Hd & Hc & -> & ->)%register_spec Hsp. exists c. split; [done|].
  unfold challenge_resolve. rewrite Hsp, Hd, lookup_insert_eq. done.
Qed.

(** An older guard does not remove a newer registration as long as the
    domain stayed registered in between: after at least one and fewer than
    2^64 re-registrations, interleaved with any other steps that keep the
    entry, dropping the old guard changes nothing. *)
Theorem stale_guard_is_harmless now ttl domain ka entries g e1 e2 k :
  register make_cert now ttl domain ka entries = Ok (g, e1) →
  keeps_registered make_cert (guard_domain g) k e1 e2 →
  (1 ≤ k)%nat → Z.of_nat k ≤ u64_max →
  drop_guard g e2 = e2 ∧ is_Some (e2 !! guard_domain g).
Proof.
  intros (d & c & Hd & Hc & Hg & He1)%register_spec Hk Hk1 Hk2.
  assert (nonce_at e1 (guard_domain g) = Some (guard_nonce g)) as Hn.
  { subst. unfold nonce_at. by rewrite lookup_insert_eq. }
  assert (u64_wrap (guard_nonce g) = guard_nonce g) as Hw.
  { subst g. cbn. destruct (entries !! d); [|done]. unfold u64_wrap. by rewrite Z.mod_mod. }
  destruct (keeps_nonce _ _ _ _ _ _ Hk Hn) as [_ Hval]. specialize (Hval Hw).
  unfold nonce_at in Hval. unfold drop_guard.
  destruct (e2 !! guard_domain g) as [e|]; [|done]. split; [|eauto].
  cbn in Hval. injection Hval as Hval. destruct (Z.eqb_spec (nonce e) (guard_nonce g)) as [Heq|]; [|done].
  exfalso. rewrite Hval in Heq.
  unfold u64_wrap, u64_max in *. pose proof (Z.mod_pos_bound (guard_nonce g) (18446744073709551615 + 1)).
  destruct (Z.lt_ge_cases (guard_nonce g + Z.of_nat k) (18446744073709551615 + 1)).
  - rewrite Z.mod_small in Heq by lia. lia.
  - rewrite <-(Z_mod_plus_full _ (-1)), Z.mod_small in Heq by lia. lia.
Qed.

(** Once the entry is gone the numbering restarts, so a guard outliving
    its registration removes a newer one: register, expire and purge,
    register again, drop the first guard - the second registration no longer
    resolves although it has not expired. *)
Theorem stale_guard_after_purge t1 ttl t2 t3 domain ka ka' entries g1 e1 g2 e2 :
  normalize_domain domain = Ok (guard_domain g1) → entries !! guard_domain g1 = None →
  register make_cert t1 ttl domain ka entries = Ok (g1, e1) → t1 + ttl ≤ t2 →
  register make_cert t2 ttl domain ka' (purge_expired t2 e1) = Ok (g2, e2) →
  g2 = g1 ∧ (challenge_resolve t3 domain (drop_guard g1 e2)).1 = None.
Proof.
  intros Hd Hnone (d & c & Hd' & Hc & Hg1 & He1)%register_spec Ht
    (d2 & c2 & Hd2 & Hc2 & Hg2 & He2)%register_spec.
  simplify_eq/=. rewrite Hd in *. simplify_eq/=.
  assert (purge_expired t2 (<[d2:=MkEntry c (t1 + ttl) 1]> entries) !! d2 = None) as Hp.
  { unfold purge_expired. apply map_lookup_filter_None. right. intros e.
    rewrite lookup_insert_eq. intros [= <-]. cbn. lia. }
  rewrite Hnone, Hp in *. split; [done|].
  unfold drop_guard. cbn. rewrite lookup_insert_eq. cbn. unfold challenge_resolve.
  rewrite Hd, delete_insert_eq. case_match; [|done]. by rewrite lookup_delete_eq in *.
Qed.

End properties.

Definition sample_cert (d ka : bytes) : result challenge_error (bytes * bytes) := Ok (d, ka).

Definition sample_entries : gmap bytes (ChallengeEntry (bytes * bytes)) :=
  <[lit "a" := MkEntry (lit "a", lit "k") 610 1]> ∅.

Lemma registered_until_expiry_witness :
  ∃ cert, sample_cert (lit "a") (lit "k") = Ok cert ∧
    challenge_resolve 605 (lit "A") sample_entries =
      if 10 + 600 <=? 605 then (None, delete (lit "a") sample_entries) else (Some cert, sample_entries).
Proof.
  apply (registered_until_expiry sample_cert 10 600 (lit " a.") (lit "A") (lit "k") ∅
    (MkGuard (lit "a") 1) sample_entries 605); vm_compute; reflexivity.
Defined.

Lemma stale_guard_is_harmless_witness :
  drop_guard (MkGuard (lit "a") 1) (<[lit "a" := MkEntry (lit "a", lit "k2") 700 2]> ∅)
  = <[lit "a" := MkEntry (lit "a", lit "k2") 700 2]> ∅.
Proof.
  refine (proj1 (stale_guard_is_harmless sample_cert 10 600 (lit "a") (lit "k") ∅
    (MkGuard (lit "a") 1) sample_entries _ 1 _ _ _ _)).
  - vm_compute. reflexivity.
  - eapply (keeps_again _ _ 0 _ _ _ 100 600 (lit "a") (lit "k2") 2); [apply keeps_refl|]. vm_compute. reflexivity.
  - lia.
  - unfold u64_max. lia.
Defined.

Lemma stale_guard_after_purge_witness :
  (challenge_resolve 621 (lit "a")
    (drop_guard (MkGuard (lit "a") 1) (<[lit "a" := MkEntry (lit "a", lit "k2") 1220 1]> ∅))).1 = None.
Proof.
  refine (proj2 (stale_guard_after_purge sample_cert 10 600 620 621 (lit "a") (lit "k") (lit "k2") ∅
    (MkGuard (lit "a") 1) sample_entries
    (MkGuard (lit "a") 1) _ _ _ _ _ _)).
  - vm_compute. reflexivity.
  - vm_compute. reflexivity.
  - vm_compute. reflexivity.
  - lia.
  - vm_compute. reflexivity.
Defined.
