(* ===== verification/BindAddr.v ===== *)
(** * Bind addresses (src/bindaddr.rs)

    The host's interface list ([if_addrs::get_if_addrs]) is a parameter: a
    list of name/address pairs in the order the system reports them, or
    nothing when the call fails. *)

From S2P Require Import Prelude RustStd Net.
Open Scope Z_scope.

Inductive Family := FamV4 | FamV6.

Inductive BindPattern :=
| Literal (s : bytes)
| Interface (name : bytes) (family : Family) (port : option Z).

Inductive bind_error :=
| MissingClose
| UnknownFamily
| EmptyInterface
| BadPort
| ExpectedPort
| NoInterfaceList
| InterfaceNotFound (available : list bytes)
| NoAddress (addresses : list bytes).

Definition PERCENT : byte := 37.

Definition parse_bind_pattern (input : bytes) : result bind_error BindPattern :=
  let trimmed := trim input in
  match trimmed with
  | 37 :: rest =>
      '(inner, after) ← ok_or (split_once PERCENT rest) MissingClose;
      '(name, family) ←
        match split_once SLASH inner with
        | None => Ok (inner, FamV4)
        | Some (name, suffix) =>
            if eqb_bytes suffix (lit "v4") then Ok (name, FamV4)
            else if eqb_bytes suffix (lit "v6") then Ok (name, FamV6)
            else Err UnknownFamily
        end;
      guard! negb (bool_decide (name = [])) else EmptyInterface;
      port ← match after with
             | [] => Ok None
             | c :: port =>
                 if c =? COLON then p ← ok_or (parse_u16 port) BadPort; Ok (Some p)
                 else Err ExpectedPort
             end;
      Ok (Interface name family port)
  | _ => Ok (Literal trimmed)
  end.

Record IfAddr := MkIfAddr { if_name : bytes; if_ip : IpAddr }.

(** The closure of [find]; link-local IPv6 addresses (fe80::/10) are skipped. *)
Definition usable (family : Family) (ip : IpAddr) : bool :=
  match family, ip with
  | FamV4, V4 _ => true
  | FamV6, V6 s => negb (Z.land (nth 0 s 0) 65472 =? 65152)
  | _, _ => false
  end.

Definition render (ip : IpAddr) (port : option Z) : bytes :=
  match ip, port with
  | V6 v6, Some port => lit "[" ++ show_v6 v6 ++ lit "]:" ++ show_dec port
  | ip, Some port => show_ip ip ++ lit ":" ++ show_dec port
  | ip, None => show_ip ip
  end.

(** [names.sort(); names.dedup()] for the message. *)
Fixpoint insert_sorted (x : bytes) (l : list bytes) : list bytes :=
  match l with
  | [] => [x]
  | y :: l' => if bytes_le x y then x :: l else y :: insert_sorted x l'
  end.
Definition sort_names (l : list bytes) : list bytes := foldr insert_sorted [] l.
Fixpoint dedup (l : list bytes) : list bytes :=
  match l with
  | [] => []
  | x :: l' =>
      match l' with
      | [] => [x]
      | y :: _ => if eqb_bytes x y then dedup l' else x :: dedup l'
      end
  end.

Section resolve.
Context (get_if_addrs : option (list IfAddr)).

Definition resolve_bind_addr (input : bytes) : result bind_error bytes :=
  pattern ← parse_bind_pattern input;
  match pattern with
  | Literal literal => Ok literal
  | Interface name family port =>
      interfaces ← ok_or get_if_addrs NoInterfaceList;
      let matching := List.filter (λ i, eqb_bytes (if_name i) name) interfaces in
      guard! negb (bool_decide (length matching = 0%nat))
        else InterfaceNotFound (dedup (sort_names (map if_name interfaces)));
      match List.find (usable family) (map if_ip matching) with
      | None => Err (NoAddress (map (λ i, show_ip (if_ip i)) matching))
      | Some ip => Ok (render ip port)
      end
  end.

End resolve.

(** ** Properties *)

Lemma find_first {A} (f : A → bool) l x :
  List.find f l = Some x → ∃ pre post, l = pre ++ x :: post ∧ f x = true ∧ Forall (λ y, f y = false) pre.
Proof.
  induction l as [|a l IH]; cbn; [done|]. destruct (f a) eqn:Ha.
  - intros [= ->]. exists [], l. done.
  - intros Hf. destruct (IH Hf) as (pre & post & -> & Hx & Hpre). exists (a :: pre), post. eauto using Forall_cons_2.
Qed.

(** The text form of an interface pattern. *)
Definition show_family (f : Family) : bytes := match f with FamV4 => lit "/v4" | FamV6 => lit "/v6" end.
Definition show_pattern (name : bytes) (f : Family) (port : option Z) : bytes :=
  PERCENT :: name ++ show_family f ++ PERCENT ::
  match port with Some p => COLON :: show_dec p | None => [] end.

Lemma show_pattern_trim name f port :
  match port with Some p => is_u16 p | None => True end →
  trim (show_pattern name f port) = show_pattern name f port.
Proof.
  intros Hp. assert (∃ t d, show_pattern name f port = t ++ [d] ∧ graphic d = true) as (t & d & Heq & Hd).
  { unfold show_pattern. destruct port as [p|].
    - destruct Hp as [Hp _]. pose proof (show_dec_digits p Hp) as Hd. pose proof (show_dec_nonempty p) as Hne.
      destruct (exists_last Hne) as (t & d & E). rewrite E in *.
      apply Forall_app in Hd as [_ Hd]. apply Forall_singleton, is_digit_graphic in Hd.
      exists (PERCENT :: name ++ show_family f ++ PERCENT :: COLON :: t), d. split; [|done].
      cbn. by rewrite <-!app_assoc.
    - exists (PERCENT :: name ++ show_family f), PERCENT. split; [|done]. cbn. by rewrite <-!app_assoc. }
  eapply trim_graphic; [done|exact Hd|exact Heq].
Qed.

(** An interface pattern means what it says: every non-empty name without
    '%' and '/', either family and every port (or none) is read back exactly
    from its text, surrounding white space aside. *)
Theorem bind_pattern_roundtrip name f port :
  name ≠ [] → PERCENT ∉ name → SLASH ∉ name →
  match port with Some p => is_u16 p | None => True end →
  parse_bind_pattern (show_pattern name f port) = Ok (Interface name f port).
Proof.
  intros Hne Hpc Hsl Hp. unfold parse_bind_pattern. rewrite show_pattern_trim by done.
  unfold show_pattern at 1. cbn [PERCENT].
  assert (split_once PERCENT (name ++ show_family f ++ PERCENT ::
    match port with Some p => COLON :: show_dec p | None => [] end)
    = Some (name ++ show_family f, match port with Some p => COLON :: show_dec p | None => [] end)) as ->.
  { apply split_once_Some. rewrite <-app_assoc. split; [done|]. rewrite elem_of_app.
    intros [?|Hin]; [done|]. destruct f; vm_compute in Hin; set_solver. }
  cbn [ok_or mbind result_bind].
  assert (split_once SLASH (name ++ show_family f) = Some (name, tail (show_family f))) as ->.
  { apply split_once_Some. split; [by destruct f|done]. }
  assert (∀ B (k : bytes * Family → result bind_error B),
    ((if eqb_bytes (tail (show_family f)) (lit "v4") then Ok (name, FamV4)
     else if eqb_bytes (tail (show_family f)) (lit "v6") then Ok (name, FamV6) else Err UnknownFamily) ≫= k)
    = k (name, f)) as ->.
  { intros. by destruct f. }
  cbn. rewrite bool_decide_false by done. cbn. destruct port as [p|]; cbn; [|done].
  unfold parse_u16. destruct Hp as [? ?]. by rewrite from_str_show_dec.
Qed.

Lemma bind_pattern_roundtrip_witness :
  parse_bind_pattern (lit "%eth0/v6%:442") = Ok (Interface (lit "eth0") FamV6 (Some 442)).
Proof.
  apply (bind_pattern_roundtrip (lit "eth0") FamV6 (Some 442)).
  - done.
  - vm_compute. set_solver.
  - vm_compute. set_solver.
  - unfold is_u16, u16_max. lia.
Defined.

(** An interface pattern resolves to the first address, in the system's
    order, that belongs to the named interface, has the requested family and
    is not IPv6 link-local, rendered with the pattern's port; when there is
    no such address resolution fails. *)
Theorem resolve_interface_first_usable ifs input name family port :
  parse_bind_pattern input = Ok (Interface name family port) →
  match resolve_bind_addr (Some ifs) input with
  | Ok s => ∃ pre i post, ifs = pre ++ i :: post ∧ if_name i = name ∧ usable family (if_ip i) = true ∧
      Forall (λ j, if_name j = name → usable family (if_ip j) = false) pre ∧ s = render (if_ip i) port
  | Err _ => Forall (λ j, if_name j = name → usable family (if_ip j) = false) ifs
  end.
Proof.
  intros Hp. unfold resolve_bind_addr. rewrite Hp. cbn [mbind result_bind ok_or]. clear Hp.
  assert (List.find (usable family) (map if_ip (List.filter (λ i, eqb_bytes (if_name i) name) ifs))
    = if_ip <$> List.find (λ i, eqb_bytes (if_name i) name && usable family (if_ip i)) ifs) as Hfind.
  { induction ifs as [|i ifs IH]; cbn; [done|]. destruct (eqb_bytes (if_name i) name); cbn; [|done].
    by destruct (usable family (if_ip i)). }
  set (g := λ i, eqb_bytes (if_name i) name && usable family (if_ip i)) in *.
  assert (∀ j, g j = false → if_name j = name → usable family (if_ip j) = false) as Hg.
  { intros j. unfold g. intros Hj Hn%eqb_bytes_spec. by rewrite Hn in Hj. }
  destruct (List.find g ifs) as [i|] eqn:Hf.
  - destruct (find_first _ _ _ Hf) as (pre & post & Heq & Hi & Hpre).
    assert (length (List.filter (λ i, eqb_bytes (if_name i) name) ifs) ≠ 0%nat) as Hlen.
    { intros Hz%length_zero_iff_nil. by rewrite Hz in Hfind. }
    rewrite bool_decide_false by done. cbn [negb]. rewrite Hfind. cbn.
    unfold g in Hi. bool_prop. exists pre, i, post. split_and!; [done|by apply eqb_bytes_spec|done| |done].
    eapply Forall_impl; [exact Hpre|]. done.
  - rewrite Hfind. cbn.
    assert (Forall (λ j, if_name j = name → usable family (if_ip j) = false) ifs) as Hall.
    { rewrite Forall_forall. intros j Hj. apply Hg. eapply find_none; [exact Hf|]. by apply list_elem_of_In. }
    by destruct (negb _).
Qed.

Lemma resolve_interface_first_usable_witness :
  resolve_bind_addr (Some [MkIfAddr (lit "lo") (V4 [127; 0; 0; 1]);
    MkIfAddr (lit "eth0") (V6 [65152; 0; 0; 0; 0; 0; 0; 1]); MkIfAddr (lit "eth0") (V6 [8193; 3512; 0; 0; 0; 0; 0; 1])])
    (lit "%eth0/v6%:443") = Ok (lit "[2001:db8::1]:443") ∧
  match resolve_bind_addr (Some [MkIfAddr (lit "lo") (V4 [127; 0; 0; 1])]) (lit "%eth0%") with
  | Ok s => ∃ pre i post, [MkIfAddr (lit "lo") (V4 [127; 0; 0; 1])] = pre ++ i :: post ∧ if_name i = lit "eth0"
      ∧ usable FamV4 (if_ip i) = true ∧ Forall (λ j, if_name j = lit "eth0" → usable FamV4 (if_ip j) = false) pre
      ∧ s = render (if_ip i) None
  | Err _ => Forall (λ j, if_name j = lit "eth0" → usable FamV4 (if_ip j) = false) [MkIfAddr (lit "lo") (V4 [127; 0; 0; 1])]
  end.
Proof.
  split; [vm_compute; reflexivity|].
  apply (resolve_interface_first_usable [MkIfAddr (lit "lo") (V4 [127; 0; 0; 1])] (lit "%eth0%") (lit "eth0") FamV4 None).
  vm_compute. reflexivity.
Defined.
