(* ===== verification/FilePath.v ===== *)
(** * Paths, percent-encoding and HTML escaping
      (src/dataplane/http/static_files.rs, src/dataplane/http/error_pages.rs)

    The text transformations the static file server applies to untrusted
    names: percent-decoding of request paths and cursors, the component view
    of a path that its traversal check uses, and the two escapings used when
    names are written into a page.  A Unix [Path] is its bytes. *)

From S2P Require Import Prelude RustStd Net.
Open Scope Z_scope.

(** ** [std::path] *)

Inductive Component := RootDir | CurDir | ParentDir | Normal (name : bytes).
#[global] Instance component_eq_dec : EqDecision Component.
Proof. solve_decision. Defined.

Definition has_root (p : bytes) : bool := starts_with [SLASH] p.

Definition component_of (piece : bytes) : list Component :=
  if eqb_bytes piece [] || eqb_bytes piece [DOT] then []
  else if eqb_bytes piece [DOT; DOT] then [ParentDir] else [Normal piece].

(** [Path::components]: repeated separators and inner [.] disappear; a
    leading [.] of a relative path is kept. *)
Definition components (p : bytes) : list Component :=
  let pieces := split_char SLASH p in
  (if has_root p then [RootDir] else match pieces with [46] :: _ => [CurDir] | _ => [] end)
  ++ (pieces ≫= component_of).

(** [Path::starts_with] compares whole components. *)
Definition path_starts_with (base p : bytes) : bool :=
  bool_decide (take (length (components base)) (components p) = components base).

(** [PathBuf::push], [Path::join] *)
Definition path_join (base p : bytes) : bytes :=
  if has_root p then p
  else match last base with
       | Some c => if c =? SLASH then base ++ p else base ++ SLASH :: p
       | None => p
       end.

(** [Path::file_name], [Path::extension] *)
Definition file_name (p : bytes) : option bytes :=
  match last (components p) with Some (Normal name) => Some name | _ => None end.
Definition extension (p : bytes) : option bytes :=
  name ← file_name p;
  '(before, after) ← rsplit_once DOT name;
  if eqb_bytes before [] then None else Some after.

(** ** Percent-encoding *)

Inductive decode_error := InvalidPercent | NulByte | NotUtf8 | PathEscapes.

Fixpoint percent_bytes (s : bytes) : result decode_error bytes :=
  match s with
  | [] => Ok []
  | c :: s =>
      if c =? 37 then
        match s with
        | a :: b :: s =>
            guard! utf8_valid [a; b] else NotUtf8;
            v ← ok_or (from_str_radix 16 255 [a; b]) InvalidPercent;
            rest ← percent_bytes s;
            Ok (v :: rest)
        | _ => Err InvalidPercent
        end
      else rest ← percent_bytes s; Ok (c :: rest)
  end.

Definition percent_decode (s : bytes) : result decode_error bytes :=
  decoded ← percent_bytes s;
  guard! negb (contains 0 decoded) else NulByte;
  guard! utf8_valid decoded else NotUtf8;
  Ok decoded.

(** The check before anything touches the file system. *)
Definition escapes (c : Component) : bool :=
  match c with ParentDir | RootDir => true | _ => false end.
Definition decode_path (s : bytes) : result decode_error bytes :=
  decoded ← percent_decode s;
  guard! negb (existsb escapes (components decoded)) else PathEscapes;
  Ok decoded.

(** The [after] cursor of a directory listing. *)
Definition query_after (query : bytes) : option bytes :=
  value ← head (omap (strip_prefix (lit "after=")) (split_char 38 query));
  match percent_decode value with Ok v => Some v | Err _ => None end.

Definition upper_hex_digit (d : Z) : byte := if d <? 10 then 48 + d else 55 + d.
Definition unreserved (b : byte) : bool :=
  is_digit b || ((65 <=? b) && (b <=? 90)) || ((97 <=? b) && (b <=? 122)) || contains b (lit "-._~").
Definition url_escape_byte (b : byte) : bytes :=
  if unreserved b then [b] else [37; upper_hex_digit (b / 16); upper_hex_digit (b mod 16)].
Definition url_escape (s : bytes) : bytes := s ≫= url_escape_byte.

(** ** HTML *)

(** [str::replace] of one ASCII character. *)
Definition replace_char (c : byte) (by_ : bytes) (s : bytes) : bytes :=
  s ≫= λ x, if x =? c then by_ else [x].
Definition html_escape (s : bytes) : bytes :=
  replace_char 34 (lit "&quot;") (replace_char 62 (lit "&gt;") (replace_char 60 (lit "&lt;") (replace_char 38 (lit "&amp;") s))).

(** A literal of the page templates, with [~] standing for the double quote. *)
Definition html (s : String.string) : bytes := (λ c, if c =? 126 then 34 else c) <$> lit s.

(** ** Lemmas *)

Lemma percent_bytes_plain c s : c ≠ 37 → percent_bytes (c :: s) = (rest ← percent_bytes s; Ok (c :: rest)).
Proof. intros Hc. cbn [percent_bytes]. by rewrite (proj2 (Z.eqb_neq _ _) Hc). Qed.

Definition escape_ok (b : Z) : bool :=
  if unreserved b then negb (b =? 37) && negb (b =? 38)
  else let h := upper_hex_digit (b / 16) in let l := upper_hex_digit (b mod 16) in
       utf8_valid [h; l] && bool_decide (from_str_radix 16 255 [h; l] = Some b) && negb (contains 38 [h; l]).
Lemma escapes_all_ok : all_below escape_ok 256 = true.
Proof. vm_compute. reflexivity. Qed.

Lemma percent_bytes_escape b s : is_byte b →
  percent_bytes (url_escape_byte b ++ s) = (rest ← percent_bytes s; Ok (b :: rest)).
Proof.
  intros Hb. pose proof (all_below_spec escape_ok 256 b escapes_all_ok Hb) as Hok.
  unfold escape_ok in Hok. unfold url_escape_byte. destruct (unreserved b).
  - bool_prop. cbn [app]. apply percent_bytes_plain. by apply Z.eqb_neq.
  - bool_prop. cbn [app percent_bytes]. cbn [Z.eqb Pos.eqb].
    destruct (utf8_valid [upper_hex_digit (b / 16); upper_hex_digit (b mod 16)]); [|done].
    by destruct (from_str_radix 16 255 _) as [v|]; simplify_eq.
Qed.

Lemma url_escape_no_amp s : Forall is_byte s → 38 ∉ url_escape s.
Proof.
  unfold url_escape. induction 1 as [|b s Hb Hs IH]; [set_solver|]. cbn. rewrite elem_of_app. intros [Hin|Hin]; [|done].
  pose proof (all_below_spec escape_ok 256 b escapes_all_ok Hb) as Hok.
  unfold escape_ok, url_escape_byte in *. destruct (unreserved b); bool_prop.
  - apply list_elem_of_singleton in Hin as <-. cbn in *. discriminate.
  - rewrite contains_false in *. set_solver.
Qed.

(** What a listing links to is what the server decodes. *)
Lemma percent_decode_url_escape s :
  Forall is_byte s → 0 ∉ s → utf8_valid s = true → percent_decode (url_escape s) = Ok s.
Proof.
  intros Hs H0 Hv. unfold percent_decode.
  assert (percent_bytes (url_escape s) = Ok s) as ->.
  { clear H0 Hv. unfold url_escape. induction Hs as [|b s Hb Hs IH]; [done|].
    change ((b :: s) ≫= url_escape_byte) with (url_escape_byte b ++ (s ≫= url_escape_byte)).
    by rewrite percent_bytes_escape, IH. }
  cbn. apply contains_false in H0. by rewrite H0, Hv.
Qed.

Lemma query_after_link s :
  Forall is_byte s → 0 ∉ s → utf8_valid s = true → query_after (lit "after=" ++ url_escape s) = Some s.
Proof.
  intros Hs H0 Hv. unfold query_after, split_char. rewrite split_by_none.
  - cbn [omap list_omap]. rewrite strip_prefix_app. cbn [head mbind option_bind]. by rewrite percent_decode_url_escape.
  - apply Forall_app. split; [by vm_compute; repeat constructor|]. pose proof (url_escape_no_amp s Hs) as Ha.
    apply Forall_forall. intros x Hx. apply Z.eqb_neq. by intros <-.
Qed.

(** [html_escape] character by character. *)
Definition escape_char (c : byte) : bytes :=
  if c =? 38 then lit "&amp;" else if c =? 60 then lit "&lt;" else if c =? 62 then lit "&gt;"
  else if c =? 34 then lit "&quot;" else [c].
Lemma replace_char_app c r a b : replace_char c r (a ++ b) = replace_char c r a ++ replace_char c r b.
Proof. apply bind_app. Qed.
Lemma html_escape_spec s : html_escape s = s ≫= escape_char.
Proof.
  induction s as [|c s IH]; [done|]. change (html_escape (c :: s)) with (html_escape ([c] ++ s)).
  unfold html_escape in *. rewrite !replace_char_app, IH. change ((c :: s) ≫= escape_char) with (escape_char c ++ (s ≫= escape_char)).
  f_equal. unfold escape_char, replace_char. cbn [mbind list_bind]. destruct (Z.eqb_spec c 38) as [->|]; [vm_compute; reflexivity|].
  cbn [mbind list_bind app]. destruct (Z.eqb_spec c 60) as [->|]; [vm_compute; reflexivity|]. cbn [mbind list_bind app].
  destruct (Z.eqb_spec c 62) as [->|]; [vm_compute; reflexivity|]. cbn [mbind list_bind app].
  destruct (Z.eqb_spec c 34) as [->|]; [vm_compute; reflexivity|]. done.
Qed.

(** The characters that delimit tags and attribute values. *)
Definition is_markup (c : byte) : bool := (c =? 60) || (c =? 62) || (c =? 34).
Lemma html_escape_no_markup s : Forall (λ c, is_markup c = false) (html_escape s).
Proof.
  rewrite html_escape_spec. induction s as [|c s IH]; [constructor|]. cbn. apply Forall_app. split; [|done].
  unfold escape_char. destruct (c =? 38); [by vm_compute; repeat constructor|].
  destruct (c =? 60) eqn:E1; [by vm_compute; repeat constructor|].
  destruct (c =? 62) eqn:E2; [by vm_compute; repeat constructor|].
  destruct (c =? 34) eqn:E3; [by vm_compute; repeat constructor|]. constructor; [|done]. unfold is_markup. by rewrite E1, E2, E3.
Qed.

(** ** Lexical confinement *)

Lemma split_by_cut p a c b : p c = true → split_by p (a ++ c :: b) = split_by p a ++ split_by p b.
Proof.
  intros Hc. induction a as [|x a IH]; cbn; [by rewrite Hc|]. destruct (p x); [by rewrite IH|]. rewrite IH.
  pose proof (split_by_nonempty p a). by destruct (split_by p a).
Qed.

Lemma path_join_components base p :
  base ≠ [] → has_root p = false → components (path_join base p) = components base ++ (split_char SLASH p ≫= component_of).
Proof.
  intros Hb Hp. unfold path_join. rewrite Hp.
  assert (∀ b q, has_root (b ++ SLASH :: q) = has_root (b ++ [SLASH])) as Hroot by by intros [|].
  assert (∀ b q, components (b ++ SLASH :: q) = components (b ++ [SLASH]) ++ (split_char SLASH q ≫= component_of)) as Hcut.
  { intros b q. unfold components, split_char. rewrite !split_by_cut by done. cbn [split_by]. rewrite !bind_app, Hroot.
    cbn [mbind list_bind component_of]. rewrite !app_nil_r, app_assoc. f_equal. f_equal. destruct (has_root _); [done|].
    pose proof (split_by_nonempty (Z.eqb SLASH) b). by destruct (split_by (Z.eqb SLASH) b). }
  assert (∀ b, b ≠ [] → components (b ++ [SLASH]) = components b) as Hslash.
  { intros b Hne. unfold components, split_char. rewrite split_by_cut by done. cbn [split_by].
    rewrite bind_app. cbn [mbind list_bind component_of]. rewrite !app_nil_r.
    replace (has_root (b ++ [SLASH])) with (has_root b) by by destruct b. f_equal. destruct (has_root b); [done|].
    pose proof (split_by_nonempty (Z.eqb SLASH) b). by destruct (split_by (Z.eqb SLASH) b). }
  destruct (last base) as [c|] eqn:El; [|by apply last_None in El].
  destruct (Z.eqb_spec c SLASH) as [->|].
  - apply last_Some in El as [b ->]. rewrite <-app_assoc. cbn [app]. rewrite Hcut. f_equal.
  - rewrite Hcut, Hslash by done. done.
Qed.

(** A relative name joined to a directory beneath the root stays, as a path,
    beneath the root. *)
Lemma path_join_beneath root base p :
  base ≠ [] → has_root p = false → path_starts_with root base = true → path_starts_with root (path_join base p) = true.
Proof.
  intros Hb Hp. unfold path_starts_with. rewrite path_join_components by done. intros H%bool_decide_eq_true_1.
  apply bool_decide_eq_true_2. rewrite take_app_le; [done|]. apply (f_equal length) in H. rewrite length_take in H. lia.
Qed.
