(* ===== verification/HttpHead.v ===== *)
(** * HTTP request heads: reading, parsing, framing (src/http_header.rs)

    The head of the first request on a plaintext (or terminated) connection:
    the read loop, the parser, the body framing decision and the path prefix
    rewrite.  Errors are constructors; their messages are not modelled. *)

From S2P Require Import Prelude RustStd Stream.
Open Scope Z_scope.

Definition DEFAULT_MAX_HTTP_HEADER_SIZE : Z := 256 * 1024.
Definition LOOP_TOKEN_HEADER : bytes := lit "x-tlsproxy-rid".

Record HttpHead := MkHttpHead {
  method : bytes;
  target : bytes;
  host : bytes;
  port : option Z;
  host_raw : bytes;
  authorization : option bytes;
  loop_tokens : list bytes;
  strip_authorization : bool;
  buffered : bytes;
  head_len : nat;
}.

Inductive http_error :=
| HeadTimedOut
| HeadTooLarge
| HeadReadFailed
| HeadClosed
| HeadOutOfFuel
| NotUtf8
| MalformedRequestLine
| UnsupportedVersion
| NotOriginForm
| FoldedHost
| MalformedHeaderLine
| DuplicateHost
| MissingHost
| EmptyHost
| BadIpv6Host
| InvalidHost
| InvalidHostPort
| FoldedFraming
| InvalidContentLength
| DuplicateContentLength
| DuplicateTransferEncoding
| LengthAndTransferEncoding
| UnsupportedTransferEncoding.

#[global] Instance http_error_eq_dec : EqDecision http_error.
Proof. solve_decision. Defined.

(** ** The end of the head *)

(** The [while] loop, from index [i] on. *)
Fixpoint find_head_end_from (i : nat) (s : bytes) : option nat :=
  match s with
  | [] => None
  | x :: s' =>
      if x =? LF then
        match s' with
        | y :: s'' =>
            if y =? LF then Some (i + 2)%nat
            else if (y =? CR) && (match s'' with z :: _ => z =? LF | [] => false end) then Some (i + 3)%nat
            else find_head_end_from (S i) s'
        | [] => find_head_end_from (S i) s'
        end
      else find_head_end_from (S i) s'
  end.
Definition find_head_end (s : bytes) : option nat := find_head_end_from 0 s.

(** ** Lines *)

Definition strip_cr (line : bytes) : bytes := default line (strip_suffix [CR] line).
(** [head.split('\n').map(strip '\r')] *)
Definition head_lines (head : bytes) : list bytes := map strip_cr (split_char LF head).
(** [line.starts_with([' ', '\t'])] *)
Definition is_fold (line : bytes) : bool :=
  match line with c :: _ => (c =? SP) || (c =? HT) | [] => false end.

(** [str::lines]: a final piece without a terminator keeps its CR, an empty
    one is dropped. *)
Fixpoint lines_of (pieces : list bytes) : list bytes :=
  match pieces with
  | [] => []
  | p :: rest =>
      match rest with
      | [] => match p with [] => [] | _ => [p] end
      | _ => strip_cr p :: lines_of rest
      end
  end.
Definition str_lines (s : bytes) : list bytes := lines_of (split_char LF s).

(** ** Parsing *)

Definition validate_request_line (line : bytes) : result http_error (bytes * bytes) :=
  let parts := split_ascii_whitespace line in
  let method := nth 0 parts [] in
  let target := nth 1 parts [] in
  let version := nth 2 parts [] in
  guard! negb (bool_decide (method = []) || bool_decide (target = []) || (3 <? length parts)%nat)
    else MalformedRequestLine;
  guard! starts_with (lit "HTTP/1.") version else UnsupportedVersion;
  guard! starts_with (lit "/") target else NotOriginForm;
  Ok (method, target).

Definition split_host_port (value : bytes) : result http_error (bytes * option Z) :=
  guard! negb (bool_decide (value = [])) else EmptyHost;
  '(host, port_text) ←
    match strip_prefix (lit "[") value with
    | Some rest =>
        '(host, rest) ← ok_or (split_once 93 rest) BadIpv6Host;
        Ok (host, strip_prefix (lit ":") rest)
    | None =>
        match rsplit_once COLON value with
        | Some (host, port) => Ok (host, Some port)
        | None => Ok (value, None)
        end
    end;
  guard! negb (bool_decide (host = []) || contains_whitespace host) else InvalidHost;
  port ← match port_text with
         | Some port => p ← ok_or (parse_u16 port) InvalidHostPort; Ok (Some p)
         | None => Ok None
         end;
  Ok (host, port).

Record head_acc := MkAcc {
  host_value : option bytes;
  acc_authorization : option bytes;
  acc_loop_tokens : list bytes;
  last_was_host : bool;
}.

Definition tokens_of (value : bytes) : list bytes :=
  List.filter (λ t, negb (bool_decide (t = []))) (map trim (split_char COMMA value)).

(** One header line that is neither blank nor a continuation. *)
Definition parse_header_line (acc : head_acc) (line : bytes) : result http_error head_acc :=
  '(name, value) ← ok_or (split_once COLON line) MalformedHeaderLine;
  if eq_ignore_ascii_case (trim name) (lit "host") then
    match host_value acc with
    | Some _ => Err DuplicateHost
    | None => Ok (MkAcc (Some (trim value)) (acc_authorization acc) (acc_loop_tokens acc) true)
    end
  else if eq_ignore_ascii_case (trim name) (lit "authorization") then
    Ok (MkAcc (host_value acc) (Some (trim value)) (acc_loop_tokens acc) false)
  else if eq_ignore_ascii_case (trim name) LOOP_TOKEN_HEADER then
    Ok (MkAcc (host_value acc) (acc_authorization acc) (acc_loop_tokens acc ++ tokens_of value) false)
  else Ok (MkAcc (host_value acc) (acc_authorization acc) (acc_loop_tokens acc) false).

(** The [for line in lines] loop with its [break] and [continue]. *)
Fixpoint parse_header_lines (acc : head_acc) (lines : list bytes) : result http_error head_acc :=
  match lines with
  | [] => Ok acc
  | line :: lines =>
      match line with
      | [] => Ok acc
      | _ =>
          if is_fold line then
            if last_was_host acc then Err FoldedHost else parse_header_lines acc lines
          else
            acc ← parse_header_line acc line; parse_header_lines acc lines
      end
  end.

Definition parse_head (buffered : bytes) (head_len : nat) : result http_error HttpHead :=
  let head := take head_len buffered in
  guard! utf8_valid head else NotUtf8;
  let lines := head_lines head in
  '(method, target) ← validate_request_line (nth 0 lines []);
  acc ← parse_header_lines (MkAcc None None [] false) (tail lines);
  host_raw ← ok_or (host_value acc) MissingHost;
  '(host, port) ← split_host_port host_raw;
  Ok (MkHttpHead method target host port host_raw (acc_authorization acc) (acc_loop_tokens acc)
        false buffered head_len).

(** ** Reading *)

Section read.
Context {S : Type} `{AsyncReadOk S}.

Fixpoint read_http_head_inner (fuel : nat) (max_size : Z) (buffered : bytes) (reader : S)
  : result http_error HttpHead * S :=
  match fuel with
  | O => (Err HeadOutOfFuel, reader)
  | Datatypes.S fuel =>
      match find_head_end buffered with
      | Some head_len => (parse_head buffered head_len, reader)
      | None =>
          if max_size <=? Z.of_nat (length buffered) then (Err HeadTooLarge, reader)
          else
            let read_size := Z.to_nat (Z.min (max_size - Z.of_nat (length buffered)) 4096) in
            match poll_read read_size reader with
            | (RDeadline, reader) => (Err HeadTimedOut, reader)
            | (RErr, reader) => (Err HeadReadFailed, reader)
            | (REof, reader) => (Err HeadClosed, reader)
            | (RData chunk, reader) => read_http_head_inner fuel max_size (buffered ++ chunk) reader
            end
      end
  end.

(** The timeout is the deadline of the reads inside. *)
Definition read_http_head (reader : S) (max_size : Z) : result http_error HttpHead * S :=
  read_http_head_inner (Datatypes.S (rmeasure reader)) max_size [] reader.

End read.

(** ** Accessors *)

Definition consume_authorization (h : HttpHead) : HttpHead :=
  MkHttpHead (method h) (target h) (host h) (port h) (host_raw h) (authorization h) (loop_tokens h)
    true (buffered h) (head_len h).

Definition head_bytes (h : HttpHead) : bytes := take (head_len h) (buffered h).

Fixpoint find_header (name : bytes) (lines : list bytes) : option bytes :=
  match lines with
  | [] => None
  | line :: lines =>
      match split_once COLON line with
      | Some (key, value) =>
          if eq_ignore_ascii_case (trim key) name then Some (trim value) else find_header name lines
      | None => find_header name lines
      end
  end.

Definition header_value (h : HttpHead) (name : bytes) : option bytes :=
  find_header name (tail (str_lines (from_utf8_lossy (head_bytes h)))).

Definition upgrade_requested (h : HttpHead) : bool :=
  match header_value h (lit "connection") with
  | Some value => existsb (λ t, eq_ignore_ascii_case (trim t) (lit "upgrade")) (split_char COMMA value)
  | None => false
  end
  && bool_decide (is_Some (header_value h (lit "upgrade"))).

Definition body_prefix (h : HttpHead) : bytes := drop (head_len h) (buffered h).

(** ** Body framing *)

Inductive BodyFraming := Length (n : Z) | Chunked.

Record framing_acc := MkFraming {
  content_length : option Z;
  transfer_encoding : option bytes;
  last_was_framing : bool;
}.

Definition framing_header_line (acc : framing_acc) (name value : bytes) : result http_error framing_acc :=
  let name := to_ascii_lowercase (trim name) in
  if eqb_bytes name (lit "content-length") then
    parsed ← ok_or (parse_u64 (trim value)) InvalidContentLength;
    match content_length acc with
    | Some _ => Err DuplicateContentLength
    | None => Ok (MkFraming (Some parsed) (transfer_encoding acc) true)
    end
  else if eqb_bytes name (lit "transfer-encoding") then
    match transfer_encoding acc with
    | Some _ => Err DuplicateTransferEncoding
    | None => Ok (MkFraming (content_length acc) (Some (to_ascii_lowercase (trim value))) true)
    end
  else Ok (MkFraming (content_length acc) (transfer_encoding acc) false).

Fixpoint framing_lines (acc : framing_acc) (lines : list bytes) : result http_error framing_acc :=
  match lines with
  | [] => Ok acc
  | line :: lines =>
      match line with
      | [] => Ok acc
      | _ =>
          if is_fold line then
            if last_was_framing acc then Err FoldedFraming else framing_lines acc lines
          else match split_once COLON line with
          | None => framing_lines acc lines
          | Some (name, value) => acc ← framing_header_line acc name value; framing_lines acc lines
          end
      end
  end.

(** [body_framing] on the bytes of a head. *)
Definition framing_of (head : bytes) : result http_error BodyFraming :=
  guard! utf8_valid head else NotUtf8;
  acc ← framing_lines (MkFraming None None false) (tail (head_lines head));
  match transfer_encoding acc with
  | Some encoding =>
      match content_length acc with
      | Some _ => Err LengthAndTransferEncoding
      | None => guard! eqb_bytes encoding (lit "chunked") else UnsupportedTransferEncoding; Ok Chunked
      end
  | None => Ok (Length (default 0 (content_length acc)))
  end.

Definition body_framing (h : HttpHead) : result http_error BodyFraming := framing_of (head_bytes h).

(** ** Stripping the path prefix *)

Definition new_target (prefix target : bytes) : bytes :=
  let prefix := trim_end_char SLASH prefix in
  match default target (strip_prefix prefix target) with [] => lit "/" | stripped => stripped end.

Definition strip_path_prefix (prefix : bytes) (h : HttpHead) : HttpHead :=
  let nt := new_target prefix (target h) in
  let head := from_utf8_lossy (head_bytes h) in
  match find_char LF head with
  | None => h
  | Some line_end =>
      if (head_len h <? line_end + 1)%nat then h
      else
        let first := trim_end_char CR (take line_end head) in
        let parts := split_ascii_whitespace first in
        let m := nth 0 parts (method h) in
        let version := nth 2 parts (lit "HTTP/1.1") in
        (* [line_end.wrapping_sub(1)] is out of range for 0 *)
        let ending := if (0 <? line_end)%nat && bool_decide (head !! (line_end - 1)%nat = Some CR)
                      then crlf else [LF] in
        let rebuilt := m ++ [SP] ++ nt ++ [SP] ++ version ++ ending in
        MkHttpHead (method h) nt (host h) (port h) (host_raw h) (authorization h) (loop_tokens h)
          (strip_authorization h) (rebuilt ++ drop (line_end + 1) (buffered h))
          (length rebuilt + (head_len h - (line_end + 1)))%nat
  end.

(** ** Lemmas: the end of the head *)

Lemma find_head_end_shift i s : find_head_end_from i s = Nat.add i <$> find_head_end s.
Proof.
  unfold find_head_end. assert (∀ i j, find_head_end_from (i + j) s = Nat.add i <$> find_head_end_from j s) as Hgen.
  { clear i. induction s as [|x s IH]; intros i j; cbn [find_head_end_from]; [done|].
    assert (find_head_end_from (S (i + j)) s = Nat.add i <$> find_head_end_from (S j) s) as Hs.
    { rewrite <-IH. f_equal. lia. }
    destruct (x =? LF); [|done]. destruct s as [|y s]; [done|].
    destruct (y =? LF); [cbn; f_equal; lia|]. case_match; [cbn; f_equal; lia|done]. }
  rewrite <-Hgen. f_equal. lia.
Qed.

(** A line without LF only shifts the position. *)
Lemma find_head_end_line l s :
  LF ∉ l → find_head_end (l ++ s) = Nat.add (length l) <$> find_head_end s.
Proof.
  induction l as [|x l IH]; intros Hl; cbn [app length].
  - by destruct (find_head_end s).
  - rewrite not_elem_of_cons in Hl. destruct Hl as [Hx Hl]. unfold find_head_end. cbn [find_head_end_from].
    destruct (Z.eqb_spec x LF); [congruence|]. rewrite find_head_end_shift, IH by done.
    fold (find_head_end s). by destruct (find_head_end s).
Qed.

Lemma find_head_end_from_app i s t n :
  find_head_end_from i s = Some n → find_head_end_from i (s ++ t) = Some n ∧ (i ≤ n ≤ i + length s)%nat.
Proof.
  revert i; induction s as [|x s IH]; intros i; cbn [find_head_end_from app length]; [done|].
  assert (find_head_end_from (S i) s = Some n →
    find_head_end_from (S i) (s ++ t) = Some n ∧ (i ≤ n ≤ i + S (length s))%nat) as Hrec.
  { intros H. destruct (IH (S i) H). split; [done|lia]. }
  destruct (x =? LF); [|exact Hrec].
  destruct s as [|y s]; [done|]. cbn [app length] in *.
  destruct (y =? LF); [intros [= <-]; split; [done|lia]|].
  destruct (y =? CR); cbn [andb]; [|exact Hrec].
  destruct s as [|z s]; [intros Hx; exfalso; revert Hx; cbn; by case_match|]. cbn [app length] in *.
  destruct (z =? LF); [intros [= <-]; split; [done|lia]|exact Hrec].
Qed.

Lemma find_head_end_app s t n :
  find_head_end s = Some n → find_head_end (s ++ t) = Some n ∧ (n ≤ length s)%nat.
Proof. intros H. destruct (find_head_end_from_app 0 s t n H). split; [done|lia]. Qed.

(** The head ends in LF. *)
Lemma find_head_end_last s n : find_head_end s = Some n → ∃ h, take n s = h ++ [LF].
Proof.
  revert n. induction s as [|x s IH]; intros n; [done|]. unfold find_head_end. cbn [find_head_end_from].
  assert (find_head_end_from 1 s = Some n → ∃ h, take n (x :: s) = h ++ [LF]) as Hrec.
  { rewrite find_head_end_shift. intros (m & Hm & ->)%fmap_Some. destruct (IH m Hm) as [h Hh].
    exists (x :: h). cbn. by rewrite Hh. }
  destruct (Z.eqb_spec x LF) as [->|]; [|exact Hrec]. destruct s as [|y s]; [done|].
  destruct (Z.eqb_spec y LF) as [->|]; [intros [= <-]; by exists [LF]|].
  destruct (Z.eqb_spec y CR) as [->|]; cbn [andb]; [|exact Hrec]. destruct s as [|z s]; [done|].
  destruct (Z.eqb_spec z LF) as [->|]; [intros [= <-]; by exists [LF; CR]|exact Hrec].
Qed.

(** ** Lemmas: the read loop *)

Section read_spec.
Context {S : Type} `{AsyncReadOk S}.

Lemma read_http_head_inner_spec fuel max_size buf (reader : S) r reader' :
  (rmeasure reader < fuel)%nat → Z.of_nat (length buf) ≤ Z.max 0 max_size →
  read_http_head_inner fuel max_size buf reader = (r, reader') →
  match find_head_end (take (Z.to_nat max_size) (buf ++ contents reader)) with
  | Some n => ∃ all, r = parse_head all n ∧ (n ≤ length all)%nat ∧
      all ++ contents reader' = buf ++ contents reader ∧ Z.of_nat (length all) ≤ Z.max 0 max_size
  | None => ∃ e, r = Err e ∧ e ≠ HeadOutOfFuel
  end.
Proof.
  revert buf reader; induction fuel as [|fuel IH]; intros buf reader Hf Hb; [lia|].
  cbn [read_http_head_inner].
  assert (take (Z.to_nat max_size) (buf ++ contents reader)
    = buf ++ take (Z.to_nat max_size - length buf) (contents reader)) as Htake.
  { rewrite take_app. rewrite (take_ge buf) by lia. done. }
  destruct (find_head_end buf) as [n|] eqn:Hfind.
  { intros [= <- <-]. rewrite Htake. destruct (find_head_end_app buf
      (take (Z.to_nat max_size - length buf) (contents reader)) n Hfind) as [-> Hn].
    exists buf. done. }
  destruct (Z.leb_spec max_size (Z.of_nat (length buf))) as [Hmax|Hlt].
  { intros [= <- <-]. rewrite Htake. replace (Z.to_nat max_size - length buf)%nat with 0%nat by lia.
    rewrite take_0, app_nil_r, Hfind. by exists HeadTooLarge. }
  set (n := Z.to_nat (Z.min (max_size - Z.of_nat (length buf)) 4096)).
  assert (0 < n)%nat as Hn by (unfold n; lia).
  destruct (poll_read n reader) as [o rd] eqn:E.
  assert ((∀ d, o ≠ RData d) → ∀ e, e ≠ HeadOutOfFuel → (Err e, rd) = (r, reader') →
    match find_head_end (take (Z.to_nat max_size) (buf ++ contents reader)) with
    | Some n => ∃ all, r = parse_head all n ∧ (n ≤ length all)%nat ∧
        all ++ contents reader' = buf ++ contents reader ∧ Z.of_nat (length all) ≤ Z.max 0 max_size
    | None => ∃ e, r = Err e ∧ e ≠ HeadOutOfFuel
    end) as Hstop.
  { intros Ho e He [= <- <-]. rewrite (read_stop n _ _ _ Hn E Ho), app_nil_r, take_ge by lia.
    rewrite Hfind. by exists e. }
  destruct o as [d| | |]; try (by apply Hstop).
  destruct (read_data n reader d rd Hn E) as (_ & Hlen & Hc & Hm).
  intros Hgo. apply IH in Hgo; [|lia|rewrite length_app; unfold n in Hlen; lia].
  rewrite <-app_assoc, <-Hc in Hgo. done.
Qed.

(** C1: the head that is routed depends on the bytes the client sent and not
    on how they arrive: with any segmentation the loop terminates, the head
    ends at the first blank line within the size limit and is parsed from
    there, everything read beyond it is kept in the buffer, and without a
    blank line inside the limit the connection is refused. *)
Theorem read_http_head_spec (reader : S) max_size r reader' :
  read_http_head reader max_size = (r, reader') →
  match find_head_end (take (Z.to_nat max_size) (contents reader)) with
  | Some n => ∃ all, r = parse_head all n ∧ (n ≤ length all)%nat ∧
      all ++ contents reader' = contents reader ∧ Z.of_nat (length all) ≤ Z.max 0 max_size
  | None => ∃ e, r = Err e ∧ e ≠ HeadOutOfFuel
  end.
Proof.
  unfold read_http_head. intros Hr. apply read_http_head_inner_spec in Hr; [done|lia|cbn; lia].
Qed.

End read_spec.

Definition sample_request : bytes :=
  lit "GET /app/x?q=1 HTTP/1.1" ++ crlf ++ lit "Host: Example.com:8080" ++ crlf ++ crlf.

Definition sample_source : Source :=
  [Seg (take 20 sample_request); Seg (drop 20 sample_request ++ lit "bo"); Seg (lit "dy")].

Lemma read_http_head_spec_witness :
  find_head_end (take (Z.to_nat 100) (contents sample_source)) = Some 51%nat ∧
  match find_head_end (take (Z.to_nat 100) (contents sample_source)) with
  | Some n => ∃ all, parse_head (sample_request ++ lit "bo") 51 = parse_head all n ∧ (n ≤ length all)%nat ∧
      all ++ contents ([Seg (lit "dy")] : Source) = contents sample_source ∧
      Z.of_nat (length all) ≤ Z.max 0 100
  | None => ∃ e : http_error, parse_head (sample_request ++ lit "bo") 51 = Err e ∧ e ≠ HeadOutOfFuel
  end.
Proof.
  split; [vm_compute; reflexivity|].
  apply (read_http_head_spec sample_source 100 (parse_head (sample_request ++ lit "bo") 51) [Seg (lit "dy")]).
  vm_compute. reflexivity.
Defined.

(** ** The header fields of a head

    The fields as an HTTP peer reads them: lines up to the blank one,
    continuation lines skipped; names trimmed and in lower case, values as
    they are on the wire. *)

Definition field := (bytes * bytes)%type.

Fixpoint fields_of (lines : list bytes) : list field :=
  match lines with
  | [] => []
  | line :: lines =>
      match line with
      | [] => []
      | _ =>
          if is_fold line then fields_of lines
          else match split_once COLON line with
          | Some (name, value) => (to_ascii_lowercase (trim name), value) :: fields_of lines
          | None => fields_of lines
          end
      end
  end.
Definition header_fields (head : bytes) : list field := fields_of (tail (head_lines head)).
Definition values_of (name : bytes) (l : list field) : list bytes :=
  map snd (List.filter (λ f, eqb_bytes f.1 name) l).

Lemma values_of_cons name f l :
  values_of name (f :: l) = if eqb_bytes f.1 name then f.2 :: values_of name l else values_of name l.
Proof. unfold values_of. cbn. by destruct (eqb_bytes f.1 name). Qed.

(** A slot that is filled by at most one field: what it held before, what it
    holds after, and how the fields' values are read. *)
Definition settles {B} (read : bytes → option B) (before after : option B) (vs : list bytes) : Prop :=
  match before with
  | Some b => vs = [] ∧ after = Some b
  | None => match vs with
            | [] => after = None
            | [v] => after = read v ∧ is_Some (read v)
            | _ => False
            end
  end.

Lemma settles_skip {B} (read : bytes → option B) before : settles read before before [].
Proof. by destruct before. Qed.

Lemma settles_first {B} (read : bytes → option B) b after v vs :
  read v = Some b → settles read (Some b) after vs → settles read None after (v :: vs).
Proof. intros Hr [-> ->]. cbn. rewrite Hr. eauto. Qed.

Definition read_length (v : bytes) : option Z := parse_u64 (trim v).
Definition read_encoding (v : bytes) : option bytes := Some (to_ascii_lowercase (trim v)).
Definition read_host (v : bytes) : option bytes := Some (trim v).

Lemma framing_lines_settles lines acc acc' :
  framing_lines acc lines = Ok acc' →
  settles read_length (content_length acc) (content_length acc') (values_of (lit "content-length") (fields_of lines)) ∧
  settles read_encoding (transfer_encoding acc) (transfer_encoding acc') (values_of (lit "transfer-encoding") (fields_of lines)).
Proof.
  revert acc; induction lines as [|line lines IH]; intros acc; cbn [framing_lines fields_of].
  { intros [= <-]. split; apply settles_skip. }
  destruct line as [|c line]; [intros [= <-]; split; apply settles_skip|].
  destruct (is_fold (c :: line)); [destruct (last_was_framing acc); [done|apply IH]|].
  destruct (split_once COLON (c :: line)) as [[name value]|]; [|apply IH].
  rewrite !values_of_cons. cbn [fst snd]. unfold framing_header_line.
  destruct (eqb_bytes (to_ascii_lowercase (trim name)) (lit "content-length")) eqn:Ecl.
  - assert (eqb_bytes (to_ascii_lowercase (trim name)) (lit "transfer-encoding") = false) as ->.
    { apply eqb_bytes_spec in Ecl as ->. reflexivity. }
    destruct (parse_u64 (trim value)) as [n|] eqn:En; [|done]. cbn [ok_or mbind result_bind].
    destruct (content_length acc); [done|]. cbn [mbind result_bind]. intros [H1 H2]%IH.
    split; [|done]. eapply settles_first; [exact En|done].
  - destruct (eqb_bytes (to_ascii_lowercase (trim name)) (lit "transfer-encoding")) eqn:Ete.
    + destruct (transfer_encoding acc); [done|]. cbn [mbind result_bind]. intros [H1 H2]%IH.
      split; [done|]. eapply settles_first; [reflexivity|done].
    + cbn [mbind result_bind]. intros H%IH. done.
Qed.

Lemma parse_header_lines_settles lines acc acc' :
  parse_header_lines acc lines = Ok acc' →
  settles read_host (host_value acc) (host_value acc') (values_of (lit "host") (fields_of lines)).
Proof.
  revert acc; induction lines as [|line lines IH]; intros acc; cbn [parse_header_lines fields_of].
  { intros [= <-]. apply settles_skip. }
  destruct line as [|c line]; [intros [= <-]; apply settles_skip|].
  destruct (is_fold (c :: line)); [destruct (last_was_host acc); [done|apply IH]|].
  unfold parse_header_line.
  destruct (split_once COLON (c :: line)) as [[name value]|]; [|done].
  cbn [ok_or mbind result_bind]. rewrite values_of_cons. cbn [fst snd].
  change (eqb_bytes (to_ascii_lowercase (trim name)) (lit "host"))
    with (eq_ignore_ascii_case (trim name) (lit "host")).
  destruct (eq_ignore_ascii_case (trim name) (lit "host")).
  - destruct (host_value acc); [done|]. cbn [mbind result_bind]. intros H%IH.
    eapply settles_first; [reflexivity|done].
  - repeat case_match; cbn [mbind result_bind]; intros Hrec%IH; exact Hrec.
Qed.

Lemma parse_head_inv buf n h :
  parse_head buf n = Ok h →
  utf8_valid (take n buf) = true ∧
  validate_request_line (nth 0 (head_lines (take n buf)) []) = Ok (method h, target h) ∧
  ∃ acc, parse_header_lines (MkAcc None None [] false) (tail (head_lines (take n buf))) = Ok acc ∧
    host_value acc = Some (host_raw h) ∧ split_host_port (host_raw h) = Ok (host h, port h) ∧
    h = MkHttpHead (method h) (target h) (host h) (port h) (host_raw h) (acc_authorization acc)
          (acc_loop_tokens acc) false buf n.
Proof.
  unfold parse_head. destruct (utf8_valid _); [|done].
  intros H. apply bind_Ok_inv in H as ([m t] & Hrl & H). apply bind_Ok_inv in H as (acc & Hacc & H).
  apply bind_Ok_inv in H as (hr & Hhr & H). apply bind_Ok_inv in H as ([hst prt] & Hsp & H).
  injection H as <-. split_and!; [done|done|]. exists acc. split_and!; [done| |done|done].
  destruct (host_value acc); cbn in Hhr; [|done]. by injection Hhr as ->.
Qed.

(** An accepted head has exactly one Host field, and every routing fact is
    that of the bytes: the host and port are those of the field's value, the
    method and origin-form target those of the first line. *)
Theorem parse_head_unique_host buf n h :
  parse_head buf n = Ok h →
  buffered h = buf ∧ head_len h = n ∧
  validate_request_line (nth 0 (head_lines (take n buf)) []) = Ok (method h, target h) ∧
  starts_with (lit "/") (target h) = true ∧
  ∃ v, values_of (lit "host") (header_fields (take n buf)) = [v] ∧ host_raw h = trim v ∧
    split_host_port (trim v) = Ok (host h, port h).
Proof.
  intros (_ & Hrl & acc & Hacc & Hhr & Hsp & Heq)%parse_head_inv.
  split_and!; [by rewrite Heq|by rewrite Heq|done| |].
  - revert Hrl. unfold validate_request_line. repeat (case_match; [|done]). intros [= _ <-]. done.
  - apply parse_header_lines_settles in Hacc. cbn [settles host_value] in Hacc.
    rewrite Hhr in Hacc. unfold header_fields.
    destruct (values_of (lit "host") (fields_of (tail (head_lines (take n buf))))) as [|v [|? ?]]; [done| |done].
    destruct Hacc as [[= Hv] _]. rewrite Hv in *. eauto.
Qed.

Lemma parse_head_unique_host_witness :
  ∃ v, values_of (lit "host") (header_fields sample_request) = [v] ∧ lit "Example.com:8080" = trim v ∧
    split_host_port (trim v) = Ok (lit "Example.com", Some 8080).
Proof.
  assert (parse_head sample_request 51 = Ok (MkHttpHead (lit "GET") (lit "/app/x?q=1") (lit "Example.com") (Some 8080)
    (lit "Example.com:8080") None [] false sample_request 51)) as Hp by (vm_compute; reflexivity).
  exact (proj2 (proj2 (proj2 (proj2 (parse_head_unique_host sample_request 51 _ Hp))))).
Defined.

(** C2: a body is framed unambiguously or the request is refused: chunked
    only with a single Transfer-Encoding field that says so and no
    Content-Length, a length only without Transfer-Encoding and with at most
    one Content-Length, whose value it is (0 without one). *)
Theorem body_framing_unambiguous h f :
  body_framing h = Ok f →
  let te := values_of (lit "transfer-encoding") (header_fields (head_bytes h)) in
  let cl := values_of (lit "content-length") (header_fields (head_bytes h)) in
  match f with
  | Chunked => cl = [] ∧ ∃ v, te = [v] ∧ eq_ignore_ascii_case (trim v) (lit "chunked") = true
  | Length n => te = [] ∧ (cl = [] ∧ n = 0 ∨ ∃ v, cl = [v] ∧ parse_u64 (trim v) = Some n)
  end.
Proof.
  unfold body_framing, framing_of, header_fields. destruct (utf8_valid _); [|done].
  intros H. apply bind_Ok_inv in H as (acc & Hacc & H). apply framing_lines_settles in Hacc as [Hcl Hte].
  cbn zeta. cbn [settles content_length transfer_encoding] in Hcl, Hte.
  set (te := values_of (lit "transfer-encoding") _) in *. set (cl := values_of (lit "content-length") _) in *.
  destruct (transfer_encoding acc) as [enc|].
  - destruct (content_length acc) as [n|]; [done|].
    destruct (eqb_bytes enc (lit "chunked")) eqn:Ee; [|done]. simplify_eq.
    destruct cl as [|? [|? ?]]; [|by destruct Hcl as [<- [? [=]]]|done]. split; [done|].
    destruct te as [|v [|? ?]]; [done| |done]. exists v. split; [done|].
    destruct Hte as [[= ->] _]. exact Ee.
  - simplify_eq. destruct te as [|? [|? ?]]; [|by destruct Hte|done]. split; [done|].
    destruct cl as [|v [|? ?]]; [left|right|done].
    + by rewrite Hcl.
    + destruct Hcl as [-> [n Hn]]. exists v. split; [done|]. unfold read_length in *. by rewrite Hn.
Qed.

Definition sample_post : HttpHead :=
  let b := lit "POST / HTTP/1.1" ++ crlf ++ lit "Host: a" ++ crlf ++ lit "content-LENGTH: 12" ++ crlf ++ crlf in
  MkHttpHead (lit "POST") (lit "/") (lit "a") None (lit "a") None [] false b (length b).

Lemma body_framing_unambiguous_witness :
  values_of (lit "transfer-encoding") (header_fields (head_bytes sample_post)) = [] ∧
  (values_of (lit "content-length") (header_fields (head_bytes sample_post)) = [] ∧ 12 = 0 ∨
   ∃ v, values_of (lit "content-length") (header_fields (head_bytes sample_post)) = [v] ∧ parse_u64 (trim v) = Some 12).
Proof. apply (body_framing_unambiguous sample_post (Length 12)). vm_compute. reflexivity. Defined.
