(* ===== verification/Pipeline.v ===== *)
(** * Interception points (src/dataplane/pipeline.rs, src/request_id.rs)

    The trait the layers of a connection are built on, with its contract:
    interception is lossless.  The two interception points of the program,
    the ClientHello (src/dataplane/tls/mod.rs) and the HTTP head
    (src/dataplane/http/mod.rs), implement it; whatever is peeked and put back
    with [unread] goes unnoticed by the next layer. *)

From S2P Require Import Prelude RustStd Stream TlsHeader HttpHead.
Open Scope Z_scope.

(** ** Connection ids *)

(** The process-wide counter [ID_GEN] is a [usize]; [uuid] is drawn. *)
Record RequestId := MkRequestId { _seq : Z; _uuid : bytes }.
Definition usize_modulus : Z := 2 ^ 64.
Definition next (id_gen : Z) : Z * Z := (id_gen, (id_gen + 1) mod usize_modulus).
Definition request_id_new (uuid : bytes) (id_gen : Z) : RequestId * Z := let '(seq, id_gen) := next id_gen in (MkRequestId seq uuid, id_gen).
Definition request_id_display (r : RequestId) : bytes := _uuid r ++ lit "(" ++ show_dec (_seq r) ++ lit ")".
Fixpoint request_ids (uuids : list bytes) (id_gen : Z) : list RequestId * Z :=
  match uuids with
  | [] => ([], id_gen)
  | uuid :: uuids => let '(r, id_gen) := request_id_new uuid id_gen in let '(rs, id_gen) := request_ids uuids id_gen in (r :: rs, id_gen)
  end.

Lemma request_ids_seq uuids : ∀ id_gen, 0 ≤ id_gen < usize_modulus →
  map _seq (request_ids uuids id_gen).1 = map (λ i, (id_gen + Z.of_nat i) mod usize_modulus) (seq 0 (length uuids)).
Proof.
  induction uuids as [|uuid uuids IH]; intros id_gen Hg; [done|]. cbn [request_ids request_id_new next].
  assert (0 ≤ (id_gen + 1) mod usize_modulus < usize_modulus) as Hg' by (apply Z.mod_pos_bound; done). specialize (IH _ Hg').
  destruct (request_ids uuids ((id_gen + 1) mod usize_modulus)) as [rs g]. cbn [fst] in *. cbn [map length seq]. rewrite IH. f_equal.
  - cbn. rewrite Z.add_0_r. by rewrite Z.mod_small.
  - rewrite <- seq_shift, map_map. apply map_ext. intros i. rewrite Zplus_mod_idemp_l. f_equal. lia.
Qed.
(** No two connections share an id, however the random part falls, within
    2{^64} of each other. *)
Theorem request_ids_distinct uuids id_gen : 0 ≤ id_gen < usize_modulus → Z.of_nat (length uuids) ≤ usize_modulus → NoDup (request_ids uuids id_gen).1.
Proof.
  intros Hg Hl. apply (NoDup_fmap_1 _seq). change (_seq <$> (request_ids uuids id_gen).1) with (map _seq (request_ids uuids id_gen).1). rewrite (request_ids_seq uuids id_gen Hg).
  apply NoDup_fmap_2_strong; [|apply NoDup_seq]. intros i j Hi%elem_of_seq Hj%elem_of_seq Heq. unfold usize_modulus in *.
  assert ((Z.of_nat i - Z.of_nat j) mod 2 ^ 64 = 0) as Hz.
  { replace (Z.of_nat i - Z.of_nat j) with ((id_gen + Z.of_nat i) - (id_gen + Z.of_nat j)) by lia. rewrite Zminus_mod, Heq, Z.sub_diag. done. }
  apply Z.mod_divide in Hz as [k Hk]; [|lia]. assert (k = 0) by nia. lia.
Qed.

(** ** The trait *)

Class Intercept (Artifact Error Stream : Type) {r : AsyncRead Stream} {ok : AsyncReadOk Stream} := {
  intercept : Stream → result Error Artifact * Stream;
  artifact_bytes : Artifact → bytes;
  intercept_lossless s a s' : intercept s = (Ok a, s') → artifact_bytes a ++ contents s' = contents s;
}.

Section layers.
Context {T : Type} {r : AsyncRead T} {ok : AsyncReadOk T}.

(** An interception point of some kind. *)
Record Layer := MkLayer { layer_artifact : Type; layer_error : Type; layer : Intercept layer_artifact layer_error (ConnStream T) }.
Definition peek (l : Layer) (s : ConnStream T) : option (ConnStream T) :=
  match @intercept _ _ _ _ _ (layer l) s with
  | (Ok a, s') => Some (unread (@artifact_bytes _ _ _ _ _ (layer l) a) s')
  | (Err _, _) => None
  end.
Fixpoint peek_all (ls : list Layer) (s : ConnStream T) : option (ConnStream T) :=
  match ls with [] => Some s | l :: ls => s ← peek l s; peek_all ls s end.

Lemma peek_all_contents ls : ∀ s s', peek_all ls s = Some s' → contents s' = contents s.
Proof.
  induction ls as [|l ls IH]; intros s s'; cbn [peek_all]; [by intros [= <-]|]. unfold peek. destruct (intercept s) as [[a|] s1] eqn:E; [|done]. cbn [mbind option_bind].
  intros Hs. apply IH in Hs. rewrite Hs, contents_unread. by eapply intercept_lossless.
Qed.
End layers.

(** ** The interception points *)

Section hello.
Context {A : Type} (acceptor_default : A) (accept : A → accept_result * A) (read_tls : A → bytes → option A).
Context {T : Type} {r : AsyncRead T} {ok : AsyncReadOk T}.
#[export] Program Instance ClientHelloIntercept : Intercept ClientHello hello_error (ConnStream T) := {|
  intercept s := read_client_hello acceptor_default accept read_tls s DEFAULT_MAX_CLIENT_HELLO_SIZE;
  artifact_bytes := TlsHeader.buffered |}.
Next Obligation. intros s a s' Hs. apply read_client_hello_lossless in Hs as [_ Hs]. by destruct (Hs a eq_refl). Qed.
End hello.

Section head.
Context {T : Type} {r : AsyncRead T} {ok : AsyncReadOk T}.
Lemma read_head_ok (s : ConnStream T) h s' : read_http_head s DEFAULT_MAX_HTTP_HEADER_SIZE = (Ok h, s') →
  ∃ n, find_head_end (take (Z.to_nat DEFAULT_MAX_HTTP_HEADER_SIZE) (contents s)) = Some n ∧ parse_head (buffered h) n = Ok h ∧ (n ≤ length (buffered h))%nat
    ∧ buffered h ++ contents s' = contents s.
Proof.
  intros Hr. unfold read_http_head in Hr. apply read_http_head_inner_spec in Hr; [|lia|cbn; lia]. cbn [app] in Hr. destruct (find_head_end _) as [n|]; [|by destruct Hr as (e&?&_)].
  destruct Hr as (all&Hp&Hn&Hc&_). symmetry in Hp. pose proof Hp as (_&_&acc&_&_&_&Hh)%parse_head_inv. assert (buffered h = all) as <- by (by rewrite Hh). eauto.
Qed.
#[export] Program Instance HeadIntercept : Intercept HttpHead http_error (ConnStream T) := {|
  intercept s := read_http_head s DEFAULT_MAX_HTTP_HEADER_SIZE;
  artifact_bytes := buffered |}.
Next Obligation. intros s a s' Hs. by apply read_head_ok in Hs as (n&_&_&_&?). Qed.

(** The same head, with another buffer behind it. *)
Definition set_buffered (b : bytes) (h : HttpHead) : HttpHead :=
  MkHttpHead (method h) (target h) (host h) (port h) (host_raw h) (authorization h) (loop_tokens h) (strip_authorization h) b (head_len h).
Lemma parse_head_buffer a b n h : take n a = take n b → parse_head a n = Ok h → parse_head b n = Ok (set_buffered b h).
Proof.
  intros Hab. unfold parse_head. cbv zeta. rewrite Hab. destruct (utf8_valid (take n b)); [|done]. intros H.
  apply bind_Ok_inv in H as ([m t]&->&H). cbn [mbind result_bind]. apply bind_Ok_inv in H as (acc&->&H). cbn [mbind result_bind].
  apply bind_Ok_inv in H as (hr&->&H). cbn [mbind result_bind]. apply bind_Ok_inv in H as ([hst prt]&->&H). cbn [mbind result_bind]. by injection H as <-.
Qed.
(** Whether and which head is read depends on the bytes to come only. *)
Lemma head_of_contents (s1 s2 : ConnStream T) h1 s1' : contents s1 = contents s2 → intercept s1 = (Ok h1, s1') →
  ∃ h2 s2', intercept s2 = (Ok h2, s2') ∧ h2 = set_buffered (buffered h2) h1 ∧ buffered h2 ++ contents s2' = contents s2.
Proof.
  intros Hc (n&Hn&Hp&Hl&Hb)%read_head_ok. rewrite Hc in Hn. destruct (intercept s2) as [r2 s2'] eqn:E. cbn [intercept HeadIntercept] in E. unfold read_http_head in E.
  apply read_http_head_inner_spec in E; [|lia|cbn; lia]. cbn [app] in E. rewrite Hn in E. destruct E as (all&->&Hl2&Hb2&_).
  assert (take n (buffered h1) = take n all) as Ht.
  { assert (take n (buffered h1 ++ contents s1') = take n (all ++ contents s2')) as Ht by (by rewrite Hb, Hc, Hb2). by rewrite !take_app_le in Ht. }
  rewrite (parse_head_buffer _ all n h1 Ht Hp). eexists _, s2'. split; [done|]. done.
Qed.

(** C33: interception goes unnoticed, as the trait demands.  Whatever
    interception points a connection is taken through and put back from -
    ClientHello, HTTP head or any other that meets the contract - the bytes
    that follow are those the peer sent, and the request head read afterwards
    is the one that would have been read at first. *)
Theorem interception_invisible ls (s s' : ConnStream T) :
  peek_all ls s = Some s' →
  contents s' = contents s
  ∧ ∀ h1 s1, intercept s = (Ok h1, s1) → ∃ h2 s2, intercept s' = (Ok h2, s2) ∧ h2 = set_buffered (buffered h2) h1 ∧ buffered h2 ++ contents s2 = contents s.
Proof.
  intros Hp%peek_all_contents. split; [done|]. intros h1 s1 Hi. rewrite <- Hp. by apply (head_of_contents s s' h1 s1).
Qed.
End head.

(** ** A request peeked at twice *)

Module pipeline_example.
Definition incoming : ConnStream Source := with_request_id [Seg (take 9 sample_request); Seg (drop 9 sample_request); Seg (lit "body")] 1.
Definition head_layer : Layer (T := Source) := MkLayer _ _ HeadIntercept.
Definition twice : option (ConnStream Source) := peek_all [head_layer; head_layer] incoming.
End pipeline_example.
Import pipeline_example.

Lemma interception_invisible_witness : ∃ s', twice = Some s' ∧ contents s' = sample_request ++ lit "body"
  ∧ ∃ h s, intercept s' = (Ok h, s) ∧ host h = lit "Example.com".
Proof.
  destruct twice as [s'|] eqn:E; [|vm_compute in E; discriminate]. exists s'. split; [reflexivity|].
  pose proof (interception_invisible [head_layer; head_layer] incoming s' E) as [Hc Hh]. split; [rewrite Hc; vm_compute; reflexivity|].
  destruct (intercept incoming) as [[h1|e] s1] eqn:Ei; [|vm_compute in Ei; discriminate]. destruct (Hh h1 s1 eq_refl) as (h2&s2&H2&Hs&_). exists h2, s2. split; [exact H2|].
  rewrite Hs. cbn [set_buffered host]. assert ((match (intercept (Artifact := HttpHead) (Error := http_error) incoming).1 with Ok h => host h | Err _ => [] end) = lit "Example.com") as Hx by (vm_compute; reflexivity).
  rewrite Ei in Hx. exact Hx.
Defined.
