(* ===== verification/HttpPath.v ===== *)
(** * Path prefix stripping is consistent (src/http_header.rs)

    [strip_path_prefix] edits the request line of an already parsed head in
    place.  The theorems compare the edited value with parsing the edited
    bytes again. *)

From S2P Require Import Prelude RustStd Stream HttpHead.
Open Scope Z_scope.

(** ** The request line *)

Definition request_line (m t v : bytes) : bytes := m ++ [SP] ++ t ++ [SP] ++ v.

Lemma LF_not_token t : token t → LF ∉ t.
Proof. intros [_ Ht] Hin. rewrite Forall_forall in Ht. by specialize (Ht _ Hin). Qed.

Lemma split_ws_request_line m t v :
  token m → token t → token v → split_ascii_whitespace (request_line m t v) = [m; t; v].
Proof.
  intros Hm Ht Hv. unfold request_line. cbn [app].
  rewrite split_ws_cons, split_ws_cons by done. by rewrite split_ws_one.
Qed.

Lemma validate_request_line_tokens line m t :
  validate_request_line line = Ok (m, t) →
  ∃ v, split_ascii_whitespace line = [m; t; v] ∧ token m ∧ token t ∧ token v ∧
    starts_with (lit "HTTP/1.") v = true.
Proof.
  unfold validate_request_line. pose proof (split_ws_tokens line) as Htok.
  destruct (split_ascii_whitespace line) as [|a [|b [|c [|d r]]]]; cbn [nth length].
  - done.
  - rewrite orb_true_r. done.
  - repeat (case_match; [|done]). done.
  - repeat (case_match; [|done]). intros [= <- <-]. exists c. rewrite !Forall_cons in Htok. naive_solver.
  - rewrite orb_true_r. done.
Qed.

Lemma validate_request_line_ok m t v :
  token m → token t → token v → starts_with (lit "HTTP/1.") v = true →
  validate_request_line (request_line m t v) =
    if starts_with (lit "/") t then Ok (m, t) else Err NotOriginForm.
Proof.
  intros Hm Ht Hv Hver. unfold validate_request_line. rewrite split_ws_request_line by done. cbn [nth length].
  destruct Hm as [Hm _], Ht as [Ht _]. rewrite !bool_decide_false by done. cbn. by rewrite Hver.
Qed.

(** ** The first line of a head *)

Lemma head_lines_app l rest : LF ∉ l → head_lines (l ++ LF :: rest) = strip_cr l :: head_lines rest.
Proof.
  intros Hl. unfold head_lines, split_char. rewrite split_by_app; [done| |done].
  rewrite Forall_forall. intros x Hx. apply Z.eqb_neq. intros <-. done.
Qed.

Lemma strip_cr_snoc l : strip_cr (l ++ [CR]) = l.
Proof. unfold strip_cr. assert (strip_suffix [CR] (l ++ [CR]) = Some l) as -> by by apply strip_suffix_Some. done. Qed.

Lemma strip_cr_id l : (∀ l', l ≠ l' ++ [CR]) → strip_cr l = l.
Proof.
  intros H. unfold strip_cr. destruct (strip_suffix [CR] l) as [l'|] eqn:E; [|done].
  apply strip_suffix_Some in E. by destruct (H l').
Qed.

Lemma split_ws_strip_cr l : split_ascii_whitespace (strip_cr l) = split_ascii_whitespace l.
Proof.
  unfold strip_cr. destruct (strip_suffix [CR] l) as [l'|] eqn:E; [|done].
  apply strip_suffix_Some in E as ->. cbn. by rewrite split_ws_snoc.
Qed.

Lemma request_line_no_cr m t v l' : token v → request_line m t v ≠ l' ++ [CR].
Proof.
  intros [Hne Hv] Heq. destruct (exists_last Hne) as (v' & c & ->).
  unfold request_line in Heq. rewrite !app_assoc in Heq. apply app_inj_tail in Heq as [_ ->].
  apply Forall_app in Hv as [_ Hc]. rewrite Forall_singleton in Hc. done.
Qed.

(** What [strip_path_prefix] does to a head that parsed, in terms of lines. *)
Lemma strip_path_prefix_shape prefix buf n h :
  find_head_end buf = Some n → parse_head buf n = Ok h →
  ∃ l rest v cr, take n buf = l ++ LF :: rest ∧ LF ∉ l ∧ utf8_valid l = true ∧ utf8_valid rest = true ∧
    split_ascii_whitespace l = [method h; target h; v] ∧
    starts_with (lit "HTTP/1.") v = true ∧ (cr = [] ∨ cr = [CR]) ∧
    let l' := request_line (method h) (new_target prefix (target h)) v ++ cr in
    strip_path_prefix prefix h =
      MkHttpHead (method h) (new_target prefix (target h)) (host h) (port h) (host_raw h) (authorization h)
        (loop_tokens h) (strip_authorization h) ((l' ++ LF :: rest) ++ drop n buf) (length (l' ++ LF :: rest)).
Proof.
  intros Hend Hp. pose proof (find_head_end_app buf [] n Hend) as [_ Hn].
  destruct (parse_head_inv buf n h Hp) as (Hu & Hrl & acc & _ & _ & _ & Heq).
  assert (buffered h = buf) as Hbuf by by rewrite Heq.
  assert (head_len h = n) as Hhl by by rewrite Heq.
  destruct (find_head_end_last buf n Hend) as [h0 Hh0].
  destruct (find_char LF (take n buf)) as [i|] eqn:Hi.
  2: { exfalso. rewrite Hh0 in Hi. clear -Hi. induction h0; cbn in Hi; [done|].
       case_match; [done|]. destruct (find_char LF (h0 ++ [LF])); [done|auto]. }
  destruct (find_char_Some _ _ _ Hi) as (l & rest & Hl & Hlf & ->).
  rewrite Hl in Hu. apply utf8_valid_ascii_split in Hu as [Hul Hur]; [|done].
  rewrite Hl, head_lines_app in Hrl by done. cbn [nth] in Hrl.
  destruct (validate_request_line_tokens _ _ _ Hrl) as (v & Hws & Htm & Htt & Htv & Hver).
  rewrite split_ws_strip_cr in Hws.
  assert (length (take n buf) = n) as Hlen by (rewrite length_take; lia).
  assert (length l + S (length rest) = n)%nat as Hlen2.
  { rewrite <-Hlen, Hl, length_app. done. }
  exists l, rest, v, (if (0 <? length l)%nat && bool_decide ((l ++ LF :: rest) !! (length l - 1)%nat = Some CR)
                      then [CR] else []).
  split_and!; [done|done|done|done|done|done|case_match; auto|].
  cbn zeta. unfold strip_path_prefix, head_bytes. rewrite Hbuf, Hhl.
  rewrite utf8_lossy_valid by (rewrite Hl; by apply utf8_valid_ascii_split).
  rewrite Hi. replace (n <? length l + 1)%nat with false by (symmetry; apply Nat.ltb_ge; lia).
  rewrite Hl, take_app_length, split_ws_trim_end, Hws by done. cbn [nth].
  assert (drop (length l + 1) buf = rest ++ drop n buf) as ->.
  { rewrite <-(take_drop n buf) at 1. rewrite Hl, <-app_assoc.
    replace (length l + 1)%nat with (length (l ++ [LF])) by (rewrite length_app; done).
    change ((LF :: rest) ++ drop n buf) with ([LF] ++ rest ++ drop n buf). rewrite app_assoc, drop_app_length. done. }
  unfold request_line. f_equal.
  - destruct (_ && _); unfold crlf; rewrite <-!app_assoc; done.
  - destruct (_ && _); unfold crlf; rewrite !length_app; cbn [length]; lia.
Qed.

(** Parsing the edited bytes gives the edited head, or refuses it when the
    new target is not in origin form. *)
Lemma strip_path_prefix_reparse prefix buf n h :
  find_head_end buf = Some n → parse_head buf n = Ok h →
  utf8_valid (new_target prefix (target h)) = true → token (new_target prefix (target h)) →
  let h' := strip_path_prefix prefix h in
  find_head_end (buffered h') = Some (head_len h') ∧
  body_prefix h' = body_prefix h ∧ header_fields (head_bytes h') = header_fields (head_bytes h) ∧
  parse_head (buffered h') (head_len h') =
    if starts_with (lit "/") (new_target prefix (target h)) then Ok h' else Err NotOriginForm.
Proof.
  intros Hend Hp Hut Htt. destruct (strip_path_prefix_shape prefix buf n h Hend Hp)
    as (l & rest & v & cr & Hl & Hlf & Hul & Hur & Hws & Hver & Hcr & ->).
  destruct (parse_head_inv buf n h Hp) as (_ & _ & acc & Hacc & Hhr & Hsp & Heq).
  assert (buffered h = buf) as Hbuf by by rewrite Heq.
  assert (head_len h = n) as Hhl by by rewrite Heq.
  assert (authorization h = acc_authorization acc ∧ loop_tokens h = acc_loop_tokens acc ∧
    strip_authorization h = false) as (-> & -> & ->) by by rewrite Heq.
  clear Heq. set (m := method h) in *. set (nt := new_target prefix (target h)) in *. set (l' := request_line m nt v ++ cr).
  pose proof (split_ws_tokens l) as Htok. rewrite Hws, !Forall_cons in Htok. destruct Htok as (Htm & _ & Htv & _).
  pose proof (split_ws_utf8 l Hul) as Hutok. rewrite Hws, !Forall_cons in Hutok. destruct Hutok as (Hum & _ & Huv & _).
  assert (LF ∉ l') as Hlf'.
  { unfold l', request_line. rewrite !elem_of_app. pose proof (LF_not_token _ Htm). pose proof (LF_not_token _ Htv).
    pose proof (LF_not_token _ Htt). destruct Hcr as [-> | ->]; unfold SP, CR, LF in *; set_solver. }
  assert (take (length (l' ++ LF :: rest)) ((l' ++ LF :: rest) ++ drop n buf) = l' ++ LF :: rest) as Htake
    by apply take_app_length.
  assert (strip_cr l' = request_line m nt v) as Hscr.
  { unfold l'. destruct Hcr as [-> | ->]; [|apply strip_cr_snoc].
    rewrite app_nil_r. apply strip_cr_id. intros ?. by apply request_line_no_cr. }
  assert (∀ s, utf8_valid (l' ++ LF :: s) = utf8_valid s) as Hu'.
  { intros s. assert (utf8_valid l' = true) as Hl'.
    { unfold l', request_line. rewrite <-!app_assoc. rewrite utf8_valid_app by done. cbn [app].
      rewrite utf8_valid_ascii_cons, utf8_valid_app, utf8_valid_ascii_cons, utf8_valid_app by done.
      destruct Hcr as [-> | ->]; done. }
    rewrite utf8_valid_app by done. by apply utf8_valid_ascii_cons. }
  split_and!.
  - cbn [HttpHead.buffered HttpHead.head_len]. rewrite <-app_assoc. rewrite find_head_end_line by done.
    rewrite <-(take_drop n buf), Hl, <-app_assoc, find_head_end_line in Hend by done.
    apply fmap_Some in Hend as (k & Hk & Hnk). rewrite Hk. cbn. f_equal.
    pose proof (f_equal length Hl) as Hlen. rewrite length_take, !length_app in Hlen.
    destruct (find_head_end_app ((LF :: rest) ++ drop n buf) [] k Hk) as [_ Hkl].
    rewrite !length_app in Hkl |- *. rewrite length_drop in Hkl. lia.
  - unfold body_prefix. cbn. by rewrite drop_app_length, Hbuf, Hhl.
  - unfold head_bytes. cbn [HttpHead.buffered HttpHead.head_len]. rewrite Htake, Hbuf, Hhl, Hl. unfold header_fields.
    by rewrite !head_lines_app.
  - cbn [HttpHead.buffered HttpHead.head_len]. unfold parse_head. rewrite Htake, Hu', Hur, head_lines_app, Hscr by done. cbn [nth tail].
    rewrite Hl, head_lines_app in Hacc by done. cbn [tail] in Hacc.
    rewrite validate_request_line_ok by done. destruct (starts_with (lit "/") nt); [|done].
    cbn [mbind result_bind]. rewrite Hacc. cbn [mbind result_bind]. rewrite Hhr. cbn [ok_or mbind result_bind].
    rewrite Hsp. done.
Qed.

(** ** The new target *)

Lemma new_target_cases prefix t :
  t ≠ [] → new_target prefix t = lit "/" ∨ ∃ pre, t = pre ++ new_target prefix t ∧ new_target prefix t ≠ [].
Proof.
  intros Ht. unfold new_target. destruct (strip_prefix (trim_end_char SLASH prefix) t) as [r|] eqn:E; cbn.
  - apply strip_prefix_Some in E. destruct r as [|c r]; [by left|]. right. eauto.
  - destruct t as [|c t]; [done|]. right. by exists [].
Qed.

Lemma new_target_token prefix t : token t → token (new_target prefix t).
Proof.
  intros [Hne Ht]. destruct (new_target_cases prefix t Hne) as [-> |(pre & Heq & Hn)].
  - split; [done|]. repeat constructor.
  - split; [done|]. rewrite Heq in Ht. by apply Forall_app in Ht as [_ ?].
Qed.

Lemma new_target_utf8 prefix t c r :
  t ≠ [] → utf8_valid t = true → new_target prefix t = c :: r → c < 128 → utf8_valid (new_target prefix t) = true.
Proof.
  intros Hne Hu Hc Hlt. destruct (new_target_cases prefix t Hne) as [-> |(pre & Heq & Hn)]; [reflexivity|].
  rewrite Hc in *. rewrite Heq in Hu. apply utf8_valid_ascii_split in Hu as [_ Hr]; [|done].
  by rewrite utf8_valid_ascii_cons.
Qed.

Lemma parse_head_target buf n h :
  parse_head buf n = Ok h → find_head_end buf = Some n → token (target h) ∧ utf8_valid (target h) = true.
Proof.
  intros Hp Hend. destruct (strip_path_prefix_shape [] buf n h Hend Hp)
    as (l & rest & v & cr & _ & _ & Hul & _ & Hws & _).
  pose proof (split_ws_tokens l) as Htok. pose proof (split_ws_utf8 l Hul) as Hu.
  rewrite Hws, !Forall_cons in *. tauto.
Qed.

(** ** Properties *)

(** Stripping a prefix edits the request line and nothing else: when the
    remaining target is in origin form, the edited bytes parse again to the
    edited head (so the recorded head length is the position of the blank
    line), with the same fields and the same body bytes. *)
Theorem strip_path_prefix_consistent prefix buf n h :
  find_head_end buf = Some n → parse_head buf n = Ok h →
  starts_with (lit "/") (new_target prefix (target h)) = true →
  let h' := strip_path_prefix prefix h in
  find_head_end (buffered h') = Some (head_len h') ∧ parse_head (buffered h') (head_len h') = Ok h' ∧
  body_prefix h' = body_prefix h ∧ header_fields (head_bytes h') = header_fields (head_bytes h).
Proof.
  intros Hend Hp Hs. destruct (parse_head_target buf n h Hp Hend) as [Htt Htu].
  pose proof Hs as [r Hr]%starts_with_spec.
  destruct (strip_path_prefix_reparse prefix buf n h Hend Hp) as (H1 & H2 & H3 & H4).
  - eapply new_target_utf8; [by destruct Htt|done|exact Hr|done].
  - by apply new_target_token.
  - rewrite Hs in H4. done.
Qed.

Definition sample_head : HttpHead :=
  MkHttpHead (lit "GET") (lit "/app/x?q=1") (lit "Example.com") (Some 8080)
    (lit "Example.com:8080") None [] false (sample_request ++ lit "body") 51.

Lemma strip_path_prefix_consistent_witness :
  target (strip_path_prefix (lit "/app/") sample_head) = lit "/x?q=1" ∧
  parse_head (buffered (strip_path_prefix (lit "/app/") sample_head)) (head_len (strip_path_prefix (lit "/app/") sample_head))
  = Ok (strip_path_prefix (lit "/app/") sample_head).
Proof.
  split; [vm_compute; reflexivity|].
  apply (strip_path_prefix_consistent (lit "/app/") (sample_request ++ lit "body") 51 sample_head); vm_compute; reflexivity.
Defined.

(** A path that equals the prefix and carries a query string is left
    without a leading slash: the rewritten request line has the query alone
    as its target, which the proxy's own parser refuses as not being in
    origin form. *)
Theorem strip_path_prefix_query_only prefix q buf n h :
  find_head_end buf = Some n → parse_head buf n = Ok h →
  target h = trim_end_char SLASH prefix ++ lit "?" ++ q →
  let h' := strip_path_prefix prefix h in
  target h' = lit "?" ++ q ∧ parse_head (buffered h') (head_len h') = Err NotOriginForm.
Proof.
  intros Hend Hp Ht. destruct (parse_head_target buf n h Hp Hend) as [Htt Htu].
  assert (new_target prefix (target h) = lit "?" ++ q) as Hnt.
  { unfold new_target. rewrite Ht, strip_prefix_app. done. }
  destruct (strip_path_prefix_shape prefix buf n h Hend Hp) as (l & rest & v & cr & _ & _ & _ & _ & _ & _ & _ & Hshape).
  split; [cbn zeta in Hshape; by rewrite Hshape|].
  destruct (strip_path_prefix_reparse prefix buf n h Hend Hp) as (_ & _ & _ & H4).
  - eapply new_target_utf8; [by destruct Htt|done|exact Hnt|done].
  - by apply new_target_token.
  - rewrite Hnt in H4. exact H4.
Qed.

Definition query_request : bytes :=
  lit "GET /app?x=1 HTTP/1.1" ++ crlf ++ lit "Host: a" ++ crlf ++ crlf.
Definition query_head : HttpHead :=
  MkHttpHead (lit "GET") (lit "/app?x=1") (lit "a") None (lit "a") None [] false query_request (length query_request).

Lemma strip_path_prefix_query_only_witness :
  target (strip_path_prefix (lit "/app") query_head) = lit "?x=1" ∧
  parse_head (buffered (strip_path_prefix (lit "/app") query_head)) (head_len (strip_path_prefix (lit "/app") query_head))
  = Err NotOriginForm.
Proof.
  apply (strip_path_prefix_query_only (lit "/app") (lit "x=1") query_request (length query_request) query_head);
    vm_compute; reflexivity.
Defined.
