(* ===== verification/HttpRewrite.v ===== *)
(** * Rewriting a request for the upstream (src/http_header.rs)

    [rewrite_for_proxy] rebuilds the head of the first request: this hop's
    forwarding fields are added, hop-by-hop fields are removed, and the body
    bytes already read follow unchanged. *)

From S2P Require Import Prelude RustStd Net Stream HttpHead HttpPath.
Open Scope Z_scope.

(** ** Definitions *)

Definition HOP_BY_HOP : list bytes :=
  [lit "keep-alive"; lit "te"; lit "trailer"; lit "proxy-authorization"; lit "proxy-connection"].

Definition hop_by_hop (h : HttpHead) : list bytes :=
  HOP_BY_HOP ++
  match header_value h (lit "connection") with
  | Some connection =>
      List.filter
        (λ t, negb (bool_decide (t = [])) && negb (eqb_bytes t (lit "close"))
              && negb (eqb_bytes t (lit "upgrade") && upgrade_requested h))
        (map (λ t, to_ascii_lowercase (trim t)) (split_char COMMA connection))
  | None => []
  end.

Inductive fate := Dropped | CollectedXff | CollectedForwarded | Kept.

(** The arms of the [match] on the lower-case name, in order. *)
Definition field_fate (h : HttpHead) (upstream_host : option bytes) (name : bytes) : fate :=
  if eqb_bytes name (lit "host") && bool_decide (is_Some upstream_host) then Dropped
  else if eqb_bytes name (lit "x-forwarded-for") then CollectedXff
  else if eqb_bytes name (lit "forwarded") then CollectedForwarded
  else if eqb_bytes name (lit "authorization") && strip_authorization h then Dropped
  else if eqb_bytes name (lit "x-forwarded-host") || eqb_bytes name (lit "x-forwarded-proto")
          || eqb_bytes name (lit "connection") then Dropped
  else if eqb_bytes name (lit "upgrade") && negb (upgrade_requested h) then Dropped
  else if existsb (λ t, eqb_bytes t name) (hop_by_hop h) then Dropped
  else Kept.

Record rewrite_acc := MkRewrite {
  output : bytes;
  xff_values : list bytes;
  forwarded_values : list bytes;
  skipping_folds : bool;
}.

Definition emit (line : bytes) (acc : rewrite_acc) (skipping : bool) : rewrite_acc :=
  MkRewrite (output acc ++ line ++ crlf) (xff_values acc) (forwarded_values acc) skipping.

Fixpoint rewrite_lines (h : HttpHead) (upstream_host : option bytes) (acc : rewrite_acc) (lines : list bytes)
  : rewrite_acc :=
  match lines with
  | [] => acc
  | line :: lines =>
      match line with
      | [] => acc
      | _ =>
          if is_fold line then
            rewrite_lines h upstream_host
              (if skipping_folds acc then acc else emit line acc (skipping_folds acc)) lines
          else
            let acc' :=
              match split_once COLON line with
              | Some (name, value) =>
                  match field_fate h upstream_host (to_ascii_lowercase (trim name)) with
                  | Dropped => MkRewrite (output acc) (xff_values acc) (forwarded_values acc) true
                  | CollectedXff =>
                      MkRewrite (output acc) (xff_values acc ++ [trim value]) (forwarded_values acc) true
                  | CollectedForwarded =>
                      MkRewrite (output acc) (xff_values acc) (forwarded_values acc ++ [trim value]) true
                  | Kept => emit line acc false
                  end
              | None => emit line acc false
              end in
            rewrite_lines h upstream_host acc' lines
      end
  end.

Definition push_header (name value : bytes) : bytes := name ++ lit ": " ++ value ++ crlf.

Definition forwarded_for (client_ip : IpAddr) : bytes :=
  match client_ip with
  | V4 ip => lit "for=" ++ show_v4 ip
  | V6 ip => lit "for=" ++ [34] ++ lit "[" ++ show_v6 ip ++ lit "]" ++ [34]
  end.

Definition rewrite_for_proxy (h : HttpHead) (client_ip : IpAddr) (scheme : bytes)
  (upstream_host : option bytes) (loop_token : bytes) : bytes :=
  let lines := head_lines (from_utf8_lossy (head_bytes h)) in
  let acc := rewrite_lines h upstream_host (MkRewrite (nth 0 lines [] ++ crlf) [] [] false) (tail lines) in
  let xff := xff_values acc ++ [show_ip client_ip] in
  let forwarded := forwarded_values acc ++
    [forwarded_for client_ip ++ lit ";host=" ++ host_raw h ++ lit ";proto=" ++ scheme] in
  output acc
  ++ push_header (lit "X-Forwarded-For") (join (lit ", ") xff)
  ++ push_header (lit "X-Forwarded-Host") (host_raw h)
  ++ push_header (lit "X-Forwarded-Proto") scheme
  ++ push_header (lit "Forwarded") (join (lit ", ") forwarded)
  ++ push_header (lit "X-Tlsproxy-Rid") loop_token
  ++ push_header (lit "Connection") (if upgrade_requested h then lit "upgrade" else lit "close")
  ++ match upstream_host with Some host => push_header (lit "Host") host | None => [] end
  ++ crlf
  ++ drop (head_len h) (buffered h).

(** ** Lemmas: blocks of lines *)

Definition block (ls : list bytes) : bytes := concat (map (λ l, l ++ crlf) ls).
Definition line_ok (l : bytes) : Prop := l ≠ [] ∧ LF ∉ l.

Lemma block_app a b : block (a ++ b) = block a ++ block b.
Proof. unfold block. by rewrite map_app, concat_app. Qed.

Lemma LF_not_line_cr l : LF ∉ l → LF ∉ l ++ [CR].
Proof. rewrite elem_of_app, list_elem_of_singleton. intros ? [?|?]; done. Qed.

(** A line that does not start a blank line is passed over. *)
Lemma find_head_end_skip l s :
  l ≠ [] → LF ∉ l → find_head_end (LF :: l ++ crlf ++ s) = Nat.add (2 + length l) <$> find_head_end (LF :: s).
Proof.
  intros Hne Hl. assert (find_head_end (LF :: l ++ crlf ++ s) = Nat.add 1 <$> find_head_end (l ++ crlf ++ s)) as ->.
  { rewrite <-find_head_end_shift. unfold find_head_end at 1. cbn [find_head_end_from].
    change (LF =? LF) with true. cbn iota. destruct l as [|c l]; [done|]. cbn [app].
    rewrite not_elem_of_cons in Hl. destruct Hl as [Hc Hl].
    destruct (Z.eqb_spec c LF); [congruence|].
    assert (match l ++ crlf ++ s with z :: _ => z =? LF | [] => false end = false) as ->.
    { destruct l as [|d l]; [done|]. cbn. apply Z.eqb_neq. set_solver. }
    by rewrite andb_false_r. }
  unfold crlf. change ([CR; LF] ++ s) with ([CR] ++ LF :: s).
  rewrite (app_assoc l [CR] (LF :: s)), find_head_end_line by by apply LF_not_line_cr.
  rewrite length_app. cbn [length]. destruct (find_head_end (LF :: s)); cbn; [f_equal; lia|done].
Qed.

Lemma find_head_end_block ls rest :
  Forall line_ok ls → find_head_end (LF :: block ls ++ crlf ++ rest) = Some (3 + length (block ls))%nat.
Proof.
  induction 1 as [|l ls [Hne Hl] Hls IH]; [done|]. unfold block. cbn [map concat]. fold (block ls).
  rewrite <-!app_assoc, find_head_end_skip, IH by done. cbn. f_equal. rewrite !length_app. cbn. lia.
Qed.

Lemma find_head_end_message rl ls rest :
  LF ∉ rl → Forall line_ok ls →
  find_head_end (rl ++ crlf ++ block ls ++ crlf ++ rest) = Some (length (rl ++ crlf ++ block ls ++ crlf)).
Proof.
  intros Hrl Hls. change (crlf ++ block ls ++ crlf ++ rest) with ([CR] ++ LF :: block ls ++ crlf ++ rest).
  rewrite app_assoc, find_head_end_line by by apply LF_not_line_cr.
  rewrite find_head_end_block by done. cbn [fmap option_fmap option_map]. f_equal. rewrite !length_app. cbn. lia.
Qed.

Lemma head_lines_crlf l rest : LF ∉ l → head_lines (l ++ crlf ++ rest) = l :: head_lines rest.
Proof.
  intros Hl. change (crlf ++ rest) with ([CR] ++ LF :: rest).
  rewrite app_assoc, head_lines_app by by apply LF_not_line_cr. by rewrite strip_cr_snoc.
Qed.

Lemma head_lines_block ls rest : Forall line_ok ls → head_lines (block ls ++ rest) = ls ++ head_lines rest.
Proof.
  induction 1 as [|l ls [Hne Hl] Hls IH]; [done|]. unfold block. cbn [map concat]. fold (block ls).
  rewrite <-!app_assoc, head_lines_crlf by done. cbn. by f_equal.
Qed.

Lemma head_lines_message rl ls :
  LF ∉ rl → Forall line_ok ls → head_lines (rl ++ crlf ++ block ls ++ crlf) = rl :: ls ++ [[]; []].
Proof.
  intros Hrl Hls. rewrite head_lines_crlf, head_lines_block by done.
  change crlf with ([] ++ crlf ++ []) at 1. rewrite head_lines_crlf by set_solver. done.
Qed.

Lemma fields_of_app ls ls' : Forall line_ok ls → fields_of (ls ++ ls') = fields_of ls ++ fields_of ls'.
Proof.
  induction 1 as [|l ls [Hne Hl] Hls IH]; [done|]. cbn [app fields_of]. destruct l as [|c l]; [done|].
  destruct (is_fold _); [done|]. destruct (split_once COLON (c :: l)) as [[n v]|]; [|done]. cbn. by f_equal.
Qed.

Lemma fields_of_line name value ls :
  COLON ∉ name → name ≠ [] → is_fold name = false →
  fields_of ((name ++ lit ": " ++ value) :: ls) = (to_ascii_lowercase (trim name), SP :: value) :: fields_of ls.
Proof.
  intros Hc Hne Hf. cbn [fields_of]. destruct name as [|c name]; [done|]. cbn [app].
  change (is_fold (c :: name ++ lit ": " ++ value)) with (is_fold (c :: name)). rewrite Hf.
  assert (split_once COLON (c :: name ++ lit ": " ++ value) = Some (c :: name, SP :: value)) as ->; [|done].
  apply split_once_Some. done.
Qed.

(** ** Lemmas: the loop *)

Definition keeps (h : HttpHead) (upstream_host : option bytes) (f : field) : bool :=
  match field_fate h upstream_host f.1 with Kept => true | _ => false end.

Lemma field_fate_xff h up name :
  field_fate h up name = CollectedXff ↔ name = lit "x-forwarded-for".
Proof.
  split; [|intros ->; by destruct up].
  unfold field_fate. case_match; [done|]. case_match eqn:E; [by apply eqb_bytes_spec in E as ->|].
  repeat (case_match; try done).
Qed.

Lemma field_fate_forwarded h up name :
  field_fate h up name = CollectedForwarded ↔ name = lit "forwarded".
Proof.
  split; [|intros ->; by destruct up].
  unfold field_fate. case_match; [done|]. case_match; [done|].
  case_match eqn:E; [by apply eqb_bytes_spec in E as ->|]. repeat (case_match; try done).
Qed.

Lemma eqb_bytes_true a b : a = b → eqb_bytes a b = true.
Proof. apply eqb_bytes_spec. Qed.
Lemma eqb_bytes_false a b : a ≠ b → eqb_bytes a b = false.
Proof. rewrite <-not_true_iff_false, eqb_bytes_spec. done. Qed.

Lemma rewrite_lines_spec h up acc lines :
  Forall (λ l, LF ∉ l) lines →
  ∃ ks, output (rewrite_lines h up acc lines) = output acc ++ block ks ∧ Forall line_ok ks ∧
    fields_of ks = List.filter (keeps h up) (fields_of lines) ∧
    xff_values (rewrite_lines h up acc lines)
      = xff_values acc ++ map trim (values_of (lit "x-forwarded-for") (fields_of lines)) ∧
    forwarded_values (rewrite_lines h up acc lines)
      = forwarded_values acc ++ map trim (values_of (lit "forwarded") (fields_of lines)).
Proof.
  intros Hl; revert acc; induction Hl as [|line lines Hlf Hl IH]; intros acc.
  { exists []. cbn. rewrite !app_nil_r. done. }
  cbn [rewrite_lines fields_of]. destruct line as [|c line]; [exists []; cbn; rewrite !app_nil_r; done|].
  assert (∀ ks, output acc ++ block ((c :: line) :: ks) = (output acc ++ (c :: line) ++ crlf) ++ block ks) as Hblk.
  { intros ks. unfold block. cbn [map concat]. by rewrite <-!app_assoc. }
  destruct (is_fold (c :: line)) eqn:Hf.
  { destruct (skipping_folds acc); [apply IH|].
    destruct (IH (emit (c :: line) acc false)) as (ks & H1 & H2 & H3 & H4 & H5).
    exists ((c :: line) :: ks). rewrite Hblk. split_and!; [done|by constructor| |done|done].
    cbn [fields_of]. by rewrite Hf. }
  destruct (split_once COLON (c :: line)) as [[name value]|] eqn:Hs.
  2: { destruct (IH (emit (c :: line) acc false)) as (ks & H1 & H2 & H3 & H4 & H5).
       exists ((c :: line) :: ks). rewrite Hblk. split_and!; [done|by constructor| |done|done].
       cbn [fields_of]. by rewrite Hf, Hs. }
  set (nm := to_ascii_lowercase (trim name)). rewrite !values_of_cons. cbn [fst snd].
  cbn [List.filter]. unfold keeps at 1. cbn [fst].
  pose proof (field_fate_xff h up nm) as Hx. pose proof (field_fate_forwarded h up nm) as Hw.
  destruct (field_fate h up nm) eqn:Hfate.
  - destruct (IH (MkRewrite (output acc) (xff_values acc) (forwarded_values acc) true)) as (ks & H1 & H2 & H3 & H4 & H5).
    exists ks. rewrite !eqb_bytes_false by naive_solver. done.
  - destruct (IH (MkRewrite (output acc) (xff_values acc ++ [trim value]) (forwarded_values acc) true)) as (ks & H1 & H2 & H3 & H4 & H5).
    exists ks. rewrite (eqb_bytes_true nm (lit "x-forwarded-for")) by naive_solver.
    rewrite eqb_bytes_false by naive_solver. cbn [map]. rewrite H4. cbn [xff_values]. by rewrite <-app_assoc.
  - destruct (IH (MkRewrite (output acc) (xff_values acc) (forwarded_values acc ++ [trim value]) true)) as (ks & H1 & H2 & H3 & H4 & H5).
    exists ks. rewrite (eqb_bytes_true nm (lit "forwarded")) by naive_solver.
    rewrite eqb_bytes_false by naive_solver. cbn [map]. rewrite H5. cbn [forwarded_values]. by rewrite <-app_assoc.
  - destruct (IH (emit (c :: line) acc false)) as (ks & H1 & H2 & H3 & H4 & H5).
    exists ((c :: line) :: ks). rewrite Hblk, !eqb_bytes_false by naive_solver.
    split_and!; [done|by constructor| |done|done].
    cbn [fields_of]. rewrite Hf, Hs. fold nm. by rewrite H3.
Qed.

(** ** The rewritten message *)

(** What the rewrite relies on: the head is text that ends at the recorded
    blank line, and the recorded Host value is a single line. *)
Definition head_ok (h : HttpHead) : Prop :=
  find_head_end (buffered h) = Some (head_len h) ∧ utf8_valid (head_bytes h) = true ∧ LF ∉ host_raw h.

Lemma head_lines_LF s : Forall (λ l, LF ∉ l) (head_lines s).
Proof.
  unfold head_lines. rewrite Forall_fmap, Forall_forall. intros l Hl%split_by_pieces Hin.
  assert (LF ∈ l) as Hin'.
  { unfold compose, strip_cr in Hin. destruct (strip_suffix [CR] l) as [l'|] eqn:E; [|done].
    apply strip_suffix_Some in E as ->. set_solver. }
  rewrite Forall_forall in Hl. by specialize (Hl _ Hin').
Qed.

Lemma fields_of_no_LF lines : Forall (λ l, LF ∉ l) lines → Forall (λ f, LF ∉ f.2) (fields_of lines).
Proof.
  induction 1 as [|l lines Hl Hls IH]; [constructor|]. cbn [fields_of]. destruct l as [|c l]; [constructor|].
  destruct (is_fold _); [done|]. destruct (split_once COLON (c :: l)) as [[n v]|] eqn:E; [|done].
  apply split_once_Some in E as [E _]. constructor; [|done]. cbn. rewrite E in Hl. set_solver.
Qed.

Lemma values_of_no_LF name l : Forall (λ f : field, LF ∉ f.2) l → Forall (λ v, LF ∉ v) (values_of name l).
Proof.
  intros Hl. unfold values_of. rewrite Forall_fmap. rewrite Forall_forall in *.
  intros f Hf%list_elem_of_In%filter_In. destruct Hf as [Hf _]. apply Hl. by apply list_elem_of_In.
Qed.

(** A head accepted by the parser can be rewritten, also after the
    authorization was consumed or a prefix was stripped. *)
Lemma parse_head_ok buf n h : find_head_end buf = Some n → parse_head buf n = Ok h → head_ok h.
Proof.
  intros Hend Hp. destruct (parse_head_inv buf n h Hp) as (Hu & _ & acc & Hacc & Hhr & _ & Heq).
  assert (buffered h = buf ∧ head_len h = n) as [Hb Hn] by by rewrite Heq.
  unfold head_ok, head_bytes. rewrite Hb, Hn. split_and!; [done|done|].
  apply parse_header_lines_settles in Hacc. cbn [settles HttpHead.host_value] in Hacc. rewrite Hhr in Hacc.
  pose proof (values_of_no_LF (lit "host") _ (fields_of_no_LF (tail (head_lines (take n buf))) ltac:(
    pose proof (head_lines_LF (take n buf)) as Hall; destruct (head_lines (take n buf)); [constructor|by apply Forall_cons in Hall as [_ ?]]))) as Hv.
  destruct (values_of _ _) as [|v [|? ?]]; [done| |done]. destruct Hacc as [[= ->] _].
  apply trim_not_elem. by apply Forall_cons in Hv as [? _].
Qed.

Lemma consume_authorization_ok h : head_ok h → head_ok (consume_authorization h).
Proof. done. Qed.

(** This hop's fields, in the order they are written. *)
Definition injected (h : HttpHead) (client_ip : IpAddr) (scheme : bytes) (upstream_host : option bytes)
  (loop_token : bytes) : list field :=
  let fs := header_fields (head_bytes h) in
  [(lit "x-forwarded-for",
     SP :: join (lit ", ") (map trim (values_of (lit "x-forwarded-for") fs) ++ [show_ip client_ip]));
   (lit "x-forwarded-host", SP :: host_raw h);
   (lit "x-forwarded-proto", SP :: scheme);
   (lit "forwarded",
     SP :: join (lit ", ") (map trim (values_of (lit "forwarded") fs) ++
       [forwarded_for client_ip ++ lit ";host=" ++ host_raw h ++ lit ";proto=" ++ scheme]));
   (lit "x-tlsproxy-rid", SP :: loop_token);
   (lit "connection", SP :: (if upgrade_requested h then lit "upgrade" else lit "close"))] ++
  match upstream_host with Some u => [(lit "host", SP :: u)] | None => [] end.

Definition header_text (name value : bytes) : bytes := name ++ lit ": " ++ value.

Lemma push_header_block name value : push_header name value = block [header_text name value].
Proof. unfold push_header, block, header_text. cbn. by rewrite <-!app_assoc, app_nil_r. Qed.

Lemma join_no_LF sep l : LF ∉ sep → Forall (λ s, LF ∉ s) l → LF ∉ join sep l.
Proof. apply join_no_elem. Qed.

Lemma LF_lit s : contains LF (lit s) = false → LF ∉ lit s.
Proof. apply contains_false. Qed.

Lemma digits_no_LF s : Forall (λ c, is_digit c = true) s → LF ∉ s.
Proof. intros Hd Hin. rewrite Forall_forall in Hd. by specialize (Hd _ Hin). Qed.

Lemma hex_digits_no_LF fuel n acc : 0 ≤ n → LF ∉ acc → LF ∉ hex_digits fuel n acc.
Proof.
  revert n acc; induction fuel as [|fuel IH]; intros n acc Hn Hacc; cbn; [done|].
  assert (LF ∉ hex_digit (n mod 16) :: acc) as Ha.
  { rewrite not_elem_of_cons. split; [|done]. unfold hex_digit, LF. pose proof (Z.mod_pos_bound n 16).
    case_match; lia. }
  case_match; [done|]. apply IH; [apply Z.div_pos; lia|done].
Qed.

Lemma show_segments_no_LF s : Forall is_u16 s → LF ∉ show_segments s.
Proof.
  intros Hs. apply join_no_LF; [by apply contains_false|]. rewrite Forall_fmap.
  eapply Forall_impl; [exact Hs|]. intros x [? _]. cbn. unfold show_hex. apply hex_digits_no_LF; [done|set_solver].
Qed.

Lemma show_v4_no_LF o : Forall is_byte o → LF ∉ show_v4 o.
Proof.
  intros Ho. apply join_no_LF; [by apply contains_false|]. rewrite Forall_fmap.
  eapply Forall_impl; [exact Ho|]. intros x [? _]. cbn. by apply digits_no_LF, show_dec_digits.
Qed.

Lemma show_v6_no_LF s : Forall is_u16 s → LF ∉ show_v6 s.
Proof.
  intros Hs. unfold show_v6. destruct (to_ipv4_mapped s) as [o|] eqn:Hm.
  - destruct (to_ipv4_mapped_Some s o Hs Hm) as (_ & _ & Hob). rewrite elem_of_app.
    intros [Hin|Hin]; [by vm_compute in Hin; set_solver|by apply show_v4_no_LF in Hin].
  - destruct (zero_span s) as [st ln]. case_decide; [|by apply show_segments_no_LF].
    rewrite !elem_of_app. intros [Hin|[Hin|Hin]].
    + eapply show_segments_no_LF; [|exact Hin]. by apply Forall_take.
    + vm_compute in Hin. set_solver.
    + eapply show_segments_no_LF; [|exact Hin]. by apply Forall_drop.
Qed.

Lemma show_ip_no_LF ip : ip_wf ip → LF ∉ show_ip ip.
Proof. destruct ip; intros [_ ?]; cbn; [by apply show_v4_no_LF|by apply show_v6_no_LF]. Qed.

Lemma forwarded_for_no_LF ip : ip_wf ip → LF ∉ forwarded_for ip.
Proof.
  destruct ip; intros [_ Hw]; cbn [forwarded_for]; rewrite !elem_of_app.
  - pose proof (show_v4_no_LF _ Hw). pose proof (LF_lit "for=" eq_refl). tauto.
  - pose proof (show_v6_no_LF _ Hw). pose proof (LF_lit "for=" eq_refl). pose proof (LF_lit "[" eq_refl).
    pose proof (LF_lit "]" eq_refl). rewrite !list_elem_of_singleton. unfold LF in *. intuition discriminate.
Qed.

Section rewrite.
Context (h : HttpHead) (client_ip : IpAddr) (scheme : bytes) (upstream_host : option bytes) (loop_token : bytes).
Hypothesis Hok : head_ok h.
Hypothesis Hip : ip_wf client_ip.
Hypothesis Hscheme : LF ∉ scheme.
Hypothesis Htoken : LF ∉ loop_token.
Hypothesis Hup : match upstream_host with Some u => LF ∉ u | None => True end.

Lemma header_text_ok name value : LF ∉ name → LF ∉ value → line_ok (header_text name value).
Proof.
  intros Hn Hv. split; [by destruct name|]. unfold header_text. rewrite !elem_of_app.
  pose proof (LF_lit ": " eq_refl). tauto.
Qed.

Lemma tail_no_LF s : Forall (λ l, LF ∉ l) (tail (head_lines s)).
Proof. pose proof (head_lines_LF s) as H. destruct (head_lines s); [constructor|]. by apply Forall_cons in H as [_ ?]. Qed.

Lemma trimmed_no_LF name : Forall (λ v, LF ∉ v) (map trim (values_of name (header_fields (head_bytes h)))).
Proof.
  rewrite Forall_fmap. eapply Forall_impl; [apply values_of_no_LF, fields_of_no_LF, tail_no_LF|].
  intros v Hv. by apply trim_not_elem.
Qed.

(** The rewritten message is a well-formed block of lines whose fields are
    the kept ones followed by this hop's. *)
Lemma rewrite_message :
  ∃ ls, rewrite_for_proxy h client_ip scheme upstream_host loop_token
      = nth 0 (head_lines (head_bytes h)) [] ++ crlf ++ block ls ++ crlf ++ body_prefix h ∧
    Forall line_ok ls ∧
    fields_of ls = List.filter (keeps h upstream_host) (header_fields (head_bytes h))
                   ++ injected h client_ip scheme upstream_host loop_token.
Proof.
  destruct Hok as (Hend & Hu & Hhr). unfold rewrite_for_proxy. rewrite utf8_lossy_valid by done.
  set (lines := head_lines (head_bytes h)).
  destruct (rewrite_lines_spec h upstream_host (MkRewrite (nth 0 lines [] ++ crlf) [] [] false) (tail lines))
    as (ks & -> & Hks & Hfields & -> & ->); [apply tail_no_LF|]. cbn [output xff_values forwarded_values app].
  change (fields_of (tail lines)) with (header_fields (head_bytes h)) in *.
  set (xff := join (lit ", ") (map trim (values_of (lit "x-forwarded-for") (header_fields (head_bytes h))) ++ [show_ip client_ip])).
  set (fwd := join (lit ", ") (map trim (values_of (lit "forwarded") (header_fields (head_bytes h))) ++ _)).
  exists (ks ++ [header_text (lit "X-Forwarded-For") xff; header_text (lit "X-Forwarded-Host") (host_raw h);
    header_text (lit "X-Forwarded-Proto") scheme; header_text (lit "Forwarded") fwd;
    header_text (lit "X-Tlsproxy-Rid") loop_token;
    header_text (lit "Connection") (if upgrade_requested h then lit "upgrade" else lit "close")] ++
    match upstream_host with Some u => [header_text (lit "Host") u] | None => [] end).
  split_and!.
  - rewrite !push_header_block, !block_app, <-!app_assoc. do 2 f_equal. unfold block. cbn [map concat].
    rewrite !app_nil_r, <-!app_assoc. do 9 f_equal. unfold body_prefix.
    destruct upstream_host; [|done]. by rewrite push_header_block.
  - pose proof (LF_lit ", " eq_refl). pose proof (show_ip_no_LF _ Hip). pose proof (forwarded_for_no_LF _ Hip).
    pose proof (LF_lit ";host=" eq_refl). pose proof (LF_lit ";proto=" eq_refl).
    assert (LF ∉ xff) by (apply join_no_LF; [done|]; apply Forall_app; split; [apply trimmed_no_LF|by repeat constructor]).
    assert (LF ∉ fwd).
    { apply join_no_LF; [done|]. apply Forall_app. split; [apply trimmed_no_LF|].
      constructor; [|constructor]. rewrite !elem_of_app. tauto. }
    apply Forall_app. split; [done|]. apply Forall_app. split.
    + repeat (constructor; [apply header_text_ok; [by apply LF_lit|first [done|by destruct (upgrade_requested h); apply LF_lit]]|]).
      constructor.
    + destruct upstream_host; [|constructor]. constructor; [|constructor]. apply header_text_ok; [by apply LF_lit|done].
  - rewrite fields_of_app by done. rewrite Hfields. f_equal. unfold header_text. cbn [app].
    repeat rewrite fields_of_line by (first [by apply contains_false|reflexivity|done]).
    destruct upstream_host; [|done]. by rewrite fields_of_line by (first [by apply contains_false|reflexivity|done]).
Qed.

(** The message in parts: where the head ends, what follows it, its request
    line and its fields. *)
Lemma rewrite_parts :
  let out := rewrite_for_proxy h client_ip scheme upstream_host loop_token in
  ∃ n, find_head_end out = Some n ∧ drop n out = body_prefix h ∧
    nth 0 (head_lines (take n out)) [] = nth 0 (head_lines (head_bytes h)) [] ∧
    header_fields (take n out) = List.filter (keeps h upstream_host) (header_fields (head_bytes h))
                                 ++ injected h client_ip scheme upstream_host loop_token.
Proof.
  destruct rewrite_message as (ls & -> & Hls & Hfields). cbn zeta. set (rl := nth 0 (head_lines (head_bytes h)) []).
  assert (LF ∉ rl) as Hrl.
  { unfold rl. pose proof (head_lines_LF (head_bytes h)) as Hall. destruct (head_lines (head_bytes h)); [set_solver|].
    by apply Forall_cons in Hall as [? _]. }
  exists (length (rl ++ crlf ++ block ls ++ crlf)). split_and!.
  - by apply find_head_end_message.
  - rewrite !(app_assoc _ _ (body_prefix h)). rewrite <-!app_assoc. rewrite !app_assoc, drop_app_length. done.
  - rewrite !app_assoc, take_app_length, <-!app_assoc. by rewrite head_lines_message.
  - rewrite !app_assoc, take_app_length, <-!app_assoc. unfold header_fields at 1.
    rewrite head_lines_message by done. cbn [tail]. rewrite fields_of_app by done. cbn [fields_of].
    by rewrite app_nil_r.
Qed.

(** The rewritten request is the original one with the fields of this
    hop: it is a complete head followed by exactly the body bytes already
    read, with the same request line, and its fields are the original fields
    that are not hop-by-hop, in order, followed by the injected ones - so no
    client-supplied value can add a field or move the message boundary. *)
Theorem rewrite_for_proxy_spec :
  let out := rewrite_for_proxy h client_ip scheme upstream_host loop_token in
  ∃ n, find_head_end out = Some n ∧ drop n out = body_prefix h ∧
    nth 0 (head_lines (take n out)) [] = nth 0 (head_lines (head_bytes h)) [] ∧
    header_fields (take n out) = List.filter (keeps h upstream_host) (header_fields (head_bytes h))
                                 ++ injected h client_ip scheme upstream_host loop_token.
Proof. apply rewrite_parts. Qed.

End rewrite.

(** The fields the upstream reads from a message. *)
Definition fields_seen (message : bytes) : list field :=
  match find_head_end message with Some n => header_fields (take n message) | None => [] end.

Lemma values_of_app name a b : values_of name (a ++ b) = values_of name a ++ values_of name b.
Proof. unfold values_of. by rewrite List.filter_app, map_app. Qed.

Lemma values_of_filtered_out p name l :
  (∀ v, p (name, v) = false) → values_of name (List.filter p l) = [].
Proof.
  intros Hp. induction l as [|[n v] l IH]; cbn [List.filter]; [done|]. destruct (p (n, v)) eqn:E; [|done].
  rewrite values_of_cons. cbn [fst]. rewrite eqb_bytes_false; [done|]. intros ->. by rewrite Hp in E.
Qed.

Lemma values_of_filtered_in p name l :
  (∀ v, p (name, v) = true) → values_of name (List.filter p l) = values_of name l.
Proof.
  intros Hp. induction l as [|[n v] l IH]; cbn [List.filter]; [done|]. rewrite values_of_cons. cbn [fst snd].
  destruct (p (n, v)) eqn:E.
  - rewrite values_of_cons. cbn [fst snd]. by rewrite IH.
  - rewrite eqb_bytes_false; [done|]. intros ->. by rewrite Hp in E.
Qed.

Lemma existsb_eqb_bytes name l : existsb (λ t, eqb_bytes t name) l = true ↔ name ∈ l.
Proof.
  rewrite existsb_exists, list_elem_of_In. split.
  - intros (x & Hx & ->%eqb_bytes_spec). done.
  - intros Hin. exists name. split; [done|by apply eqb_bytes_true].
Qed.

(** A name none of the special arms mentions. *)
Definition ordinary (name : bytes) : bool :=
  negb (existsb (λ t, eqb_bytes t name)
    [lit "host"; lit "x-forwarded-for"; lit "forwarded"; lit "authorization"; lit "x-forwarded-host";
     lit "x-forwarded-proto"; lit "connection"; lit "upgrade"; lit "x-tlsproxy-rid"]).

Lemma ordinary_fate h up name :
  ordinary name = true →
  field_fate h up name = if existsb (λ t, eqb_bytes t name) (hop_by_hop h) then Dropped else Kept.
Proof.
  unfold ordinary, field_fate. intros Ho%negb_true_iff. cbn [existsb] in Ho.
  assert (∀ a, eqb_bytes a name = eqb_bytes name a) as Hsym.
  { intros a. unfold eqb_bytes. apply bool_decide_ext. split; congruence. }
  rewrite !Hsym in Ho. repeat (apply orb_false_iff in Ho as [? Ho]).
  by repeat match goal with H : eqb_bytes name _ = false |- _ => rewrite H; clear H end.
Qed.

Lemma ordinary_injected h ip scheme up tok name :
  ordinary name = true → values_of name (injected h ip scheme up tok) = [].
Proof.
  unfold ordinary. intros Ho%negb_true_iff. cbn [existsb] in Ho.
  repeat (apply orb_false_iff in Ho as [? Ho]). unfold injected. rewrite values_of_app, !values_of_cons. cbn [fst].
  repeat match goal with H : eqb_bytes _ name = false |- context [eqb_bytes ?l name] => rewrite H; clear H end.
  by destruct up; rewrite ?values_of_cons; cbn [fst]; repeat match goal with H : eqb_bytes _ name = false |- _ => rewrite H; clear H end.
Qed.

Lemma rewrite_fields_seen h ip scheme up tok :
  head_ok h → ip_wf ip → LF ∉ scheme → LF ∉ tok → match up with Some u => LF ∉ u | None => True end →
  fields_seen (rewrite_for_proxy h ip scheme up tok)
    = List.filter (keeps h up) (header_fields (head_bytes h)) ++ injected h ip scheme up tok ∧
  ∃ n, find_head_end (rewrite_for_proxy h ip scheme up tok) = Some n ∧
    drop n (rewrite_for_proxy h ip scheme up tok) = body_prefix h.
Proof.
  intros H1 H2 H3 H4 H5. destruct (rewrite_parts h ip scheme up tok H1 H2 H3 H4 H5) as (n & Hn & Hb & _ & Hf).
  unfold fields_seen. rewrite Hn. eauto.
Qed.

(** C3: clients cannot speak for this hop: whatever fields the request
    carried, the upstream sees a single Connection, X-Forwarded-Host and
    X-Forwarded-Proto field, each with this hop's value, an X-Forwarded-For
    chain that ends with the client's address, and, when the route names an
    upstream host, that Host alone. *)
Theorem rewrite_no_spoofing h ip scheme up tok :
  head_ok h → ip_wf ip → LF ∉ scheme → LF ∉ tok → match up with Some u => LF ∉ u | None => True end →
  let seen := fields_seen (rewrite_for_proxy h ip scheme up tok) in
  values_of (lit "connection") seen = [SP :: (if upgrade_requested h then lit "upgrade" else lit "close")] ∧
  values_of (lit "x-forwarded-host") seen = [SP :: host_raw h] ∧
  values_of (lit "x-forwarded-proto") seen = [SP :: scheme] ∧
  values_of (lit "x-forwarded-for") seen
    = [SP :: join (lit ", ") (map trim (values_of (lit "x-forwarded-for") (header_fields (head_bytes h))) ++ [show_ip ip])] ∧
  match up with Some u => values_of (lit "host") seen = [SP :: u] | None => True end.
Proof.
  intros H1 H2 H3 H4 H5. cbn zeta. destruct (rewrite_fields_seen h ip scheme up tok H1 H2 H3 H4 H5) as [-> _].
  rewrite !values_of_app. split_and!.
  - rewrite values_of_filtered_out by (intros v; unfold keeps, field_fate; by destruct up). by destruct up.
  - rewrite values_of_filtered_out by (intros v; unfold keeps, field_fate; by destruct up). by destruct up.
  - rewrite values_of_filtered_out by (intros v; unfold keeps, field_fate; by destruct up). by destruct up.
  - rewrite values_of_filtered_out by (intros v; unfold keeps, field_fate; by destruct up). by destruct up.
  - destruct up; [|done]. by rewrite values_of_filtered_out.
Qed.

(** A field that is neither hop-by-hop nor one of this hop's own reaches
    the upstream with all its values, unless the client's Connection field
    names it; in particular the framing the proxy used for the body is the
    framing the upstream reads. *)
Theorem rewrite_keeps_ordinary_field h ip scheme up tok name :
  head_ok h → ip_wf ip → LF ∉ scheme → LF ∉ tok → match up with Some u => LF ∉ u | None => True end →
  ordinary name = true → name ∉ hop_by_hop h →
  values_of name (fields_seen (rewrite_for_proxy h ip scheme up tok)) = values_of name (header_fields (head_bytes h)).
Proof.
  intros H1 H2 H3 H4 H5 Ho Hn. destruct (rewrite_fields_seen h ip scheme up tok H1 H2 H3 H4 H5) as [-> _].
  rewrite values_of_app, ordinary_injected, app_nil_r by done. apply values_of_filtered_in. intros v.
  unfold keeps. cbn [fst]. rewrite ordinary_fate by done.
  destruct (existsb _ _) eqn:E; [|done]. by apply existsb_eqb_bytes in E.
Qed.

(** Naming Content-Length (or Transfer-Encoding) in the client's own
    Connection field removes the framing while the body is still sent: the
    upstream sees no such field, yet the message continues with the body
    bytes. *)
Theorem rewrite_drops_framing h ip scheme up tok name connection :
  head_ok h → ip_wf ip → LF ∉ scheme → LF ∉ tok → match up with Some u => LF ∉ u | None => True end →
  name = lit "content-length" ∨ name = lit "transfer-encoding" →
  header_value h (lit "connection") = Some connection →
  name ∈ map (λ t, to_ascii_lowercase (trim t)) (split_char COMMA connection) →
  let out := rewrite_for_proxy h ip scheme up tok in
  values_of name (fields_seen out) = [] ∧ ∃ n, find_head_end out = Some n ∧ drop n out = body_prefix h.
Proof.
  intros H1 H2 H3 H4 H5 Hname Hc Hin. cbn zeta.
  destruct (rewrite_fields_seen h ip scheme up tok H1 H2 H3 H4 H5) as [-> Hbody]. split; [|done].
  assert (ordinary name = true) as Ho by (destruct Hname as [-> | ->]; reflexivity).
  rewrite values_of_app, ordinary_injected, app_nil_r by done. apply values_of_filtered_out. intros v.
  unfold keeps. cbn [fst]. rewrite ordinary_fate by done.
  assert (existsb (λ t, eqb_bytes t name) (hop_by_hop h) = true) as ->; [|done].
  apply existsb_eqb_bytes. unfold hop_by_hop. rewrite Hc. apply elem_of_app. right.
  apply list_elem_of_In, filter_In. split; [by apply list_elem_of_In|]. by destruct Hname as [-> | ->].
Qed.

Definition smuggling_request : bytes :=
  lit "POST / HTTP/1.1" ++ crlf ++ lit "Host: a" ++ crlf ++ lit "X-Forwarded-For: 9.9.9.9" ++ crlf ++
  lit "Connection: content-length" ++ crlf ++ lit "Content-Length: 5" ++ crlf ++ crlf.
Definition smuggling_head : HttpHead :=
  MkHttpHead (lit "POST") (lit "/") (lit "a") None (lit "a") None [] false
    (smuggling_request ++ lit "hello") (length smuggling_request).

Lemma smuggling_head_ok : head_ok smuggling_head.
Proof. split_and!; [vm_compute; reflexivity..|]. vm_compute. set_solver. Qed.

Definition client_1 : IpAddr := V4 [10; 0; 0; 1].
Lemma client_1_wf : ip_wf client_1.
Proof. split; [done|]. repeat constructor; lia. Qed.

Lemma rewrite_for_proxy_spec_witness :
  let out := rewrite_for_proxy smuggling_head client_1 (lit "http") (Some (lit "up")) (lit "t") in
  ∃ n, find_head_end out = Some n ∧ drop n out = body_prefix smuggling_head ∧
    nth 0 (head_lines (take n out)) [] = nth 0 (head_lines (head_bytes smuggling_head)) [] ∧
    header_fields (take n out) = List.filter (keeps smuggling_head (Some (lit "up"))) (header_fields (head_bytes smuggling_head))
                                 ++ injected smuggling_head client_1 (lit "http") (Some (lit "up")) (lit "t").
Proof.
  apply (rewrite_for_proxy_spec smuggling_head client_1 (lit "http") (Some (lit "up")) (lit "t")
    smuggling_head_ok client_1_wf); by apply LF_lit.
Defined.

Lemma rewrite_no_spoofing_witness :
  values_of (lit "x-forwarded-for") (fields_seen
    (rewrite_for_proxy smuggling_head client_1 (lit "http") (Some (lit "up")) (lit "t")))
  = [lit " 9.9.9.9, 10.0.0.1"].
Proof.
  refine (proj1 (proj2 (proj2 (proj2 (rewrite_no_spoofing smuggling_head client_1 (lit "http") (Some (lit "up")) (lit "t")
    smuggling_head_ok client_1_wf _ _ _))))); by apply LF_lit.
Defined.

Lemma rewrite_keeps_ordinary_field_witness :
  values_of (lit "content-length") (fields_seen (rewrite_for_proxy sample_post client_1 (lit "http") None (lit "t")))
  = [lit " 12"].
Proof.
  refine (rewrite_keeps_ordinary_field sample_post client_1 (lit "http") None (lit "t") (lit "content-length")
    _ client_1_wf _ _ I eq_refl _).
  - split_and!; [vm_compute; reflexivity..|]. vm_compute. set_solver.
  - by apply LF_lit.
  - by apply LF_lit.
  - intros Hin%existsb_eqb_bytes. by vm_compute in Hin.
Defined.

Lemma rewrite_drops_framing_witness :
  body_framing smuggling_head = Ok (Length 5) ∧
  values_of (lit "content-length") (fields_seen
    (rewrite_for_proxy smuggling_head client_1 (lit "http") (Some (lit "up")) (lit "t"))) = [].
Proof.
  split; [vm_compute; reflexivity|].
  refine (proj1 (rewrite_drops_framing smuggling_head client_1 (lit "http") (Some (lit "up")) (lit "t")
    (lit "content-length") (lit "content-length") smuggling_head_ok client_1_wf _ _ _ (or_introl eq_refl) _ _)).
  - by apply LF_lit.
  - by apply LF_lit.
  - by apply LF_lit.
  - vm_compute. reflexivity.
  - vm_compute. set_solver.
Defined.
