(* ===== verification/ChunkedBody.v ===== *)
(** * The chunked body reader (src/http_header.rs)

    [ChunkedBodyReader] passes a chunked body through byte for byte and
    reports the end of the stream exactly at the end of the message.  It is a
    reader over any reader. *)

From S2P Require Import Prelude RustStd Stream HttpHead HttpRewrite.
Open Scope Z_scope.

Inductive ChunkedState :=
| SizeLine (line : bytes)
| Data (remaining : Z)
| DataEnd (seen_cr : bool)
| Trailers (line : bytes) (consumed : Z)
| Done.

Definition MAX_CHUNK_LINE : Z := 256.
Definition MAX_TRAILER_BYTES : Z := 16 * 1024.

Record ChunkedBodyReader (R : Type) := MkChunked { chunk_inner : R; state : ChunkedState }.
Arguments MkChunked {_} _ _.
Arguments chunk_inner {_} _.
Arguments state {_} _.

Definition chunked_new {R} (r : R) : ChunkedBodyReader R := MkChunked r (SizeLine []).

(** The size of a chunk size line without its LF. *)
Definition chunk_size (line : bytes) : option Z :=
  if utf8_valid line then
    from_str_radix 16 u64_max (trim (nth 0 (split_char SEMI (trim_end_char CR line)) []))
  else None.

(** The [match] after a successful read of [filled]: the next state, or the
    state an error leaves behind. *)
Definition advance (st : ChunkedState) (filled : bytes) : result ChunkedState ChunkedState :=
  let byte := nth 0 filled 0 in
  match st with
  | SizeLine line =>
      if byte =? LF then
        match chunk_size line with
        | None => Err st
        | Some size => Ok (if size =? 0 then Trailers [] 0 else Data size)
        end
      else if MAX_CHUNK_LINE <=? Z.of_nat (length line) then Err st
      else Ok (SizeLine (line ++ [byte]))
  | Data remaining =>
      let remaining := remaining - Z.of_nat (length filled) in
      Ok (if remaining =? 0 then DataEnd false else Data remaining)
  | DataEnd seen_cr =>
      if (byte =? CR) && negb seen_cr then Ok (DataEnd true)
      else if byte =? LF then Ok (SizeLine [])
      else Err st
  | Trailers line consumed =>
      let consumed := consumed + 1 in
      if MAX_TRAILER_BYTES <? consumed then Err (Trailers line consumed)
      else if byte =? LF then
        Ok (if forallb (Z.eqb CR) line && (length line <=? 1)%nat then Done else Trailers [] consumed)
      else Ok (Trailers (line ++ [byte]) consumed)
  | Done => Ok Done
  end.

(** How much to ask the inner reader for: framing lines advance one byte at a
    time, payloads in bulk. *)
Definition chunk_want (st : ChunkedState) (n : nat) : nat :=
  match st with
  | Data remaining => Z.to_nat (Z.min remaining (Z.of_nat n))
  | _ => 1%nat
  end.

Definition chunked_read {R} `{AsyncRead R} (n : nat) (st : ChunkedState) (i : R)
  : read_outcome * ChunkedBodyReader R :=
  match poll_read (chunk_want st n `min` 4096)%nat i with
  | (RDeadline, i) => (RDeadline, MkChunked i st)
  | (RErr, i) => (RErr, MkChunked i st)
  | (REof, i) => (RErr, MkChunked i st)
  | (RData filled, i) =>
      match advance st filled with
      | Ok st' => (RData filled, MkChunked i st')
      | Err st' => (RErr, MkChunked i st')
      end
  end.

#[global] Instance ChunkedBodyReader_poll_read {R} `{AsyncRead R} : AsyncRead (ChunkedBodyReader R) := λ n r,
  if (n =? 0)%nat then (REof, r)
  else match state r with
  | Done => (REof, r)
  | st => chunked_read n st (chunk_inner r)
  end.

(** ** The reference: one byte at a time *)

(** The message at the front of [c] as seen from state [st], and what follows
    it; [None] when the bytes end or are malformed before the message does. *)
Fixpoint message_from (st : ChunkedState) (c : bytes) : option (bytes * bytes) :=
  match st with
  | Done => Some ([], c)
  | _ =>
      match c with
      | [] => None
      | b :: c =>
          match advance st [b] with
          | Ok st' => '(m, rest) ← message_from st' c; Some (b :: m, rest)
          | Err _ => None
          end
      end
  end.

(** The states the reader can be in. *)
Definition chunk_wf (st : ChunkedState) : Prop :=
  match st with
  | SizeLine line => Z.of_nat (length line) ≤ MAX_CHUNK_LINE
  | Data remaining => 0 < remaining ≤ u64_max
  | DataEnd _ | Done => True
  | Trailers line consumed => Z.of_nat (length line) ≤ consumed ≤ MAX_TRAILER_BYTES
  end.

Lemma chunk_size_bound line n : chunk_size line = Some n → 0 ≤ n ≤ u64_max.
Proof.
  unfold chunk_size. case_match; [|done]. apply from_str_radix_bound; [lia|]. unfold u64_max. lia.
Qed.

Lemma advance_wf st filled st' :
  chunk_wf st → filled ≠ [] →
  match st with Data remaining => Z.of_nat (length filled) ≤ remaining | _ => True end →
  advance st filled = Ok st' → chunk_wf st'.
Proof.
  intros Hwf Hne Hlen. unfold advance. destruct st as [line|rem|cr|line consumed|]; cbn [chunk_wf] in *.
  - case_match; [|case_match; intros [= <-]].
    + destruct (chunk_size line) as [n|] eqn:En; [|done]. apply chunk_size_bound in En.
      destruct (Z.eqb_spec n 0); intros [= <-]; cbn; unfold MAX_TRAILER_BYTES; lia.
    + cbn. rewrite length_app. cbn. lia.
  - assert (0 < length filled)%nat by (destruct filled; [done|cbn; lia]).
    destruct (Z.eqb_spec (rem - Z.of_nat (length filled)) 0); intros [= <-]; cbn; lia.
  - repeat case_match; intros [= <-]; cbn; unfold MAX_CHUNK_LINE; lia.
  - case_match; [done|]. case_match; [case_match|]; intros [= <-]; cbn; rewrite ?length_app; cbn; lia.
  - by intros [= <-].
Qed.

(** Bulk data is the same as its bytes one by one. *)
Lemma message_from_data rem d c :
  Z.of_nat (length d) ≤ rem → d ≠ [] →
  message_from (Data rem) (d ++ c) =
    '(m, rest) ← message_from (if rem - Z.of_nat (length d) =? 0 then DataEnd false else Data (rem - Z.of_nat (length d))) c;
    Some (d ++ m, rest).
Proof.
  revert rem; induction d as [|b d IH]; intros rem Hl Hne; [done|]. cbn [app message_from].
  unfold advance. cbn [length] in *. destruct d as [|b' d].
  - done.
  - cbn [length] in *. destruct (Z.eqb_spec (rem - Z.of_nat 1) 0); [lia|].
    rewrite IH by (cbn [length]; first [lia|done]). cbn [length].
    replace (rem - Z.of_nat 1 - Z.of_nat (S (length d))) with (rem - Z.of_nat (S (S (length d)))) by lia.
    destruct (message_from _ c) as [[m r]|]; done.
Qed.

Lemma message_from_single st b c : st ≠ Done →
  message_from st (b :: c) = match advance st [b] with
    | Ok st' => '(m, rest) ← message_from st' c; Some (b :: m, rest) | Err _ => None end.
Proof. by destruct st. Qed.

(** ** The reader agrees with the reference *)

Section reader.
Context {R : Type} `{AsyncReadOk R}.

Lemma decide_done st : st = Done ∨ st ≠ Done.
Proof. destruct st; by auto. Qed.

Lemma chunked_poll_read n (i : R) st :
  (0 < n)%nat → st ≠ Done → poll_read n (MkChunked i st) = chunked_read n st i.
Proof.
  intros Hn Hd. unfold poll_read at 1, ChunkedBodyReader_poll_read.
  destruct (Nat.eqb_spec n 0); [lia|]. by destruct st.
Qed.

Lemma chunk_want_pos st n : chunk_wf st → (0 < n)%nat → (0 < chunk_want st n `min` 4096)%nat.
Proof. intros Hwf Hn. unfold chunk_want. destruct st; cbn [chunk_wf] in Hwf; lia. Qed.

Lemma chunk_want_len st n (filled : bytes) :
  chunk_wf st → filled ≠ [] → (length filled ≤ chunk_want st n `min` 4096)%nat →
  match st with Data remaining => Z.of_nat (length filled) ≤ remaining | _ => length filled = 1%nat end.
Proof.
  intros Hwf Hne Hl. assert (0 < length filled)%nat by (destruct filled; [done|cbn; lia]).
  destruct st; cbn [chunk_wf chunk_want] in *; lia.
Qed.

(** One successful poll: the delivered bytes are the next bytes of the inner
    stream, the state stays well formed, and the reference accepts them. *)
Lemma chunked_poll_data n (s : ChunkedBodyReader R) d s' :
  (0 < n)%nat → chunk_wf (state s) → poll_read n s = (RData d, s') →
  contents (chunk_inner s) = d ++ contents (chunk_inner s') ∧
  (rmeasure (chunk_inner s') < rmeasure (chunk_inner s))%nat ∧ chunk_wf (state s') ∧
  message_from (state s) (contents (chunk_inner s)) =
    '(m, rest) ← message_from (state s') (contents (chunk_inner s')); Some (d ++ m, rest).
Proof.
  intros Hn Hwf Hp. destruct s as [i st]. cbn [chunk_inner state] in *.
  destruct (decide_done st) as [->|Hdone].
  { unfold poll_read, ChunkedBodyReader_poll_read in Hp. by destruct (n =? 0)%nat. }
  rewrite chunked_poll_read in Hp by done. unfold chunked_read in Hp.
  pose proof (chunk_want_pos st n Hwf Hn) as Hw.
  destruct (poll_read _ i) as [o i'] eqn:Hpi. destruct o as [filled| | |]; try done.
  destruct (read_data _ _ _ _ Hw Hpi) as (Hne & Hl & Hc & Hm).
  destruct (advance st filled) as [st'|] eqn:Hadv; [|done]. injection Hp as <- <-. cbn [chunk_inner state].
  pose proof (chunk_want_len st n filled Hwf Hne Hl) as Hlen. split_and!; [done|done| |].
  - eapply advance_wf; [exact Hwf|done| |exact Hadv]. by destruct st.
  - rewrite Hc. destruct st as [line|rem|cr|line consumed|]; [| |..|done].
    all: try (destruct filled as [|b [|? ?]]; [done| |done]; cbn [app];
              rewrite message_from_single by done; by rewrite Hadv).
    rewrite message_from_data by done. cbn in Hadv. by injection Hadv as ->.
Qed.

(** When the reader stops, either the message is over or the reference does
    not accept what is left. *)
Lemma chunked_poll_stop n (s : ChunkedBodyReader R) o s' :
  (0 < n)%nat → chunk_wf (state s) → poll_read n s = (o, s') → (∀ d, o ≠ RData d) →
  (state s = Done ∧ s' = s) ∨ message_from (state s) (contents (chunk_inner s)) = None.
Proof.
  intros Hn Hwf Hp Hno. destruct s as [i st]. cbn [chunk_inner state] in *.
  destruct (decide_done st) as [->|Hdone].
  { unfold poll_read, ChunkedBodyReader_poll_read in Hp. destruct (n =? 0)%nat; injection Hp as <- <-; by left. }
  right. rewrite chunked_poll_read in Hp by done. unfold chunked_read in Hp.
  pose proof (chunk_want_pos st n Hwf Hn) as Hw.
  destruct (poll_read _ i) as [o0 i'] eqn:Hpi. destruct o0 as [filled| | |].
  2-4: rewrite (read_stop _ _ _ _ Hw Hpi) by done; by destruct st.
  destruct (read_data _ _ _ _ Hw Hpi) as (Hne & Hl & Hc & Hm). rewrite Hc.
  pose proof (chunk_want_len st n filled Hwf Hne Hl) as Hlen.
  destruct (advance st filled) as [st'|st'] eqn:Hadv; [injection Hp as <- _; by destruct (Hno filled)|].
  destruct st as [line|rem|cr|line consumed|]; try done.
  all: destruct filled as [|b [|? ?]]; [done| |done]; cbn [app];
    rewrite message_from_single by done; by rewrite Hadv.
Qed.

(** Reading to the end delivers the message and leaves the rest unread. *)
Lemma chunked_read_all fuel n (s : ChunkedBodyReader R) m rest :
  (0 < n)%nat → chunk_wf (state s) → (rmeasure (chunk_inner s) < fuel)%nat →
  message_from (state s) (contents (chunk_inner s)) = Some (m, rest) →
  ∃ s', read_all_go fuel n s = (m, s') ∧ state s' = Done ∧ contents (chunk_inner s') = rest.
Proof.
  intros Hn. revert s m; induction fuel as [|fuel IH]; intros s m Hwf Hf Hm; [lia|]. cbn [read_all_go].
  destruct (poll_read n s) as [o s1] eqn:Hp. destruct o as [d| | |].
  - destruct (chunked_poll_data n s d s1 Hn Hwf Hp) as (_ & Hr & Hwf' & Hmsg). rewrite Hm in Hmsg. symmetry in Hmsg.
    apply bind_Some in Hmsg as ([m' rest'] & Hm' & [= <- <-]).
    destruct (IH s1 m' Hwf' ltac:(lia) Hm') as (s2 & -> & Hd & Hc). eauto.
  - destruct (chunked_poll_stop n s _ s1 Hn Hwf Hp ltac:(done)) as [[Hd ->]|Hnone]; [|congruence].
    rewrite Hd in Hm. destruct (contents (chunk_inner s)) eqn:Ec; cbn in Hm; injection Hm as <- <-; eauto.
  - destruct (chunked_poll_stop n s _ s1 Hn Hwf Hp ltac:(done)) as [[Hd ->]|Hnone]; [|congruence].
    rewrite Hd in Hm. destruct (contents (chunk_inner s)) eqn:Ec; cbn in Hm; injection Hm as <- <-; eauto.
  - destruct (chunked_poll_stop n s _ s1 Hn Hwf Hp ltac:(done)) as [[Hd ->]|Hnone]; [|congruence].
    rewrite Hd in Hm. destruct (contents (chunk_inner s)) eqn:Ec; cbn in Hm; injection Hm as <- <-; eauto.
Qed.

End reader.

(** ** Encoded messages *)

(** A chunk extension: empty, or [;] and text on one line. *)
Definition ext_ok (ext : bytes) : Prop :=
  (ext = [] ∨ ∃ e, ext = SEMI :: e) ∧ LF ∉ ext ∧ CR ∉ ext ∧ utf8_valid ext = true.

Definition size_line (n : Z) (ext : bytes) : bytes := show_hex n ++ ext ++ crlf.
Definition encode_chunk (c : bytes * bytes) : bytes :=
  size_line (Z.of_nat (length c.2)) c.1 ++ c.2 ++ crlf.
Definition encode_message (chunks : list (bytes * bytes)) (ext : bytes) (trailers : list bytes) : bytes :=
  concat (map encode_chunk chunks) ++ size_line 0 ext ++ block trailers ++ crlf.

Definition size_ok (n : Z) (ext : bytes) : Prop :=
  ext_ok ext ∧ n ≤ u64_max ∧ Z.of_nat (length (show_hex n ++ ext)) < MAX_CHUNK_LINE.
Definition chunk_ok (c : bytes * bytes) : Prop := c.2 ≠ [] ∧ size_ok (Z.of_nat (length c.2)) c.1.
Definition trailers_ok (trailers : list bytes) : Prop :=
  Forall line_ok trailers ∧ Z.of_nat (length (block trailers)) + 2 ≤ MAX_TRAILER_BYTES.

Lemma hex_ascii s : Forall (λ c, is_hex c = true) s → utf8_valid s = true.
Proof.
  induction 1 as [|c s Hc Hs IH]; [done|]. rewrite utf8_valid_ascii_cons; [done|]. unfold is_hex, is_digit in Hc. lia.
Qed.

Lemma hex_not_elem c s : is_hex c = false → Forall (λ c, is_hex c = true) s → c ∉ s.
Proof. intros Hc Hs Hin. rewrite Forall_forall in Hs. specialize (Hs _ Hin). congruence. Qed.

Lemma trim_hex s : s ≠ [] → Forall (λ c, is_hex c = true) s → trim s = s.
Proof.
  intros Hne Hs. assert (∀ c, is_hex c = true → graphic c = true) as Hg.
  { intros c. unfold is_hex, is_digit, graphic. lia. }
  destruct (exists_last Hne) as (t & d & Ht). destruct s as [|c s]; [done|].
  eapply trim_graphic; [|apply Hg|exact Ht].
  - apply Hg. by apply Forall_cons in Hs as [? _].
  - rewrite Ht in Hs. apply Forall_app in Hs as [_ Hd]. by rewrite Forall_singleton in Hd.
Qed.

Lemma trim_end_char_one c s : c ∉ s → trim_end_char c (s ++ [c]) = s.
Proof.
  intros Hc. unfold trim_end_char. rewrite rev_app_distr. cbn. rewrite Z.eqb_refl.
  destruct (rev s) as [|x r] eqn:E; cbn.
  - apply (f_equal (@rev Z)) in E. by rewrite rev_involutive in E.
  - destruct (Z.eqb_spec x c) as [->|].
    + exfalso. apply Hc. apply list_elem_of_In, in_rev. rewrite E. by left.
    + change (rev r ++ [x]) with (rev (x :: r)). by rewrite <-E, rev_involutive.
Qed.

Lemma chunk_size_line n ext : 0 ≤ n → size_ok n ext → chunk_size (show_hex n ++ ext ++ [CR]) = Some n.
Proof.
  intros Hn (He & Hmax & _). destruct He as (Hext & Hlf & Hcr & Hu).
  destruct (show_hex_facts n Hn) as [Hne Hh]. unfold chunk_size.
  rewrite utf8_valid_app by by apply hex_ascii. rewrite utf8_valid_app by done. cbn [app].
  change (utf8_valid [CR]) with true. cbn iota. rewrite app_assoc, trim_end_char_one.
  2: { rewrite elem_of_app. pose proof (hex_not_elem CR _ eq_refl Hh). tauto. }
  assert (Forall (λ x, (SEMI =? x) = false) (show_hex n)) as Hsemi.
  { eapply Forall_impl; [exact Hh|]. intros x Hx. apply Z.eqb_neq. intros <-. done. }
  assert (nth 0 (split_char SEMI (show_hex n ++ ext)) [] = show_hex n) as ->.
  { unfold split_char. destruct Hext as [->|[e ->]].
    - rewrite app_nil_r. by rewrite split_by_none.
    - by rewrite split_by_app. }
  rewrite trim_hex by done. by apply from_str_show_hex.
Qed.

Lemma message_size_line acc l n c :
  LF ∉ l → Z.of_nat (length (acc ++ l)) ≤ MAX_CHUNK_LINE → chunk_size (acc ++ l) = Some n →
  message_from (SizeLine acc) (l ++ LF :: c) =
    '(m, rest) ← message_from (if n =? 0 then Trailers [] 0 else Data n) c; Some (l ++ LF :: m, rest).
Proof.
  revert acc; induction l as [|b l IH]; intros acc Hlf Hlen Hsz; cbn [app message_from]; unfold advance; cbn [nth].
  - rewrite app_nil_r in Hsz. rewrite Hsz. done.
  - rewrite not_elem_of_cons in Hlf. destruct Hlf as [Hb Hlf].
    destruct (Z.eqb_spec b LF); [congruence|]. rewrite length_app in Hlen. cbn [length] in Hlen.
    destruct (Z.leb_spec MAX_CHUNK_LINE (Z.of_nat (length acc))); [lia|].
    rewrite IH; [|done|rewrite !length_app; cbn; lia|by rewrite <-app_assoc].
    by destruct (message_from _ c) as [[m r]|].
Qed.

Lemma message_trailer_line acc k l c :
  LF ∉ l → k + Z.of_nat (length l) + 1 ≤ MAX_TRAILER_BYTES →
  message_from (Trailers acc k) (l ++ LF :: c) =
    '(m, rest) ← message_from
       (if forallb (Z.eqb CR) (acc ++ l) && (length (acc ++ l) <=? 1)%nat then Done
        else Trailers [] (k + Z.of_nat (length l) + 1)) c;
    Some (l ++ LF :: m, rest).
Proof.
  revert acc k; induction l as [|b l IH]; intros acc k Hlf Hk; cbn [app message_from]; unfold advance; cbn [nth length] in *.
  - destruct (Z.ltb_spec MAX_TRAILER_BYTES (k + 1)); [lia|]. rewrite app_nil_r.
    replace (k + Z.of_nat 0 + 1) with (k + 1) by lia. done.
  - rewrite not_elem_of_cons in Hlf. destruct Hlf as [Hb Hlf].
    destruct (Z.ltb_spec MAX_TRAILER_BYTES (k + 1)); [lia|].
    destruct (Z.eqb_spec b LF); [congruence|]. rewrite IH by (done || lia). rewrite <-app_assoc. cbn [app].
    replace (k + 1 + Z.of_nat (length l) + 1) with (k + Z.of_nat (S (length l)) + 1) by lia.
    by destruct (message_from _ c) as [[m r]|].
Qed.

Lemma message_trailers ls k c :
  Forall line_ok ls → k + Z.of_nat (length (block ls)) + 2 ≤ MAX_TRAILER_BYTES →
  message_from (Trailers [] k) (block ls ++ crlf ++ c) = Some (block ls ++ crlf, c).
Proof.
  intros Hls; revert k; induction Hls as [|l ls [Hne Hl] Hls IH]; intros k Hk.
  - change (block [] ++ crlf ++ c) with ([CR] ++ LF :: c).
    rewrite message_trailer_line; [|by apply contains_false|cbn in *; lia]. cbn. by destruct c.
  - unfold block in *. cbn [map concat] in *. fold (block ls) in *. rewrite !length_app in Hk. cbn in Hk.
    rewrite <-!app_assoc. change (l ++ crlf ++ block ls ++ crlf ++ c) with (l ++ [CR] ++ LF :: block ls ++ crlf ++ c).
    rewrite (app_assoc l [CR]), message_trailer_line; [|by apply LF_not_line_cr|rewrite length_app; cbn; lia].
    cbn [app]. replace (length (l ++ [CR]) <=? 1)%nat with false.
    2: { symmetry. apply Nat.leb_gt. rewrite length_app. destruct l; [done|cbn; lia]. }
    rewrite andb_false_r, IH by (rewrite length_app; cbn; lia). cbn. by rewrite <-!app_assoc.
Qed.

Lemma message_data_end c : message_from (DataEnd false) (crlf ++ c) =
  '(m, rest) ← message_from (SizeLine []) c; Some (crlf ++ m, rest).
Proof. cbn. by destruct (message_from (SizeLine []) c) as [[m r]|]. Qed.

Lemma message_sized n ext c :
  0 ≤ n → size_ok n ext →
  message_from (SizeLine []) (size_line n ext ++ c) =
    '(m, rest) ← message_from (if n =? 0 then Trailers [] 0 else Data n) c; Some (size_line n ext ++ m, rest).
Proof.
  intros Hn Hok. unfold size_line. rewrite <-!app_assoc.
  change (show_hex n ++ ext ++ crlf ++ c) with (show_hex n ++ ext ++ [CR] ++ LF :: c).
  rewrite (app_assoc ext), (app_assoc (show_hex n)), (message_size_line [] _ n).
  - destruct (message_from _ c) as [[m r]|]; [|done]. cbn. by rewrite <-!app_assoc.
  - destruct Hok as ((_ & Hlf & _) & _). destruct (show_hex_facts n Hn) as [_ Hh].
    rewrite !elem_of_app, list_elem_of_singleton. pose proof (hex_not_elem LF _ eq_refl Hh). intuition discriminate.
  - destruct Hok as (_ & _ & Hlen). cbn [app]. rewrite !length_app in *. cbn. lia.
  - cbn [app]. by apply chunk_size_line.
Qed.

Lemma message_from_encode chunks ext trailers rest :
  Forall chunk_ok chunks → size_ok 0 ext → trailers_ok trailers →
  message_from (SizeLine []) (encode_message chunks ext trailers ++ rest) = Some (encode_message chunks ext trailers, rest).
Proof.
  intros Hcs He [Ht Htl]. unfold encode_message. induction Hcs as [|[e d] chunks [Hd Hsz] Hcs IH]; cbn [map concat app].
  - rewrite <-!app_assoc, message_sized by done. cbn [Z.eqb].
    by rewrite message_trailers by done.
  - unfold encode_chunk at 1 3. cbn [fst snd]. cbn [fst snd] in Hd, Hsz. rewrite <-!app_assoc in *.
    assert (0 < length d)%nat by (destruct d; [done|cbn; lia]).
    rewrite message_sized by (done || lia).
    destruct (Z.eqb_spec (Z.of_nat (length d)) 0); [lia|]. rewrite message_from_data by (done || lia).
    replace (Z.of_nat (length d) - Z.of_nat (length d) =? 0) with true by lia.
    rewrite message_data_end, IH. cbn [mbind option_bind]. done.
Qed.

(** C10: a chunked body ends exactly at its message boundary: for every
    well-formed chunked message (any chunk sizes, extensions and trailers
    within the limits) followed by anything, however the bytes arrive and
    whatever buffer the relay uses, the reader delivers the message byte for
    byte, then end of stream, and leaves the following bytes unread. *)
Theorem chunked_reader_exact {R} `{AsyncReadOk R} (r : R) n chunks ext trailers rest :
  (0 < n)%nat → Forall chunk_ok chunks → size_ok 0 ext → trailers_ok trailers →
  contents r = encode_message chunks ext trailers ++ rest →
  ∃ s', read_all_go (S (rmeasure r)) n (chunked_new r) = (encode_message chunks ext trailers, s') ∧
    state s' = Done ∧ contents (chunk_inner s') = rest.
Proof.
  intros Hn Hcs He Ht Hc. apply chunked_read_all; [done|cbn; unfold MAX_CHUNK_LINE; lia|cbn; lia|].
  cbn [chunked_new state chunk_inner]. rewrite Hc. by apply message_from_encode.
Qed.

(** The conditions on a message, as a check. *)
Definition size_okb (n : Z) (ext : bytes) : bool :=
  match ext with [] => true | c :: _ => c =? SEMI end && negb (contains LF ext) && negb (contains CR ext)
  && utf8_valid ext && (n <=? u64_max) && (Z.of_nat (length (show_hex n ++ ext)) <? MAX_CHUNK_LINE).

Lemma size_okb_ok n ext : size_okb n ext = true → size_ok n ext.
Proof.
  unfold size_okb. intros H. bool_prop.
  split_and!; [split_and!; [|by apply contains_false|by apply contains_false|done]|lia|lia].
  destruct ext as [|c ext]; [by left|]. right. exists ext. f_equal. lia.
Qed.

Definition sample_chunks : list (bytes * bytes) := [(lit ";x=1", lit "hello"); ([], lit "world!")].

Lemma sample_chunks_ok : Forall chunk_ok sample_chunks ∧ size_ok 0 [] ∧ trailers_ok [lit "T: v"].
Proof.
  split_and!; [|by apply size_okb_ok|].
  - do 2 (apply Forall_cons; split; [split; [done|by apply size_okb_ok]|]). constructor.
  - split; [|by vm_compute]. apply Forall_cons. split; [|constructor]. split; [done|by apply contains_false].
Qed.

Lemma chunked_reader_exact_witness :
  ∃ s', read_all_go (S (rmeasure ([Seg (take 9 (encode_message sample_chunks [] [lit "T: v"]));
      Seg (drop 9 (encode_message sample_chunks [] [lit "T: v"]) ++ lit "GET")] : Source))) 4
    (chunked_new ([Seg (take 9 (encode_message sample_chunks [] [lit "T: v"]));
      Seg (drop 9 (encode_message sample_chunks [] [lit "T: v"]) ++ lit "GET")] : Source))
    = (encode_message sample_chunks [] [lit "T: v"], s') ∧ state s' = Done ∧ contents (chunk_inner s') = lit "GET".
Proof.
  apply (chunked_reader_exact (R := Source) _ 4 sample_chunks [] [lit "T: v"] (lit "GET")); [lia| | | |].
  - exact (proj1 sample_chunks_ok).
  - exact (proj1 (proj2 sample_chunks_ok)).
  - exact (proj2 (proj2 sample_chunks_ok)).
  - vm_compute. reflexivity.
Defined.
