(* ===== verification/BodyReader.v ===== *)
(** * Framing-bounded readers (src/dataplane/http/mod.rs, [exchange])

    The readers through which a request body reaches the relay: tokio's
    [take] for a declared length and the chunked reader of
    src/http_header.rs.  Both implement the reader interface of [Stream], so
    the relay's theorems apply to them. *)

From S2P Require Import Prelude RustStd Stream HttpHead ChunkedBody.
Open Scope Z_scope.

(** ** [AsyncReadExt::take] *)

Record Take (R : Type) := MkTake { take_inner : R; take_limit : Z }.
Arguments MkTake {_} _ _.
Arguments take_inner {_} _.
Arguments take_limit {_} _.

#[global] Instance Take_poll_read {R} `{AsyncRead R} : AsyncRead (Take R) := λ n t,
  if take_limit t <=? 0 then (REof, t)
  else match poll_read (Z.to_nat (Z.min (take_limit t) (Z.of_nat n))) (take_inner t) with
       | (RData d, r) => (RData d, MkTake r (take_limit t - Z.of_nat (length d)))
       | (o, r) => (o, MkTake r (take_limit t))
       end.

Section take.
Context {R : Type} `{AsyncReadOk R}.
#[global] Program Instance Take_read_ok : AsyncReadOk (Take R) := {|
  contents := λ t, take (Z.to_nat (take_limit t)) (contents (take_inner t));
  rmeasure := λ t, rmeasure (take_inner t) |}.
Next Obligation.
  intros n [r limit] d t' Hn. unfold poll_read at 1, Take_poll_read. cbn [take_inner take_limit].
  destruct (Z.leb_spec limit 0); [done|]. destruct (poll_read _ r) as [o r'] eqn:E. destruct o as [d0| | |]; try done.
  intros [= <- <-]. assert (0 < Z.to_nat (Z.min limit (Z.of_nat n)))%nat as Hw by lia.
  destruct (read_data _ _ _ _ Hw E) as (Hne & Hl & Hc & Hm). cbn [take_inner take_limit].
  assert (length d0 ≤ n ∧ length d0 ≤ Z.to_nat limit)%nat as [? ?] by lia.
  split_and!; [done|done| |done]. rewrite Hc, take_app_ge by lia. do 2 f_equal. lia.
Qed.
Next Obligation.
  intros n [r limit] o t' Hn. unfold poll_read at 1, Take_poll_read. cbn [take_inner take_limit].
  destruct (Z.leb_spec limit 0) as [Hz|Hz]; [intros _ _; by replace (Z.to_nat limit) with 0%nat by lia|].
  destruct (poll_read _ r) as [o0 r'] eqn:E. intros Ho Hno.
  assert (0 < Z.to_nat (Z.min limit (Z.of_nat n)))%nat as Hw by lia.
  rewrite (read_stop _ _ _ _ Hw E); [apply take_nil|]. intros d ->. injection Ho as <- _. by apply (Hno d).
Qed.
End take.

(** ** The chunked reader *)

#[global] Instance chunk_wf_dec (st : ChunkedState) : Decision (chunk_wf st).
Proof. destruct st; cbn [chunk_wf]; apply _. Defined.

(** The reader together with the invariant of its state. *)
Definition SafeChunked (R : Type) : Type := { r : ChunkedBodyReader R | chunk_wf (state r) }.

#[global] Instance SafeChunked_poll_read {R} `{AsyncRead R} : AsyncRead (SafeChunked R) := λ n s,
  let '(o, r) := poll_read n (`s) in
  (o, match decide (chunk_wf (state r)) with left Hr => r ↾ Hr | right _ => s end).

Program Definition safe_chunked {R} (r : R) : SafeChunked R := chunked_new r ↾ _.
Next Obligation. intros R r. cbn. unfold MAX_CHUNK_LINE. lia. Qed.

(** What the reader delivers: bytes as long as they continue a chunked
    message. *)
Fixpoint accepted_prefix (st : ChunkedState) (c : bytes) : bytes :=
  match st with
  | Done => []
  | _ =>
      match c with
      | [] => []
      | b :: c => match advance st [b] with Ok st' => b :: accepted_prefix st' c | Err _ => [] end
      end
  end.

Lemma accepted_prefix_single st b c : st ≠ Done →
  accepted_prefix st (b :: c) = match advance st [b] with Ok st' => b :: accepted_prefix st' c | Err _ => [] end.
Proof. by destruct st. Qed.

Lemma accepted_prefix_data rem d c :
  Z.of_nat (length d) ≤ rem → d ≠ [] →
  accepted_prefix (Data rem) (d ++ c) =
    d ++ accepted_prefix (if rem - Z.of_nat (length d) =? 0 then DataEnd false else Data (rem - Z.of_nat (length d))) c.
Proof.
  revert rem; induction d as [|b d IH]; intros rem Hl Hne; [done|]. cbn [app accepted_prefix].
  unfold advance. cbn [length] in *. destruct d as [|b' d]; [done|]. cbn [length] in *.
  destruct (Z.eqb_spec (rem - Z.of_nat 1) 0); [lia|]. rewrite IH by (cbn [length]; first [lia|done]). cbn [length].
  by replace (rem - Z.of_nat 1 - Z.of_nat (S (length d))) with (rem - Z.of_nat (S (S (length d)))) by lia.
Qed.

Lemma accepted_message st c m rest : message_from st c = Some (m, rest) → accepted_prefix st c = m.
Proof.
  revert st m. induction c as [|b c IH]; intros st m.
  { destruct st; cbn; try done. by intros [= <- <-]. }
  destruct (decide_done st) as [->|Hd]; [cbn; by intros [= <- <-]|].
  rewrite message_from_single, accepted_prefix_single by done. destruct (advance st [b]) as [st'|]; [|done].
  intros Hm. apply bind_Some in Hm as ([m' rest'] & Hm & [= <- <-]). f_equal. by apply IH.
Qed.

Section safe.
Context {R : Type} `{AsyncReadOk R}.

Lemma chunked_poll_accepts n (s : ChunkedBodyReader R) d s' :
  (0 < n)%nat → chunk_wf (state s) → poll_read n s = (RData d, s') →
  d ≠ [] ∧ (length d ≤ n)%nat ∧
  accepted_prefix (state s) (contents (chunk_inner s)) = d ++ accepted_prefix (state s') (contents (chunk_inner s')).
Proof.
  intros Hn Hwf Hp. destruct s as [i st]. cbn [chunk_inner state] in *.
  destruct (decide_done st) as [->|Hdone].
  { unfold poll_read, ChunkedBodyReader_poll_read in Hp. by destruct (n =? 0)%nat. }
  rewrite chunked_poll_read in Hp by done. unfold chunked_read in Hp.
  pose proof (chunk_want_pos st n Hwf Hn) as Hw.
  destruct (poll_read _ i) as [o i'] eqn:Hpi. destruct o as [filled| | |]; try done.
  destruct (read_data _ _ _ _ Hw Hpi) as (Hne & Hl & Hc & _).
  destruct (advance st filled) as [st'|] eqn:Hadv; [|done]. injection Hp as <- <-. cbn [chunk_inner state].
  pose proof (chunk_want_len st n filled Hwf Hne Hl) as Hlen. split_and!; [done| |].
  { destruct st; cbn [chunk_want] in Hl; lia. }
  rewrite Hc. destruct st as [line|rem|cr|line consumed|]; [| |..|done].
  all: try (destruct filled as [|b [|? ?]]; [done| |done]; cbn [app]; rewrite accepted_prefix_single by done; by rewrite Hadv).
  rewrite accepted_prefix_data by done. cbn in Hadv. by injection Hadv as ->.
Qed.

Lemma chunked_poll_ends n (s : ChunkedBodyReader R) o s' :
  (0 < n)%nat → chunk_wf (state s) → poll_read n s = (o, s') → (∀ d, o ≠ RData d) →
  accepted_prefix (state s) (contents (chunk_inner s)) = [].
Proof.
  intros Hn Hwf Hp Hno. destruct s as [i st]. cbn [chunk_inner state] in *.
  destruct (decide_done st) as [->|Hdone]; [by destruct (contents i)|].
  rewrite chunked_poll_read in Hp by done. unfold chunked_read in Hp. pose proof (chunk_want_pos st n Hwf Hn) as Hw.
  destruct (poll_read _ i) as [o0 i'] eqn:Hpi. destruct o0 as [filled| | |].
  2-4: rewrite (read_stop _ _ _ _ Hw Hpi) by done; by destruct st.
  destruct (read_data _ _ _ _ Hw Hpi) as (Hne & Hl & Hc & Hm). rewrite Hc.
  pose proof (chunk_want_len st n filled Hwf Hne Hl) as Hlen.
  destruct (advance st filled) as [st'|st'] eqn:Hadv; [injection Hp as <- _; by destruct (Hno filled)|].
  destruct st as [line|rem|cr|line consumed|]; try done.
  all: destruct filled as [|b [|? ?]]; [done| |done]; cbn [app]; rewrite accepted_prefix_single by done; by rewrite Hadv.
Qed.

#[global] Program Instance SafeChunked_read_ok : AsyncReadOk (SafeChunked R) := {|
  contents := λ s, accepted_prefix (state (`s)) (contents (chunk_inner (`s)));
  rmeasure := λ s, rmeasure (chunk_inner (`s)) |}.
Next Obligation.
  intros n [s Hs] d s' Hn. unfold poll_read at 1, SafeChunked_poll_read. cbn [proj1_sig].
  destruct (poll_read n s) as [o r] eqn:E. intros [= -> <-].
  destruct (chunked_poll_accepts n s d r Hn Hs E) as (Hne & Hl & Hc).
  destruct (chunked_poll_data n s d r Hn Hs E) as (_ & Hm & Hwf & _).
  destruct (decide (chunk_wf (state r))) as [Hr|]; [|done]. cbn [proj1_sig]. done.
Qed.
Next Obligation.
  intros n [s Hs] o s' Hn. unfold poll_read at 1, SafeChunked_poll_read. cbn [proj1_sig].
  destruct (poll_read n s) as [o0 r] eqn:E. intros [= -> <-] Hno. by apply (chunked_poll_ends n s o r).
Qed.
End safe.

(** ** The reader [exchange] chooses *)

Inductive BodyReader (R : Type) := BodyTake (t : Take R) | BodyChunked (c : SafeChunked R).
Arguments BodyTake {_} _.
Arguments BodyChunked {_} _.

#[global] Instance BodyReader_poll_read {R} `{AsyncRead R} : AsyncRead (BodyReader R) := λ n b,
  match b with
  | BodyTake t => let '(o, t) := poll_read n t in (o, BodyTake t)
  | BodyChunked c => let '(o, c) := poll_read n c in (o, BodyChunked c)
  end.

Definition body_reader {R} (framing : BodyFraming) (r : R) : BodyReader R :=
  match framing with
  | Length n => BodyTake (MkTake r n)
  | Chunked => BodyChunked (safe_chunked r)
  end.
(** The body of a message at the front of [c]. *)
Definition framed (framing : BodyFraming) (c : bytes) : bytes :=
  match framing with
  | Length n => take (Z.to_nat n) c
  | Chunked => accepted_prefix (SizeLine []) c
  end.

Section body.
Context {R : Type} `{AsyncReadOk R}.
#[global] Program Instance BodyReader_read_ok : AsyncReadOk (BodyReader R) := {|
  contents := λ b, match b with BodyTake t => contents t | BodyChunked c => contents c end;
  rmeasure := λ b, match b with BodyTake t => rmeasure t | BodyChunked c => rmeasure c end |}.
Next Obligation.
  intros n [t|c] d s' Hn; unfold poll_read at 1, BodyReader_poll_read; [destruct (poll_read n t) as [o t'] eqn:E|destruct (poll_read n c) as [o t'] eqn:E];
    intros [= -> <-]; by apply (read_data n _ d t' Hn E).
Qed.
Next Obligation.
  intros n [t|c] o s' Hn; unfold poll_read at 1, BodyReader_poll_read; [destruct (poll_read n t) as [o' t'] eqn:E|destruct (poll_read n c) as [o' t'] eqn:E];
    intros [= -> <-] Hno; by apply (read_stop n _ _ _ Hn E).
Qed.

Lemma body_reader_contents framing (r : R) : contents (body_reader framing r) = framed framing (contents r).
Proof. by destruct framing. Qed.
End body.

(** The framing decides alone where the body ends: what follows it on the
    connection is not part of it. *)
Lemma framed_length n body rest : Z.of_nat (length body) = n → framed (Length n) (body ++ rest) = body.
Proof. intros <-. cbn. rewrite take_app_le by lia. by rewrite take_ge by lia. Qed.
Lemma framed_chunked chunks ext trailers rest :
  Forall chunk_ok chunks → size_ok 0 ext → trailers_ok trailers →
  framed Chunked (encode_message chunks ext trailers ++ rest) = encode_message chunks ext trailers.
Proof. intros Hc He Ht. cbn. eapply accepted_message. by apply message_from_encode. Qed.
