(* ===== verification/Config.v ===== *)
(** * Backend lists and the legacy configuration (src/forward/mod.rs, src/config.rs)

    The textual backend lists, sizes, the accounting section and the legacy
    YAML configuration with its validation.  A compiled [Regex] is its
    pattern text; matching (the regex crate) is a parameter.  A [HashMap] is
    the list of its entries in iteration order.  [f64] values are only
    carried along and stand as their bit patterns. *)

From S2P Require Import Prelude RustStd HostUtil BindAddr.
Open Scope Z_scope.

Abbreviation Regex := (list Z) (only parsing).
Abbreviation f64 := Z (only parsing).

(** ** Backend lists *)

Module Targets.

Inductive target_error :=
| HasWhitespace
| HasScheme
| BadHostPort
| BadPort
| NoTarget
| HttpsTarget
| NotHttpTarget
| HasPath.

(** [target.split_once("://")] *)
Fixpoint has_scheme (s : bytes) : bool :=
  starts_with (lit "://") s || match s with [] => false | _ :: s => has_scheme s end.

Definition pieces (targets : bytes) : list bytes :=
  List.filter (λ t, negb (bool_decide (t = []))) (map trim (split_chars [COMMA; SEMI] targets)).

Definition parse_target (target : bytes) : result target_error bytes :=
  guard! negb (contains_whitespace target) else HasWhitespace;
  guard! negb (has_scheme target) else HasScheme;
  match from_str target with
  | Err _ => Err BadHostPort
  | Ok hp => guard! negb (hp_port hp =? 0) else BadPort; Ok (hp_to_string hp)
  end.

(** The loop over the pieces pushes one entry each. *)
Fixpoint collect {A} (f : A → result target_error bytes) (l : list A) : result target_error (list bytes) :=
  match l with
  | [] => Ok []
  | x :: l => t ← f x; ts ← collect f l; Ok (t :: ts)
  end.

Definition parse_targets (targets : bytes) : result target_error (list bytes) :=
  parsed ← collect parse_target (pieces targets);
  match parsed with [] => Err NoTarget | _ => Ok parsed end.

Definition parse_http_target (target : bytes) : result target_error bytes :=
  let lower := to_ascii_lowercase target in
  guard! negb (starts_with (lit "https://") lower) else HttpsTarget;
  guard! starts_with (lit "http://") lower else NotHttpTarget;
  let rest := drop 7 target in
  let rest := default rest (strip_suffix (lit "/") rest) in
  guard! negb (bool_decide (rest = []) || contains_any [SLASH; 63; 35] rest || contains_whitespace rest) else HasPath;
  hp ← match from_str rest with
       | Ok parsed => Ok parsed
       | Err _ => if contains COLON rest then Err BadHostPort else Ok (MkHostAndPort rest 80)
       end;
  guard! negb (hp_port hp =? 0) else BadPort;
  Ok (hp_to_string hp).

Definition parse_http_targets (targets : bytes) : result target_error bytes :=
  parsed ← collect parse_http_target (pieces targets);
  match parsed with [] => Err NoTarget | _ => Ok (join [SEMI] parsed) end.

Lemma collect_Forall2 {A} (f : A → result target_error bytes) l ts :
  collect f l = Ok ts ↔ Forall2 (λ x t, f x = Ok t) l ts.
Proof.
  revert ts; induction l as [|x l IH]; intros ts; cbn.
  - split; [intros [= <-]; constructor|]. by inversion 1.
  - split.
    + intros H. apply bind_Ok_inv in H as (t & Ht & H). apply bind_Ok_inv in H as (ts' & Hts & [= <-]).
      constructor; [done|by apply IH].
    + inversion 1 as [|? t ? ts' Ht Hts]; subst. rewrite Ht. cbn. apply IH in Hts. by rewrite Hts.
Qed.

(** A backend list is accepted as a whole or not at all: the result has
    one entry per non-blank piece, in order, each the normal form of a piece
    without white space and scheme that names a host and a non-zero port;
    an empty list is refused. *)
Lemma parse_targets_spec targets ts :
  parse_targets targets = Ok ts ↔
  ts ≠ [] ∧ Forall2 (λ piece t, contains_whitespace piece = false ∧ has_scheme piece = false ∧
    ∃ hp, from_str piece = Ok hp ∧ hp_port hp ≠ 0 ∧ t = hp_to_string hp) (pieces targets) ts.
Proof.
  assert (∀ piece t, parse_target piece = Ok t ↔ contains_whitespace piece = false ∧ has_scheme piece = false ∧
    ∃ hp, from_str piece = Ok hp ∧ hp_port hp ≠ 0 ∧ t = hp_to_string hp) as Hone.
  { intros piece t. unfold parse_target. destruct (contains_whitespace piece); cbn [negb]; [split; [done|by intros [? _]]|].
    destruct (has_scheme piece); cbn [negb]; [split; [done|by intros (_ & ? & _)]|].
    destruct (from_str piece) as [hp|e]; [|split; [done|by intros (_ & _ & ? & ? & _)]].
    destruct (Z.eqb_spec (hp_port hp) 0) as [E0|Hne]; cbn [negb].
    - split; [done|]. intros (_ & _ & ? & [= <-] & ? & _). done.
    - split; [intros [= <-]; eauto 10|]. by intros (_ & _ & ? & [= <-] & _ & ->). }
  unfold parse_targets. split.
  - intros H. apply bind_Ok_inv in H as (ps & Hps%collect_Forall2 & H). destruct ps as [|p ps]; [done|].
    injection H as <-. split; [done|]. eapply Forall2_impl; [exact Hps|]. intros ??. by apply Hone.
  - intros [Hne Hall]. assert (collect parse_target (pieces targets) = Ok ts) as ->.
    { apply collect_Forall2. eapply Forall2_impl; [exact Hall|]. intros ??. by apply Hone. }
    cbn. by destruct ts.
Qed.

End Targets.

(** ** Sizes and accounting *)

Inductive size_error := InvalidSize | SizeOverflow.

(** The suffix of a size and what it multiplies by. *)
Definition size_unit (lower : bytes) : bytes * Z :=
  match strip_suffix (lit "kib") lower with
  | Some digits => (digits, 1024)
  | None =>
      match strip_suffix (lit "mib") lower with
      | Some digits => (digits, 1024 * 1024)
      | None =>
          match strip_suffix (lit "gib") lower with
          | Some digits => (digits, 1024 * 1024 * 1024)
          | None => (lower, 1)
          end
      end
  end.

Definition parse_size (size : bytes) : result size_error Z :=
  let lower := to_ascii_lowercase (trim size) in
  let '(digits, multiplier) := size_unit lower in
  value ← ok_or (parse_u64 (trim digits)) InvalidSize;
  (* checked_mul *)
  if value * multiplier <=? u64_max then Ok (value * multiplier) else Err SizeOverflow.

Inductive Compression := Zstd | Gzip | CompressionNone.

Definition extension (c : Compression) : option bytes :=
  match c with
  | Zstd => Some (lit "zst")
  | Gzip => Some (lit "gz")
  | CompressionNone => None
  end.

Record AccountingConfig := MkAccounting {
  acc_enabled : bool;
  log_file : bytes;
  rotate_size : bytes;
  max_keep : Z;
  compress_after : Z;
  compression : Compression;
}.

Inductive accounting_error := LogFileRequired | MaxKeepZero | BadRotateSize (e : size_error).

Definition rotate_size_bytes (a : AccountingConfig) : result size_error Z := parse_size (rotate_size a).

Definition accounting_validate (a : AccountingConfig) : result accounting_error () :=
  if negb (acc_enabled a) then Ok ()
  else
    guard! negb (bool_decide (trim (log_file a) = [])) else LogFileRequired;
    guard! negb (max_keep a =? 0) else MaxKeepZero;
    match rotate_size_bytes a with Ok _ => Ok () | Err e => Err (BadRotateSize e) end.

(** ** Legacy configuration *)

Inductive Policy := ALLOW | DENY.
Record Rules := MkRules { static_hosts : list bytes; rule_patterns : list Regex }.

Inductive ListenerMode := ModePassthrough | ModeTerminate | ModeForward | ModeHttp.

Record Listener := MkListener {
  l_bind : bytes;
  l_target : option bytes;
  l_target_port : Z;
  l_policy : Policy;
  l_rules : Rules;
  l_max_idle_time_ms : option Z;
  l_speed_limit : option f64;
  l_mode : ListenerMode;
  l_upstream_tls : bool;
}.

Record ExactDnsRule := MkExactDns { exact_from : bytes; exact_to : bytes }.
Record SuffixDnsRule := MkSuffixDns { suffix_from : bytes; suffix_to : bytes }.
Record RegexDnsRule := MkRegexDns { regex_hostname : bytes; regex_port : option Z; regex_to : bytes }.
Record DnsConfig := MkDns {
  dns_exact : list ExactDnsRule;
  dns_suffix : list SuffixDnsRule;
  dns_regex : list RegexDnsRule;
}.

Record LegacyConfig := MkLegacyConfig {
  listeners : list (bytes * Listener);
  legacy_dns : DnsConfig;
  legacy_accounting : option AccountingConfig;
}.

Section rules.
Context (is_match : Regex → bytes → bool).

Definition rules_match (r : Rules) (host : bytes) : bool :=
  existsb (λ e, eq_ignore_ascii_case host e) (static_hosts r)
  || existsb (λ p, is_match p host) (rule_patterns r).

Definition match_host (l : Listener) (host : bytes) : bool := rules_match (l_rules l) host.

Definition is_allowed (l : Listener) (host : bytes) : bool :=
  let matched := match_host l host in
  match l_policy l with ALLOW => matched | DENY => negb matched end.

End rules.

Inductive legacy_error :=
| LegacyAccounting (e : accounting_error)
| LegacyBind (name : bytes) (e : bind_error)
| LegacyTargets (name : bytes) (e : Targets.target_error).

Definition legacy_listener_validate (entry : bytes * Listener) : result legacy_error () :=
  let '(name, l) := entry in
  match parse_bind_pattern (l_bind l) with
  | Err e => Err (LegacyBind name e)
  | Ok _ =>
      _ ← match l_mode l, l_target l with
          | ModeHttp, Some targets =>
              if bool_decide (trim targets = []) then Ok ()
              else match Targets.parse_http_targets targets with
                   | Err e => Err (LegacyTargets name e)
                   | Ok _ => Ok ()
                   end
          | _, _ => Ok ()
          end;
      match l_mode l with
      | ModeForward =>
          match Targets.parse_targets (default [] (l_target l)) with
          | Err e => Err (LegacyTargets name e)
          | Ok _ => Ok ()
          end
      | _ => Ok ()
      end
  end.

Definition legacy_validate (c : LegacyConfig) : result legacy_error () :=
  _ ← match legacy_accounting c with
      | Some a => match accounting_validate a with Ok _ => Ok () | Err e => Err (LegacyAccounting e) end
      | None => Ok ()
      end;
  checkM legacy_listener_validate (listeners c).

(** ** Properties *)

(** Sizes never wrap: a size that is accepted is the written number times
    its unit, and it fits 64 bits; a product that does not fit is refused. *)
Theorem parse_size_bounds n unit_text multiplier :
  (unit_text, multiplier) ∈ [([], 1); (lit "KiB", 1024); (lit "MiB", 1048576); (lit "GiB", 1073741824)] →
  0 ≤ n ≤ u64_max →
  parse_size (show_dec n ++ unit_text) =
    if n * multiplier <=? u64_max then Ok (n * multiplier) else Err SizeOverflow.
Proof.
  intros Hu Hn. unfold parse_size.
  pose proof (show_dec_digits n ltac:(lia)) as Hd. pose proof (show_dec_nonempty n) as Hne.
  assert (∀ t, t ≠ [] → Forall (λ c, is_digit c = true) t → trim t = t) as Htrim.
  { intros t Ht Hdt. destruct (exists_last Ht) as (t' & d & E). destruct t as [|c t]; [done|].
    eapply trim_graphic; [| |exact E]; apply is_digit_graphic.
    - by apply Forall_cons in Hdt as [? _].
    - rewrite E in Hdt. apply Forall_app in Hdt as [_ Hdt]. by rewrite Forall_singleton in Hdt. }
  assert (trim (show_dec n ++ unit_text) = show_dec n ++ unit_text) as ->.
  { assert (unit_text = [] ∨ ∃ u, unit_text = u ++ lit "B") as [->|[u ->]].
    { rewrite !elem_of_cons, elem_of_nil in Hu. destruct Hu as [[= -> _]|[[= -> _]|[[= -> _]|[[= -> _]|[]]]]];
        [by left|right; by exists (lit "Ki")|right; by exists (lit "Mi")|right; by exists (lit "Gi")]. }
    - rewrite app_nil_r. by apply Htrim.
    - destruct (show_dec n) as [|c s] eqn:E; [done|]. apply Forall_cons in Hd as [Hc _].
      cbn [app]. eapply trim_graphic; [by apply is_digit_graphic| |rewrite app_assoc, app_comm_cons; reflexivity]. done. }
  rewrite to_ascii_lowercase_app.
  assert (to_ascii_lowercase (show_dec n) = show_dec n) as ->.
  { clear -Hd. induction Hd as [|c s Hc Hs IH]; [done|]. cbn. f_equal; [|done].
    unfold to_ascii_lower, is_ascii_upper, is_digit in *. case_match; [lia|done]. }
  assert (size_unit (show_dec n ++ to_ascii_lowercase unit_text) = (show_dec n, multiplier)) as ->.
  { rewrite !elem_of_cons, elem_of_nil in Hu. unfold size_unit.
    assert (∀ u t c, u = t ++ [c] → is_digit c = false → strip_suffix u (show_dec n) = None) as Hnone.
    { intros u t c -> Hc. destruct (strip_suffix _ _) as [r|] eqn:E; [|done]. apply strip_suffix_Some in E.
      rewrite E, app_assoc in Hd. apply Forall_app in Hd as [_ Hd]. rewrite Forall_singleton in Hd. congruence. }
    assert (∀ a r, strip_suffix a (r ++ a) = Some r) as Hsuf by (intros a r; by apply strip_suffix_Some).
    destruct Hu as [[= -> ->]|[[= -> ->]|[[= -> ->]|[[= -> ->]|[]]]]].
    - cbn [to_ascii_lowercase map]. rewrite app_nil_r.
      rewrite (Hnone (lit "kib") (lit "ki") 98), (Hnone (lit "mib") (lit "mi") 98), (Hnone (lit "gib") (lit "gi") 98) by done. done.
    - change (to_ascii_lowercase (lit "KiB")) with (lit "kib"). by rewrite Hsuf.
    - change (to_ascii_lowercase (lit "MiB")) with (lit "mib").
      assert (strip_suffix (lit "kib") (show_dec n ++ lit "mib") = None) as ->.
      { unfold strip_suffix. rewrite rev_app_distr. done. }
      by rewrite Hsuf.
    - change (to_ascii_lowercase (lit "GiB")) with (lit "gib").
      assert (strip_suffix (lit "kib") (show_dec n ++ lit "gib") = None) as ->.
      { unfold strip_suffix. rewrite rev_app_distr. done. }
      assert (strip_suffix (lit "mib") (show_dec n ++ lit "gib") = None) as ->.
      { unfold strip_suffix. rewrite rev_app_distr. done. }
      by rewrite Hsuf. }
  rewrite Htrim by done. unfold parse_u64. rewrite from_str_show_dec by done. done.
Qed.

Lemma parse_size_bounds_witness :
  parse_size (lit "100MiB") = Ok 104857600.
Proof. apply (parse_size_bounds 100 (lit "MiB") 1048576); [set_solver|unfold u64_max; lia]. Defined.
