(* ===== verification/Accounting.v ===== *)
(** * Accounting records (src/accounting.rs)

    Connection data records as CSV lines and the rotating, compressing log
    they are appended to.  The directory that holds the log is a map from
    file names to contents; its listing order, the calendar and the
    compressors are parameters. *)

From stdpp Require Import sorting.
From S2P Require Import Prelude RustStd Config.
Open Scope Z_scope.

(** ** Records *)

Inductive ListenerType := TlsPassthroughType | TlsTerminateType | PortForwardType | HttpPassthroughType.
#[global] Instance listener_type_eq_dec : EqDecision ListenerType.
Proof. solve_decision. Defined.

Definition from_mode (m : ListenerMode) : ListenerType :=
  match m with
  | ModePassthrough => TlsPassthroughType
  | ModeTerminate => TlsTerminateType
  | ModeForward => PortForwardType
  | ModeHttp => HttpPassthroughType
  end.
Definition listener_type_str (t : ListenerType) : bytes :=
  match t with
  | TlsPassthroughType => lit "TLS_PASSTHROUGH"
  | TlsTerminateType => lit "TLS_TERMINATE"
  | PortForwardType => lit "PORT_FORWARD"
  | HttpPassthroughType => lit "HTTP_PASSTHROUGH"
  end.

Inductive ConnStatus := StatusOk | StatusDenied | StatusConnectFailed.
#[global] Instance conn_status_eq_dec : EqDecision ConnStatus.
Proof. solve_decision. Defined.
Definition default_status : ConnStatus := StatusConnectFailed.
Definition status_str (s : ConnStatus) : bytes :=
  match s with StatusOk => lit "OK" | StatusDenied => lit "DENIED" | StatusConnectFailed => lit "CONNECT_FAILED" end.

Record CdrRecord := MkCdr {
  cdr_listener_type : ListenerType;
  cdr_connection_id : bytes;
  cdr_listener_name : bytes;
  cdr_sni : bytes;
  cdr_target_host : bytes;
  cdr_target_endpoint : bytes;
  cdr_remote_address : bytes;
  cdr_status : ConnStatus;
  cdr_uploaded_bytes : Z;
  cdr_downloaded_bytes : Z;
  cdr_start_unix_ms : Z;
  cdr_end_unix_ms : Z;
}.

(** [chars().filter(|c| !c.is_control())]: the C0 controls and DEL are one
    byte, the C1 controls U+0080..U+009F are [C2 80]..[C2 9F]. *)
Definition ctrl1 (c : byte) : bool := (c <? 32) || (c =? 127).
Definition ctrl2 (c d : byte) : bool := (c =? 194) && (128 <=? d) && (d <=? 159).
Fixpoint strip_control (s : bytes) : bytes :=
  match s with
  | [] => []
  | c :: s' =>
      if ctrl1 c then strip_control s'
      else match s' with
           | d :: s'' => if ctrl2 c d then strip_control s'' else c :: strip_control s'
           | [] => [c]
           end
  end.

Definition QUOTE : byte := 34.
Definition double_quotes (s : bytes) : bytes := s ≫= λ c, if c =? QUOTE then [QUOTE; QUOTE] else [c].
Definition csv_field (value : bytes) : bytes :=
  let cleaned := strip_control value in
  if contains COMMA cleaned || contains QUOTE cleaned then [QUOTE] ++ double_quotes cleaned ++ [QUOTE] else cleaned.

Definition CSV_HEADER : bytes :=
  lit "listener_type,connection_id,listener_name,sni,target_host,target_endpoint,remote_address,status,uploaded_bytes,downloaded_bytes,connection_start,connection_end".

Section csv.
(** The calendar of the [time] crate: nanoseconds to
    [year-month-dayThour:minute:second.milliZ], if representable. *)
Context (format_timestamp : Z → option bytes).

Definition format_rfc3339_ms (unix_ms : Z) : bytes := default [] (format_timestamp (unix_ms * 1000000)).

Definition cdr_texts (r : CdrRecord) : list bytes :=
  [listener_type_str (cdr_listener_type r); cdr_connection_id r; cdr_listener_name r; cdr_sni r; cdr_target_host r;
   cdr_target_endpoint r; cdr_remote_address r; status_str (cdr_status r)].
Definition cdr_numbers (r : CdrRecord) : list bytes :=
  [show_dec (cdr_uploaded_bytes r); show_dec (cdr_downloaded_bytes r); format_rfc3339_ms (cdr_start_unix_ms r);
   format_rfc3339_ms (cdr_end_unix_ms r)].
Definition to_csv_line (r : CdrRecord) : bytes := join [COMMA] (map csv_field (cdr_texts r) ++ cdr_numbers r).
End csv.

(** ** Reading a line back

    The reference reader of RFC 4180, one line at a time. *)
Inductive csv_state := FieldStart | Unquoted | Quoted | QuoteSeen.
Fixpoint csv_read (st : csv_state) (cur : bytes) (s : bytes) : option (list bytes) :=
  match s with
  | [] => match st with Quoted => None | _ => Some [cur] end
  | c :: s =>
      match st with
      | FieldStart =>
          if c =? QUOTE then csv_read Quoted [] s
          else if c =? COMMA then cons [] <$> csv_read FieldStart [] s
          else csv_read Unquoted [c] s
      | Unquoted =>
          if c =? COMMA then cons cur <$> csv_read FieldStart [] s
          else if c =? QUOTE then None else csv_read Unquoted (cur ++ [c]) s
      | Quoted => if c =? QUOTE then csv_read QuoteSeen cur s else csv_read Quoted (cur ++ [c]) s
      | QuoteSeen =>
          if c =? QUOTE then csv_read Quoted (cur ++ [QUOTE]) s
          else if c =? COMMA then cons cur <$> csv_read FieldStart [] s else None
      end
  end.
Definition csv_parse (line : bytes) : option (list bytes) := csv_read FieldStart [] line.

Lemma csv_read_plain st cur s rest :
  QUOTE ∉ s → COMMA ∉ s → (st = FieldStart ∧ cur = [] ∨ st = Unquoted) →
  csv_read st cur (s ++ COMMA :: rest) = cons (cur ++ s) <$> csv_read FieldStart [] rest ∧ csv_read st cur s = Some [cur ++ s].
Proof.
  revert st cur. induction s as [|c s IH]; intros st cur Hq Hc Hst.
  { rewrite app_nil_r. by destruct Hst as [[-> ->] | ->]. }
  apply not_elem_of_cons in Hq as [Hq1 Hq], Hc as [Hc1 Hc].
  apply not_eq_sym, Z.eqb_neq in Hq1, Hc1.
  assert (∀ t, csv_read st cur (c :: t) = csv_read Unquoted (cur ++ [c]) t) as Hstep.
  { intros t. destruct Hst as [[-> ->] | ->]; cbn [csv_read]; by rewrite Hq1, Hc1. }
  rewrite <-app_comm_cons, !Hstep. destruct (IH Unquoted (cur ++ [c])) as [IH1 IH2]; [done|done|by right|].
  rewrite IH1, IH2, <-app_assoc. done.
Qed.

Lemma csv_read_quoted cur s rest :
  csv_read Quoted cur (double_quotes s ++ QUOTE :: rest) = csv_read QuoteSeen (cur ++ s) rest.
Proof.
  revert cur. induction s as [|c s IH]; intros cur; [by rewrite app_nil_r|]. unfold double_quotes in *. rewrite bind_cons.
  destruct (Z.eqb_spec c QUOTE) as [->|Hc]; cbn [app csv_read].
  - cbn [Z.eqb Pos.eqb QUOTE]. rewrite IH, <-app_assoc. done.
  - rewrite (proj2 (Z.eqb_neq _ _) Hc), IH, <-app_assoc. done.
Qed.

(** [f] is read back as [v], at the end of the line and before a
    separator. *)
Definition reads_as (f v : bytes) : Prop :=
  (∀ rest, csv_read FieldStart [] (f ++ COMMA :: rest) = cons v <$> csv_read FieldStart [] rest) ∧
  csv_read FieldStart [] f = Some [v].

Lemma csv_field_reads v : reads_as (csv_field v) (strip_control v).
Proof.
  unfold csv_field. set (s := strip_control v). destruct (contains COMMA s || contains QUOTE s) eqn:E.
  - split; [intros rest|]; cbn [app csv_read Z.eqb Pos.eqb QUOTE]; rewrite <-?app_assoc; cbn [app]; by rewrite csv_read_quoted.
  - apply orb_false_iff in E as [E1 E2]. apply contains_false in E1, E2.
    split; [intros rest; apply (csv_read_plain FieldStart [] s rest)|apply (csv_read_plain FieldStart [] s [])]; auto.
Qed.

Lemma csv_parse_join fields vs : fields ≠ [] → Forall2 reads_as fields vs → csv_parse (join [COMMA] fields) = Some vs.
Proof.
  unfold csv_parse. intros Hne Hf. induction Hf as [|f v fields vs [Hv1 Hv2] Hf IH]; [done|].
  destruct fields as [|g fields]; [by inversion Hf; subst|].
  change (join [COMMA] (f :: g :: fields)) with (f ++ COMMA :: join [COMMA] (g :: fields)). by rewrite Hv1, IH.
Qed.

Lemma strip_control_clean s : Forall (λ c, ctrl1 c = false) (strip_control s).
Proof.
  induction s as [s IH] using (well_founded_induction (well_founded_ltof _ (@length Z))). unfold ltof in IH.
  destruct s as [|c s]; cbn [strip_control]; [constructor|]. destruct (ctrl1 c) eqn:Ec; [apply IH; cbn; lia|].
  destruct s as [|d s]; [by repeat constructor|]. destruct (ctrl2 c d); [apply IH; cbn; lia|]. constructor; [done|]. apply IH. cbn. lia.
Qed.
Lemma csv_field_clean v : Forall (λ c, ctrl1 c = false) (csv_field v).
Proof.
  unfold csv_field. pose proof (strip_control_clean v) as Hc. set (s := strip_control v) in *. destruct (_ || _); [|done].
  apply Forall_app. split; [by repeat constructor|]. apply Forall_app. split; [|by repeat constructor].
  unfold double_quotes. induction Hc as [|c s Hc Hs IH]; [constructor|]. rewrite bind_cons. apply Forall_app. split; [|done].
  destruct (c =? QUOTE); by repeat constructor.
Qed.
Lemma join_forall (P : Z → Prop) sep l : Forall P sep → Forall (Forall P) l → Forall P (join sep l).
Proof.
  intros Hsep. induction 1 as [|x l Hx Hl IH]; [constructor|]. destruct l as [|y l]; [done|].
  change (join sep (x :: y :: l)) with (x ++ sep ++ join sep (y :: l)). by rewrite !Forall_app.
Qed.

(** A field that needs no quoting. *)
Definition bare (s : bytes) : Prop := QUOTE ∉ s ∧ COMMA ∉ s ∧ Forall (λ c, ctrl1 c = false) s.
Lemma bare_reads s : bare s → reads_as s s.
Proof.
  intros (Hq & Hc & _). split; [intros rest; apply (csv_read_plain FieldStart [] s rest)|apply (csv_read_plain FieldStart [] s [])]; auto.
Qed.
Lemma bare_dec n : 0 ≤ n → bare (show_dec n).
Proof.
  intros Hn. pose proof (show_dec_digits n Hn) as Hd. rewrite Forall_forall in Hd.
  unfold bare, QUOTE, COMMA. split_and!; [intros Hin%Hd; discriminate Hin..|]. apply Forall_forall. intros c Hin%Hd.
  unfold is_digit, ctrl1 in *. lia.
Qed.

(** An accounting record survives its CSV form.  The line of a record is
    one line without control characters, whatever the client put into the
    server name, and an RFC 4180 reader gets back its twelve fields: the
    texts with their control characters removed, the numbers and dates as
    they were. *)
Theorem cdr_line_roundtrip format_timestamp r :
  (∀ t s, format_timestamp t = Some s → bare s) → 0 ≤ cdr_uploaded_bytes r → 0 ≤ cdr_downloaded_bytes r →
  csv_parse (to_csv_line format_timestamp r) = Some (map strip_control (cdr_texts r) ++ cdr_numbers format_timestamp r) ∧
  Forall (λ c, ctrl1 c = false) (to_csv_line format_timestamp r).
Proof.
  intros Hdate Hu Hd. assert (Forall bare (cdr_numbers format_timestamp r)) as Hbare.
  { assert (∀ t, bare (format_rfc3339_ms format_timestamp t)) as Hb.
    { intros t. unfold format_rfc3339_ms. destruct (format_timestamp _) as [s|] eqn:E; [by apply (Hdate _ _ E)|].
      split_and!; [set_solver..|constructor]. }
    repeat (apply Forall_cons; split); auto using bare_dec. }
  rewrite Forall_forall in Hbare. split.
  - apply csv_parse_join; [done|]. apply Forall2_app.
    + change (Forall2 reads_as (csv_field <$> cdr_texts r) (strip_control <$> cdr_texts r)). apply Forall2_fmap_2. apply Forall_Forall2_diag, Forall_forall. intros v _. apply csv_field_reads.
    + apply Forall_Forall2_diag, Forall_forall. intros v Hv. apply bare_reads. by apply Hbare.
  - apply join_forall; [by repeat constructor|]. apply Forall_app. split.
    + apply Forall_forall. intros f Hf. apply list_elem_of_In, in_map_iff in Hf as (v & <- & _). apply csv_field_clean.
    + apply Forall_forall. intros f Hf. by destruct (Hbare f Hf) as (_ & _ & Hc).
Qed.

Definition sample_cdr : CdrRecord :=
  MkCdr HttpPassthroughType (lit "x(1)") (lit "web") (lit "a," ++ [34; 10] ++ lit "b") (lit "b") (lit "10.0.0.2:80") (lit "10.0.0.9:5000")
    StatusOk 12 34 0 1.
Lemma cdr_line_roundtrip_witness :
  ∃ dates, csv_parse (to_csv_line (λ _, Some (lit "1970-01-01T00:00:00.000Z")) sample_cdr) =
    Some ([lit "HTTP_PASSTHROUGH"; lit "x(1)"; lit "web"; lit "a," ++ [34] ++ lit "b"; lit "b"; lit "10.0.0.2:80"; lit "10.0.0.9:5000"; lit "OK"]
          ++ dates).
Proof.
  exists (cdr_numbers (λ _, Some (lit "1970-01-01T00:00:00.000Z")) sample_cdr).
  apply (cdr_line_roundtrip (λ _, Some (lit "1970-01-01T00:00:00.000Z")) sample_cdr).
  - intros t s [= <-]. unfold bare. split_and!; [apply (bool_decide_unpack _); vm_compute; exact I..|].
    apply (bool_decide_unpack _). vm_compute. exact I.
  - cbn. lia.
  - cbn. lia.
Defined.

(** ** The rotating log *)

Abbreviation Dir := (gmap bytes bytes).
#[global] Instance compression_eq_dec : EqDecision Compression.
Proof. solve_decision. Defined.
Record RotatedFile := MkRotated { rf_index : Z; rf_suffix : option bytes; rf_name : bytes }.

#[global] Instance rotated_file_eq_dec : EqDecision RotatedFile.
Proof. solve_decision. Defined.

Definition indexed_path (base : bytes) (index : Z) (suffix : option bytes) : bytes :=
  base ++ DOT :: show_dec index ++ match suffix with Some s => DOT :: s | None => [] end.

(** A directory entry as a rotated file of [base]. *)
Definition rotated_of (base name : bytes) : option RotatedFile :=
  if negb (utf8_valid name) then None
  else match strip_prefix (base ++ [DOT]) name with
  | None => None
  | Some rest =>
      let '(index_part, suffix) := match split_once DOT rest with
                                   | Some (index_part, suffix) => (index_part, Some suffix)
                                   | None => (rest, None)
                                   end in
      match parse_u64 index_part with
      | Some index => Some (MkRotated index suffix name)
      | None => None
      end
  end.

Section rotation.
(** The order in which [read_dir] lists the names. *)
Context (read_dir : gmap bytes bytes → list bytes).
(** The compressors. *)
Context (compress : Compression → bytes → bytes).

Definition rotated_files (base : bytes) (d : Dir) : list RotatedFile := omap (rotated_of base) (read_dir d).

Definition prune (base : bytes) (keep_upto : Z) (d : Dir) : Dir :=
  foldl (λ d f, if keep_upto <? rf_index f then delete (rf_name f) d else d) d (rotated_files base d).

(** [fs::rename] replaces the target; [false]: the source is missing. *)
Definition rename (from to : bytes) (d : Dir) : bool * Dir :=
  match d !! from with Some c => (true, <[to := c]> (delete from d)) | None => (false, d) end.
Fixpoint shift_files (base : bytes) (files : list RotatedFile) (d : Dir) : bool * Dir :=
  match files with
  | [] => (true, d)
  | f :: files =>
      match rename (rf_name f) (indexed_path base (rf_index f + 1) (rf_suffix f)) d with
      | (true, d) => shift_files base files d
      | (false, d) => (false, d)
      end
  end.

Definition header_line : bytes := CSV_HEADER ++ [LF].
(** [open_active]: the directory and the size of the active file. *)
Definition open_active (base : bytes) (d : Dir) : Dir * Z :=
  let content := default [] (d !! base) in
  let content := if (length content =? 0)%nat then header_line else content in
  (<[base := content]> d, Z.of_nat (length content)).

Definition by_index_desc (a b : RotatedFile) : Prop := rf_index b ≤ rf_index a.
#[global] Instance by_index_desc_dec : RelDecision by_index_desc.
Proof. intros a b. unfold by_index_desc. apply _. Defined.
Definition by_index (a b : RotatedFile) : Prop := rf_index a ≤ rf_index b.
#[global] Instance by_index_dec : RelDecision by_index.
Proof. intros a b. unfold by_index. apply _. Defined.

Record RotatingWriter := MkRotatingWriter { rw_base : bytes; rw_rotate_size : Z; rw_max_keep : Z; rw_current_size : Z }.

(** [rotate]: [None] is the I/O error of a missing file. *)
Definition rotate (w : RotatingWriter) (d : Dir) : bool * RotatingWriter * Dir :=
  let base := rw_base w in
  let d := prune base (Z.max 0 (rw_max_keep w - 1)) d in
  match shift_files base (merge_sort by_index_desc (rotated_files base d)) d with
  | (false, d) => (false, w, d)
  | (true, d) =>
      match rename base (indexed_path base 1 None) d with
      | (false, d) => (false, w, d)
      | (true, d) =>
          let '(d, size) := open_active base d in
          (true, MkRotatingWriter base (rw_rotate_size w) (rw_max_keep w) size, d)
      end
  end.

(** [RotatingWriter::open] *)
Definition rw_open (base : bytes) (rotate_size max_keep : Z) (d : Dir) : RotatingWriter * Dir :=
  let '(d, size) := open_active base d in (MkRotatingWriter base rotate_size max_keep size, d).

(** [write_record]: whether it rotated, or [None] for the I/O error. *)
Definition write_record (line : bytes) (gate : bool) (w : RotatingWriter) (d : Dir) : option bool * RotatingWriter * Dir :=
  let d := <[rw_base w := default [] (d !! rw_base w) ++ line ++ [LF]]> d in
  let w := MkRotatingWriter (rw_base w) (rw_rotate_size w) (rw_max_keep w) (rw_current_size w + Z.of_nat (length line) + 1) in
  if (rw_rotate_size w <=? rw_current_size w) && negb gate then
    let '(ok, w, d) := rotate w d in (if ok then Some true else None, w, d)
  else (Some false, w, d).

Definition compress_file (path : bytes) (c : Compression) (d : Dir) : bool * Dir :=
  match Config.extension c with
  | None => (true, d)
  | Some ext =>
      match d !! path with
      | None => (false, d)
      | Some content => (true, delete path (<[path ++ DOT :: ext := compress c content]> d))
      end
  end.

Definition compression_candidates (base : bytes) (compress_after : Z) (c : Compression) (d : Dir) : list bytes :=
  if decide (c = CompressionNone) then []
  else map rf_name (merge_sort by_index
         (List.filter (λ f, bool_decide (rf_suffix f = None) && (compress_after <? rf_index f)) (rotated_files base d))).

(** ** The writer thread and the compression thread *)

(** [batch]: the files the running compression still has to do; it holds the
    gate while it is alive. *)
Record Accounting := MkAccountingState { ac_writer : RotatingWriter; ac_dir : Dir; ac_gate : bool; ac_batch : list bytes }.

Definition spawn_compression (candidates : list bytes) (s : Accounting) : Accounting :=
  if ac_gate s then s else MkAccountingState (ac_writer s) (ac_dir s) true candidates.

(** One message of the queue. *)
Definition handle_record (compress_after : Z) (c : Compression) (line : bytes) (s : Accounting) : Accounting :=
  let '(r, w, d) := write_record line (ac_gate s) (ac_writer s) (ac_dir s) in
  let s := MkAccountingState w d (ac_gate s) (ac_batch s) in
  match r with
  | Some true =>
      let candidates := compression_candidates (rw_base w) compress_after c d in
      if decide (candidates = []) then s else spawn_compression candidates s
  | _ => s
  end.
(** One file of the batch, or its end. *)
Definition compress_next (c : Compression) (s : Accounting) : Accounting :=
  match ac_batch s with
  | path :: rest => MkAccountingState (ac_writer s) (compress_file path c (ac_dir s)).2 (ac_gate s) rest
  | [] => MkAccountingState (ac_writer s) (ac_dir s) false []
  end.

Inductive acc_event := Submit (line : bytes) | CompressTick.
Definition acc_step (compress_after : Z) (c : Compression) (s : Accounting) (e : acc_event) : Accounting :=
  match e with
  | Submit line => handle_record compress_after c line s
  | CompressTick => compress_next c s
  end.

(** The bounded queue between the connections and the writer thread.
    [submit] never blocks: it drops the record when the queue is full or
    accounting is off; [shutdown] queues the flush marker, at which the
    writer stops. *)
Inductive Msg := MsgRecord (r : CdrRecord) | MsgFlush.
Definition QUEUE_CAPACITY : Z := 100000.
Definition submit (enabled : bool) (r : CdrRecord) (q : list Msg) : list Msg :=
  if enabled && (Z.of_nat (length q) <? QUEUE_CAPACITY) then q ++ [MsgRecord r] else q.
Definition shutdown_queue (enabled : bool) (q : list Msg) : list Msg := if enabled then q ++ [MsgFlush] else q.
Fixpoint writer_loop (format_timestamp : Z → option bytes) (compress_after : Z) (c : Compression) (q : list Msg) (s : Accounting)
  : Accounting :=
  match q with
  | [] => s
  | MsgFlush :: _ => s
  | MsgRecord r :: q =>
      writer_loop format_timestamp compress_after c q (handle_record compress_after c (to_csv_line format_timestamp r) s)
  end.

(** [init] on the existing directory *)
Definition accounting_init (base : bytes) (rotate_size max_keep compress_after : Z) (c : Compression) (d : Dir) : Accounting :=
  let '(w, d) := rw_open base rotate_size max_keep d in
  let d := prune base max_keep d in
  let leftovers := compression_candidates base compress_after c d in
  let s := MkAccountingState w d false [] in
  if decide (leftovers = []) then s else spawn_compression leftovers s.

End rotation.

(** ** Names *)

Lemma indexed_path_inj base i j s t :
  0 ≤ i → 0 ≤ j → indexed_path base i s = indexed_path base j t → i = j ∧ s = t.
Proof.
  intros Hi Hj E. unfold indexed_path in E. apply app_inv_head in E. injection E as E.
  assert (∀ n, 0 ≤ n → DOT ∉ show_dec n) as Hd.
  { intros n Hn Hin. pose proof (show_dec_digits n Hn) as Hf. rewrite Forall_forall in Hf. by apply Hf in Hin. }
  assert (∀ n m, 0 ≤ n → 0 ≤ m → show_dec n = show_dec m → n = m) as Hinj.
  { intros n m Hn Hm Enm. pose proof (parse_show_dec (Z.max n m) n ltac:(lia)) as E1.
    pose proof (parse_show_dec (Z.max n m) m ltac:(lia)) as E2. rewrite Enm in E1. by simplify_eq. }
  assert (∀ n m (u : bytes), 0 ≤ n → 0 ≤ m → show_dec n ++ DOT :: u = show_dec m → False) as Hno.
  { intros n m u Hn Hm Enm. apply (Hd m Hm). rewrite <-Enm. set_solver. }
  destruct s as [s|], t as [t|].
  - assert (split_once DOT (show_dec i ++ DOT :: s) = Some (show_dec i, s)) as E1 by by apply split_once_Some; auto.
    assert (split_once DOT (show_dec j ++ DOT :: t) = Some (show_dec j, t)) as E2 by by apply split_once_Some; auto.
    rewrite E in E1. rewrite E1 in E2. injection E2 as E2 ->. split; [by apply Hinj|done].
  - rewrite app_nil_r in E. by apply Hno in E.
  - rewrite app_nil_r in E. symmetry in E. by apply Hno in E.
  - rewrite !app_nil_r in E. split; [by apply Hinj|done].
Qed.

Lemma indexed_path_ne base i s : indexed_path base i s ≠ base.
Proof. unfold indexed_path. intros E. apply (f_equal length) in E. rewrite length_app in E. cbn in E. lia. Qed.

Lemma rotated_of_name base name f : rotated_of base name = Some f → rf_name f = name.
Proof. unfold rotated_of. intros H. repeat case_match; try done; by simplify_eq. Qed.
Lemma rotated_of_index base name f : rotated_of base name = Some f → 0 ≤ rf_index f ≤ u64_max.
Proof.
  unfold rotated_of, parse_u64. intros H. repeat case_match; try done; simplify_eq;
    (eapply from_str_radix_bound; [| |eassumption]; unfold u64_max; lia).
Qed.

Lemma rotated_of_indexed base i s :
  utf8_valid (indexed_path base i s) = true → 0 ≤ i ≤ u64_max →
  rotated_of base (indexed_path base i s) = Some (MkRotated i s (indexed_path base i s)).
Proof.
  intros Hv Hi. unfold rotated_of. rewrite Hv. cbn [negb].
  replace (strip_prefix (base ++ [DOT]) (indexed_path base i s))
    with (Some (show_dec i ++ match s with Some s => DOT :: s | None => [] end)).
  2: { symmetry. apply strip_prefix_Some. unfold indexed_path. by rewrite <-app_assoc. }
  assert (DOT ∉ show_dec i) as Hd.
  { intros Hin. pose proof (show_dec_digits i ltac:(lia)) as Hf. rewrite Forall_forall in Hf. by apply Hf in Hin. }
  destruct s as [s|].
  - rewrite (proj2 (split_once_Some DOT _ (show_dec i) s)) by done. unfold parse_u64. by rewrite from_str_show_dec.
  - rewrite app_nil_r. rewrite (proj2 (split_once_None DOT _) Hd). unfold parse_u64. by rewrite from_str_show_dec.
Qed.

(** ** Pruning and shifting *)

Section rotation_spec.
Context (read_dir : gmap bytes bytes → list bytes).
Context (compress : Compression → bytes → bytes).
Hypothesis (read_dir_ok : ∀ d : gmap bytes bytes, read_dir d ≡ₚ elements (dom d)).

Lemma read_dir_elem (d : gmap bytes bytes) n : n ∈ read_dir d ↔ is_Some (d !! n).
Proof. rewrite read_dir_ok, elem_of_elements. apply elem_of_dom. Qed.
Lemma read_dir_nodup (d : gmap bytes bytes) : NoDup (read_dir d).
Proof. rewrite read_dir_ok. apply NoDup_elements. Qed.

Lemma rotated_files_elem base d f :
  f ∈ rotated_files read_dir base d ↔ is_Some (d !! rf_name f) ∧ rotated_of base (rf_name f) = Some f.
Proof.
  unfold rotated_files. rewrite list_elem_of_omap. split.
  - intros (n & Hn & Hf). pose proof (rotated_of_name _ _ _ Hf) as ->. by rewrite <-read_dir_elem.
  - intros [Hd Hf]. exists (rf_name f). split; [by apply read_dir_elem|done].
Qed.
Lemma rotated_files_nodup base d : NoDup (rf_name <$> rotated_files read_dir base d).
Proof.
  unfold rotated_files. pose proof (read_dir_nodup d) as Hn. induction (read_dir d) as [|n l IH]; [constructor|].
  apply NoDup_cons in Hn as [Hnot Hn]. cbn. destruct (rotated_of base n) as [f|] eqn:Ef; [|by apply IH]. cbn.
  apply NoDup_cons. split; [|by apply IH]. rewrite (rotated_of_name _ _ _ Ef). intros Hin.
  apply list_elem_of_fmap in Hin as (g & -> & Hg). apply list_elem_of_omap in Hg as (m & Hm & Hg).
  by rewrite (rotated_of_name _ _ _ Hg) in Hnot.
Qed.

Lemma prune_lookup base keep d n :
  prune read_dir base keep d !! n =
    match rotated_of base n with Some f => if keep <? rf_index f then None else d !! n | None => d !! n end.
Proof.
  unfold prune.
  assert (∀ fs (d : gmap bytes bytes), (∀ f, f ∈ fs → rotated_of base (rf_name f) = Some f) →
    foldl (λ (d : gmap bytes bytes) f, if keep <? rf_index f then delete (rf_name f) d else d) d fs !! n =
    match rotated_of base n with
    | Some f => if (keep <? rf_index f) && bool_decide (f ∈ fs) then None else d !! n
    | None => d !! n end) as Hgo.
  { induction fs as [|g fs IH]; intros d0 Hfs; cbn [foldl].
    { destruct (rotated_of base n) as [f|]; [|done]. rewrite bool_decide_eq_false_2 by apply not_elem_of_nil. by rewrite andb_false_r. }
    rewrite IH by (intros f Hf; apply Hfs; by right). pose proof (Hfs g ltac:(by left)) as Hg.
    destruct (rotated_of base n) as [f|] eqn:Ef.
    - pose proof (rotated_of_name _ _ _ Ef) as Hn. destruct (keep <? rf_index f) eqn:Ek; cbn [andb].
      + rewrite (bool_decide_ext (f ∈ g :: fs) (f = g ∨ f ∈ fs)) by apply elem_of_cons.
        destruct (decide (f = g)) as [<-|Hne].
        * rewrite (bool_decide_eq_true_2 (f = f ∨ _)) by by left. case_bool_decide; [done|]. rewrite Ek, Hn. apply lookup_delete_eq.
        * rewrite (bool_decide_ext (f = g ∨ f ∈ fs) (f ∈ fs)) by tauto. case_bool_decide; [done|].
          destruct (keep <? rf_index g); [|done]. apply lookup_delete_ne. intros E. rewrite E, Ef in Hg. by simplify_eq.
      + destruct (keep <? rf_index g) eqn:Ekg; [|done]. apply lookup_delete_ne. intros E. rewrite E, Ef in Hg. simplify_eq. congruence.
    - destruct (keep <? rf_index g); [|done]. apply lookup_delete_ne. intros E. by rewrite E, Ef in Hg. }
  rewrite Hgo by (intros f Hf; by destruct (proj1 (rotated_files_elem _ _ _) Hf)). destruct (rotated_of base n) as [f|] eqn:Ef; [|done].
  destruct (keep <? rf_index f); cbn [andb]; [|done]. case_bool_decide as Hin; [done|]. rewrite rotated_files_elem in Hin.
  pose proof (rotated_of_name _ _ _ Ef) as Hn. rewrite Hn in Hin. destruct (d !! n); [|done]. exfalso. apply Hin. by split; [eexists|].
Qed.

Definition target_of (base : bytes) (f : RotatedFile) : bytes := indexed_path base (rf_index f + 1) (rf_suffix f).
Definition canonical (base : bytes) (f : RotatedFile) : Prop :=
  rf_name f = indexed_path base (rf_index f) (rf_suffix f) ∧ 0 ≤ rf_index f.

Lemma shift_files_spec (base : bytes) (fs : list RotatedFile) (d : gmap bytes bytes) :
  NoDup (rf_name <$> fs) → StronglySorted by_index_desc fs → (∀ f, f ∈ fs → canonical base f ∧ is_Some (d !! rf_name f)) →
  ∃ d', shift_files base fs d = (true, d') ∧
    (∀ f, f ∈ fs → d' !! target_of base f = d !! rf_name f) ∧
    (∀ n, n ∉ target_of base <$> fs → d' !! n = if bool_decide (n ∈ rf_name <$> fs) then None else d !! n).
Proof.
  intros Hnd Hs. revert d. induction Hs as [|f fs Hs IH Hall]; intros d Hfs.
  { exists d. split_and!; [done|by intros f Hf%not_elem_of_nil|]. intros n _. by rewrite bool_decide_eq_false_2 by apply not_elem_of_nil. }
  cbn [fmap list_fmap] in Hnd. apply NoDup_cons in Hnd as [Hnf Hnd]. rewrite Forall_forall in Hall.
  destruct (Hfs f ltac:(by left)) as [[Hf Hi] [c Hc]]. cbn [shift_files]. unfold rename. rewrite Hc. fold (target_of base f).
  assert (∀ g, g ∈ fs → rf_name g ≠ target_of base f ∧ rf_name g ≠ rf_name f) as Hne.
  { intros g Hg. split.
    - destruct (Hfs g ltac:(by right)) as [[-> Hgi] _]. intros E. apply indexed_path_inj in E as [E _]; [|lia|lia].
      specialize (Hall g Hg). unfold by_index_desc in Hall. lia.
    - intros E. apply Hnf. rewrite <-E. by apply list_elem_of_fmap_2. }
  assert (target_of base f ≠ rf_name f) as Htf.
  { rewrite Hf. intros E. apply indexed_path_inj in E as [E _]; lia. }
  destruct (IH Hnd (<[target_of base f := c]> (delete (rf_name f) d))) as (d' & Hd' & Htgt & Hrest).
  { intros g Hg. destruct (Hfs g ltac:(by right)) as [Hcg Hdg]. split; [done|]. destruct (Hne g Hg).
    by rewrite lookup_insert_ne, lookup_delete_ne by done. }
  exists d'. split; [done|]. split.
  - intros g Hg. destruct (decide (g ∈ fs)) as [Hin|Hout].
    + rewrite Htgt by done. destruct (Hne g Hin). by rewrite lookup_insert_ne, lookup_delete_ne by done.
    + assert (g = f) as -> by (apply elem_of_cons in Hg as [?|?]; done). rewrite Hc. rewrite Hrest.
      * rewrite bool_decide_eq_false_2; [apply lookup_insert_eq|]. intros Hin. apply list_elem_of_fmap in Hin as (h & Eh & Hh).
        destruct (Hne h Hh) as [Hn _]. by rewrite <-Eh in Hn.
      * intros Hin. apply list_elem_of_fmap in Hin as (h & Eh & Hh). unfold target_of in Eh.
        destruct (Hfs h ltac:(by right)) as [[Hnh Hih] _].
        apply indexed_path_inj in Eh as [Ei Es]; [|lia|lia]. apply Hnf. rewrite Hf. replace (rf_index f) with (rf_index h) by lia.
        rewrite Es, <-Hnh. by apply list_elem_of_fmap_2.
  - intros n Hn. cbn [fmap list_fmap] in *. apply not_elem_of_cons in Hn as [Hn1 Hn2]. rewrite Hrest by done.
    rewrite (bool_decide_ext (n ∈ _ :: _) (n = rf_name f ∨ n ∈ rf_name <$> fs)) by apply elem_of_cons.
    case_bool_decide as H1; [by rewrite bool_decide_eq_true_2 by auto|].
    case_bool_decide as H2; [destruct H2 as [->|]; [|done]|]; rewrite lookup_insert_ne by done; [apply lookup_delete_eq|].
    apply lookup_delete_ne. intros <-. auto.
Qed.

(** The directory holds no stray name that reads as a rotated file. *)
Definition dir_wf (base : bytes) (d : gmap bytes bytes) : Prop :=
  ∀ n f, is_Some (d !! n) → rotated_of base n = Some f → n = indexed_path base (rf_index f) (rf_suffix f) ∧ 1 ≤ rf_index f.
Definition suffix_ok (s : option bytes) : Prop := ∀ x, s = Some x → utf8_valid x = true.

Lemma utf8_indexed base i s : utf8_valid base = true → suffix_ok s → 0 ≤ i → utf8_valid (indexed_path base i s) = true.
Proof.
  intros Hb Hs Hi. unfold indexed_path. rewrite utf8_valid_app by done. rewrite utf8_valid_ascii_cons by done.
  assert (utf8_valid (show_dec i) = true) as Hd.
  { pose proof (show_dec_digits i Hi) as Hf. induction Hf as [|c l Hc Hl IH]; [done|].
    rewrite utf8_valid_ascii_cons; [done|]. unfold is_digit in Hc. lia. }
  rewrite utf8_valid_app by done. destruct s as [x|]; [|done]. rewrite utf8_valid_ascii_cons by done. by apply Hs.
Qed.

Lemma suffix_utf8 base i s : utf8_valid base = true → utf8_valid (indexed_path base i s) = true → suffix_ok s.
Proof.
  intros Hb Hv x ->. unfold indexed_path in Hv. rewrite utf8_valid_app, utf8_valid_ascii_cons in Hv by done.
  by apply utf8_valid_ascii_split in Hv as [_ ?].
Qed.

(** All rotated files one step further, those beyond the limit gone. *)
Lemma shifted_lookup (base : bytes) (keep : Z) (d : gmap bytes bytes) :
  utf8_valid base = true → dir_wf base d → 0 ≤ keep < u64_max →
  let d1 := prune read_dir base keep d in
  ∃ d2, shift_files base (merge_sort by_index_desc (rotated_files read_dir base d1)) d1 = (true, d2) ∧
    (∀ i s, suffix_ok s → 0 ≤ i < u64_max →
       d2 !! indexed_path base (i + 1) s = if (0 <? i) && (i <=? keep) then d !! indexed_path base i s else None) ∧
    (∀ n, rotated_of base n = None → d2 !! n = d !! n) ∧ dir_wf base d2.
Proof.
  intros Hv Hwf Hk d1. set (fs := merge_sort by_index_desc (rotated_files read_dir base d1)).
  assert (Hd1 : ∀ n, d1 !! n = match rotated_of base n with Some f => if keep <? rf_index f then None else d !! n | None => d !! n end)
    by (intros n; apply prune_lookup).
  assert (Hfs : ∀ f, f ∈ fs ↔ is_Some (d1 !! rf_name f) ∧ rotated_of base (rf_name f) = Some f).
  { intros f. unfold fs. rewrite merge_sort_Permutation. apply rotated_files_elem. }
  assert (Hcan : ∀ f, f ∈ fs → canonical base f ∧ 1 ≤ rf_index f).
  { intros f [[c Hc] Hf]%Hfs. rewrite Hd1, Hf in Hc. destruct (keep <? rf_index f); [done|].
    destruct (Hwf (rf_name f) f) as [Hn Hi]; [by eexists|done|]. split; [split; [done|lia]|done]. }
  assert (Hname : ∀ i s, suffix_ok s → 0 ≤ i ≤ u64_max → is_Some (d1 !! indexed_path base i s) →
    MkRotated i s (indexed_path base i s) ∈ fs).
  { intros i s Hs Hi Hsome. apply Hfs. cbn [rf_name]. split; [done|]. apply rotated_of_indexed; [apply utf8_indexed; [done..|lia]|done]. }
  destruct (shift_files_spec base fs d1) as (d2 & Hd2 & Htgt & Hrest).
  { unfold fs. rewrite merge_sort_Permutation. apply rotated_files_nodup. }
  { apply StronglySorted_merge_sort; [intros a b c; unfold by_index_desc; lia|intros a b; unfold by_index_desc; lia]. }
  { intros f Hf. split; [by apply Hcan|by apply Hfs in Hf as [? _]]. }
  assert (Htarget : ∀ f, f ∈ fs → rotated_of base (target_of base f) = Some (MkRotated (rf_index f + 1) (rf_suffix f) (target_of base f))).
  { intros f Hf. destruct (Hcan f Hf) as [[Hfn Hfi] _]. apply Hfs in Hf as [[c Hc] Hf]. rewrite Hd1, Hf in Hc.
    destruct (Z.ltb_spec keep (rf_index f)); [done|]. apply rotated_of_indexed; [|lia]. apply utf8_indexed; [done| |lia].
    apply (suffix_utf8 base (rf_index f)); [done|]. rewrite <-Hfn. unfold rotated_of in Hf. by destruct (utf8_valid (rf_name f)). }
  exists d2. split; [done|]. split_and!.
  - intros i s Hs Hi. set (n := indexed_path base (i + 1) s).
    assert (d1 !! indexed_path base i s = None ∨ i = 0 → d2 !! n = None) as Hgone.
    { intros Hnone. rewrite Hrest.
      - case_bool_decide as Hin; [done|]. destruct (d1 !! n) eqn:En; [|done]. exfalso. apply Hin.
        apply list_elem_of_fmap. exists (MkRotated (i + 1) s n). split; [done|]. apply Hname; [done|lia|by eexists].
      - intros Hin. apply list_elem_of_fmap in Hin as (f & Ef & Hf). destruct (Hcan f Hf) as [[Hfn Hfi] Hf1].
        unfold n, target_of in Ef. apply indexed_path_inj in Ef as [Ei ->]; [|lia|lia]. replace i with (rf_index f) in Hnone by lia.
        apply Hfs in Hf as [[c Hc] _]. rewrite Hfn in Hc. destruct Hnone as [Hnone|]; [congruence|lia]. }
    assert (d1 !! indexed_path base i s = if i <=? keep then d !! indexed_path base i s else None) as Hdi.
    { rewrite Hd1, rotated_of_indexed; [|apply utf8_indexed; [done..|lia]|lia]. cbn [rf_index].
      destruct (Z.ltb_spec keep i), (Z.leb_spec i keep); try lia; done. }
    destruct (Z.ltb_spec 0 i) as [Hpos|Hzero]; cbn [andb]; [|apply Hgone; right; lia]. rewrite <-Hdi.
    destruct (d1 !! indexed_path base i s) as [c|] eqn:Ec; [|apply Hgone; by left].
    rewrite <-Ec. apply (Htgt (MkRotated i s (indexed_path base i s))). apply Hname; [done|lia|by eexists].
  - intros n Hn. rewrite Hrest.
    + rewrite bool_decide_eq_false_2; [by rewrite Hd1, Hn|]. intros Hin. apply list_elem_of_fmap in Hin as (f & -> & Hf).
      apply Hfs in Hf as [_ Hf]. congruence.
    + intros Hin. apply list_elem_of_fmap in Hin as (f & -> & Hf). by rewrite Htarget in Hn.
  - intros n f Hn Hf. destruct (decide (n ∈ target_of base <$> fs)) as [Hin|Hout].
    + apply list_elem_of_fmap in Hin as (g & -> & Hg). rewrite (Htarget g Hg) in Hf. injection Hf as <-. cbn.
      destruct (Hcan g Hg) as [[_ ?] _]. split; [done|lia].
    + rewrite Hrest in Hn by done. case_bool_decide as Hno; [by destruct Hn|]. exfalso. apply Hno.
      apply list_elem_of_fmap. exists f. pose proof (rotated_of_name _ _ _ Hf) as En. split; [done|]. apply Hfs. by rewrite En.
Qed.

(** What [rotate] does to every file of the directory. *)
Lemma rotate_spec (w : RotatingWriter) (d : gmap bytes bytes) (c : bytes) (base := rw_base w) :
  utf8_valid base = true → dir_wf base d → d !! base = Some c → 1 ≤ rw_max_keep w ≤ u64_max →
  ∃ d', rotate read_dir w d =
    (true, MkRotatingWriter base (rw_rotate_size w) (rw_max_keep w) (Z.of_nat (length header_line)), d') ∧
    d' !! base = Some header_line ∧ dir_wf base d' ∧
    (∀ i s, suffix_ok s → 0 ≤ i < u64_max → d' !! indexed_path base (i + 1) s =
       if i =? 0 then (if decide (s = None) then Some c else None)
       else if i <=? rw_max_keep w - 1 then d !! indexed_path base i s else None) ∧
    (∀ n, rotated_of base n = None → n ≠ base → d' !! n = d !! n).
Proof.
  intros Hv Hwf Hc Hk. assert (rotated_of base base = None) as Hbase.
  { unfold rotated_of. destruct (negb _); [done|]. destruct (strip_prefix (base ++ [DOT]) base) eqn:E; [|done].
    apply strip_prefix_Some, (f_equal length) in E. rewrite !length_app in E. cbn in E. lia. }
  destruct (shifted_lookup base (Z.max 0 (rw_max_keep w - 1)) d Hv Hwf) as (d2 & Hd2 & Hidx & Hother & Hwf2); [unfold u64_max in *; lia|].
  unfold rotate. fold base. rewrite Hd2. unfold rename. rewrite (Hother base Hbase), Hc. unfold open_active.
  rewrite lookup_insert_ne by apply indexed_path_ne. rewrite lookup_delete_eq. cbn [default length Nat.eqb].
  eexists. split; [reflexivity|]. split; [apply lookup_insert_eq|].
  assert (∀ n, n ≠ base → <[base:=header_line]> (<[indexed_path base 1 None:=c]> (delete base d2)) !! n =
    if decide (n = indexed_path base 1 None) then Some c else d2 !! n) as Hlk.
  { intros n Hn. rewrite lookup_insert_ne by done. destruct (decide (n = _)) as [->|Hn1]; [apply lookup_insert_eq|].
    by rewrite lookup_insert_ne, lookup_delete_ne by done. }
  split_and!.
  - intros n f Hn Hf. assert (n ≠ base) as Hnb by (intros ->; congruence). rewrite Hlk in Hn by done.
    destruct (decide (n = indexed_path base 1 None)) as [->|]; [|by apply Hwf2].
    rewrite rotated_of_indexed in Hf; [|apply utf8_indexed; [done|by intros x|lia]|unfold u64_max; lia]. by injection Hf as <-.
  - intros i s Hs Hi. rewrite Hlk by apply indexed_path_ne. rewrite Hidx by done.
    destruct (Z.eqb_spec i 0) as [->|Hi0].
    + cbn [Z.add Z.ltb Z.compare andb]. destruct (decide (s = None)) as [->|Hsn]; [by rewrite decide_True|].
      rewrite decide_False; [done|]. intros E. apply indexed_path_inj in E as [_ E]; [done|lia|lia].
    + rewrite decide_False by (intros E; apply indexed_path_inj in E as [E _]; lia).
      replace (0 <? i) with true by lia. cbn [andb]. destruct (Z.leb_spec i (Z.max 0 (rw_max_keep w - 1))), (Z.leb_spec i (rw_max_keep w - 1)); done || lia.
  - intros n Hn Hnb. rewrite Hlk, Hother by done. rewrite decide_False; [done|]. intros ->.
    rewrite rotated_of_indexed in Hn; [done|apply utf8_indexed; [done|by intros x|lia]|unfold u64_max; lia].
Qed.
End rotation_spec.
