(* ===== verification/AccountingLog.v ===== *)
(** * What the accounting log holds (src/accounting.rs)

    The rotating, compressing log of [Accounting] refined to a list of
    records: the directory always represents the most recent ones, in order,
    each once. *)

From stdpp Require Import sorting.
From S2P Require Import Prelude RustStd Config Accounting.
Open Scope Z_scope.

(** The text of a log file with the given lines. *)
Definition render_log (lines : list bytes) : bytes := header_line ++ (lines ≫= λ l, l ++ [LF]).

Lemma render_log_snoc lines l : render_log (lines ++ [l]) = render_log lines ++ l ++ [LF].
Proof. unfold render_log. rewrite bind_app, bind_cons. cbn [mbind list_bind]. by rewrite app_nil_r, app_assoc. Qed.

Section log.
Context (read_dir : gmap bytes bytes → list bytes) (compress : Compression → bytes → bytes).
Hypothesis (read_dir_ok : ∀ d : gmap bytes bytes, read_dir d ≡ₚ elements (dom d)).
Context (base : bytes) (rotate_size max_keep compress_after : Z) (comp : Compression).
Hypothesis (base_ok : utf8_valid base = true) (keep_ok : 1 ≤ max_keep ≤ u64_max).

(** A segment's file: raw, or compressed under the suffix [form]. *)
Definition pack (form : option bytes) (text : bytes) : bytes :=
  match form with Some _ => compress comp text | None => text end.
Definition form_ok (form : option bytes) : Prop := form = None ∨ form = Config.extension comp.
Definition file_of (seg : option (list bytes)) (form : option (option bytes)) (s : option bytes) : option bytes :=
  match seg, form with
  | Some seg, Some form => if decide (s = form) then Some (pack form (render_log seg)) else None
  | _, _ => None
  end.

(** The directory holds the active lines [cur] and the rotated segments,
    newest first, the i-th under index i+1. *)
Record represents (d : gmap bytes bytes) (segs : list (list bytes)) (forms : list (option bytes)) (cur : list bytes) : Prop := {
  rp_active : d !! base = Some (render_log cur);
  rp_length : length forms = length segs;
  rp_forms : Forall form_ok forms;
  rp_files i s : suffix_ok s → 0 ≤ i < u64_max →
    d !! indexed_path base (i + 1) s = file_of (segs !! Z.to_nat i) (forms !! Z.to_nat i) s;
  rp_wf : dir_wf base d;
}.

Lemma represents_append d segs forms cur line :
  represents d segs forms cur → represents (<[base := default [] (d !! base) ++ line ++ [LF]]> d) segs forms (cur ++ [line]).
Proof.
  intros [Ha Hl Hf Hfiles Hwf]. rewrite Ha. split; [|done|done| |].
  - by rewrite lookup_insert_eq, render_log_snoc.
  - intros i s Hs Hi. rewrite lookup_insert_ne by (intros E; by apply (indexed_path_ne base (i + 1) s)). by apply Hfiles.
  - intros n f Hn Hrf. destruct (decide (n = base)) as [->|Hne]; [apply Hwf; [by eexists|done]|].
    rewrite lookup_insert_ne in Hn by done. by apply Hwf.
Qed.

Lemma lookup_take_lt {A} (l : list A) (n i : nat) : (i < n)%nat → take n l !! i = l !! i.
Proof. intros. by apply lookup_take_lt. Qed.

Lemma represents_rotate w d segs forms cur :
  rw_base w = base → rw_max_keep w = max_keep → represents d segs forms cur →
  ∃ d', rotate read_dir w d =
      (true, MkRotatingWriter base (rw_rotate_size w) max_keep (Z.of_nat (length (render_log []))), d') ∧
    represents d' (take (Z.to_nat max_keep) (cur :: segs)) (take (Z.to_nat max_keep) (None :: forms)) [].
Proof.
  intros Hb Hm [Ha Hl Hf Hfiles Hwf].
  destruct (rotate_spec read_dir read_dir_ok w d (render_log cur)) as (d' & Hr & Hact & Hwf' & Hidx & _); rewrite ?Hb, ?Hm in *; try done.
  exists d'. assert (render_log [] = header_line) as Hempty by (unfold render_log; cbn; by rewrite app_nil_r).
  rewrite Hempty. split; [done|]. split; [by rewrite Hempty|rewrite !length_take; cbn; lia| | |done].
  { apply Forall_take. constructor; [by left|done]. }
  intros i s Hs Hi. rewrite Hidx by done. destruct (Z.eqb_spec i 0) as [->|Hi0].
  { destruct (Z.to_nat max_keep) as [|k] eqn:Ek; [lia|]. change (Z.to_nat 0) with 0%nat. cbn [take lookup list_lookup file_of pack]. by repeat case_decide. }
  destruct (Z.leb_spec i (max_keep - 1)).
  - rewrite !lookup_take_lt by lia. replace (Z.to_nat i) with (S (Z.to_nat (i - 1))) by lia. cbn [lookup list_lookup].
    rewrite <-Hfiles by (done || lia). do 2 f_equal. lia.
  - rewrite !lookup_take_ge by lia. done.
Qed.

(** A raw file of the log, by its place. *)
Definition raw_at (forms : list (option bytes)) (i : Z) : Prop := forms !! Z.to_nat i = Some None ∧ 0 ≤ i < u64_max.

Lemma represents_compress d segs forms cur i ext :
  represents d segs forms cur → raw_at forms i → Config.extension comp = Some ext → utf8_valid ext = true →
  represents (compress_file compress (indexed_path base (i + 1) None) comp d).2 segs (<[Z.to_nat i := Some ext]> forms) cur.
Proof.
  intros [Ha Hl Hf Hfiles Hwf] [Hraw Hi] Hext Hv. set (path := indexed_path base (i + 1) None).
  assert (∃ seg, segs !! Z.to_nat i = Some seg) as [seg Hseg].
  { apply lookup_lt_is_Some_2. apply lookup_lt_Some in Hraw. lia. }
  assert (d !! path = Some (render_log seg)) as Hpath.
  { unfold path. rewrite Hfiles by (by intros ? || done). rewrite Hseg, Hraw. cbn. done. }
  unfold compress_file. rewrite Hext, Hpath. cbn [snd].
  assert (path ++ DOT :: ext = indexed_path base (i + 1) (Some ext)) as ->.
  { unfold path, indexed_path. rewrite <-!app_assoc. cbn [app]. by rewrite app_nil_r. }
  assert (suffix_ok (Some ext)) as Hsx by (intros x [= <-]; done).
  split.
  - rewrite lookup_delete_ne, lookup_insert_ne by (intros E; by eapply indexed_path_ne). done.
  - by rewrite length_insert.
  - apply Forall_insert; [done|]. by right.
  - intros j s Hs Hj. destruct (decide (j = i)) as [->|Hne].
    + rewrite Hseg, list_lookup_insert_eq by (apply lookup_lt_Some in Hraw; lia). cbn [file_of].
      destruct (decide (s = Some ext)) as [->|Hsne].
      * rewrite lookup_delete_ne by (unfold path; intros E; apply indexed_path_inj in E as [_ E]; [done|lia|lia]).
        by rewrite lookup_insert_eq.
      * destruct s as [s|].
        -- rewrite lookup_delete_ne by (unfold path; intros E; apply indexed_path_inj in E as [_ E]; [done|lia|lia]).
           rewrite lookup_insert_ne by (intros E; apply indexed_path_inj in E as [_ E]; [congruence|lia|lia]).
           rewrite Hfiles by done. rewrite Hseg, Hraw. cbn. done.
        -- by rewrite lookup_delete_eq.
    + rewrite list_lookup_insert_ne by lia.
      rewrite lookup_delete_ne, lookup_insert_ne by (try unfold path; intros E; apply indexed_path_inj in E as [E _]; lia).
      by apply Hfiles.
  - intros n f Hn Hrf. destruct (decide (n = indexed_path base (i + 1) (Some ext))) as [->|Hne].
    + rewrite rotated_of_indexed in Hrf; [|apply utf8_indexed; [done..|lia]|lia]. injection Hrf as <-. cbn. split; [done|lia].
    + destruct (decide (n = path)) as [->|Hnp]; [rewrite lookup_delete_eq in Hn; by destruct Hn|].
      rewrite lookup_delete_ne, lookup_insert_ne in Hn by done. by apply Hwf.
Qed.

(** ** The two threads *)

Record acc_inv (s : Accounting) (segs : list (list bytes)) (forms : list (option bytes)) (cur : list bytes) : Prop := {
  ai_rep : represents (ac_dir s) segs forms cur;
  ai_writer : ac_writer s = MkRotatingWriter base rotate_size max_keep (Z.of_nat (length (render_log cur)));
  ai_gate : ac_gate s = false → ac_batch s = [];
  ai_batch : ∃ idx, ac_batch s = map (λ i, indexed_path base (i + 1) None) idx ∧ NoDup idx ∧ Forall (raw_at forms) idx;
  ai_keep : (length segs ≤ Z.to_nat max_keep)%nat;
}.
(** All records the log holds, oldest first. *)
Definition log_lines (segs : list (list bytes)) (cur : list bytes) : list bytes := concat (rev segs) ++ cur.

Lemma no_batch forms : ∃ idx, [] = map (λ i, indexed_path base (i + 1) None) idx ∧ NoDup idx ∧ Forall (raw_at forms) idx.
Proof. exists []. split_and!; constructor. Qed.

Lemma candidates_raw d segs forms cur :
  represents d segs forms cur →
  ∃ idx, compression_candidates read_dir base compress_after comp d = map (λ i, indexed_path base (i + 1) None) idx ∧
    NoDup idx ∧ Forall (raw_at forms) idx.
Proof.
  intros [Ha Hl Hf Hfiles Hwf]. unfold compression_candidates. destruct (decide (comp = CompressionNone)); [apply no_batch|].
  set (fs := merge_sort by_index _).
  assert (∀ f, f ∈ fs → rf_name f = indexed_path base (rf_index f - 1 + 1) None ∧ raw_at forms (rf_index f - 1)) as Hfs.
  { intros f Hin. unfold fs in Hin. rewrite merge_sort_Permutation, list_elem_of_In, filter_In, <-list_elem_of_In in Hin.
    destruct Hin as [Hin Hsel]. apply (rotated_files_elem read_dir read_dir_ok) in Hin as [Hsome Hrf]. bool_prop.
    pose proof (rotated_of_index _ _ _ Hrf) as Hb. destruct (Hwf _ _ Hsome Hrf) as [Hn Hi]. rewrite H in Hn.
    replace (rf_index f - 1 + 1) with (rf_index f) by lia. split; [done|]. split; [|lia].
    rewrite Hn in Hsome. replace (rf_index f) with (rf_index f - 1 + 1) in Hsome by lia.
    rewrite Hfiles in Hsome by (by intros ? || lia). unfold file_of in Hsome.
    destruct (segs !! _) as [seg|]; [|by destruct Hsome]. destruct (forms !! _) as [form|] eqn:Ef; [|by destruct Hsome].
    case_decide; [by subst|by destruct Hsome]. }
  exists (map (λ f, rf_index f - 1) fs). assert (NoDup (map rf_name fs)) as Hnd.
  { unfold fs. eapply (NoDup_Permutation_proper _ (map rf_name (List.filter _ (rotated_files read_dir base d)))).
    - by apply fmap_Permutation, merge_sort_Permutation.
    - pose proof (rotated_files_nodup read_dir read_dir_ok base d) as Hn. clear -Hn.
      induction (rotated_files read_dir base d) as [|g l IH]; [constructor|]. cbn in Hn |- *. apply NoDup_cons in Hn as [Hg Hn].
      destruct (_ && _); [|by apply IH]. cbn. apply NoDup_cons. split; [|by apply IH]. intros Hin. apply Hg.
      apply list_elem_of_In, in_map_iff in Hin as (x & <- & Hx%filter_In). apply list_elem_of_fmap_2, list_elem_of_In. tauto. }
  split_and!.
  - rewrite map_map. apply map_ext_in. intros f Hin. by apply Hfs, list_elem_of_In.
  - clear -Hnd Hfs. induction fs as [|f fs IH]; [constructor|]. cbn in *. apply NoDup_cons in Hnd as [Hn Hnd]. apply NoDup_cons.
    split; [|apply IH; [intros g Hg; apply Hfs; by right|done]]. intros Hin. apply list_elem_of_In, in_map_iff in Hin as (g & Eg & Hg).
    apply Hn. destruct (Hfs f ltac:(by left)) as [-> _]. rewrite <-Eg. apply list_elem_of_In in Hg.
    destruct (Hfs g ltac:(by right)) as [<- _]. by apply list_elem_of_fmap_2.
  - apply Forall_forall. intros i Hin. apply list_elem_of_In, in_map_iff in Hin as (f & <- & Hin). by apply Hfs, list_elem_of_In.
Qed.

Lemma spawn_inv w d segs forms cur :
  acc_inv (MkAccountingState w d false []) segs forms cur →
  acc_inv (let candidates := compression_candidates read_dir base compress_after comp d in
           if decide (candidates = []) then MkAccountingState w d false []
           else spawn_compression candidates (MkAccountingState w d false [])) segs forms cur.
Proof.
  intros Hinv. cbv zeta. case_decide; [done|]. destruct Hinv as [Hr Hw Hg _ Hk]. cbn in *.
  split; cbn; [done|done|done| |done]. by eapply candidates_raw.
Qed.

Lemma rotate_keeps segs cur (k : nat) : ∃ lost, log_lines segs cur = lost ++ log_lines (take k (cur :: segs)) [] ∧
  (lost = [] ∨ length (take k (cur :: segs)) = k).
Proof.
  exists (concat (rev (drop k (cur :: segs)))). unfold log_lines. rewrite app_nil_r. split.
  - rewrite <-concat_app, <-rev_app_distr, take_drop. cbn. rewrite concat_app. cbn. by rewrite app_nil_r.
  - destruct (Nat.le_gt_cases (length (cur :: segs)) k); [left; by rewrite drop_ge|right; rewrite length_take; lia].
Qed.

Lemma submit_inv s segs forms cur line :
  acc_inv s segs forms cur →
  ∃ lost segs' forms' cur', acc_inv (handle_record read_dir compress_after comp line s) segs' forms' cur' ∧
    log_lines segs cur ++ [line] = lost ++ log_lines segs' cur' ∧ (length segs ≤ length segs')%nat ∧
    (lost = [] ∨ length segs' = Z.to_nat max_keep).
Proof.
  intros [Hr Hw Hg Hb Hk]. unfold handle_record, write_record. rewrite Hw. cbn [rw_base rw_rotate_size rw_max_keep rw_current_size].
  pose proof (represents_append _ _ _ _ line Hr) as Hr1. set (d1 := <[base := _]> (ac_dir s)) in *.
  assert (Z.of_nat (length (render_log cur)) + Z.of_nat (length line) + 1 = Z.of_nat (length (render_log (cur ++ [line])))) as Hsize.
  { rewrite render_log_snoc, !length_app. cbn. lia. }
  destruct ((rotate_size <=? _) && negb (ac_gate s)) eqn:Erot.
  - apply andb_true_iff in Erot as [_ Hgate%negb_true_iff]. rewrite Hgate, (Hg Hgate).
    set (w := MkRotatingWriter base rotate_size max_keep _).
    destruct (represents_rotate w d1 segs forms (cur ++ [line]) eq_refl eq_refl Hr1) as (d' & Hrot & Hrep). rewrite Hrot.
    destruct (rotate_keeps segs (cur ++ [line]) (Z.to_nat max_keep)) as (lost & Hl & Hlost).
    exists lost, (take (Z.to_nat max_keep) ((cur ++ [line]) :: segs)), (take (Z.to_nat max_keep) (None :: forms)), [].
    split_and!; [|unfold log_lines in *; by rewrite <-app_assoc|rewrite length_take; cbn; lia|done].
    cbn [rw_base]. apply (spawn_inv (MkRotatingWriter base rotate_size max_keep _)). split; cbn; [done|done|done|apply no_batch|].
    rewrite length_take. cbn. lia.
  - exists [], segs, forms, (cur ++ [line]). split_and!; [|unfold log_lines; by rewrite <-app_assoc|lia|by left].
    split; cbn; [done|by rewrite Hsize|done|done|done].
Qed.

Lemma extension_utf8 ext : Config.extension comp = Some ext → utf8_valid ext = true.
Proof. destruct comp; cbn; intros [= <-]; vm_compute; reflexivity. Qed.

Lemma compress_inv s segs forms cur :
  acc_inv s segs forms cur → ∃ forms', acc_inv (compress_next compress comp s) segs forms' cur.
Proof.
  intros [Hr Hw Hg (idx & Hb & Hnd & Hraw) Hk]. unfold compress_next. rewrite Hb. destruct idx as [|i idx]; cbn [map].
  { exists forms. split; cbn; [done|done|done|apply no_batch|done]. }
  apply NoDup_cons in Hnd as [Hni Hnd]. apply Forall_cons in Hraw as [Hi Hraw].
  destruct (Config.extension comp) as [ext|] eqn:Eext.
  - pose proof (represents_compress _ _ _ _ _ _ Hr Hi Eext (extension_utf8 _ Eext)) as Hr'.
    eexists. split; cbn; [exact Hr'|done|intros Hgate; by rewrite Hb in Hg; specialize (Hg Hgate)| |done].
    exists idx. split_and!; [done|done|]. rewrite Forall_forall in Hraw |- *. intros j Hj. destruct (Hraw j Hj) as [Hf Hj0]. destruct Hi as [_ Hi0].
    split; [|done]. rewrite list_lookup_insert_ne; [done|]. intros E. assert (i = j) as -> by lia. done.
  - exists forms. unfold compress_file. rewrite Eext. split; cbn; [done|done|intros Hgate; by rewrite Hb in Hg; specialize (Hg Hgate)|by exists idx|done].
Qed.

(** ** From startup *)

Definition submitted (evs : list acc_event) : list bytes := omap (λ e, match e with Submit l => Some l | CompressTick => None end) evs.
(** A directory with no log yet, and one left by an earlier run. *)
Definition fresh_dir (d : gmap bytes bytes) : Prop := ∀ n, is_Some (d !! n) → n ≠ base ∧ rotated_of base n = None.
Definition holds_log (d : gmap bytes bytes) (lines : list bytes) : Prop :=
  ∃ segs forms cur, represents d segs forms cur ∧ (length segs ≤ Z.to_nat max_keep)%nat ∧ lines = log_lines segs cur.

Lemma prune_noop (keep : Z) (d : gmap bytes bytes) :
  (∀ n f, is_Some (d !! n) → rotated_of base n = Some f → rf_index f ≤ keep) → prune read_dir base keep d = d.
Proof.
  intros Hall. apply map_eq. intros n. rewrite (prune_lookup read_dir read_dir_ok). destruct (rotated_of base n) as [f|] eqn:Ef; [|done].
  destruct (Z.ltb_spec keep (rf_index f)); [|done]. destruct (d !! n) eqn:En; [|done].
  specialize (Hall n f ltac:(by eexists) Ef). lia.
Qed.

Lemma init_inv d lines : (fresh_dir d ∧ lines = []) ∨ holds_log d lines →
  ∃ segs forms cur, acc_inv (accounting_init read_dir base rotate_size max_keep compress_after comp d) segs forms cur ∧
    lines = log_lines segs cur.
Proof.
  assert (∀ segs forms cur (d : gmap bytes bytes), represents d segs forms cur → (length segs ≤ Z.to_nat max_keep)%nat →
    acc_inv (let d := prune read_dir base max_keep d in
             let leftovers := compression_candidates read_dir base compress_after comp d in
             let s := MkAccountingState (MkRotatingWriter base rotate_size max_keep (Z.of_nat (length (render_log cur)))) d false [] in
             if decide (leftovers = []) then s else spawn_compression leftovers s) segs forms cur) as Hgo.
  { intros segs forms cur d0 Hr Hk. cbv zeta. rewrite prune_noop.
    - apply spawn_inv. split; cbn; [done|done|done|apply no_batch|done].
    - destruct Hr as [Ha Hl Hf Hfiles Hwf]. intros n f Hn Hrf. pose proof (rotated_of_index _ _ _ Hrf) as Hb.
      destruct (Hwf n f Hn Hrf) as [En Hi]. rewrite En in Hn. replace (rf_index f) with (rf_index f - 1 + 1) in Hn by lia.
      assert (suffix_ok (rf_suffix f)) as Hs.
      { apply (suffix_utf8 base (rf_index f)); [done|]. rewrite <-En. unfold rotated_of in Hrf. by destruct (utf8_valid n). }
      rewrite Hfiles in Hn by (done || lia). destruct (segs !! _) as [seg|] eqn:Es; [|by destruct Hn]. apply lookup_lt_Some in Es. lia. }
  intros [[Hfresh ->]|(segs & forms & cur & Hr & Hk & ->)].
  - exists [], [], []. split; [|done]. unfold accounting_init, rw_open, open_active.
    destruct (d !! base) as [c|] eqn:Ec; [by destruct (Hfresh base ltac:(by eexists))|]. cbn [default length Nat.eqb].
    assert (render_log [] = header_line) as <- by (unfold render_log; cbn; by rewrite app_nil_r).
    apply Hgo; [|cbn; lia]. split; [apply lookup_insert_eq|done|constructor| |].
    + intros i s Hs Hi. rewrite lookup_insert_ne by (intros E; by apply (indexed_path_ne base (i + 1) s)). cbn.
      destruct (d !! indexed_path base (i + 1) s) eqn:En; [|done]. destruct (Hfresh _ ltac:(by eexists)) as [_ Hno].
      rewrite rotated_of_indexed in Hno; [done|apply utf8_indexed; [done..|lia]|lia].
    + intros n f Hn Hrf. destruct (decide (n = base)) as [->|Hne].
      * unfold rotated_of in Hrf. destruct (negb _); [done|]. destruct (strip_prefix (base ++ [DOT]) base) eqn:E; [|done].
        apply strip_prefix_Some, (f_equal length) in E. rewrite !length_app in E. cbn in E. lia.
      * rewrite lookup_insert_ne in Hn by done. destruct (Hfresh n Hn) as [_ Hno]. congruence.
  - exists segs, forms, cur. split; [|done]. unfold accounting_init, rw_open, open_active.
    rewrite (rp_active _ _ _ _ Hr). cbn [default]. replace (length (render_log cur) =? 0)%nat with false.
    2: { symmetry. apply Nat.eqb_neq. unfold render_log, header_line. rewrite !length_app. cbn. lia. }
    rewrite insert_id by apply Hr. by apply Hgo.
Qed.

(** The log holds the most recent records.  Through any interleaving of
    submitted records and compression steps, from an empty directory or one a
    previous run left, the active file and at most [max_keep] rotated files,
    raw or compressed, hold the submitted records in order, each exactly once
    and none torn; only whole oldest files are ever given up, and only when
    [max_keep] newer ones exist. *)
Theorem log_keeps_recent (d : gmap bytes bytes) old evs :
  (fresh_dir d ∧ old = []) ∨ holds_log d old →
  let s := foldl (acc_step read_dir compress compress_after comp) (accounting_init read_dir base rotate_size max_keep compress_after comp d) evs in
  ∃ lost segs forms cur, represents (ac_dir s) segs forms cur ∧ (length segs ≤ Z.to_nat max_keep)%nat ∧
    old ++ submitted evs = lost ++ log_lines segs cur ∧ (lost = [] ∨ length segs = Z.to_nat max_keep).
Proof.
  intros Hd. cbv zeta. destruct (init_inv d old Hd) as (segs0 & forms0 & cur0 & Hinit & ->). clear Hd.
  set (s0 := accounting_init _ _ _ _ _ _ d) in *. clearbody s0.
  enough (∀ s segs forms cur, acc_inv s segs forms cur → ∃ lost segs' forms' cur',
    acc_inv (foldl (acc_step read_dir compress compress_after comp) s evs) segs' forms' cur' ∧ (length segs ≤ length segs')%nat ∧
    log_lines segs cur ++ submitted evs = lost ++ log_lines segs' cur' ∧ (lost = [] ∨ length segs' = Z.to_nat max_keep)) as Hgo.
  { destruct (Hgo _ _ _ _ Hinit) as (lost & segs & forms & cur & Hinv & _ & Hl & Hlost). exists lost, segs, forms, cur.
    split_and!; [by apply ai_rep in Hinv|by apply ai_keep in Hinv|done|done]. }
  clear Hinit s0 segs0 forms0 cur0. induction evs as [|e evs IH]; intros s segs forms cur Hinv.
  { exists [], segs, forms, cur. cbn. rewrite app_nil_r. split_and!; [done|lia|done|by left]. }
  cbn [foldl]. destruct e as [line|]; cbn [acc_step].
  - destruct (submit_inv s segs forms cur line Hinv) as (lost1 & segs1 & forms1 & cur1 & Hinv1 & Hl1 & Hle1 & Hlost1).
    destruct (IH _ _ _ _ Hinv1) as (lost & segs' & forms' & cur' & Hinv' & Hle & Hl & Hlost). exists (lost1 ++ lost), segs', forms', cur'.
    split_and!; [done|lia| |].
    + cbn [submitted omap list_omap]. change (line :: omap _ evs) with ([line] ++ submitted evs). rewrite app_assoc, Hl1, <-!app_assoc. by rewrite Hl.
    + pose proof (ai_keep _ _ _ _ Hinv') as Hk. destruct Hlost as [->|?]; [|by right]. destruct Hlost1 as [->|?]; [by left|right; lia].
  - destruct (compress_inv s segs forms cur Hinv) as (forms1 & Hinv1). exact (IH _ _ _ _ Hinv1).
Qed.
End log.

Module LogExample.
Definition names (d : gmap bytes bytes) : list bytes := elements (dom d).
Definition base : bytes := lit "cdr.log".
Definition evs : list acc_event := [Submit (lit "one"); Submit (lit "two"); CompressTick; CompressTick; Submit (lit "three"); CompressTick].
Definition final : Accounting :=
  foldl (acc_step names (λ _ b, b) 0 Config.Gzip) (accounting_init names base 1 2 0 Config.Gzip ∅) evs.

Lemma log_keeps_recent_witness :
  ∃ lost segs forms cur, represents (λ _ b, b) base Config.Gzip (ac_dir final) segs forms cur ∧ (length segs ≤ 2)%nat ∧
    [lit "one"; lit "two"; lit "three"] = lost ++ log_lines segs cur.
Proof.
  destruct (log_keeps_recent names (λ _ b, b) (λ d, reflexivity _) base 1 2 0 Config.Gzip) with (d := (∅ : gmap bytes bytes)) (old := [] : list bytes) (evs := evs)
    as (lost & segs & forms & cur & Hr & Hk & Hl & _).
  - vm_compute. reflexivity.
  - unfold u64_max. lia.
  - left. split; [|reflexivity]. intros n Hn. rewrite lookup_empty in Hn. by destruct Hn.
  - exists lost, segs, forms, cur. split; [exact Hr|]. split; [exact Hk|exact Hl].
Defined.
End LogExample.
