(* ===== verification/ActiveTracker.v ===== *)
(** * Connection bookkeeping (src/active_tracker.rs, src/dataplane/lifecycle.rs,
      src/listener_stats.rs, src/events_hub.rs)

    The table of live connections, the per-listener counters, the events they
    publish, and the guard that ties all of them to the lifetime of a
    connection's task. *)

From S2P Require Import Prelude RustStd Net Config Accounting.
Open Scope Z_scope.

Definition usize_wrap (n : Z) : Z := n mod (u64_max + 1).
Definition saturating_add (a b : Z) : Z := Z.min u64_max (a + b).

(** ** Events *)

Inductive Topic := TopicGlobal | TopicListener (name : bytes).
Inductive Event :=
| ConnectionCount (key : option bytes) (was now : Z)
| ConnectionOpened (id : Z) (was now : Z)
| ConnectionClosed (id : Z) (was now : Z) (host : bytes) (uploaded downloaded : Z)
| ConnectionHost (id : Z) (host : bytes).
Definition publish_both (listener : bytes) (e : Event) : list (Topic * Event) := [(TopicGlobal, e); (TopicListener listener, e)].
Definition publish_connection_count (listener : bytes) (was now : Z) : list (Topic * Event) :=
  [(TopicGlobal, ConnectionCount (Some listener) was now)].

(** ** The table *)

Record ActiveConnection := MkActive {
  a_listener : bytes;
  a_remote : SocketAddr;
  a_started_ms : Z;
  a_uploaded : Z;
  a_downloaded : Z;
  a_sni : bytes;
  a_target_host : bytes;
  a_target_endpoint : bytes;
  a_status : ConnStatus;
  a_type : option ListenerType;
}.
Abbreviation Tracker := (gmap Z ActiveConnection).

Definition of_listener (l : bytes) (c : ActiveConnection) : bool := eqb_bytes (a_listener c) l.
Definition listener_count (l : bytes) (t : Tracker) : Z :=
  Z.of_nat (length (List.filter (λ p, of_listener l p.2) (map_to_list t))).
Definition total_count (t : Tracker) : Z := Z.of_nat (length (map_to_list t)).

Definition tracker_put (now_ms id : Z) (listener : bytes) (remote : SocketAddr) (t : Tracker) : Tracker * list (Topic * Event) :=
  let t' := <[id := MkActive listener remote now_ms 0 0 [] [] [] default_status None]> t in
  (t', publish_connection_count listener (listener_count listener t) (listener_count listener t') ++
       publish_both listener (ConnectionOpened id (total_count t) (total_count t'))).

Definition add_uploaded (id n : Z) (t : Tracker) : Tracker :=
  alter (λ c, MkActive (a_listener c) (a_remote c) (a_started_ms c) (saturating_add (a_uploaded c) n) (a_downloaded c) (a_sni c)
                (a_target_host c) (a_target_endpoint c) (a_status c) (a_type c)) id t.
Definition add_downloaded (id n : Z) (t : Tracker) : Tracker :=
  alter (λ c, MkActive (a_listener c) (a_remote c) (a_started_ms c) (a_uploaded c) (saturating_add (a_downloaded c) n) (a_sni c)
                (a_target_host c) (a_target_endpoint c) (a_status c) (a_type c)) id t.
Definition set_sni (id : Z) (sni : bytes) (t : Tracker) : Tracker * list (Topic * Event) :=
  match t !! id with
  | None => (t, [])
  | Some c =>
      (<[id := MkActive (a_listener c) (a_remote c) (a_started_ms c) (a_uploaded c) (a_downloaded c) sni (a_target_host c)
                 (a_target_endpoint c) (a_status c) (a_type c)]> t,
       [(TopicListener (a_listener c), ConnectionHost id sni)])
  end.
Definition set_target (id : Z) (host endpoint : bytes) (t : Tracker) : Tracker :=
  alter (λ c, MkActive (a_listener c) (a_remote c) (a_started_ms c) (a_uploaded c) (a_downloaded c) (a_sni c) host endpoint
                (a_status c) (a_type c)) id t.
Definition set_status (id : Z) (status : ConnStatus) (t : Tracker) : Tracker :=
  alter (λ c, MkActive (a_listener c) (a_remote c) (a_started_ms c) (a_uploaded c) (a_downloaded c) (a_sni c) (a_target_host c)
                (a_target_endpoint c) status (a_type c)) id t.
Definition set_listener_type (id : Z) (ty : ListenerType) (t : Tracker) : Tracker :=
  alter (λ c, MkActive (a_listener c) (a_remote c) (a_started_ms c) (a_uploaded c) (a_downloaded c) (a_sni c) (a_target_host c)
                (a_target_endpoint c) (a_status c) (Some ty)) id t.

Definition tracker_remove (id : Z) (t : Tracker) : option ActiveConnection * Tracker * list (Topic * Event) :=
  match t !! id with
  | None => (None, t, [])
  | Some c =>
      let t' := delete id t in
      let l := a_listener c in
      (Some c, t', publish_connection_count l (listener_count l t) (listener_count l t') ++
         publish_both l (ConnectionClosed id (total_count t) (total_count t') (a_sni c) (a_uploaded c) (a_downloaded c)))
  end.
Definition tracker_reset : Tracker := ∅.

(** The calls a data-plane handler makes about its own connection. *)
Inductive track :=
| TrackUploaded (n : Z) | TrackDownloaded (n : Z) | TrackSni (sni : bytes) | TrackTarget (host endpoint : bytes)
| TrackStatus (s : ConnStatus) | TrackType (ty : ListenerType).
Definition apply_track (id : Z) (t : Tracker) (u : track) : Tracker :=
  match u with
  | TrackUploaded n => add_uploaded id n t
  | TrackDownloaded n => add_downloaded id n t
  | TrackSni sni => (set_sni id sni t).1
  | TrackTarget host endpoint => set_target id host endpoint t
  | TrackStatus s => set_status id s t
  | TrackType ty => set_listener_type id ty t
  end.

(** ** Listener counters *)

Record ListenerStats := MkStats { s_total : Z; s_active : Z; s_uploaded : Z; s_downloaded : Z }.
Definition stats_new : ListenerStats := MkStats 0 0 0 0.
Definition increase_conn_count (s : ListenerStats) : ListenerStats :=
  MkStats (usize_wrap (s_total s + 1)) (usize_wrap (s_active s + 1)) (s_uploaded s) (s_downloaded s).
Definition decrease_conn_count (s : ListenerStats) : ListenerStats :=
  MkStats (s_total s) (usize_wrap (s_active s - 1)) (s_uploaded s) (s_downloaded s).
Definition increase_uploaded_bytes (n : Z) (s : ListenerStats) : ListenerStats :=
  MkStats (s_total s) (s_active s) (usize_wrap (s_uploaded s + n)) (s_downloaded s).
Definition increase_downloaded_bytes (n : Z) (s : ListenerStats) : ListenerStats :=
  MkStats (s_total s) (s_active s) (s_uploaded s) (usize_wrap (s_downloaded s + n)).

(** ** The guard *)

Record ConnGuard := MkGuard { g_id : Z; g_listener : bytes; g_fallback : ListenerType }.

Record World := MkWorld {
  w_tracker : Tracker;
  w_stats : gmap bytes ListenerStats;
  w_cdrs : list CdrRecord;
  w_guards : gmap Z ConnGuard;
}.

Section lifecycle.
Context (show_id : Z → bytes).
(** [accounting::enabled()] *)
Context (accounting : bool).

Definition with_stats (f : ListenerStats → ListenerStats) (l : bytes) (stats : gmap bytes ListenerStats) : gmap bytes ListenerStats :=
  <[l := f (default stats_new (stats !! l))]> stats.

(** [ConnGuard::start] *)
Definition guard_start (now_ms id : Z) (listener : bytes) (remote : SocketAddr) (fallback : ListenerType) (w : World) : World :=
  MkWorld (tracker_put now_ms id listener remote (w_tracker w)).1 (with_stats increase_conn_count listener (w_stats w)) (w_cdrs w)
    (<[id := MkGuard id listener fallback]> (w_guards w)).

(** The record of a closed connection. *)
Definition cdr_of (g : ConnGuard) (c : ActiveConnection) (end_ms : Z) : CdrRecord :=
  MkCdr (default (g_fallback g) (a_type c)) (show_id (g_id g)) (g_listener g) (a_sni c) (a_target_host c) (a_target_endpoint c)
    (show_sockaddr (a_remote c)) (a_status c) (a_uploaded c) (a_downloaded c) (a_started_ms c) end_ms.

(** [ConnGuard::drop]: a task that ends, fails or is cancelled *)
Definition guard_drop (now_ms id : Z) (w : World) : World :=
  match w_guards w !! id with
  | None => w
  | Some g =>
      let '(closed, tracker, _) := tracker_remove id (w_tracker w) in
      MkWorld tracker (with_stats decrease_conn_count (g_listener g) (w_stats w))
        (w_cdrs w ++ match closed with Some c => if accounting then [cdr_of g c now_ms] else [] | None => [] end)
        (delete id (w_guards w))
  end.

(** What the process does to the bookkeeping: a connection is accepted under
    a fresh id, its handler reports about it, its guard is dropped. *)
Inductive life_step (w : World) : World → Prop :=
| StepStart now_ms id listener remote fallback :
    w_guards w !! id = None → life_step w (guard_start now_ms id listener remote fallback w)
| StepTrack id u :
    is_Some (w_guards w !! id) → life_step w (MkWorld (apply_track id (w_tracker w) u) (w_stats w) (w_cdrs w) (w_guards w))
| StepDrop now_ms id :
    is_Some (w_guards w !! id) → life_step w (guard_drop now_ms id w).
End lifecycle.

(** ** Counting *)

Definition count_of {A} (f : A → bytes) (l : bytes) (m : gmap Z A) : Z :=
  Z.of_nat (length (List.filter (λ p, eqb_bytes (f p.2) l) (map_to_list m))).

Lemma filter_length_perm {A} (f : A → bool) l l' : l ≡ₚ l' → length (List.filter f l) = length (List.filter f l').
Proof. induction 1; cbn; repeat case_match; cbn; lia. Qed.
Lemma count_insert {A} (f : A → bytes) l (m : gmap Z A) id x :
  m !! id = None → count_of f l (<[id := x]> m) = count_of f l m + if eqb_bytes (f x) l then 1 else 0.
Proof.
  intros Hm. unfold count_of. rewrite (filter_length_perm _ _ _ (map_to_list_insert m id x Hm)). cbn. case_match; cbn; lia.
Qed.
Lemma count_delete {A} (f : A → bytes) l (m : gmap Z A) id x :
  m !! id = Some x → count_of f l (delete id m) = count_of f l m - if eqb_bytes (f x) l then 1 else 0.
Proof.
  intros Hm. rewrite <-(insert_delete_id m id x Hm) at 2. rewrite count_insert by apply lookup_delete_eq. lia.
Qed.
Lemma count_fmap {A} (f : A → bytes) l (m : gmap Z A) : count_of f l m = count_of id l (f <$> m).
Proof.
  unfold count_of. rewrite map_to_list_fmap.
  induction (map_to_list m) as [|[i x] r IH]; [done|]. cbn [fmap list_fmap List.filter prod_map fst snd].
  change (id (f x)) with (f x). destruct (eqb_bytes (f x) l); cbn [length]; lia.
Qed.

Lemma wrap_add a b : usize_wrap (usize_wrap a + b) = usize_wrap (a + b).
Proof. unfold usize_wrap. apply Zplus_mod_idemp_l. Qed.

(** ** The invariant *)

Section invariant.
Context (show_id : Z → bytes) (accounting : bool).

(** The table and the guards are the same connections; every listener's
    active counter is their number. *)
Record life_inv (w : World) : Prop := {
  li_same : a_listener <$> w_tracker w = g_listener <$> w_guards w;
  li_ids id g : w_guards w !! id = Some g → g_id g = id;
  li_active l : s_active (default stats_new (w_stats w !! l)) = usize_wrap (count_of g_listener l (w_guards w));
}.

Lemma with_stats_active f l l' stats :
  s_active (default stats_new (with_stats f l stats !! l')) =
    if decide (l = l') then s_active (f (default stats_new (stats !! l))) else s_active (default stats_new (stats !! l')).
Proof.
  unfold with_stats. case_decide as E; [subst; by rewrite lookup_insert_eq|by rewrite lookup_insert_ne].
Qed.

Lemma apply_track_listener id u (t : Tracker) : a_listener <$> apply_track id t u = a_listener <$> t.
Proof.
  assert (∀ f : ActiveConnection → ActiveConnection, (∀ c, a_listener (f c) = a_listener c) → a_listener <$> alter f id t = a_listener <$> t) as Halter.
  { intros f Hf. apply map_eq. intros i. rewrite !lookup_fmap. destruct (decide (i = id)) as [->|]; [|by rewrite lookup_alter_ne].
    rewrite lookup_alter_eq. destruct (t !! id); cbn; [by rewrite Hf|done]. }
  destruct u; cbn [apply_track]; try by apply Halter. unfold set_sni. destruct (t !! id) as [c|] eqn:Ec; [|done]. cbn [fst].
  rewrite fmap_insert. apply insert_id. by rewrite lookup_fmap, Ec.
Qed.

Lemma start_inv now_ms id listener remote fallback w :
  w_guards w !! id = None → life_inv w → life_inv (guard_start now_ms id listener remote fallback w).
Proof.
  intros Hn [Hs Hi Ha]. unfold guard_start. split; cbn [w_tracker w_stats w_guards tracker_put fst].
  - rewrite !fmap_insert. cbn. by rewrite Hs.
  - intros i g. destruct (decide (i = id)) as [->|Hne].
    + rewrite lookup_insert_eq. by intros [= <-].
    + rewrite lookup_insert_ne by done. apply Hi.
  - intros l. rewrite with_stats_active, count_insert by done. cbn [g_listener].
    case_decide as E; [subst; rewrite (proj2 (eqb_bytes_spec l l) eq_refl); cbn [increase_conn_count s_active]; rewrite Ha; apply wrap_add|].
    destruct (eqb_bytes listener l) eqn:El; [by apply eqb_bytes_spec in El|]. by rewrite Z.add_0_r.
Qed.

(** Dropping a guard: its connection was in the table, and one record is
    written for it. *)
Lemma drop_inv now_ms id g w :
  w_guards w !! id = Some g → life_inv w →
  life_inv (guard_drop show_id accounting now_ms id w) ∧
  ∃ c, w_tracker w !! id = Some c ∧ a_listener c = g_listener g ∧
    w_cdrs (guard_drop show_id accounting now_ms id w) = w_cdrs w ++ (if accounting then [cdr_of show_id g c now_ms] else []).
Proof.
  intros Hg [Hs Hi Ha]. assert (∃ c, w_tracker w !! id = Some c ∧ a_listener c = g_listener g) as (c & Hc & Hl).
  { assert ((a_listener <$> w_tracker w) !! id = Some (g_listener g)) as E by (rewrite Hs, lookup_fmap, Hg; done).
    rewrite lookup_fmap in E. destruct (w_tracker w !! id) as [c|]; [|done]. injection E as E. by exists c. }
  unfold guard_drop. rewrite Hg. unfold tracker_remove. rewrite Hc. cbn. split; [|by exists c]. split; cbn.
  - by rewrite !fmap_delete, Hs.
  - intros i g' Hg'. apply lookup_delete_Some in Hg' as [_ Hg']. by apply Hi.
  - intros l. rewrite with_stats_active, (count_delete _ _ _ _ g) by done.
    case_decide as E; [subst; rewrite (proj2 (eqb_bytes_spec _ _) eq_refl); cbn [decrease_conn_count s_active]; rewrite Ha; apply wrap_add|].
    destruct (eqb_bytes (g_listener g) l) eqn:El; [by apply eqb_bytes_spec in El|]. by rewrite Z.sub_0_r.
Qed.

Lemma life_step_inv w w' : life_inv w → life_step show_id accounting w w' → life_inv w'.
Proof.
  intros Hinv [now id listener remote fallback Hn|id u _|now id [g Hg]].
  - by apply start_inv.
  - destruct Hinv as [Hs Hi Ha]. split; cbn; [by rewrite apply_track_listener|done|done].
  - by apply (drop_inv now id g w Hg Hinv).
Qed.

Definition empty_world : World := MkWorld ∅ ∅ [] ∅.
Lemma empty_world_inv : life_inv empty_world.
Proof. split; cbn; [by rewrite !fmap_empty|by intros id g; rewrite lookup_empty|]. intros l. by rewrite lookup_empty. Qed.

(** Connection bookkeeping is exact.  In every state the process can
    reach, through any interleaving of accepted connections, handler reports
    and ended or cancelled tasks: the table holds exactly the live guards;
    each listener's active counter is the number of its connections in the
    table; and ending any of them removes its row and writes exactly one
    record, with its counters and the listener's name, if accounting is on. *)
Theorem lifecycle_exact w :
  rtc (life_step show_id accounting) empty_world w →
  dom (w_tracker w) = dom (w_guards w) ∧
  (∀ l, s_active (default stats_new (w_stats w !! l)) = usize_wrap (listener_count l (w_tracker w))) ∧
  (∀ id g now_ms, w_guards w !! id = Some g → ∃ c, w_tracker w !! id = Some c ∧ a_listener c = g_listener g ∧
     w_tracker (guard_drop show_id accounting now_ms id w) = delete id (w_tracker w) ∧
     w_cdrs (guard_drop show_id accounting now_ms id w) = w_cdrs w ++ (if accounting then [cdr_of show_id g c now_ms] else [])).
Proof.
  intros Hrun. assert (life_inv w) as Hinv.
  { revert Hrun. generalize empty_world empty_world_inv. induction 2 as [|w1 w2 w3 Hstep _ IH]; [done|]. apply IH. by eapply life_step_inv. }
  destruct Hinv as [Hs Hi Ha]. split_and!.
  - apply (f_equal dom) in Hs. by rewrite !dom_fmap_L in Hs.
  - intros l. rewrite Ha. change (listener_count l (w_tracker w)) with (count_of a_listener l (w_tracker w)).
    by rewrite (count_fmap a_listener), (count_fmap g_listener), Hs.
  - intros id g now_ms Hg. destruct (drop_inv now_ms id g w Hg) as (_ & c & Hc & Hl & Hcdr); [by split|].
    exists c. split_and!; [done|done| |done]. unfold guard_drop, tracker_remove. by rewrite Hg, Hc.
Qed.
End invariant.

Module LifeExample.
Definition addr : SocketAddr := MkSocketAddr (V4 [10; 0; 0; 9]) 5000.
Definition w1 : World := guard_start 7 1 (lit "web") addr HttpPassthroughType empty_world.
Definition w2 : World := MkWorld (apply_track 1 (w_tracker w1) (TrackUploaded 12)) (w_stats w1) (w_cdrs w1) (w_guards w1).
Lemma lifecycle_exact_witness :
  s_active (default stats_new (w_stats w2 !! lit "web")) = 1 ∧
  ∃ c, w_cdrs (guard_drop show_dec true 9 1 w2) = [cdr_of show_dec (MkGuard 1 (lit "web") HttpPassthroughType) c 9].
Proof.
  split; [vm_compute; reflexivity|].
  destruct (lifecycle_exact show_dec true w2) as (_ & _ & Hd).
  - apply (rtc_l _ _ w1); [apply StepStart; apply lookup_empty|]. apply rtc_once. apply (StepTrack show_dec true w1 1 (TrackUploaded 12)).
    eexists. apply lookup_insert_eq.
  - destruct (Hd 1 (MkGuard 1 (lit "web") HttpPassthroughType) 9) as (c & _ & _ & _ & Hcdr); [apply lookup_insert_eq|].
    exists c. exact Hcdr.
Defined.
End LifeExample.
