(* ===== verification/EventsHub.v ===== *)
(** * The event hub (src/events_hub.rs, listing of src/active_tracker.rs)

    The registered listeners, their transfer totals, and what the snapshots,
    the sampler and the reconciler publish.  The broadcast queues
    (named_queue) are not modelled: a tick is the list of what it sends, each
    with its topic. *)

From S2P Require Import Prelude RustStd Net Config Accounting ActiveTracker.
Open Scope Z_scope.

(** ** Topics *)

#[export] Instance topic_eq_dec : EqDecision Topic.
Proof. solve_decision. Defined.

Definition GLOBAL_TOPIC : bytes := lit "tlsproxy.events.global".
Definition listener_topic (name : bytes) : bytes := lit "tlsproxy.events.listener." ++ name.
Definition topic_name (t : Topic) : bytes := match t with TopicGlobal => GLOBAL_TOPIC | TopicListener name => listener_topic name end.
(** No two listeners share a topic, and none has the global one. *)
Lemma topic_name_inj t t' : topic_name t = topic_name t' → t = t'.
Proof.
  destruct t as [|a], t' as [|b]; unfold topic_name, GLOBAL_TOPIC, listener_topic; [done|by vm_compute|by vm_compute|].
  intros H. apply app_inv_head in H. by subst.
Qed.

(** ** The list of connections *)

Record Item := MkItem {
  it_request_id : bytes;
  it_listener : bytes;
  it_remote : bytes;
  it_host : bytes;
  it_started_ms : Z;
  it_uploaded : Z;
  it_downloaded : Z;
}.
#[export] Instance item_eq_dec : EqDecision Item.
Proof. solve_decision. Defined.
Definition bytes_cmp (a b : bytes) : comparison := if bytes_le a b then if bytes_le b a then Eq else Lt else Gt.
Definition then_cmp (c d : comparison) : comparison := match c with Eq => d | _ => c end.
Definition item_cmp (a b : Item) : comparison :=
  then_cmp (then_cmp (bytes_cmp (it_listener a) (it_listener b)) (it_started_ms a ?= it_started_ms b)) (bytes_cmp (it_request_id a) (it_request_id b)).
Definition item_le (a b : Item) : Prop := item_cmp a b ≠ Gt.
#[export] Instance item_le_dec a b : Decision (item_le a b) := ltac:(unfold item_le; apply _).

Section hub.
(** [Display] of a request id. *)
Context (show_id : Z → bytes).

Definition item_of (id : Z) (c : ActiveConnection) : Item :=
  MkItem (show_id id) (a_listener c) (show_sockaddr (a_remote c)) (a_sni c) (a_started_ms c) (a_uploaded c) (a_downloaded c).
(** [get_active_list]: the uptime, which only the listing shows, is left out. *)
Definition get_active_list (t : Tracker) : list Item := merge_sort item_le (map (λ p, item_of p.1 p.2) (map_to_list t)).

(** ** The hub *)

Definition GLOBAL_KEY : bytes := lit "__global__".
Inductive HubEvent :=
| CountChanged (key : bytes) (was now : Z) (snapshot : bool)
| ListenerTransferred (key : bytes) (uploaded downloaded : Z) (snapshot : bool)
| GlobalTransfer (key : bytes) (uploaded downloaded : Z) (snapshot : bool)
| BytesTransferred (listener id : bytes) (uploaded downloaded : Z)
| ConnectionsSnapshot (listener : option bytes) (items : list Item).
(** [hb_listeners]: the registered listeners, [false] once their statistics
    object is gone (the [Weak] has no owner). *)
Record Hub := MkHub { hb_listeners : gmap bytes bool; hb_totals : gmap bytes (Z * Z); hb_topics : gset bytes }.
Definition hub_empty : Hub := MkHub ∅ ∅ ∅.

Definition ensure_topic (topic : bytes) (h : Hub) : Hub := MkHub (hb_listeners h) (hb_totals h) ({[topic]} ∪ hb_topics h).
Definition transfer_totals (listener : bytes) (h : Hub) : Hub :=
  match hb_totals h !! listener with Some _ => h | None => MkHub (hb_listeners h) (<[listener := (0, 0)]> (hb_totals h)) (hb_topics h) end.
Definition totals_add_uploaded (listener : bytes) (n : Z) (h : Hub) : Hub :=
  MkHub (hb_listeners h) (alter (λ t, (usize_wrap (t.1 + n), t.2)) listener (hb_totals h)) (hb_topics h).
Definition totals_add_downloaded (listener : bytes) (n : Z) (h : Hub) : Hub :=
  MkHub (hb_listeners h) (alter (λ t, (t.1, usize_wrap (t.2 + n))) listener (hb_totals h)) (hb_topics h).
Definition hub_reset (h : Hub) : Hub := MkHub ∅ (hb_totals h) (hb_topics h).
Definition register_listener (name : bytes) (h : Hub) : Hub :=
  ensure_topic (listener_topic name) (transfer_totals name (MkHub (<[name := true]> (hb_listeners h)) (hb_totals h) (hb_topics h))).
(** The last owner of a listener's statistics goes away. *)
Definition listener_gone (name : bytes) (h : Hub) : Hub := MkHub (alter (λ _, false) name (hb_listeners h)) (hb_totals h) (hb_topics h).

Definition connections_event (listener : option bytes) (connections : list Item) : HubEvent :=
  ConnectionsSnapshot listener (List.filter (λ i, match listener with Some name => eqb_bytes (it_listener i) name | None => true end) connections).
(** [*counts.entry(listener).or_default() += 1] *)
Definition count_connections (connections : list Item) : gmap bytes Z :=
  foldl (λ counts i, <[it_listener i := default 0 (counts !! it_listener i) + 1]> counts) ∅ connections.
Definition add_totals (acc t : Z * Z) : Z * Z := (saturating_add acc.1 t.1, saturating_add acc.2 t.2).
(** The registered listeners that are alive, in the map's order. *)
Definition live_listeners (h : Hub) : list bytes := omap (λ p, if p.2 : bool then Some p.1 else None) (map_to_list (hb_listeners h)).
Definition totals_of (h : Hub) (name : bytes) : Z * Z := default (0, 0) (hb_totals h !! name).

Definition snapshot_global (t : Tracker) (h : Hub) : list HubEvent :=
  let connections := get_active_list t in
  let counts := count_connections connections in
  let '(events, global) :=
    foldl (λ '(events, global) name,
      let now := default 0 (counts !! name) in
      let totals := totals_of h name in
      (events ++ [CountChanged name now now true; ListenerTransferred name totals.1 totals.2 true], add_totals global totals))
      ([connections_event None connections], (0, 0)) (live_listeners h) in
  let total := Z.of_nat (length connections) in
  events ++ [CountChanged GLOBAL_KEY total total true; GlobalTransfer GLOBAL_KEY global.1 global.2 true].
Definition snapshot_listener (listener : bytes) (t : Tracker) (h : Hub) : list HubEvent :=
  let totals := totals_of h listener in
  [connections_event (Some listener) (get_active_list t); ListenerTransferred listener totals.1 totals.2 true].

(** One turn of the loop of [spawn_connection_reconciler]. *)
Definition reconciler_tick (t : Tracker) (h : Hub) : list (Topic * HubEvent) :=
  let connections := get_active_list t in
  (TopicGlobal, connections_event None connections) ::
    map (λ name, (TopicListener name, connections_event (Some name) connections)) (live_listeners h).
(** One turn of the loop of [spawn_sampler]. *)
Definition sampler_tick (t : Tracker) (h : Hub) : list (Topic * HubEvent) :=
  let connections := get_active_list t in
  let counts := count_connections connections in
  let total := Z.of_nat (length connections) in
  let live := filter (λ p, hb_listeners h !! p.1 = Some true) (map_to_list (hb_totals h)) in
  let '(transfers, global) :=
    foldl (λ '(sent, global) p,
      let e := ListenerTransferred p.1 p.2.1 p.2.2 false in
      (sent ++ [(TopicGlobal, e); (TopicListener p.1, e)], add_totals global p.2)) ([], (0, 0)) live in
  map (λ i, (TopicListener (it_listener i), BytesTransferred (it_listener i) (it_request_id i) (it_uploaded i) (it_downloaded i))) connections
  ++ map (λ name, let now := default 0 (counts !! name) in (TopicGlobal, CountChanged name now now true)) (live_listeners h)
  ++ [(TopicGlobal, CountChanged GLOBAL_KEY total total true)]
  ++ transfers ++ [(TopicGlobal, GlobalTransfer GLOBAL_KEY global.1 global.2 false)].

(** ** What happens to the hub *)

Inductive hub_step (h : Hub) : Hub → Prop :=
| HubRegister name : hub_step h (register_listener name h)
| HubGone name : hub_step h (listener_gone name h)
| HubReset : hub_step h (hub_reset h)
| HubTotals name : hub_step h (transfer_totals name h)
| HubTopic topic : hub_step h (ensure_topic topic h)
| HubUploaded name n : hub_step h (totals_add_uploaded name n h)
| HubDownloaded name n : hub_step h (totals_add_downloaded name n h).

(** Every registered listener has its totals, which are 64-bit numbers. *)
Definition hub_wf (h : Hub) : Prop :=
  dom (hb_listeners h) ⊆ dom (hb_totals h) ∧ map_Forall (λ _ t, 0 ≤ t.1 ∧ 0 ≤ t.2) (hb_totals h).

Lemma wrap_nonneg n : 0 ≤ usize_wrap n.
Proof. unfold usize_wrap. apply Z.mod_pos_bound. done. Qed.
Lemma transfer_totals_wf name h : hub_wf h → hub_wf (transfer_totals name h) ∧ name ∈ dom (hb_totals (transfer_totals name h)).
Proof.
  intros [Hd Ht]. unfold transfer_totals. destruct (hb_totals h !! name) as [p|] eqn:E; [split; [by split|]; by apply elem_of_dom_2 in E|].
  split; [|cbn; set_solver]. split; cbn; [set_solver|]. by apply map_Forall_insert_2.
Qed.
Lemma alter_totals_wf f name h : (∀ t, 0 ≤ t.1 ∧ 0 ≤ t.2 → 0 ≤ (f t).1 ∧ 0 ≤ (f t).2) → hub_wf h →
  hub_wf (MkHub (hb_listeners h) (alter f name (hb_totals h)) (hb_topics h)).
Proof.
  intros Hf [Hd Ht]. split; cbn; [by rewrite dom_alter_L|]. intros k t Hk. destruct (decide (k = name)) as [->|Hne].
  - rewrite lookup_alter_eq in Hk. destruct (hb_totals h !! name) as [t0|] eqn:E; [|done]. injection Hk as <-. apply Hf. by apply (Ht name).
  - rewrite lookup_alter_ne in Hk by done. by apply (Ht k).
Qed.
Lemma hub_step_wf h h' : hub_wf h → hub_step h h' → hub_wf h'.
Proof.
  intros Hwf [name|name| |name|topic|name n|name n].
  - destruct Hwf as [Hd Ht]. unfold register_listener, ensure_topic, transfer_totals. cbn [hb_totals]. destruct (hb_totals h !! name) as [p|] eqn:E.
    + split; cbn; [|done]. apply elem_of_dom_2 in E. set_solver.
    + split; cbn; [set_solver|by apply map_Forall_insert_2].
  - destruct Hwf as [Hd Ht]. split; cbn; [by rewrite dom_alter_L|done].
  - destruct Hwf as [Hd Ht]. split; cbn; [set_solver|done].
  - by apply transfer_totals_wf.
  - done.
  - apply alter_totals_wf; [|done]. cbn. intros t ?. pose proof (wrap_nonneg (t.1 + n)). lia.
  - apply alter_totals_wf; [|done]. cbn. intros t ?. pose proof (wrap_nonneg (t.2 + n)). lia.
Qed.
Lemma hub_run_wf h : rtc hub_step hub_empty h → hub_wf h.
Proof.
  assert (hub_wf hub_empty) as H0 by (split; [set_solver|apply map_Forall_empty]). revert H0. generalize hub_empty.
  induction 2 as [|h1 h2 h3 Hs _ IH]; [done|]. apply IH. by eapply hub_step_wf.
Qed.

(** ** Sums and counts *)

Definition sum_of (f : Z * Z → Z) (l : list (Z * Z)) : Z := foldr (λ t acc, f t + acc) 0 l.
Lemma sum_of_perm f l l' : l ≡ₚ l' → sum_of f l = sum_of f l'.
Proof. unfold sum_of. induction 1; cbn [foldr]; lia. Qed.
Lemma sum_of_nonneg f l : Forall (λ t, 0 ≤ f t) l → 0 ≤ sum_of f l.
Proof. unfold sum_of. induction 1; cbn [foldr]; lia. Qed.
(** Saturated sums do not depend on the order. *)
Lemma add_totals_sum l : Forall (λ t, 0 ≤ t.1 ∧ 0 ≤ t.2) l → ∀ acc, acc.1 ≤ u64_max → acc.2 ≤ u64_max →
  foldl add_totals acc l = (Z.min u64_max (acc.1 + sum_of fst l), Z.min u64_max (acc.2 + sum_of snd l)).
Proof.
  induction 1 as [|[a b] l [Ha Hb] Hl IH]; intros [u d] Hu Hd; cbn [foldl sum_of foldr fst snd] in *.
  - f_equal; lia.
  - rewrite IH; unfold add_totals, saturating_add; cbn [fst snd]; [|lia..].
    assert (0 ≤ sum_of fst l) by (apply sum_of_nonneg; eapply Forall_impl; [exact Hl|]; cbn; lia).
    assert (0 ≤ sum_of snd l) by (apply sum_of_nonneg; eapply Forall_impl; [exact Hl|]; cbn; lia).
    fold (sum_of fst l) (sum_of snd l). f_equal; lia.
Qed.

Lemma snapshot_fold (counts : gmap bytes Z) h names : ∀ events global,
  foldl (λ '(events, global) name,
      let now := default 0 (counts !! name) in
      let totals := totals_of h name in
      (events ++ [CountChanged name now now true; ListenerTransferred name totals.1 totals.2 true], add_totals global totals))
      (events, global) names
  = (events ++ concat (map (λ name, [CountChanged name (default 0 (counts !! name)) (default 0 (counts !! name)) true;
                                      ListenerTransferred name (totals_of h name).1 (totals_of h name).2 true]) names),
     foldl add_totals global (map (totals_of h) names)).
Proof. induction names as [|n names IH]; intros events global; cbn; [by rewrite app_nil_r|]. rewrite IH. by rewrite <- app_assoc. Qed.
Lemma sampler_fold (live : list (bytes * (Z * Z))) : ∀ sent global,
  foldl (λ '(sent, global) p,
      let e := ListenerTransferred p.1 p.2.1 p.2.2 false in
      (sent ++ [(TopicGlobal, e); (TopicListener p.1, e)], add_totals global p.2)) (sent, global) live
  = (sent ++ concat (map (λ p, [(TopicGlobal, ListenerTransferred p.1 p.2.1 p.2.2 false); (TopicListener p.1, ListenerTransferred p.1 p.2.1 p.2.2 false)]) live),
     foldl add_totals global (map snd live)).
Proof. induction live as [|p live IH]; intros sent global; cbn; [by rewrite app_nil_r|]. rewrite IH. by rewrite <- app_assoc. Qed.

Lemma live_listeners_spec h name : name ∈ live_listeners h ↔ hb_listeners h !! name = Some true.
Proof.
  unfold live_listeners. rewrite list_elem_of_omap. split.
  - intros ([n b]&Hin&Hb). cbn in Hb. destruct b; [|done]. injection Hb as ->. by apply elem_of_map_to_list.
  - intros Hn. exists (name, true). split; [by apply elem_of_map_to_list|done].
Qed.
Lemma live_listeners_nodup h : NoDup (live_listeners h).
Proof.
  unfold live_listeners. pose proof (NoDup_fst_map_to_list (hb_listeners h)) as Hnd. induction (map_to_list (hb_listeners h)) as [|[n b] l IH]; [constructor|].
  cbn in Hnd. apply NoDup_cons in Hnd as [Hn Hl]. cbn. destruct b; [|by apply IH]. constructor; [|by apply IH].
  rewrite list_elem_of_omap. intros ([n' b']&Hin&Hb). cbn in Hb. destruct b'; [|done]. injection Hb as ->. apply Hn. apply list_elem_of_fmap. by exists (n, true).
Qed.
(** The sampler, which goes through the totals, and the snapshot, which goes
    through the listeners, see the same pairs. *)
Lemma live_totals h : hub_wf h →
  filter (λ p, hb_listeners h !! p.1 = Some true) (map_to_list (hb_totals h)) ≡ₚ map (λ name, (name, totals_of h name)) (live_listeners h).
Proof.
  intros [Hd _]. apply NoDup_Permutation.
  - apply NoDup_filter, NoDup_map_to_list.
  - apply NoDup_fmap; [by intros a b [= ->]|apply live_listeners_nodup].
  - intros [name t]. rewrite list_elem_of_filter, elem_of_map_to_list. cbn [fst]. rewrite list_elem_of_In, in_map_iff. split.
    + intros [Hl Ht]. exists name. unfold totals_of. rewrite Ht. split; [done|]. apply list_elem_of_In. by apply live_listeners_spec.
    + intros (n&[= -> <-]&Hin). apply list_elem_of_In, live_listeners_spec in Hin. split; [done|].
      assert (name ∈ dom (hb_totals h)) as [t Ht]%elem_of_dom by (apply Hd; by eapply elem_of_dom_2). unfold totals_of. by rewrite Ht.
Qed.

Lemma count_connections_spec is_ name : default 0 (count_connections is_ !! name) = Z.of_nat (length (List.filter (λ i, eqb_bytes (it_listener i) name) is_)).
Proof.
  unfold count_connections. assert (∀ m : gmap bytes Z, default 0 (foldl (λ counts i, <[it_listener i := default 0 (counts !! it_listener i) + 1]> counts) m is_ !! name)
    = default 0 (m !! name) + Z.of_nat (length (List.filter (λ i, eqb_bytes (it_listener i) name) is_))) as Hg; [|by rewrite Hg, lookup_empty].
  induction is_ as [|i is_ IH]; intros m; cbn [foldl List.filter]; [cbn; lia|]. rewrite IH. destruct (eqb_bytes (it_listener i) name) eqn:E.
  - apply eqb_bytes_spec in E as ->. rewrite lookup_insert_eq. cbn [default length]. cbn. lia.
  - rewrite lookup_insert_ne; [lia|]. intros Heq. rewrite Heq, (proj2 (eqb_bytes_spec name name) eq_refl) in E. done.
Qed.
Lemma active_list_perm t : get_active_list t ≡ₚ map (λ p, item_of p.1 p.2) (map_to_list t).
Proof. apply merge_sort_Permutation. Qed.
Lemma active_list_count t name : default 0 (count_connections (get_active_list t) !! name) = listener_count name t.
Proof.
  rewrite count_connections_spec. unfold listener_count. rewrite (filter_length_perm _ _ _ (active_list_perm t)).
  f_equal. unfold of_listener. induction (map_to_list t) as [|[id c] l IH]; [done|]. cbn in *.
  destruct (eqb_bytes (a_listener c) name); cbn; [f_equal|]; exact IH.
Qed.
Lemma active_list_length t : Z.of_nat (length (get_active_list t)) = total_count t.
Proof. unfold total_count. rewrite (Permutation_length (active_list_perm t)). by rewrite length_map. Qed.

(** ** What the views are told *)

(** A figure, without the flag that tells a snapshot from a delta. *)
Definition figure (e : HubEvent) : option HubEvent :=
  match e with
  | CountChanged k was now _ => Some (CountChanged k was now false)
  | ListenerTransferred k u d _ => Some (ListenerTransferred k u d false)
  | GlobalTransfer k u d _ => Some (GlobalTransfer k u d false)
  | _ => None
  end.
Definition on_topic (topic : Topic) (sent : list (Topic * HubEvent)) : list HubEvent :=
  omap (λ p, if bool_decide (p.1 = topic) then Some p.2 else None) sent.

Lemma on_topic_elem topic sent e : e ∈ on_topic topic sent ↔ (topic, e) ∈ sent.
Proof.
  unfold on_topic. rewrite list_elem_of_omap. split.
  - intros ([tp x]&Hin&Hb). cbn in Hb. case_bool_decide; [|done]. by simplify_eq.
  - intros Hin. exists (topic, e). split; [done|]. cbn. by rewrite bool_decide_eq_true_2.
Qed.

(** The figures of a moment: every live listener's number of connections and
    transfer totals, and the roll-ups. *)
Definition true_figure (t : Tracker) (h : Hub) (e : HubEvent) : Prop :=
  (∃ name, hb_listeners h !! name = Some true ∧ e = CountChanged name (listener_count name t) (listener_count name t) false)
  ∨ (∃ name, hb_listeners h !! name = Some true ∧ e = ListenerTransferred name (totals_of h name).1 (totals_of h name).2 false)
  ∨ e = CountChanged GLOBAL_KEY (total_count t) (total_count t) false
  ∨ e = GlobalTransfer GLOBAL_KEY (Z.min u64_max (sum_of fst (map (totals_of h) (live_listeners h))))
                                  (Z.min u64_max (sum_of snd (map (totals_of h) (live_listeners h)))) false.

Lemma totals_nonneg h names : hub_wf h → Forall (λ t, 0 ≤ t.1 ∧ 0 ≤ t.2) (map (totals_of h) names).
Proof.
  intros [_ Ht]. apply Forall_fmap, Forall_forall. intros n _. unfold compose, totals_of. destruct (hb_totals h !! n) as [p|] eqn:E; [by apply (Ht n)|done].
Qed.
(** Membership in a list built per element. *)
Lemma elem_of_concat_map {A B} (f : A → list B) l x : x ∈ concat (map f l) ↔ ∃ y, y ∈ l ∧ x ∈ f y.
Proof.
  rewrite list_elem_of_In, in_concat. split.
  - intros (fy&Hfy&Hx). apply in_map_iff in Hfy as (y&<-&Hy). exists y. by rewrite !list_elem_of_In.
  - intros (y&Hy&Hx). exists (f y). split; [apply in_map, list_elem_of_In, Hy|by apply list_elem_of_In].
Qed.
Lemma snapshot_figures t h e : hub_wf h → e ∈ omap figure (snapshot_global t h) ↔ true_figure t h e.
Proof.
  intros Hwf. unfold snapshot_global, true_figure. rewrite snapshot_fold. rewrite add_totals_sum; [|by apply totals_nonneg|done|done]. cbn [fst snd].
  rewrite active_list_length, !Z.add_0_l, list_elem_of_omap. split.
  - intros (x&Hx&Hf). rewrite !elem_of_app, elem_of_concat_map, list_elem_of_singleton, !elem_of_cons in Hx.
    destruct Hx as [[->|(name&Hin%live_listeners_spec&Hx)]|[->|[->|[]%elem_of_nil]]]; [done| |injection Hf as <-; auto..].
    rewrite active_list_count, !elem_of_cons in Hx. destruct Hx as [->|[->|[]%elem_of_nil]]; injection Hf as <-; eauto.
  - intros [(name&Hn&->)|[(name&Hn&->)|[->| ->]]]; apply live_listeners_spec in Hn || idtac; eexists; (split; [rewrite !elem_of_app, elem_of_concat_map|]).
    + left. right. exists name. rewrite active_list_count. split; [done|left].
    + done.
    + left. right. exists name. split; [done|right; left].
    + done.
    + right. left.
    + done.
    + right. right. left.
    + done.
Qed.
Lemma sampler_figures t h e : hub_wf h → e ∈ omap figure (on_topic TopicGlobal (sampler_tick t h)) ↔ true_figure t h e.
Proof.
  intros Hwf. unfold sampler_tick, true_figure. rewrite sampler_fold. pose proof (live_totals h Hwf) as Hlive. set (live := filter _ (map_to_list (hb_totals h))) in *.
  assert (map snd live ≡ₚ map (totals_of h) (live_listeners h)) as Hsnd. { rewrite Hlive. by rewrite map_map. }
  assert (∀ p, p ∈ live ↔ ∃ name, hb_listeners h !! name = Some true ∧ p = (name, totals_of h name)) as Hmem.
  { intros p. rewrite Hlive, list_elem_of_In, in_map_iff. setoid_rewrite <- list_elem_of_In. setoid_rewrite live_listeners_spec. naive_solver. }
  rewrite add_totals_sum; [|rewrite Hsnd; by apply totals_nonneg|done|done]. cbn [fst snd]. rewrite active_list_length, !Z.add_0_l, !(sum_of_perm _ _ _ Hsnd).
  clearbody live. clear Hlive Hsnd. rewrite list_elem_of_omap. split.
  - intros (x&Hx&Hf). rewrite on_topic_elem, !elem_of_app, elem_of_concat_map, !list_elem_of_singleton, !list_elem_of_fmap in Hx.
    destruct Hx as [(i&[=]&_)|[(name&[= ->]&Hin%live_listeners_spec)|[[= ->]|[Hx|[= ->]]]]].
    + injection Hf as <-. rewrite active_list_count. eauto.
    + injection Hf as <-. auto.
    + destruct Hx as [Hx|(p&(name&Hn&->)%Hmem&Hx)]; [by apply elem_of_nil in Hx|]. rewrite !elem_of_cons in Hx. destruct Hx as [[= ->]|[[=]|[]%elem_of_nil]]. injection Hf as <-. eauto.
    + injection Hf as <-. auto.
  - intros [(name&Hn&->)|[(name&Hn&->)|[->| ->]]]; eexists;
      (split; [rewrite on_topic_elem, !elem_of_app, elem_of_concat_map, !list_elem_of_singleton, !list_elem_of_fmap|]).
    + right. left. exists name. rewrite active_list_count. split; [reflexivity|by apply live_listeners_spec].
    + done.
    + right. right. right. left. right. exists (name, totals_of h name). split; [apply Hmem; eauto|left].
    + done.
    + right. right. left. reflexivity.
    + done.
    + right. right. right. right. reflexivity.
    + done.
Qed.

(** The overview never contradicts itself: in every state the hub can
    reach, what the sampler publishes on the global topic and what a freshly
    opened overview gets as its snapshot are the same figures, and they are
    the true ones: for every live listener the number of its connections in
    the table and its transfer totals, and the roll-ups, with saturated sums
    over the live listeners. *)
Theorem overview_agrees t h e :
  rtc hub_step hub_empty h →
  (e ∈ omap figure (on_topic TopicGlobal (sampler_tick t h)) ↔ true_figure t h e)
  ∧ (e ∈ omap figure (snapshot_global t h) ↔ true_figure t h e).
Proof. intros Hwf%hub_run_wf. split; [by apply sampler_figures|by apply snapshot_figures]. Qed.

(** A live view of one listener is told only about that listener, and the
    reconciler sends it the exact list of the listener's connections. *)
Definition about (l : bytes) (e : HubEvent) : Prop :=
  match e with
  | CountChanged _ _ _ _ | GlobalTransfer _ _ _ _ => False
  | ListenerTransferred k _ _ _ => k = l
  | BytesTransferred l' _ _ _ => l' = l
  | ConnectionsSnapshot l' items => l' = Some l ∧ Forall (λ i, it_listener i = l) items
  end.
Lemma connections_event_about l items : about l (connections_event (Some l) items).
Proof.
  split; [done|]. apply Forall_forall. intros i. rewrite list_elem_of_In, filter_In. intros [_ Hi]. by apply eqb_bytes_spec in Hi.
Qed.
Theorem live_view_isolated t h l e : (TopicListener l, e) ∈ sampler_tick t h ++ reconciler_tick t h → about l e.
Proof.
  unfold sampler_tick, reconciler_tick. rewrite sampler_fold. rewrite !elem_of_app, elem_of_concat_map, !list_elem_of_singleton, !list_elem_of_fmap.
  intros [[(i&[= -> ->]&_)|[(name&[=]&_)|[[=]|[Hx|[=]]]]]|[[=]|(name&[= -> ->]&_)%list_elem_of_fmap]%elem_of_cons]; [done| |apply connections_event_about].
  destruct Hx as [Hx|(p&_&Hx)]; [by apply elem_of_nil in Hx|]. rewrite !elem_of_cons in Hx. destruct Hx as [[=]|[[= -> ->]|[]%elem_of_nil]]. done.
Qed.
Lemma reconciler_complete t h l : hb_listeners h !! l = Some true →
  ∃ items, (TopicListener l, ConnectionsSnapshot (Some l) items) ∈ reconciler_tick t h
    ∧ ∀ id c, t !! id = Some c → a_listener c = l → item_of id c ∈ items.
Proof.
  intros Hl. eexists. split; [right; apply list_elem_of_fmap; exists l; split; [reflexivity|by apply live_listeners_spec]|].
  intros id c Hc <-. apply list_elem_of_In, filter_In. split; [|by apply eqb_bytes_spec]. apply list_elem_of_In. rewrite active_list_perm.
  apply list_elem_of_fmap. exists (id, c). split; [done|]. by apply elem_of_map_to_list.
Qed.

(** Listener names are not checked against the reserved key: a listener
    called [__global__] is told apart from the roll-up by nothing. *)
Lemma reserved_key_collides t h : hub_wf h → hb_listeners h !! GLOBAL_KEY = Some true → listener_count GLOBAL_KEY t ≠ total_count t →
  ∃ n m, n ≠ m ∧ CountChanged GLOBAL_KEY n n false ∈ omap figure (snapshot_global t h) ∧ CountChanged GLOBAL_KEY m m false ∈ omap figure (snapshot_global t h).
Proof.
  intros Hwf Hl Hne. exists (listener_count GLOBAL_KEY t), (total_count t). split; [done|]. rewrite !snapshot_figures by done. unfold true_figure. split; [left; eauto|auto].
Qed.
End hub.

Module HubExample.
Definition hub : Hub := totals_add_uploaded (lit "web") 12 (register_listener (lit "web") hub_empty).
Definition table : Tracker := (tracker_put 7 1 (lit "web") (MkSocketAddr (V4 [10; 0; 0; 9]) 5000) ∅).1.
Lemma overview_agrees_witness :
  CountChanged (lit "web") 1 1 false ∈ omap figure (on_topic TopicGlobal (sampler_tick show_dec table hub))
  ∧ ListenerTransferred (lit "web") 12 0 false ∈ omap figure (snapshot_global show_dec table hub).
Proof.
  assert (rtc hub_step hub_empty hub) as Hrun by (eapply rtc_l; [apply HubRegister|]; apply rtc_once, HubUploaded). split.
  - apply (proj1 (overview_agrees show_dec table hub (CountChanged (lit "web") 1 1 false) Hrun)). left. exists (lit "web"). split; vm_compute; reflexivity.
  - apply (proj2 (overview_agrees show_dec table hub (ListenerTransferred (lit "web") 12 0 false) Hrun)). right. left. exists (lit "web"). split; vm_compute; reflexivity.
Defined.
End HubExample.
