(* ===== verification/AcmeDns.v ===== *)
(** * DNS names and the public DNS prerequisite (src/store/mod.rs, src/acme/dns.rs)

    [normalize_domain] of the store, and the check that a domain's public
    addresses are this host's before an order is placed.  The DNS client
    (hickory) is the parameter [lookup_ip]; a [BTreeSet] of addresses is the
    list of its elements. *)

From S2P Require Import Prelude RustStd Net.
Open Scope Z_scope.

(** ** Names *)

Definition label_ok (label : bytes) : bool :=
  negb (bool_decide (label = []) || (63 <? Z.of_nat (length label))).

(** [store::normalize_domain] *)
Definition normalize_domain (domain : bytes) : option bytes :=
  let domain := to_ascii_lowercase (trim_end_char DOT (trim domain)) in
  if bool_decide (domain = []) || (253 <? Z.of_nat (length domain)) || contains SLASH domain || contains 0 domain
     || negb (forallb label_ok (split_char DOT domain))
  then None else Some domain.

Definition parse_resolver (value : bytes) : option (IpAddr * Z) :=
  let value := trim value in
  match parse_ip value with
  | Some ip => Some (ip, 53)
  | None => a ← parse_sockaddr value; Some (sa_ip a, sa_port a)
  end.

(** ** The prerequisite *)

Record ControlPlaneConfig := MkControlPlane {
  cp_hostname : bytes;
  self_ips : list bytes;
  public_resolvers : list bytes;
  require_all_resolvers : bool;
  cp_provider_id : bytes;
}.

Record ResolverResult := MkResolverResult { rr_resolver : bytes; rr_addresses : option (list IpAddr) }.

Record DnsDiagnostic := MkDiagnostic {
  dd_certificate_id : bytes;
  dd_domain : bytes;
  dd_resolver : bytes;
  dd_addresses : list bytes;
  dd_passed : bool;
  dd_error : bool;
}.

Inductive dns_error := NoResolver | BadSelfIp | NoSelfIp | BadDomain | PrerequisiteFailed (domain : bytes).

Definition result_passes (selves : list IpAddr) (r : ResolverResult) : bool :=
  match rr_addresses r with
  | Some addresses => negb (bool_decide (addresses = [])) && forallb (λ a, bool_decide (a ∈ selves)) addresses
  | None => false
  end.

Definition evaluate_domain (selves : list IpAddr) (results : list ResolverResult) (require_all : bool) : bool :=
  let passes := map (result_passes selves) results in
  if require_all then forallb id passes else existsb id passes.

(** [self_ips.iter().map(parse).collect::<Result<BTreeSet<_>, _>>()] *)
Fixpoint parse_ips (l : list bytes) : option (list IpAddr) :=
  match l with
  | [] => Some []
  | s :: l => ip ← parse_ip s; ips ← parse_ips l; Some (ip :: ips)
  end.

Section dns.
(** hickory: the addresses a resolver reports for a name, or a failure. *)
Context (lookup_ip : IpAddr * Z → bytes → option (list IpAddr)).

Definition lookup (resolver domain : bytes) : ResolverResult :=
  MkResolverResult resolver (a ← parse_resolver resolver; lookup_ip a (domain ++ [DOT])).

Definition diagnose (certificate_id domain : bytes) (selves : list IpAddr) (r : ResolverResult) : DnsDiagnostic :=
  let addresses := match rr_addresses r with Some v => map show_ip v | None => [] end in
  let failed := bool_decide (rr_addresses r = None) in
  MkDiagnostic certificate_id domain (rr_resolver r) addresses
    (negb failed && negb (bool_decide (addresses = []))
     && forallb (λ s, match parse_ip s with Some ip => bool_decide (ip ∈ selves) | None => false end) addresses)
    failed.

(** The loop over the domains; the diagnostics are what is saved, also when a
    domain fails. *)
Fixpoint verify_domains (certificate_id : bytes) (control : ControlPlaneConfig) (selves : list IpAddr)
  (diagnostics : list DnsDiagnostic) (domains : list bytes) : result dns_error () * option (list DnsDiagnostic) :=
  match domains with
  | [] => (Ok (), Some diagnostics)
  | domain :: domains =>
      match normalize_domain domain with
      | None => (Err BadDomain, None)
      | Some domain =>
          let results := map (λ r, lookup r domain) (public_resolvers control) in
          let diagnostics := diagnostics ++ map (diagnose certificate_id domain selves) results in
          if evaluate_domain selves results (require_all_resolvers control)
          then verify_domains certificate_id control selves diagnostics domains
          else (Err (PrerequisiteFailed domain), Some diagnostics)
      end
  end.

Definition verify_inner (certificate_id : bytes) (domains : list bytes) (control : ControlPlaneConfig)
  : result dns_error () * option (list DnsDiagnostic) :=
  match public_resolvers control with
  | [] => (Err NoResolver, None)
  | _ =>
      match parse_ips (self_ips control) with
      | None => (Err BadSelfIp, None)
      | Some [] => (Err NoSelfIp, None)
      | Some selves => verify_domains certificate_id control selves [] domains
      end
  end.

(** ** Lemmas *)

Lemma result_passes_spec selves r :
  result_passes selves r = true ↔
  ∃ addresses, rr_addresses r = Some addresses ∧ addresses ≠ [] ∧ Forall (λ a, a ∈ selves) addresses.
Proof.
  unfold result_passes. destruct (rr_addresses r) as [l|]; [|split; [done|by intros (? & ? & _)]].
  rewrite andb_true_iff, negb_true_iff, bool_decide_eq_false, forallb_forall. split.
  - intros [Hne Hall]. exists l. split_and!; [done|done|]. rewrite Forall_forall. intros a Ha.
    apply (bool_decide_unpack _). apply Is_true_true, Hall. by apply list_elem_of_In.
  - intros (? & [= <-] & Hne & Hall). split; [done|]. intros a Ha. apply bool_decide_eq_true.
    rewrite Forall_forall in Hall. apply Hall. by apply list_elem_of_In.
Qed.

Lemma evaluate_domain_spec selves results require_all :
  evaluate_domain selves results require_all = true ↔
  if require_all then Forall (λ r, result_passes selves r = true) results
  else Exists (λ r, result_passes selves r = true) results.
Proof.
  unfold evaluate_domain. destruct require_all.
  - rewrite forallb_forall, Forall_forall. split.
    + intros H r Hr. apply (H (result_passes selves r)). apply in_map. by apply list_elem_of_In.
    + intros H b (r & <- & Hr)%in_map_iff. apply H. by apply list_elem_of_In.
  - rewrite existsb_exists, Exists_exists. split.
    + intros (b & (r & <- & Hr)%in_map_iff & Hb). exists r. split; [by apply list_elem_of_In|done].
    + intros (r & Hr & Hb). exists true. split; [|done]. apply in_map_iff. exists r.
      split; [done|by apply list_elem_of_In].
Qed.

Lemma verify_domains_ok certificate_id control selves diagnostics domains saved :
  verify_domains certificate_id control selves diagnostics domains = (Ok (), saved) →
  Forall (λ d, ∃ n, normalize_domain d = Some n ∧
    evaluate_domain selves (map (λ r, lookup r n) (public_resolvers control)) (require_all_resolvers control) = true) domains.
Proof.
  revert diagnostics; induction domains as [|d domains IH]; intros diagnostics; cbn [verify_domains]; [constructor|].
  destruct (normalize_domain d) as [n|] eqn:Hn; [|done].
  destruct (evaluate_domain _ _ _) eqn:He; [|done]. intros H. constructor; [eauto|by eapply IH].
Qed.

(** No certificate is ordered for a name that does not point here: when
    the prerequisite passes there is at least one resolver and one own
    address, and every domain was answered - by every resolver when all are
    required, by at least one otherwise - with a non-empty set of addresses
    all of which are this host's. *)
Theorem verify_points_here certificate_id domains control saved :
  verify_inner certificate_id domains control = (Ok (), saved) →
  ∃ selves, parse_ips (self_ips control) = Some selves ∧ selves ≠ [] ∧ public_resolvers control ≠ [] ∧
    Forall (λ d, ∃ n, normalize_domain d = Some n ∧
      let points_here r := ∃ addresses, rr_addresses (lookup r n) = Some addresses ∧
        addresses ≠ [] ∧ Forall (λ a, a ∈ selves) addresses in
      if require_all_resolvers control then Forall points_here (public_resolvers control)
      else Exists points_here (public_resolvers control)) domains.
Proof.
  unfold verify_inner. destruct (public_resolvers control) as [|r rs] eqn:Hr; [done|].
  destruct (parse_ips (self_ips control)) as [[|s selves]|] eqn:Hs; [done| |done].
  intros H%verify_domains_ok. exists (s :: selves). split_and!; [done|done|done|].
  eapply Forall_impl; [exact H|]. intros d (n & Hn & He). exists n. split; [done|]. cbn zeta.
  rewrite Hr in He. apply evaluate_domain_spec in He. destruct (require_all_resolvers control).
  - rewrite Forall_map in He. eapply Forall_impl; [exact He|]. intros r'. by rewrite result_passes_spec.
  - apply Exists_exists in He as (x & Hx & Hp). apply list_elem_of_fmap in Hx as (r' & -> & Hr').
    apply Exists_exists. exists r'. split; [done|]. by apply result_passes_spec.
Qed.

(** The stored diagnostics tell the truth: a resolver's record says
    "passed" exactly when that resolver's answer satisfies the prerequisite,
    although it is computed from the printed addresses. *)
Theorem diagnostic_matches_evaluation certificate_id domain selves r :
  match rr_addresses r with Some l => Forall ip_wf l | None => True end →
  dd_passed (diagnose certificate_id domain selves r) = result_passes selves r.
Proof.
  unfold diagnose, result_passes. cbn [dd_passed]. destruct (rr_addresses r) as [l|]; [|done]. intros Hwf.
  rewrite bool_decide_false by done. cbn [negb andb]. f_equal.
  - f_equal. apply bool_decide_ext. destruct l; cbn; split; done.
  - induction Hwf as [|a l Ha Hl IH]; [done|]. cbn [map forallb]. by rewrite parse_ip_show, IH.
Qed.

End dns.

(** ** Names, again *)

Lemma forallb_true_Forall {A} (f : A → bool) l : forallb f l = true ↔ Forall (λ x, f x = true) l.
Proof. rewrite forallb_forall, Forall_forall. split; intros H x Hx; apply H; by apply list_elem_of_In. Qed.

(** A normalised name is a usable DNS name in lower case: at most 253
    bytes, made of non-empty labels of at most 63 bytes, without '/' and NUL. *)
Theorem normalize_domain_wf domain n :
  normalize_domain domain = Some n →
  to_ascii_lowercase n = n ∧ Z.of_nat (length n) ≤ 253 ∧ (SLASH ∉ n) ∧ (0 ∉ n) ∧
  ∃ labels, n = join [DOT] labels ∧ labels ≠ [] ∧
    Forall (λ l, l ≠ [] ∧ Z.of_nat (length l) ≤ 63 ∧ DOT ∉ l) labels.
Proof.
  unfold normalize_domain. set (d := to_ascii_lowercase (trim_end_char DOT (trim domain))).
  destruct (_ || _) eqn:E; [done|]. intros [= <-].
  repeat (apply orb_false_iff in E as [E ?]). bool_prop.
  split_and!.
  - apply to_ascii_lowercase_idem.
  - lia.
  - by apply contains_false.
  - by apply contains_false.
  - exists (split_char DOT d). split_and!.
    + symmetry. apply join_split_by. intros x. rewrite Z.eqb_eq. split; congruence.
    + apply split_by_nonempty.
    + match goal with Hl : forallb _ _ = true |- _ => apply forallb_true_Forall in Hl; revert Hl end.
      rewrite !Forall_forall. intros Hl l Hin. specialize (Hl l Hin). unfold label_ok in Hl.
      apply negb_true_iff, orb_false_iff in Hl as [Hne Hlen]. bool_prop.
      split_and!; [done|lia|]. intros Hdot. apply split_by_pieces in Hin. rewrite Forall_forall in Hin.
      by specialize (Hin _ Hdot).
Qed.

Lemma normalize_domain_wf_witness :
  normalize_domain (lit " Www.Example.COM. ") = Some (lit "www.example.com") ∧
  Z.of_nat (length (lit "www.example.com")) ≤ 253.
Proof.
  split; [vm_compute; reflexivity|].
  refine (proj1 (proj2 (normalize_domain_wf (lit " Www.Example.COM. ") (lit "www.example.com") _))).
  vm_compute. reflexivity.
Defined.

Definition sample_control : ControlPlaneConfig :=
  MkControlPlane [] [lit "192.0.2.1"] [lit "1.1.1.1"; lit "8.8.8.8:53"] true [].
Definition sample_lookup (r : IpAddr * Z) (d : bytes) : option (list IpAddr) := Some [V4 [192; 0; 2; 1]].

Lemma verify_points_here_witness :
  ∃ selves, parse_ips (self_ips sample_control) = Some selves ∧ selves ≠ [] ∧ public_resolvers sample_control ≠ [] ∧
    Forall (λ d, ∃ n, normalize_domain d = Some n ∧
      let points_here r := ∃ addresses, rr_addresses (lookup sample_lookup r n) = Some addresses ∧
        addresses ≠ [] ∧ Forall (λ a, a ∈ selves) addresses in
      if require_all_resolvers sample_control then Forall points_here (public_resolvers sample_control)
      else Exists points_here (public_resolvers sample_control)) [lit "example.com"].
Proof.
  apply (verify_points_here sample_lookup (lit "c") [lit "example.com"] sample_control
    (verify_inner sample_lookup (lit "c") [lit "example.com"] sample_control).2).
  vm_compute. reflexivity.
Defined.

Lemma diagnostic_matches_evaluation_witness :
  dd_passed (diagnose (lit "c") (lit "example.com") [V4 [192; 0; 2; 1]]
    (MkResolverResult (lit "1.1.1.1") (Some [V4 [192; 0; 2; 1]]))) = true.
Proof.
  rewrite diagnostic_matches_evaluation; [vm_compute; reflexivity|].
  constructor; [|constructor]. split; [done|]. repeat constructor; lia.
Defined.
