(* ===== verification/RuntimeConfig.v ===== *)
(** * The runtime configuration (src/runtime_config.rs)

    The data model, host and path routing, validation and the migration of
    the legacy configuration.  Regex matching, [fs::canonicalize] and
    [Path::is_dir] are parameters.  [HashMap] and [HashSet] values are lists
    in iteration order; scopes of error messages are not modelled. *)

From S2P Require Import Prelude RustStd Net HostUtil BindAddr ProxyProtocol Config AcmeDns.
Open Scope Z_scope.

Definition DEFAULT_LISTENER_NAME : bytes := lit "__default_https__".

(** ** Data *)

Inductive HttpBehavior := BehaviorReverseProxy | BehaviorRedirectHttps.
Inductive UpstreamTransport := Plaintext | Tls.
Inductive HttpLoadBalancing := RoundRobin | ClientIpHash.
Inductive CertificateFallbackPolicy := LocalCa | FallbackReject.

#[global] Instance HttpBehavior_eq_dec : EqDecision HttpBehavior.
Proof. solve_decision. Defined.
#[global] Instance UpstreamTransport_eq_dec : EqDecision UpstreamTransport.
Proof. solve_decision. Defined.

Record HttpRedirectConfig := MkRedirect {
  redirect_hostname : option bytes;
  redirect_port : option Z;
  redirect_status : Z;
  preserve_host : bool;
}.
Definition default_redirect_status : Z := 308.

Record HttpBasicAuthUser := MkUser { username : bytes; password : bytes }.
Record HttpBasicAuth := MkBasicAuth { auth_enabled : bool; users : list HttpBasicAuthUser }.
Record HttpBackend := MkBackend {
  address : bytes;
  transport : UpstreamTransport;
  tls_server_name : option bytes;
}.

(** [HttpRouteAction], [HttpPathRoute] and [HttpPathAction] refer to each
    other. *)
Inductive HttpRouteAction := MkRouteAction
  (behavior : HttpBehavior) (target_port : Z) (target : option bytes) (upstream : UpstreamTransport)
  (backends : list HttpBackend) (load_balancing : HttpLoadBalancing) (proxy_protocol : ProxyProtocol.ProxyProtocol)
  (host_header : option bytes) (paths : list HttpPathRoute) (redirect : option HttpRedirectConfig)
with HttpPathRoute := MkPathRoute
  (prefix : bytes) (strip_prefix : bool) (basic_auth : HttpBasicAuth) (action : HttpPathAction)
with HttpPathAction :=
| PathReverseProxy (action : HttpRouteAction)
| PathStaticFiles (document_root : bytes) (index : option bytes) (directory_listing : bool).

Definition behavior (a : HttpRouteAction) := let '(MkRouteAction b _ _ _ _ _ _ _ _ _) := a in b.
Definition ra_target_port (a : HttpRouteAction) := let '(MkRouteAction _ p _ _ _ _ _ _ _ _) := a in p.
Definition ra_target (a : HttpRouteAction) := let '(MkRouteAction _ _ t _ _ _ _ _ _ _) := a in t.
Definition ra_upstream (a : HttpRouteAction) := let '(MkRouteAction _ _ _ u _ _ _ _ _ _) := a in u.
Definition backends (a : HttpRouteAction) := let '(MkRouteAction _ _ _ _ b _ _ _ _ _) := a in b.
Definition ra_load_balancing (a : HttpRouteAction) := let '(MkRouteAction _ _ _ _ _ l _ _ _ _) := a in l.
Definition ra_proxy_protocol (a : HttpRouteAction) := let '(MkRouteAction _ _ _ _ _ _ p _ _ _) := a in p.
Definition host_header (a : HttpRouteAction) := let '(MkRouteAction _ _ _ _ _ _ _ h _ _) := a in h.
Definition paths (a : HttpRouteAction) := let '(MkRouteAction _ _ _ _ _ _ _ _ p _) := a in p.
Definition redirect (a : HttpRouteAction) := let '(MkRouteAction _ _ _ _ _ _ _ _ _ r) := a in r.
Definition prefix (r : HttpPathRoute) := let '(MkPathRoute p _ _ _) := r in p.
Definition strip_prefix_flag (r : HttpPathRoute) := let '(MkPathRoute _ s _ _) := r in s.
Definition basic_auth (r : HttpPathRoute) := let '(MkPathRoute _ _ b _) := r in b.
Definition path_action (r : HttpPathRoute) := let '(MkPathRoute _ _ _ a) := r in a.

Definition default_http_target_port : Z := 80.
Definition default_target_port : Z := 443.
Definition default_route_action : HttpRouteAction :=
  MkRouteAction BehaviorReverseProxy default_http_target_port None Plaintext [] RoundRobin
    ProxyProtocol.PNone None [] None.

Inductive TlsRouteAction :=
| Passthrough (target_port : Z) (target : option bytes) (load_balancing : HttpLoadBalancing)
    (proxy_protocol : ProxyProtocol.ProxyProtocol)
| Terminate (target_port : Z) (target : option bytes) (upstream : UpstreamTransport)
    (load_balancing : HttpLoadBalancing) (proxy_protocol : ProxyProtocol.ProxyProtocol)
| TlsReverseProxy (action : HttpRouteAction)
| Reject.

Definition default_tls_action : TlsRouteAction :=
  Passthrough default_target_port None RoundRobin ProxyProtocol.PNone.

Definition tls_target_port (a : TlsRouteAction) : option Z :=
  match a with
  | Passthrough p _ _ _ | Terminate p _ _ _ _ => Some p
  | TlsReverseProxy _ | Reject => None
  end.

Record HostMatcher := MkMatcher { exact : list bytes; suffix : list bytes; patterns : list Regex }.

Record TlsHostRoute := MkTlsRoute { tls_name : bytes; tls_matcher : HostMatcher; tls_action : TlsRouteAction }.
Record HttpHostRoute := MkHttpRoute { http_name : bytes; http_matcher : HostMatcher; http_action : HttpRouteAction }.

Record OrdinaryTlsConfig := MkTlsConfig {
  routes : list TlsHostRoute;
  unknown_host_policy : Policy;
  unknown_host_rules : Rules;
  default_route : TlsRouteAction;
  max_idle_time_ms : option Z;
  speed_limit : option f64;
}.

Record HostRoutedTlsListenerConfig := MkTlsListener { tl_bind : bytes; routing : OrdinaryTlsConfig }.

Record HostRoutedHttpListenerConfig := MkHttpListener {
  hl_bind : bytes;
  redirect_https_port : Z;
  hl_routes : list HttpHostRoute;
  hl_unknown_host_policy : Policy;
  hl_unknown_host_rules : Rules;
  hl_default_route : HttpRouteAction;
  hl_max_idle_time_ms : option Z;
  hl_speed_limit : option f64;
}.

Record RawForwardListenerConfig := MkRawForward {
  rf_bind : bytes;
  rf_targets : bytes;
  rf_upstream_tls : bool;
  rf_load_balancing : HttpLoadBalancing;
  rf_proxy_protocol : ProxyProtocol.ProxyProtocol;
  rf_max_idle_time_ms : option Z;
  rf_speed_limit : option f64;
}.

Inductive AdditionalListenerConfig :=
| TlsListener (c : HostRoutedTlsListenerConfig)
| HttpListener (c : HostRoutedHttpListenerConfig)
| RedirectListener (c : HostRoutedHttpListenerConfig)
| ForwardListener (c : RawForwardListenerConfig).

Definition listener_bind (l : AdditionalListenerConfig) : bytes :=
  match l with
  | TlsListener c => tl_bind c
  | HttpListener c | RedirectListener c => hl_bind c
  | ForwardListener c => rf_bind c
  end.

Record DefaultListenerConfig := MkDefaultListener { dl_bind : bytes; ordinary_traffic : OrdinaryTlsConfig }.

Record AcmeSettings := MkAcmeSettings {
  acme_enabled : bool;
  renew_before_days : Z;
  scan_interval_hours : Z;
  challenge_ttl_seconds : Z;
  dns_check_script : bytes;
  cache_failure_time_secs : Z;
}.

Record RuntimeConfig := MkRuntimeConfig {
  default_listener : DefaultListenerConfig;
  additional_listeners : list (bytes * AdditionalListenerConfig);
  disabled_listeners : list bytes;
  dns_overrides : DnsConfig;
  accounting : option AccountingConfig;
  control_plane : ControlPlaneConfig;
  acme : AcmeSettings;
  certificate_fallback : CertificateFallbackPolicy;
}.

Definition empty_rules : Rules := MkRules [] [].
Definition default_tls_config : OrdinaryTlsConfig := MkTlsConfig [] ALLOW empty_rules default_tls_action None None.
Definition default_https_bind : bytes := lit "0.0.0.0:443".
Definition default_acme_settings : AcmeSettings := MkAcmeSettings true 15 12 600 [] 60.
(** [ControlPlaneConfig::default()]: the serde default resolvers apply to
    stored values only. *)
Definition default_control_plane : ControlPlaneConfig := MkControlPlane [] [] [] false [].
Definition default_runtime_config : RuntimeConfig :=
  MkRuntimeConfig (MkDefaultListener default_https_bind default_tls_config) [] [] (MkDns [] [] [])
    None default_control_plane default_acme_settings LocalCa.

(** ** Path routing *)

Definition path_prefix_matches (prefix path : bytes) : bool :=
  let prefix := trim_end_char SLASH prefix in
  bool_decide (prefix = []) || eqb_bytes path prefix
  || match RustStd.strip_prefix prefix path with Some rest => starts_with (lit "/") rest | None => false end.

Definition select_path (a : HttpRouteAction) (path : bytes) : option HttpPathRoute :=
  let path := nth 0 (split_chars [63; 35] path) path in
  max_by_key (λ r, Z.of_nat (length (trim_end_char SLASH (prefix r))))
    (List.filter (λ r, path_prefix_matches (prefix r) path) (paths a)).

(** ** Host routing *)

(** [(u8, usize)], compared lexicographically. *)
Definition score := (Z * Z)%type.
Definition score_gt (a b : score) : bool := (b.1 <? a.1) || ((a.1 =? b.1) && (b.2 <? a.2)).

Definition suffix_score (host entry : bytes) : option Z :=
  let suffix := trim_end_char DOT (trim_start_char DOT (trim entry)) in
  let k := (length host - length suffix)%nat in
  let one_label_deeper :=
    (length suffix <? length host)%nat
    && bool_decide (host !! (k - 1)%nat = Some DOT)
    && eq_ignore_ascii_case (drop k host) suffix
    && negb (contains DOT (take (k - 1) host)) in
  if eq_ignore_ascii_case host suffix || one_label_deeper then Some (Z.of_nat (length suffix)) else None.

Fixpoint max_score (l : list (option Z)) : option Z :=
  match l with
  | [] => None
  | o :: l =>
      match o, max_score l with
      | Some a, Some b => Some (Z.max a b)
      | Some a, None => Some a
      | None, r => r
      end
  end.

Section routing.
Context (is_match : Regex → bytes → bool).

Definition match_score (m : HostMatcher) (host : bytes) : option score :=
  let host := trim_end_char DOT host in
  if existsb (λ e, eq_ignore_ascii_case host (trim_end_char DOT e)) (exact m) then
    Some (3, Z.of_nat (length host))
  else match max_score (map (suffix_score host) (suffix m)) with
  | Some length => Some (2, length)
  | None => if existsb (λ p, is_match p host) (patterns m) then Some (1, 0) else None
  end.

Definition matcher_matches (m : HostMatcher) (host : bytes) : bool := bool_decide (is_Some (match_score m host)).

(** The loop keeps the best route so far. *)
Definition better {T} (matcher : T → HostMatcher) (host : bytes) (best : option (T * score)) (route : T)
  : option (T * score) :=
  match match_score (matcher route) host with
  | Some s =>
      match best with
      | None => Some (route, s)
      | Some (_, current) => if score_gt s current then Some (route, s) else best
      end
  | None => best
  end.

Definition best_host_route {T} (matcher : T → HostMatcher) (routes : list T) (host : bytes) : option T :=
  fst <$> foldl (better matcher host) None routes.

Definition admitted (policy : Policy) (rules : Rules) (host : bytes) : bool :=
  let matched := rules_match is_match rules host in
  match policy with ALLOW => matched | DENY => negb matched end.

(** [OrdinaryTlsConfig::select_route] *)
Definition select_tls_route (c : OrdinaryTlsConfig) (host : bytes) : option TlsRouteAction :=
  match best_host_route tls_matcher (routes c) host with
  | Some route => Some (tls_action route)
  | None =>
      if admitted (unknown_host_policy c) (unknown_host_rules c) host then Some (default_route c) else None
  end.

(** [HostRoutedHttpListenerConfig::select_route] *)
Definition select_http_route (c : HostRoutedHttpListenerConfig) (host : bytes) : option HttpRouteAction :=
  match best_host_route http_matcher (hl_routes c) host with
  | Some route => Some (http_action route)
  | None =>
      if admitted (hl_unknown_host_policy c) (hl_unknown_host_rules c) host
      then Some (hl_default_route c) else None
  end.

End routing.

Definition tls_routes_list_host_exactly (c : RuntimeConfig) (host : bytes) : bool :=
  let host := trim_end_char DOT host in
  let routings := ordinary_traffic (default_listener c) ::
    omap (λ '(name, l), match l with
                        | TlsListener t => if bool_decide (name ∈ disabled_listeners c) then None else Some (routing t)
                        | _ => None
                        end) (additional_listeners c) in
  existsb (λ e, eq_ignore_ascii_case host (trim_end_char DOT (trim e)))
    (routings ≫= λ r, routes r ≫= λ route, exact (tls_matcher route)).

(** ** Validation *)

Inductive config_error :=
| BadDefaultBind
| DefaultNotPort443
| ZeroTargetPort
| RedirectNotAllowed
| BadAccounting
| BadListenerBind
| ConflictsWithDefault
| ZeroRedirectPort
| RedirectNeedsHost
| RedirectExpected
| TargetsRequired
| BadControlHostname
| BadSelfIpText
| BadResolver
| BadChallengeTtl
| ZeroScanInterval
| BadRedirectStatus
| BadRedirectHostname
| BadBackend
| ZeroBackendPort
| BadPathPrefix
| DuplicatePathPrefix
| NoBasicAuthUsers
| BadUsername
| BadPassword
| DuplicateUsername
| BadDocumentRoot
| NotADirectory
| BadIndex.

Definition bind_uses_port_443 (bind : bytes) : bool :=
  match rsplit_once COLON bind with
  | Some (_, port) => bool_decide (parse_u16 port = Some 443)
  | None => false
  end.

Definition validate_backend (b : HttpBackend) : result config_error () :=
  match from_str (address b) with
  | Err _ => Err BadBackend
  | Ok parsed => guard! negb (hp_port parsed =? 0) else ZeroBackendPort; Ok ()
  end.

(** The loop over the users with the set of names seen so far. *)
Fixpoint validate_users (seen : list bytes) (us : list HttpBasicAuthUser) : result config_error () :=
  match us with
  | [] => Ok ()
  | u :: us =>
      guard! negb (bool_decide (username u = []) || contains COLON (username u) || contains_any [CR; LF] (username u))
        else BadUsername;
      guard! negb (contains_any [CR; LF] (password u)) else BadPassword;
      guard! negb (bool_decide (username u ∈ seen)) else DuplicateUsername;
      validate_users (username u :: seen) us
  end.

Definition validate_basic_auth (b : HttpBasicAuth) : result config_error () :=
  if auth_enabled b then
    guard! negb (bool_decide (length (users b) = 0%nat)) else NoBasicAuthUsers;
    validate_users [] (users b)
  else Ok ().

Definition normalized_prefix (p : bytes) : bytes :=
  if eqb_bytes p (lit "/") then lit "/" else trim_end_char SLASH p.

Definition validate_redirect (r : option HttpRedirectConfig) : result config_error () :=
  match r with
  | None => Ok ()
  | Some v =>
      guard! (redirect_status v =? 301) || (redirect_status v =? 308) else BadRedirectStatus;
      guard! negb (bool_decide (redirect_port v = Some 0)) else ZeroRedirectPort;
      match redirect_hostname v with
      | Some hostname => _ ← ok_or (normalize_domain hostname) BadRedirectHostname; Ok ()
      | None => Ok ()
      end
  end.

Section validation.
Context (canonicalize : bytes → option bytes) (is_dir : bytes → bool).

Definition validate_static (document_root : bytes) (index : option bytes) : result config_error () :=
  root ← ok_or (canonicalize document_root) BadDocumentRoot;
  guard! is_dir root else NotADirectory;
  guard! negb (match index with
               | Some name => contains_any [SLASH; 92] name || eqb_bytes name (lit "..")
               | None => false
               end) else BadIndex;
  Ok ().

(** The loop over the paths with the set of prefixes seen so far; [check] is
    [validate_http_action] itself, for the nested action. *)
Definition validate_paths (check : HttpRouteAction → result config_error ())
  : list bytes → list HttpPathRoute → result config_error () :=
  fix go seen rs :=
    match rs with
    | [] => Ok ()
    | MkPathRoute prefix _ basic_auth action :: rs =>
        guard! starts_with (lit "/") prefix && negb (contains 63 prefix || contains 35 prefix) else BadPathPrefix;
        guard! negb (bool_decide (normalized_prefix prefix ∈ seen)) else DuplicatePathPrefix;
        _ ← validate_basic_auth basic_auth;
        _ ← match action with
            | PathReverseProxy action =>
                guard! bool_decide (behavior action = BehaviorReverseProxy) else RedirectNotAllowed;
                check action
            | PathStaticFiles root index _ => validate_static root index
            end;
        go (normalized_prefix prefix :: seen) rs
    end.

Fixpoint validate_http_action (a : HttpRouteAction) : result config_error () :=
  match a with
  | MkRouteAction behavior _ _ _ backends _ _ _ paths redirect =>
      match behavior with
      | BehaviorRedirectHttps => validate_redirect redirect
      | BehaviorReverseProxy =>
          _ ← checkM validate_backend backends;
          validate_paths validate_http_action [] paths
      end
  end.

Definition validate_tls_action (a : TlsRouteAction) : result config_error () :=
  guard! negb (bool_decide (tls_target_port a = Some 0)) else ZeroTargetPort;
  match a with
  | TlsReverseProxy action =>
      guard! bool_decide (behavior action = BehaviorReverseProxy) else RedirectNotAllowed;
      validate_http_action action
  | _ => Ok ()
  end.

Definition tls_actions (c : OrdinaryTlsConfig) : list TlsRouteAction := map tls_action (routes c) ++ [default_route c].
Definition http_actions (c : HostRoutedHttpListenerConfig) : list HttpRouteAction :=
  map http_action (hl_routes c) ++ [hl_default_route c].

(** An "anything else" redirect needs somewhere to go. *)
Definition redirect_has_host (r : option HttpRedirectConfig) : bool :=
  match r with
  | Some v => bool_decide (is_Some (redirect_hostname v)) || preserve_host v
  | None => false
  end.

Definition validate_listener (default_bind : bytes) (entry : bytes * AdditionalListenerConfig) : result config_error () :=
  let l := entry.2 in
  guard! is_ok (parse_bind_pattern (listener_bind l)) else BadListenerBind;
  guard! negb (eqb_bytes (listener_bind l) default_bind) else ConflictsWithDefault;
  match l with
  | TlsListener c => checkM validate_tls_action (tls_actions (routing c))
  | HttpListener c =>
      _ ← checkM (λ a, guard! bool_decide (behavior a = BehaviorReverseProxy) else RedirectNotAllowed; Ok ())
            (http_actions c);
      guard! negb (redirect_https_port c =? 0) else ZeroRedirectPort;
      guard! negb (bool_decide (behavior (hl_default_route c) = BehaviorRedirectHttps)
                   && negb (redirect_has_host (redirect (hl_default_route c)))) else RedirectNeedsHost;
      guard! negb (existsb (λ a, ra_target_port a =? 0) (http_actions c)) else ZeroTargetPort;
      checkM validate_http_action (http_actions c)
  | RedirectListener c =>
      guard! negb (redirect_https_port c =? 0) else ZeroRedirectPort;
      _ ← checkM (λ a, guard! bool_decide (behavior a = BehaviorRedirectHttps) else RedirectExpected;
                       validate_http_action a) (http_actions c);
      guard! redirect_has_host (redirect (hl_default_route c)) else RedirectNeedsHost;
      Ok ()
  | ForwardListener c =>
      guard! negb (bool_decide (trim (rf_targets c) = [])) else TargetsRequired; Ok ()
  end.

Definition validate (c : RuntimeConfig) : result config_error () :=
  let bind := dl_bind (default_listener c) in
  guard! is_ok (parse_bind_pattern bind) else BadDefaultBind;
  guard! bind_uses_port_443 bind else DefaultNotPort443;
  _ ← checkM validate_tls_action (tls_actions (ordinary_traffic (default_listener c)));
  guard! match accounting c with Some a => is_ok (accounting_validate a) | None => true end else BadAccounting;
  _ ← checkM (validate_listener bind) (additional_listeners c);
  guard! bool_decide (cp_hostname (control_plane c) = [])
         || bool_decide (is_Some (normalize_domain (cp_hostname (control_plane c)))) else BadControlHostname;
  _ ← checkM (λ ip, _ ← ok_or (parse_ip ip) BadSelfIpText; Ok ()) (self_ips (control_plane c));
  _ ← checkM (λ r, _ ← ok_or (parse_resolver r) BadResolver; Ok ()) (public_resolvers (control_plane c));
  guard! (120 <=? challenge_ttl_seconds (acme c)) && (challenge_ttl_seconds (acme c) <=? 1800) else BadChallengeTtl;
  guard! negb (scan_interval_hours (acme c) =? 0) else ZeroScanInterval;
  Ok ().

End validation.

(** ** Migration of the legacy configuration *)

Definition transport_of (tls : bool) : UpstreamTransport := if tls then Tls else Plaintext.

Definition listener_from_legacy (l : Listener) : AdditionalListenerConfig :=
  let tls action := TlsListener (MkTlsListener (l_bind l)
    (MkTlsConfig [] (l_policy l) (l_rules l) action (l_max_idle_time_ms l) (l_speed_limit l))) in
  match l_mode l with
  | ModePassthrough => tls (Passthrough (l_target_port l) (l_target l) RoundRobin ProxyProtocol.PNone)
  | ModeTerminate =>
      tls (Terminate (l_target_port l) (l_target l) (transport_of (l_upstream_tls l)) RoundRobin ProxyProtocol.PNone)
  | ModeHttp =>
      HttpListener (MkHttpListener (l_bind l) 443 [] (l_policy l) (l_rules l)
        (MkRouteAction BehaviorReverseProxy (l_target_port l) (l_target l) (transport_of (l_upstream_tls l)) []
           RoundRobin ProxyProtocol.PNone None [] None)
        (l_max_idle_time_ms l) (l_speed_limit l))
  | ModeForward =>
      ForwardListener (MkRawForward (l_bind l) (default [] (l_target l)) (l_upstream_tls l) RoundRobin
        ProxyProtocol.PNone (l_max_idle_time_ms l) (l_speed_limit l))
  end.

Definition from_legacy (c : LegacyConfig) : RuntimeConfig :=
  MkRuntimeConfig (default_listener default_runtime_config)
    (map (λ '(name, l), (name, listener_from_legacy l)) (listeners c)) []
    (legacy_dns c) (legacy_accounting c) default_control_plane default_acme_settings LocalCa.

(** ** Lemmas: scores *)

Definition score_le (a b : score) : Prop := a.1 < b.1 ∨ (a.1 = b.1 ∧ a.2 ≤ b.2).
Definition score_lt (a b : score) : Prop := a.1 < b.1 ∨ (a.1 = b.1 ∧ a.2 < b.2).

Lemma score_gt_spec a b : score_gt a b = true ↔ score_lt b a.
Proof. unfold score_gt, score_lt. lia. Qed.
Lemma score_gt_false a b : score_gt a b = false ↔ score_le a b.
Proof. unfold score_gt, score_le. lia. Qed.
Lemma score_le_trans a b c : score_le a b → score_le b c → score_le a c.
Proof. unfold score_le. lia. Qed.
Lemma score_le_lt_trans a b c : score_le a b → score_lt b c → score_lt a c.
Proof. unfold score_le, score_lt. lia. Qed.
Lemma score_lt_le a b : score_lt a b → score_le a b.
Proof. unfold score_le, score_lt. lia. Qed.
Lemma score_le_refl a : score_le a a.
Proof. unfold score_le. lia. Qed.
#[export] Hint Resolve score_le_refl score_lt_le : tlsproxy.

Section routing_lemmas.
Context (is_match : Regex → bytes → bool).
Context {T : Type} (matcher : T → HostMatcher) (host : bytes).
Abbreviation sc := (λ r : T, match_score is_match (matcher r) host).

(** What the loop has found after a prefix of the table: nothing matched, or
    the first of the routes with the highest score. *)
Definition best_of (rs : list T) (best : option (T * score)) : Prop :=
  match best with
  | None => Forall (λ r, sc r = None) rs
  | Some (r, s) => sc r = Some s ∧ ∃ pre post, rs = pre ++ r :: post ∧
      Forall (λ x, ∀ t, sc x = Some t → score_lt t s) pre ∧
      Forall (λ x, ∀ t, sc x = Some t → score_le t s) post
  end.

Lemma best_of_snoc rs best r : best_of rs best → best_of (rs ++ [r]) (better is_match matcher host best r).
Proof.
  intros Hb. unfold better. destruct (match_score is_match (matcher r) host) as [s|] eqn:Hr.
  - destruct best as [[b sb]|]; cbn in Hb |- *.
    + destruct Hb as (Hsb & pre & post & -> & Hpre & Hpost). destruct (score_gt s sb) eqn:Hgt.
      * apply score_gt_spec in Hgt. split; [done|]. exists (pre ++ b :: post), []. split_and!; [done| |constructor].
        apply Forall_app. split; [|constructor].
        -- eapply Forall_impl; [exact Hpre|]. intros x Hx t Ht. eapply score_le_lt_trans; [|exact Hgt]. by apply score_lt_le, Hx.
        -- intros t Ht. congruence.
        -- eapply Forall_impl; [exact Hpost|]. intros x Hx t Ht. eapply score_le_lt_trans; [|exact Hgt]. by apply Hx.
      * apply score_gt_false in Hgt. split; [done|]. exists pre, (post ++ [r]). split_and!; [by rewrite <-app_assoc|done|].
        apply Forall_app. split; [done|]. constructor; [|constructor]. intros t Ht. congruence.
    + split; [done|]. exists rs, []. split_and!; [done| |constructor].
      eapply Forall_impl; [exact Hb|]. intros x Hx t Ht. cbn in Hx. congruence.
  - destruct best as [[b sb]|]; cbn in Hb |- *.
    + destruct Hb as (Hsb & pre & post & -> & Hpre & Hpost). split; [done|].
      exists pre, (post ++ [r]). split_and!; [by rewrite <-app_assoc|done|].
      apply Forall_app. split; [done|]. constructor; [|constructor]. intros t Ht. congruence.
    + apply Forall_app. split; [done|]. by constructor.
Qed.

Lemma best_of_foldl rs best rs' :
  best_of rs best → best_of (rs ++ rs') (foldl (better is_match matcher host) best rs').
Proof.
  revert rs best; induction rs' as [|r rs' IH]; intros rs best Hb; cbn; [by rewrite app_nil_r|].
  rewrite cons_middle, app_assoc. apply IH. by apply best_of_snoc.
Qed.

Lemma best_host_route_best rs :
  match best_host_route is_match matcher rs host with
  | None => Forall (λ r, sc r = None) rs
  | Some r => ∃ s pre post, sc r = Some s ∧ rs = pre ++ r :: post ∧
      Forall (λ x, ∀ t, sc x = Some t → score_lt t s) pre ∧
      Forall (λ x, ∀ t, sc x = Some t → score_le t s) post
  end.
Proof.
  pose proof (best_of_foldl [] None rs ltac:(constructor)) as H. cbn [app] in H.
  unfold best_host_route. destruct (foldl _ None rs) as [[r s]|]; cbn in *; [|done].
  destruct H as (? & pre & post & ? & ? & ?). eauto 10.
Qed.

End routing_lemmas.

(** ** Lemmas: matching one host *)

Lemma max_score_spec l :
  match max_score l with
  | None => Forall (λ o, o = None) l
  | Some m => Some m ∈ l ∧ Forall (λ o, ∀ x, o = Some x → x ≤ m) l
  end.
Proof.
  induction l as [|o l IH]; cbn; [constructor|]. destruct o as [a|], (max_score l) as [b|].
  - destruct IH as [Hin Hall]. split.
    + destruct (Z.max_spec a b) as [[_ ->]|[_ ->]]; set_solver.
    + constructor; [intros x [= <-]; lia|]. eapply Forall_impl; [exact Hall|]. intros o Ho x Hx. specialize (Ho x Hx). lia.
  - split; [set_solver|]. constructor; [intros x [= <-]; lia|]. eapply Forall_impl; [exact IH|]. intros ? -> x [=].
  - destruct IH as [Hin Hall]. split; [set_solver|]. constructor; [intros x [=]|done].
  - by constructor.
Qed.

(** The cleaned-up suffix of an entry. *)
Definition suffix_text (entry : bytes) : bytes := trim_end_char DOT (trim_start_char DOT (trim entry)).

(** A suffix covers the bare domain and names exactly one label deeper. *)
Definition one_label_under (host s : bytes) : Prop :=
  to_ascii_lowercase host = to_ascii_lowercase s ∨
  ∃ label rest, host = label ++ DOT :: rest ∧ (DOT ∉ label) ∧ to_ascii_lowercase rest = to_ascii_lowercase s.

Lemma suffix_score_Some host entry n :
  suffix_score host entry = Some n ↔
  n = Z.of_nat (length (suffix_text entry)) ∧ one_label_under host (suffix_text entry).
Proof.
  unfold suffix_score. fold (suffix_text entry). set (s := suffix_text entry). unfold one_label_under.
  set (k := (length host - length s)%nat).
  assert (eq_ignore_ascii_case host s || ((length s <? length host)%nat && bool_decide (host !! (k - 1)%nat = Some DOT)
    && eq_ignore_ascii_case (drop k host) s && negb (contains DOT (take (k - 1) host))) = true ↔
    to_ascii_lowercase host = to_ascii_lowercase s ∨
    ∃ label rest, host = label ++ DOT :: rest ∧ (DOT ∉ label) ∧ to_ascii_lowercase rest = to_ascii_lowercase s) as Hiff.
  { rewrite orb_true_iff, !andb_true_iff, !eq_ignore_ascii_case_spec, negb_true_iff, bool_decide_eq_true, Nat.ltb_lt.
    rewrite contains_false. split; (intros [?|H]; [by left|right]).
    - destruct H as (((Hl & Hd) & He) & Hc). exists (take (k - 1) host), (drop k host). split_and!; [|done|done].
      rewrite <-(take_drop_middle host (k - 1) DOT Hd) at 1. do 3 f_equal. unfold k. lia.
    - destruct H as (label & rest & Hhost & Hdot & He).
      assert (length rest = length s) as Hlen.
      { apply (f_equal length) in He. by rewrite !length_to_ascii_lowercase in He. }
      assert (k = S (length label)) as Hk.
      { unfold k. rewrite Hhost, length_app. cbn. lia. }
      rewrite Hk. replace (S (length label) - 1)%nat with (length label) by lia. rewrite Hhost.
      split_and!.
      + rewrite length_app. cbn. lia.
      + by rewrite lookup_app_r, Nat.sub_diag by lia.
      + rewrite drop_app_ge by lia. replace (S (length label) - length label)%nat with 1%nat by lia. done.
      + by rewrite take_app_length. }
  destruct (_ || _); [|split; [done|intros [_ H]; by apply Hiff in H]].
  split; [intros [= <-]; split; [done|by apply Hiff]|]. by intros [-> _].
Qed.

(** ** Lemmas: paths *)

Lemma path_prefix_matches_spec p path :
  path_prefix_matches p path = true ↔
  trim_end_char SLASH p = [] ∨ path = trim_end_char SLASH p ∨ ∃ rest, path = trim_end_char SLASH p ++ SLASH :: rest.
Proof.
  unfold path_prefix_matches. rewrite !orb_true_iff, bool_decide_eq_true, eqb_bytes_spec.
  assert (match RustStd.strip_prefix (trim_end_char SLASH p) path with Some rest => starts_with (lit "/") rest | None => false end = true
    ↔ ∃ rest, path = trim_end_char SLASH p ++ SLASH :: rest) as ->; [|tauto]. split.
  - destruct (RustStd.strip_prefix _ path) as [rest|] eqn:E; [|done]. apply strip_prefix_Some in E as ->.
    intros [r ->]%starts_with_spec. eauto.
  - intros [rest ->]. by rewrite strip_prefix_app.
Qed.

(** ** Properties: routing *)

Section properties.
Context (is_match : Regex → bytes → bool).

Definition exact_listed (m : HostMatcher) (h : bytes) : bool :=
  existsb (λ e, eq_ignore_ascii_case h (trim_end_char DOT e)) (exact m).

(** What a host matcher matches, and how strongly: a listed exact name
    scores highest; otherwise the longest suffix entry that is the name
    itself or lies exactly one label above it (a deeper name never matches a
    suffix); otherwise the patterns decide, all with the same score. *)
Theorem match_score_meaning m host :
  let h := trim_end_char DOT host in
  (exact_listed m h = true ∧ match_score is_match m host = Some (3, Z.of_nat (length h)))
  ∨ (exact_listed m h = false ∧ ∃ e, e ∈ suffix m ∧ one_label_under h (suffix_text e) ∧
       (∀ e', e' ∈ suffix m → one_label_under h (suffix_text e') → (length (suffix_text e') ≤ length (suffix_text e))%nat) ∧
       match_score is_match m host = Some (2, Z.of_nat (length (suffix_text e))))
  ∨ (exact_listed m h = false ∧ (∀ e, e ∈ suffix m → ¬ one_label_under h (suffix_text e)) ∧
       match_score is_match m host = if existsb (λ p, is_match p h) (patterns m) then Some (1, 0) else None).
Proof.
  cbn zeta. set (h := trim_end_char DOT host). unfold match_score. fold h. fold (exact_listed m h).
  destruct (exact_listed m h); [by left|right].
  pose proof (max_score_spec (map (suffix_score h) (suffix m))) as Hmax.
  destruct (max_score _) as [n|]; [left|right]; (split; [done|]).
  - destruct Hmax as [Hin Hall]. apply list_elem_of_fmap in Hin as (e & He & Hin). symmetry in He.
    apply suffix_score_Some in He as [-> He]. exists e. split_and!; [done|done| |done].
    intros e' He' Hu. rewrite Forall_forall in Hall.
    assert (suffix_score h e' = Some (Z.of_nat (length (suffix_text e')))) as Hs by by apply suffix_score_Some.
    pose proof (Hall (suffix_score h e') ltac:(apply list_elem_of_fmap; eauto) _ Hs). lia.
  - split; [|done]. intros e He Hu. rewrite Forall_forall in Hmax.
    assert (suffix_score h e = Some (Z.of_nat (length (suffix_text e)))) as Hs by by apply suffix_score_Some.
    pose proof (Hmax (suffix_score h e) ltac:(apply list_elem_of_fmap; eauto)). congruence.
Qed.

(** C28: the most specific route wins, not the first one: the selected TLS
    route is the first of those with the highest score - every earlier route
    scores strictly lower, every later one at most as high - and only a host
    no route matches is decided by the unknown-host policy. *)
Theorem tls_route_priority c host :
  (∃ r s pre post, select_tls_route is_match c host = Some (tls_action r) ∧ routes c = pre ++ r :: post ∧
     match_score is_match (tls_matcher r) host = Some s ∧
     Forall (λ x, ∀ t, match_score is_match (tls_matcher x) host = Some t → score_lt t s) pre ∧
     Forall (λ x, ∀ t, match_score is_match (tls_matcher x) host = Some t → score_le t s) post)
  ∨ (Forall (λ x, match_score is_match (tls_matcher x) host = None) (routes c) ∧
     select_tls_route is_match c host =
       if admitted is_match (unknown_host_policy c) (unknown_host_rules c) host then Some (default_route c) else None).
Proof.
  unfold select_tls_route. pose proof (best_host_route_best is_match tls_matcher host (routes c)) as H.
  destruct (best_host_route _ _ _ _) as [r|]; [left|by right].
  destruct H as (s & pre & post & ? & ? & ? & ?). exists r, s, pre, post. done.
Qed.

(** HTTP host routing obeys the same priority. *)
Theorem http_route_priority c host :
  (∃ r s pre post, select_http_route is_match c host = Some (http_action r) ∧ hl_routes c = pre ++ r :: post ∧
     match_score is_match (http_matcher r) host = Some s ∧
     Forall (λ x, ∀ t, match_score is_match (http_matcher x) host = Some t → score_lt t s) pre ∧
     Forall (λ x, ∀ t, match_score is_match (http_matcher x) host = Some t → score_le t s) post)
  ∨ (Forall (λ x, match_score is_match (http_matcher x) host = None) (hl_routes c) ∧
     select_http_route is_match c host =
       if admitted is_match (hl_unknown_host_policy c) (hl_unknown_host_rules c) host
       then Some (hl_default_route c) else None).
Proof.
  unfold select_http_route. pose proof (best_host_route_best is_match http_matcher host (hl_routes c)) as H.
  destruct (best_host_route _ _ _ _) as [r|]; [left|by right].
  destruct H as (s & pre & post & ? & ? & ? & ?). exists r, s, pre, post. done.
Qed.

(** Migration keeps every access decision: a legacy TLS or HTTP listener,
    converted, admits exactly the hosts it admitted before, and sends all of
    them to its one action. *)
Theorem from_legacy_same_admission l host :
  match listener_from_legacy l with
  | TlsListener c =>
      select_tls_route is_match (routing c) host = (if is_allowed is_match l host then Some (default_route (routing c)) else None)
      ∧ tl_bind c = l_bind l
  | HttpListener c =>
      select_http_route is_match c host = (if is_allowed is_match l host then Some (hl_default_route c) else None)
      ∧ hl_bind c = l_bind l
  | RedirectListener _ => False
  | ForwardListener c => l_mode l = ModeForward ∧ rf_bind c = l_bind l
  end.
Proof. unfold listener_from_legacy, is_allowed, match_host. destruct (l_mode l) eqn:E; done. Qed.

End properties.

Lemma max_by_key_filter {A} (f : A → bool) (key : A → Z) l x :
  max_by_key key (List.filter f l) = Some x →
  x ∈ l ∧ f x = true ∧ ∀ y, y ∈ l → f y = true → key y ≤ key x.
Proof.
  intros [Hin Hmax]%max_by_key_spec. apply list_elem_of_In, filter_In in Hin as [Hin Hf].
  split_and!; [by apply list_elem_of_In|done|]. intros y Hy Hfy. apply Hmax.
  apply list_elem_of_In, filter_In. split; [by apply list_elem_of_In|done].
Qed.

(** The longest matching path prefix wins and prefixes end at segment
    boundaries: the chosen route's prefix (trailing slashes aside) is empty,
    the whole path or followed by '/' in it, the query string plays no part,
    and no other matching route has a longer one; without a choice no route
    matches. *)
Theorem select_path_longest a path :
  let p := nth 0 (split_chars [63; 35] path) path in
  let text r := trim_end_char SLASH (prefix r) in
  let covers r := text r = [] ∨ p = text r ∨ ∃ rest, p = text r ++ SLASH :: rest in
  match select_path a path with
  | Some r => r ∈ paths a ∧ covers r ∧ ∀ r', r' ∈ paths a → covers r' → (length (text r') ≤ length (text r))%nat
  | None => ∀ r, r ∈ paths a → ¬ covers r
  end.
Proof.
  cbn zeta. unfold select_path. set (p := nth 0 (split_chars [63; 35] path) path).
  destruct (max_by_key _ _) as [r|] eqn:E.
  - apply max_by_key_filter in E as (Hin & Hm & Hmax). apply path_prefix_matches_spec in Hm.
    split_and!; [done|done|]. intros r' Hr' Hc%path_prefix_matches_spec. specialize (Hmax r' Hr' Hc). lia.
  - intros r Hr Hc%path_prefix_matches_spec. apply max_by_key_None in E.
    assert (In r (List.filter (λ r, path_prefix_matches (prefix r) p) (paths a))) as Hf.
    { apply filter_In. split; [by apply list_elem_of_In|done]. }
    by rewrite E in Hf.
Qed.

(** ** Properties: validation *)

Section validation_properties.
Context (canonicalize : bytes → option bytes) (is_dir : bytes → bool).

Definition with_listeners (c : RuntimeConfig) (l : list (bytes * AdditionalListenerConfig)) : RuntimeConfig :=
  MkRuntimeConfig (default_listener c) l (disabled_listeners c) (dns_overrides c) (accounting c) (control_plane c)
    (acme c) (certificate_fallback c).

(** Acceptance does not depend on the iteration order of the listener map. *)
Theorem validate_order_independent c l :
  additional_listeners c ≡ₚ l → is_ok (validate canonicalize is_dir (with_listeners c l)) = is_ok (validate canonicalize is_dir c).
Proof.
  intros Hp. apply eq_bool_prop_intro. rewrite !Is_true_true.
  assert (∀ l1 l2, l1 ≡ₚ l2 → is_ok (validate canonicalize is_dir (with_listeners c l1)) = true →
    is_ok (validate canonicalize is_dir (with_listeners c l2)) = true) as Hone.
  { intros l1 l2 Hl. unfold validate. cbn [with_listeners default_listener additional_listeners accounting control_plane acme].
    destruct (is_ok (parse_bind_pattern _)); [|done]. destruct (bind_uses_port_443 _); [|done].
    destruct (checkM (validate_tls_action _ _) _) as [[]|]; [|done]. cbn [mbind result_bind]. case_match; [|done].
    destruct (checkM (validate_listener _ _ _) l1) as [[]|] eqn:E1; [|done].
    by rewrite (checkM_ok_permutation _ _ _ Hl E1). }
  assert (with_listeners c (additional_listeners c) = c) as Hc by by destruct c.
  split; [rewrite <-Hc at 2|rewrite <-Hc at 1]; by apply Hone.
Qed.

End validation_properties.

Definition sample_config : RuntimeConfig :=
  MkRuntimeConfig (default_listener default_runtime_config)
    [(lit "web", HttpListener (MkHttpListener (lit "0.0.0.0:80") 443 [] ALLOW empty_rules
        (MkRouteAction BehaviorReverseProxy 80 None Plaintext [MkBackend (lit "10.0.0.1:8080") Plaintext None] RoundRobin
          ProxyProtocol.PNone None [MkPathRoute (lit "/app") true (MkBasicAuth false [])
            (PathStaticFiles (lit "/srv") (Some (lit "index.html")) false)] None) None None));
     (lit "raw", ForwardListener (MkRawForward (lit "0.0.0.0:25") (lit "10.0.0.2:25") false RoundRobin ProxyProtocol.PV2 None None))]
    [] (MkDns [] [] []) None default_control_plane default_acme_settings LocalCa.

Lemma validate_order_independent_witness :
  is_ok (validate Some (λ _, true) (with_listeners sample_config (reverse (additional_listeners sample_config)))) = true.
Proof.
  rewrite (validate_order_independent Some (λ _, true) sample_config).
  - vm_compute. reflexivity.
  - symmetry. apply reverse_Permutation.
Defined.
