(* ===== verification/Validation.v ===== *)
(** * What a configuration must satisfy ([validate] of src/runtime_config.rs)

    The conditions on a runtime configuration, stated on its data alone, and
    the proof that the validator accepts exactly the configurations that meet
    them. *)

From S2P Require Import Prelude RustStd Net ProxyProtocol HostUtil BindAddr AcmeDns Config RuntimeConfig.
Open Scope Z_scope.

(** ** The conditions *)

Section conditions.
Context (canonicalize : bytes → option bytes) (is_dir : bytes → bool).

(** A backend's address has a port a connection can be made to. *)
Definition backend_ok (b : HttpBackend) : Prop := ∃ hp, from_str (address b) = Ok hp ∧ hp_port hp ≠ 0.
(** A name and password that a Basic credential can carry. *)
Definition user_ok (u : HttpBasicAuthUser) : Prop :=
  username u ≠ [] ∧ (COLON ∉ username u) ∧ (CR ∉ username u) ∧ (LF ∉ username u) ∧ (CR ∉ password u) ∧ (LF ∉ password u).
Definition auth_ok (b : HttpBasicAuth) : Prop :=
  auth_enabled b = true → users b ≠ [] ∧ Forall user_ok (users b) ∧ NoDup (map username (users b)).
Definition redirect_ok (r : HttpRedirectConfig) : Prop :=
  (redirect_status r = 301 ∨ redirect_status r = 308) ∧ redirect_port r ≠ Some 0 ∧
  ∀ hostname, redirect_hostname r = Some hostname → is_Some (normalize_domain hostname).
(** The document root is a directory, the index a plain file name. *)
Definition static_ok (document_root : bytes) (index : option bytes) : Prop :=
  (∃ root, canonicalize document_root = Some root ∧ is_dir root = true) ∧
  ∀ name, index = Some name → (SLASH ∉ name) ∧ (92 ∉ name) ∧ name ≠ lit "..".
Definition path_ok (nested : HttpRouteAction → Prop) (r : HttpPathRoute) : Prop :=
  let '(MkPathRoute prefix _ auth action) := r in
  (∃ rest, prefix = SLASH :: rest) ∧ (63 ∉ prefix) ∧ (35 ∉ prefix) ∧ auth_ok auth ∧
  match action with
  | PathReverseProxy a => behavior a = BehaviorReverseProxy ∧ nested a
  | PathStaticFiles root index _ => static_ok root index
  end.
(** A route's action, with the paths of its paths to any depth. *)
Fixpoint action_ok (a : HttpRouteAction) : Prop :=
  let '(MkRouteAction behavior _ _ _ backends _ _ _ paths redirect) := a in
  match behavior with
  | BehaviorRedirectHttps => ∀ r, redirect = Some r → redirect_ok r
  | BehaviorReverseProxy =>
      Forall backend_ok backends ∧ foldr (λ r rest, path_ok action_ok r ∧ rest) True paths ∧
      NoDup (map (λ r, normalized_prefix (prefix r)) paths)
  end.
Definition tls_action_ok (a : TlsRouteAction) : Prop :=
  match a with
  | Passthrough port _ _ _ | Terminate port _ _ _ _ => port ≠ 0
  | TlsReverseProxy action => behavior action = BehaviorReverseProxy ∧ action_ok action
  | Reject => True
  end.
(** The redirect of anything else knows a host: a fixed one or the request's. *)
Definition has_host (r : option HttpRedirectConfig) : Prop :=
  ∃ v, r = Some v ∧ (is_Some (redirect_hostname v) ∨ preserve_host v = true).
Definition listener_ok (default_bind : bytes) (l : AdditionalListenerConfig) : Prop :=
  (∃ pattern, parse_bind_pattern (listener_bind l) = Ok pattern) ∧ listener_bind l ≠ default_bind ∧
  match l with
  | TlsListener c => Forall tls_action_ok (tls_actions (routing c))
  | HttpListener c => redirect_https_port c ≠ 0 ∧
      Forall (λ a, behavior a = BehaviorReverseProxy ∧ ra_target_port a ≠ 0 ∧ action_ok a) (http_actions c)
  | RedirectListener c => redirect_https_port c ≠ 0 ∧ has_host (redirect (hl_default_route c)) ∧
      Forall (λ a, behavior a = BehaviorRedirectHttps ∧ action_ok a) (http_actions c)
  | ForwardListener c => trim (rf_targets c) ≠ []
  end.
Definition accounting_ok (a : AccountingConfig) : Prop :=
  acc_enabled a = true → trim (log_file a) ≠ [] ∧ max_keep a ≠ 0 ∧ ∃ n, rotate_size_bytes a = Ok n.
Record config_ok (c : RuntimeConfig) : Prop := {
  co_default_bind : ∃ pattern, parse_bind_pattern (dl_bind (default_listener c)) = Ok pattern;
  co_port_443 : ∃ host port, dl_bind (default_listener c) = host ++ COLON :: port ∧ (COLON ∉ port) ∧ parse_u16 port = Some 443;
  co_default_routes : Forall tls_action_ok (tls_actions (ordinary_traffic (default_listener c)));
  co_accounting : ∀ a, accounting c = Some a → accounting_ok a;
  co_listeners : Forall (λ entry, listener_ok (dl_bind (default_listener c)) entry.2) (additional_listeners c);
  co_hostname : cp_hostname (control_plane c) = [] ∨ is_Some (normalize_domain (cp_hostname (control_plane c)));
  co_self_ips : Forall (λ ip, is_Some (parse_ip ip)) (self_ips (control_plane c));
  co_resolvers : Forall (λ r, is_Some (parse_resolver r)) (public_resolvers (control_plane c));
  co_challenge : 120 ≤ challenge_ttl_seconds (acme c) ≤ 1800;
  co_scan : scan_interval_hours (acme c) ≠ 0;
}.

(** ** The validator decides them *)

Lemma guard_Ok {E} (b : bool) (e : E) k : (guard! b else e; k) = Ok () ↔ b = true ∧ k = Ok ().
Proof. destruct b; naive_solver. Qed.
Lemma then_Ok {E A} (m : result E A) (k : result E ()) : (_ ← m; k) = Ok () ↔ is_ok m = true ∧ k = Ok ().
Proof. destruct m; cbn; naive_solver. Qed.
Lemma unit_Ok {E} (m : result E ()) : is_ok m = true ↔ m = Ok ().
Proof. destruct m as [[]|]; cbn; naive_solver. Qed.
Lemma ok_or_Ok {E A} (o : option A) (e : E) : is_ok (ok_or o e) = true ↔ is_Some o.
Proof. destruct o; cbn; [naive_solver|]. split; [done|by intros []]. Qed.
(** What holds of the value of an option. *)
Lemma of_Some {A} (P : A → Prop) x : (∀ y, Some x = Some y → P y) ↔ P x.
Proof. naive_solver. Qed.
Lemma of_None {A} (P : A → Prop) : (∀ y, None = Some y → P y) ↔ True.
Proof. naive_solver. Qed.
Lemma contains_any_false cs s : contains_any cs s = false ↔ Forall (λ c, c ∉ s) cs.
Proof.
  unfold contains_any. induction cs as [|c cs IH]; cbn; [by split; [constructor|]|]. by rewrite orb_false_iff, contains_false, IH, Forall_cons.
Qed.

Lemma validate_backend_spec b : validate_backend b = Ok () ↔ backend_ok b.
Proof.
  unfold validate_backend, backend_ok. destruct (from_str (address b)) as [hp|]; [|naive_solver].
  rewrite guard_Ok, negb_true_iff, Z.eqb_neq. naive_solver.
Qed.
Lemma validate_users_spec seen us :
  validate_users seen us = Ok () ↔ Forall user_ok us ∧ NoDup (map username us) ∧ Forall (λ u, username u ∉ seen) us.
Proof.
  revert seen. induction us as [|u us IH]; intros seen; cbn [validate_users map]; [split; [by repeat constructor|done]|].
  rewrite !guard_Ok, IH, !negb_true_iff, !orb_false_iff, !bool_decide_eq_false, contains_false, !contains_any_false, !Forall_cons, !Forall_nil, NoDup_cons.
  assert (Forall (λ x, username x ∉ username u :: seen) us ↔ Forall (λ x, username x ≠ username u) us ∧ Forall (λ x, username x ∉ seen) us) as ->
    by (rewrite <-Forall_and; apply Forall_iff; intros x; apply not_elem_of_cons).
  assert ((username u ∉ map username us) ↔ Forall (λ x, username x ≠ username u) us) as ->; [|unfold user_ok at 2; tauto].
  rewrite Forall_forall, list_elem_of_fmap. naive_solver.
Qed.
Lemma validate_basic_auth_spec b : validate_basic_auth b = Ok () ↔ auth_ok b.
Proof.
  unfold validate_basic_auth, auth_ok. destruct (auth_enabled b); [|naive_solver].
  rewrite guard_Ok, validate_users_spec, negb_true_iff, bool_decide_eq_false.
  assert (length (users b) ≠ 0%nat ↔ users b ≠ []) as -> by (by destruct (users b)).
  assert (Forall (λ u, username u ∉ []) (users b)) by (apply Forall_true; intros; apply not_elem_of_nil). tauto.
Qed.
Lemma validate_redirect_spec r : validate_redirect r = Ok () ↔ ∀ v, r = Some v → redirect_ok v.
Proof.
  unfold validate_redirect. destruct r as [v|]; [rewrite of_Some; unfold redirect_ok|by rewrite of_None].
  rewrite !guard_Ok, orb_true_iff, !Z.eqb_eq, negb_true_iff, bool_decide_eq_false.
  destruct (redirect_hostname v) as [hostname|]; [rewrite then_Ok, ok_or_Ok, of_Some|rewrite of_None]; tauto.
Qed.
Lemma validate_static_spec root index : validate_static canonicalize is_dir root index = Ok () ↔ static_ok root index.
Proof.
  unfold validate_static, static_ok. destruct (canonicalize root) as [r|]; cbn [ok_or mbind result_bind]; [|naive_solver].
  rewrite !guard_Ok. assert ((∃ root', Some r = Some root' ∧ is_dir root' = true) ↔ is_dir r = true) as -> by naive_solver.
  destruct index as [name|]; [rewrite of_Some|rewrite of_None; tauto].
  rewrite negb_true_iff, orb_false_iff, contains_any_false, !Forall_cons, Forall_nil, <-not_true_iff_false, eqb_bytes_spec. tauto.
Qed.
Lemma validate_paths_spec check seen rs :
  validate_paths canonicalize is_dir check seen rs = Ok () ↔
  foldr (λ r rest, path_ok (λ a, check a = Ok ()) r ∧ rest) True rs ∧ NoDup (map (λ r, normalized_prefix (prefix r)) rs) ∧
  Forall (λ r, normalized_prefix (prefix r) ∉ seen) rs.
Proof.
  revert seen. induction rs as [|[p st auth act] rs IH]; intros seen; [split; [by repeat constructor|done]|].
  unfold validate_paths. fold (validate_paths canonicalize is_dir check). cbn [foldr map]. unfold path_ok at 1. cbn [prefix].
  rewrite !guard_Ok, !then_Ok, IH, unit_Ok, validate_basic_auth_spec, andb_true_iff, !negb_true_iff, orb_false_iff, bool_decide_eq_false, !contains_false, NoDup_cons, Forall_cons.
  assert (Forall (λ r, normalized_prefix (prefix r) ∉ normalized_prefix p :: seen) rs ↔
    Forall (λ r, normalized_prefix (prefix r) ≠ normalized_prefix p) rs ∧ Forall (λ r, normalized_prefix (prefix r) ∉ seen) rs) as ->
    by (rewrite <-Forall_and; apply Forall_iff; intros r; apply not_elem_of_cons).
  assert ((normalized_prefix p ∉ map (λ r, normalized_prefix (prefix r)) rs) ↔ Forall (λ r, normalized_prefix (prefix r) ≠ normalized_prefix p) rs) as ->
    by (rewrite Forall_forall, list_elem_of_fmap; naive_solver).
  rewrite starts_with_spec. cbn [prefix app lit]. 
  match goal with |- context [is_ok ?m = true] => assert (is_ok m = true ↔
    match act with PathReverseProxy a => behavior a = BehaviorReverseProxy ∧ check a = Ok () | PathStaticFiles root index _ => static_ok root index end) as -> end;
    [|tauto].
  rewrite unit_Ok. destruct act; [by rewrite guard_Ok, bool_decide_eq_true|apply validate_static_spec].
Qed.
Lemma validate_http_action_spec a : validate_http_action canonicalize is_dir a = Ok () ↔ action_ok a.
Proof.
  revert a. fix IH 1. intros [b p t u bs lb pp hh ps r]. destruct b; cbn [validate_http_action action_ok]; [|apply validate_redirect_spec].
  rewrite then_Ok, unit_Ok, checkM_ok, validate_paths_spec.
  assert (Forall (λ b, validate_backend b = Ok ()) bs ↔ Forall backend_ok bs) as -> by (apply Forall_iff; intros; apply validate_backend_spec).
  assert (Forall (λ r, normalized_prefix (prefix r) ∉ []) ps) by (apply Forall_true; intros; apply not_elem_of_nil).
  enough (foldr (λ r rest, path_ok (λ a, validate_http_action canonicalize is_dir a = Ok ()) r ∧ rest) True ps ↔
    foldr (λ r rest, path_ok action_ok r ∧ rest) True ps) as -> by tauto.
  clear - IH. induction ps as [|[pre st auth [a|root index l]] ps IHps]; cbn [foldr]; [done| |].
  - unfold path_ok. by rewrite (IH a), IHps.
  - unfold path_ok. by rewrite IHps.
Qed.
Lemma validate_tls_action_spec a : validate_tls_action canonicalize is_dir a = Ok () ↔ tls_action_ok a.
Proof.
  unfold validate_tls_action. rewrite guard_Ok, negb_true_iff, bool_decide_eq_false.
  destruct a; cbn; [naive_solver..| |naive_solver]. rewrite guard_Ok, bool_decide_eq_true, validate_http_action_spec. naive_solver.
Qed.
Lemma tls_actions_spec l : checkM (validate_tls_action canonicalize is_dir) l = Ok () ↔ Forall tls_action_ok l.
Proof. rewrite checkM_ok. apply Forall_iff. intros a. apply validate_tls_action_spec. Qed.
Lemma redirect_has_host_spec r : redirect_has_host r = true ↔ has_host r.
Proof.
  unfold redirect_has_host, has_host. destruct r as [v|]; [|naive_solver]. rewrite orb_true_iff, bool_decide_eq_true. naive_solver.
Qed.
Lemma zero_ports_spec l : existsb (λ a, ra_target_port a =? 0) l = false ↔ Forall (λ a, ra_target_port a ≠ 0) l.
Proof. induction l as [|a l IH]; cbn; [by split|]. by rewrite orb_false_iff, Z.eqb_neq, IH, Forall_cons. Qed.
Lemma validate_listener_spec default_bind entry :
  validate_listener canonicalize is_dir default_bind entry = Ok () ↔ listener_ok default_bind entry.2.
Proof.
  unfold validate_listener, listener_ok. rewrite !guard_Ok, is_ok_spec, negb_true_iff, <-not_true_iff_false, eqb_bytes_spec.
  apply and_iff_compat_l, and_iff_compat_l. destruct entry.2 as [c|c|c|c].
  - apply tls_actions_spec.
  - rewrite then_Ok, unit_Ok, !guard_Ok, !checkM_ok, negb_true_iff, Z.eqb_neq, (negb_true_iff (existsb _ _)), zero_ports_spec.
    rewrite (Forall_iff _ (http_actions c) (λ a, behavior a = BehaviorReverseProxy)) by (intros a; rewrite guard_Ok, bool_decide_eq_true; tauto).
    rewrite (Forall_iff (λ a, validate_http_action canonicalize is_dir a = Ok ()) (http_actions c) action_ok) by apply validate_http_action_spec. rewrite !Forall_and.
    split; [tauto|]. intros (Hp & Hb & Ht & Ha). split_and!; try done.
    rewrite Forall_forall in Hb. rewrite (bool_decide_eq_false_2 (behavior _ = _)); [done|]. rewrite Hb; [done|]. unfold http_actions. set_solver.
  - rewrite guard_Ok, then_Ok, unit_Ok, guard_Ok, checkM_ok, negb_true_iff, Z.eqb_neq, redirect_has_host_spec.
    rewrite (Forall_iff _ (http_actions c) (λ a, behavior a = BehaviorRedirectHttps ∧ action_ok a))
      by (intros a; by rewrite guard_Ok, bool_decide_eq_true, validate_http_action_spec). tauto.
  - rewrite guard_Ok, negb_true_iff, bool_decide_eq_false. tauto.
Qed.
Lemma accounting_spec a : match a with Some a => is_ok (accounting_validate a) | None => true end = true ↔ ∀ a', a = Some a' → accounting_ok a'.
Proof.
  destruct a as [a|]; [rewrite of_Some|by rewrite of_None]. unfold accounting_validate, accounting_ok. rewrite unit_Ok.
  destruct (acc_enabled a); cbn [negb]; [|naive_solver]. rewrite !guard_Ok, !negb_true_iff, bool_decide_eq_false, Z.eqb_neq.
  assert (match rotate_size_bytes a with Ok _ => Ok () | Err e => Err (BadRotateSize e) end = Ok () ↔ ∃ n, rotate_size_bytes a = Ok n) as ->
    by (destruct (rotate_size_bytes a); naive_solver). tauto.
Qed.
Lemma port_443_spec bind : bind_uses_port_443 bind = true ↔ ∃ host port, bind = host ++ COLON :: port ∧ (COLON ∉ port) ∧ parse_u16 port = Some 443.
Proof.
  unfold bind_uses_port_443. destruct (rsplit_once COLON bind) as [[host port]|] eqn:E.
  - pose proof E as [-> Hn]%rsplit_once_Some. rewrite bool_decide_eq_true. split; [by exists host, port|]. intros (h & p & Heq & Hp & Hu).
    assert (rsplit_once COLON (host ++ COLON :: port) = Some (h, p)) as E' by (by apply rsplit_once_Some). congruence.
  - split; [done|]. intros (h & p & -> & _). apply rsplit_once_None in E. set_solver.
Qed.

End conditions.

