(* ===== verification/Store.v ===== *)
(** * The runtime store (src/store/mod.rs, src/store/access.rs,
      src/acme_types.rs, src/auth.rs)

    The database as typed column families: keys are the bytes the code
    writes, values are the records (their JSON encoding is serde's).  A write
    batch is atomic, so each operation is one step from database to
    database; iteration goes in key order. *)

From stdpp Require Import sorting.
From S2P Require Import Prelude RustStd Net ProxyProtocol AcmeDns Config RuntimeConfig.
Open Scope Z_scope.

(** ** Keys *)

(** [to_be_bytes] of a [k]-byte integer. *)
Fixpoint be_bytes (k : nat) (n : Z) : bytes :=
  match k with
  | O => []
  | S k => (n / 256 ^ Z.of_nat k) mod 256 :: be_bytes k n
  end.
(** [{:020}] *)
Definition pad20 (n : Z) : bytes := let s := show_dec n in repeat 48 (20 - length s) ++ s.
Definition audit_key (now : Z) (kind : bytes) (sequence : Z) : bytes := pad20 now ++ lit "-" ++ pad20 sequence ++ lit "-" ++ kind.
Definition generation_key (certificate_id generation_id : bytes) : bytes := certificate_id ++ [0] ++ generation_id.

(** ** Records *)

Record StoredConfig := MkStored { revision : Z; updated_at : Z; updated_by : bytes; stored_config : RuntimeConfig.RuntimeConfig }.

Record AcmeProvider := MkProvider {
  ap_id : bytes;
  ap_name : bytes;
  ap_directory_url : bytes;
  ap_contacts : list bytes;
  ap_eab_key_id : option bytes;
  ap_eab_hmac_key : option bytes;
  ap_staging : bool;
  ap_is_default : bool;
  ap_directory_ca_pem : option bytes;
}.
Record PublishPolicy := MkPublish { pub_enabled : bool; pub_allow_private_key : bool }.
Record ManagedCertificate := MkManaged {
  mc_id : bytes;
  mc_domains : list bytes;
  mc_provider_id : bytes;
  mc_enabled : bool;
  mc_automatic : bool;
  mc_publish : PublishPolicy;
  mc_created_at : option Z;
  mc_updated_at : option Z;
}.
Record CertificateGeneration := MkGeneration {
  cg_id : bytes;
  cg_certificate_id : bytes;
  cg_certificate_pem : bytes;
  cg_chain_pem : bytes;
  cg_private_key_pem : bytes;
  cg_fingerprint : bytes;
  cg_not_before : option Z;
  cg_not_after : option Z;
  cg_issued_at : option Z;
}.
Record RenewalState := MkRenewal {
  rs_certificate_id : bytes;
  rs_last_attempt : option Z;
  rs_last_success : option Z;
  rs_next_attempt : option Z;
  rs_ca_retry_after : option Z;
  rs_consecutive_failures : Z;
  rs_last_error : option bytes;
  rs_ari_suggested_at : option Z;
  rs_ari_explanation_url : option bytes;
  rs_ari_checked_at : option Z;
  rs_ari_next_check : option Z;
}.
Record RetrievalToken := MkToken {
  rt_id : bytes;
  rt_label : bytes;
  rt_token_hash : bytes;
  rt_bearer_token : bytes;
  rt_certificate_ids : gset bytes;
  rt_allow_private_key : bool;
  rt_created_at : option Z;
  rt_expires_at : option Z;
  rt_disabled : bool;
}.
Record UserRecord := MkUserRecord {
  ur_username : bytes;
  ur_password_hash : bytes;
  ur_administrator : bool;
  ur_created_at : option Z;
  ur_disabled : bool;
}.
Record SessionRecord := MkSessionRecord {
  sr_token_hash : bytes;
  sr_username : bytes;
  sr_csrf_token : bytes;
  sr_created_at : option Z;
  sr_expires_at : option Z;
}.
(** The members of an audit object that the code writes; [au_detail] is the
    caller's JSON text. *)
Record AuditEntry := MkAudit { au_kind : bytes; au_timestamp : option Z; au_actor : option bytes; au_revision : option Z; au_detail : option bytes }.
Record HealthCheckSample := MkSample {
  hs_listener : bytes;
  hs_host : bytes;
  hs_path : bytes;
  hs_backend : bytes;
  hs_endpoint : bytes;
  hs_transport : bytes;
  hs_load_balancing : bytes;
  hs_online : bool;
  hs_checked_at : Z;
}.
Record StoredAcmeAccount := MkAccount { sa_provider_id : bytes; sa_credentials : bytes; sa_updated_at : option Z }.

(** ** The database *)

Record Db := MkDb {
  db_schema : option bytes;
  db_revision : option bytes;
  db_config : option StoredConfig;
  db_history : gmap bytes StoredConfig;
  db_providers : gmap bytes AcmeProvider;
  db_accounts : gmap bytes StoredAcmeAccount;
  db_certificates : gmap bytes ManagedCertificate;
  db_domain_index : gmap bytes bytes;
  db_generations : gmap bytes CertificateGeneration;
  db_active : gmap bytes bytes;
  db_renewals : gmap bytes RenewalState;
  db_tokens : gmap bytes RetrievalToken;
  db_users : gmap bytes UserRecord;
  db_sessions : gmap bytes SessionRecord;
  db_audit : gmap bytes AuditEntry;
  db_diagnostics : gmap bytes DnsDiagnostic;
  db_health : gmap bytes HealthCheckSample;
}.
Definition db_empty : Db := MkDb None None None ∅ ∅ ∅ ∅ ∅ ∅ ∅ ∅ ∅ ∅ ∅ ∅ ∅ ∅.

(** [iterator_cf(.., Start)]: entries in key order. *)
Definition entry_le {V} (a b : bytes * V) : Prop := bytes_le a.1 b.1 = true.
#[global] Instance entry_le_dec {V} : RelDecision (@entry_le V).
Proof. intros a b. unfold entry_le. apply _. Defined.
Definition iter {V} (m : gmap bytes V) : list (bytes * V) := merge_sort entry_le (map_to_list m).

Inductive store_error :=
| NewerSchema | OlderSchema | BadSchema
| AlreadyInitialized
| BadAdministrator
| InvalidConfig (e : config_error)
| InvalidDomain
| BadStoredRevision
| RevisionOverflow
| BadToken
| BadUser
| BadSession
| BadProvider
| BuiltinProvider
| DefaultProvider
| MissingProduction
| NotOneDomain
| IdNotDomain
| WildcardDomain
| DuplicateDomain
| DomainTaken
| MigrationConflict
| BadGeneration
| BadRenewal
| BadAccount.

Abbreviation store_op A := (Db → result store_error A * Db).

(** ** Schema and configuration *)

Definition SCHEMA_VERSION : Z := 1.
Definition initialize_schema (db : Db) : result store_error () * Db :=
  match db_schema db with
  | None => (Ok (), MkDb (Some (be_bytes 4 SCHEMA_VERSION)) (db_revision db) (db_config db) (db_history db) (db_providers db) (db_accounts db)
                 (db_certificates db) (db_domain_index db) (db_generations db) (db_active db) (db_renewals db) (db_tokens db) (db_users db)
                 (db_sessions db) (db_audit db) (db_diagnostics db) (db_health db))
  | Some b =>
      (if negb (length b =? 4)%nat then Err BadSchema
       else if SCHEMA_VERSION <? of_be b then Err NewerSchema
       else if of_be b <? SCHEMA_VERSION then Err OlderSchema else Ok (), db)
  end.

Definition is_initialized (db : Db) : bool := bool_decide (is_Some (db_config db)).
Definition load_config (db : Db) : option StoredConfig := db_config db.

(** The entries a configuration write replaces. *)
Definition put_config (stored : StoredConfig) (audit : bytes * AuditEntry) (db : Db) : Db :=
  MkDb (db_schema db) (Some (be_bytes 8 (revision stored))) (Some stored) (<[be_bytes 8 (revision stored) := stored]> (db_history db)) (db_providers db)
    (db_accounts db) (db_certificates db) (db_domain_index db) (db_generations db) (db_active db) (db_renewals db) (db_tokens db) (db_users db)
    (db_sessions db) (<[audit.1 := audit.2]> (db_audit db)) (db_diagnostics db) (db_health db).
Definition set_certificates (certs : gmap bytes ManagedCertificate) (index : gmap bytes bytes) (db : Db) : Db :=
  MkDb (db_schema db) (db_revision db) (db_config db) (db_history db) (db_providers db) (db_accounts db) certs index (db_generations db) (db_active db)
    (db_renewals db) (db_tokens db) (db_users db) (db_sessions db) (db_audit db) (db_diagnostics db) (db_health db).
Definition set_access (tokens : gmap bytes RetrievalToken) (users : gmap bytes UserRecord) (sessions : gmap bytes SessionRecord)
  (audit : gmap bytes AuditEntry) (db : Db) : Db :=
  MkDb (db_schema db) (db_revision db) (db_config db) (db_history db) (db_providers db) (db_accounts db) (db_certificates db) (db_domain_index db)
    (db_generations db) (db_active db) (db_renewals db) tokens users sessions audit (db_diagnostics db) (db_health db).

Definition set_providers (providers : gmap bytes AcmeProvider) (db : Db) : Db :=
  MkDb (db_schema db) (db_revision db) (db_config db) (db_history db) providers (db_accounts db) (db_certificates db) (db_domain_index db)
    (db_generations db) (db_active db) (db_renewals db) (db_tokens db) (db_users db) (db_sessions db) (db_audit db) (db_diagnostics db) (db_health db).
Definition set_accounts (accounts : gmap bytes StoredAcmeAccount) (db : Db) : Db :=
  MkDb (db_schema db) (db_revision db) (db_config db) (db_history db) (db_providers db) accounts (db_certificates db) (db_domain_index db)
    (db_generations db) (db_active db) (db_renewals db) (db_tokens db) (db_users db) (db_sessions db) (db_audit db) (db_diagnostics db) (db_health db).
Definition set_generations (generations : gmap bytes CertificateGeneration) (active : gmap bytes bytes) (renewals : gmap bytes RenewalState) (db : Db) : Db :=
  MkDb (db_schema db) (db_revision db) (db_config db) (db_history db) (db_providers db) (db_accounts db) (db_certificates db) (db_domain_index db)
    generations active renewals (db_tokens db) (db_users db) (db_sessions db) (db_audit db) (db_diagnostics db) (db_health db).
Definition set_diagnostics (diagnostics : gmap bytes DnsDiagnostic) (db : Db) : Db :=
  MkDb (db_schema db) (db_revision db) (db_config db) (db_history db) (db_providers db) (db_accounts db) (db_certificates db) (db_domain_index db)
    (db_generations db) (db_active db) (db_renewals db) (db_tokens db) (db_users db) (db_sessions db) (db_audit db) diagnostics (db_health db).
Definition set_health (health : gmap bytes HealthCheckSample) (db : Db) : Db :=
  MkDb (db_schema db) (db_revision db) (db_config db) (db_history db) (db_providers db) (db_accounts db) (db_certificates db) (db_domain_index db)
    (db_generations db) (db_active db) (db_renewals db) (db_tokens db) (db_users db) (db_sessions db) (db_audit db) (db_diagnostics db) health.

(** [ManagedCertificate] of the control plane, as [bootstrap] writes it. *)
Definition control_certificate (domain provider_id : bytes) (now : Z) : ManagedCertificate :=
  MkManaged domain [domain] provider_id true true (MkPublish false false) (Some now) (Some now).

Section config.
Context (canonicalize : bytes → option bytes) (is_dir : bytes → bool).

(** [key_now] is the clock reading of [audit_key], taken after [now]. *)
Definition bootstrap (now key_now : Z) (config : RuntimeConfig.RuntimeConfig) (administrator : UserRecord) : store_op StoredConfig := λ db,
  if is_initialized db then (Err AlreadyInitialized, db)
  else if bool_decide (trim (ur_username administrator) = []) || bool_decide (ur_password_hash administrator = []) || negb (ur_administrator administrator)
  then (Err BadAdministrator, db)
  else match validate canonicalize is_dir config with
  | Err e => (Err (InvalidConfig e), db)
  | Ok _ =>
      let stored := MkStored 1 now (ur_username administrator) config in
      let control := control_plane config in
      match (if negb (bool_decide (cp_hostname control = [])) && negb (bool_decide (cp_provider_id control = []))
             then match AcmeDns.normalize_domain (cp_hostname control) with Some d => Some (Some d) | None => None end
             else Some None) with
      | None => (Err InvalidDomain, db)
      | Some control_domain =>
          let db := put_config stored (audit_key key_now (lit "bootstrap") 1, MkAudit (lit "initial_setup_completed") (Some now) (Some (ur_username administrator)) None None) db in
          let db := set_access (db_tokens db) (<[ur_username administrator := administrator]> (db_users db)) (db_sessions db) (db_audit db) db in
          (Ok stored,
           match control_domain with
           | Some d => set_certificates (<[d := control_certificate d (cp_provider_id control) now]> (db_certificates db))
                         (<[d := d]> (db_domain_index db)) db
           | None => db
           end)
      end
  end.

(** The stored revision counter, 0 when there is none. *)
Definition current_revision (db : Db) : result store_error Z :=
  match db_revision db with
  | None => Ok 0
  | Some b => if (length b =? 8)%nat then Ok (of_be b) else Err BadStoredRevision
  end.
Definition save_config (now key_now : Z) (config : RuntimeConfig.RuntimeConfig) (updated_by : bytes) : store_op StoredConfig := λ db,
  match validate canonicalize is_dir config with
  | Err e => (Err (InvalidConfig e), db)
  | Ok _ =>
      match current_revision db with
      | Err e => (Err e, db)
      | Ok r =>
          if u64_max <=? r then (Err RevisionOverflow, db)
          else
            let stored := MkStored (r + 1) now updated_by config in
            (Ok stored, put_config stored (audit_key key_now (lit "config") (r + 1), MkAudit (lit "configuration_saved") (Some now) (Some updated_by) (Some (r + 1)) None) db)
      end
  end.
End config.

Definition config_history (limit : nat) (db : Db) : list StoredConfig := map snd (take limit (rev (iter (db_history db)))).
Definition config_revision (r : Z) (db : Db) : option StoredConfig := db_history db !! be_bytes 8 r.

(** ** Retention *)

Record RetentionSummary := MkRetention { rm_sessions : nat; rm_generations : nat; rm_audits : nat; rm_revisions : nat }.

(** [sort_by_key(Reverse(issued_at))], stable; [None] sorts below any time. *)
Definition issued_le (a b : option Z) : bool :=
  match a, b with None, _ => true | Some _, None => false | Some x, Some y => x <=? y end.
Fixpoint insert_by_issued (x : bytes * CertificateGeneration) (l : list (bytes * CertificateGeneration)) : list (bytes * CertificateGeneration) :=
  match l with
  | [] => [x]
  | y :: l' => if issued_le (cg_issued_at y.2) (cg_issued_at x.2) then x :: l else y :: insert_by_issued x l'
  end.
Definition sort_by_issued (l : list (bytes * CertificateGeneration)) : list (bytes * CertificateGeneration) := foldr insert_by_issued [] l.

(** The generations of one certificate that go: all but the active one and
    the first [limit] others. *)
Fixpoint surplus (active : option bytes) (limit : nat) (values : list (bytes * CertificateGeneration)) : list bytes :=
  match values with
  | [] => []
  | (key, value) :: values =>
      if bool_decide (active = Some (cg_id value)) then surplus active limit values
      else match limit with
           | O => key :: surplus active O values
           | S limit => surplus active limit values
           end
  end.
Definition certificate_surplus (db : Db) (per_certificate : nat) (certificate_id : bytes) : list bytes :=
  let values := List.filter (λ kv, eqb_bytes (cg_certificate_id kv.2) certificate_id) (iter (db_generations db)) in
  let active := db_active db !! certificate_id in
  surplus active (per_certificate - match active with Some _ => 1 | None => 0 end) (sort_by_issued values).
(** The groups of the [BTreeMap]. *)
Definition certificate_ids (db : Db) : list bytes := elements (list_to_set (map (λ kv, cg_certificate_id kv.2) (iter (db_generations db))) : gset bytes).

Definition delete_all {V} (keys : list bytes) (m : gmap bytes V) : gmap bytes V := foldr delete m keys.
Definition DAY_NS : Z := 24 * 3600 * 1000000000.
Definition HISTORY_KEPT : nat := 50.
Definition session_expired (now : Z) (s : SessionRecord) : bool := match sr_expires_at s with None => true | Some e => e <=? now end.

Definition cleanup_retention (now : Z) (per_certificate : nat) (audit_days : Z) (db : Db) : RetentionSummary * Db :=
  let sessions := map fst (List.filter (λ kv, session_expired now kv.2) (iter (db_sessions db))) in
  let generations := certificate_ids db ≫= certificate_surplus db per_certificate in
  let cutoff := now - Z.max audit_days 1 * DAY_NS in
  let audits := map fst (List.filter (λ kv, match au_timestamp kv.2 with Some at_ => at_ <? cutoff | None => false end) (iter (db_audit db))) in
  let revisions := map fst (drop HISTORY_KEPT (rev (iter (db_history db)))) in
  (MkRetention (length sessions) (length generations) (length audits) (length revisions),
   MkDb (db_schema db) (db_revision db) (db_config db) (delete_all revisions (db_history db)) (db_providers db) (db_accounts db) (db_certificates db)
     (db_domain_index db) (delete_all generations (db_generations db)) (db_active db) (db_renewals db) (db_tokens db) (db_users db)
     (delete_all sessions (db_sessions db)) (delete_all audits (db_audit db)) (db_diagnostics db) (db_health db)).

(** ** Access records (src/store/access.rs) *)

Definition save_retrieval_token (token : RetrievalToken) : store_op () := λ db,
  if bool_decide (trim (rt_id token) = []) || negb (length (rt_token_hash token) =? 64)%nat then (Err BadToken, db)
  else (Ok (), set_access (<[rt_id token := token]> (db_tokens db)) (db_users db) (db_sessions db) (db_audit db) db).
(** [ct_eq] compares whole byte strings. *)
Definition retrieval_token_by_hash (hash : bytes) (db : Db) : option RetrievalToken :=
  find (λ token, eqb_bytes (rt_token_hash token) hash) (map snd (iter (db_tokens db))).
Definition retrieval_tokens (db : Db) : list RetrievalToken := map snd (iter (db_tokens db)).
Definition delete_retrieval_token (id : bytes) (db : Db) : Db :=
  set_access (delete id (db_tokens db)) (db_users db) (db_sessions db) (db_audit db) db.

Definition append_audit (now key_now : Z) (kind detail : bytes) (db : Db) : Db :=
  let sequence := if (0 <=? now) && (now <=? u64_max) then now else u64_max in
  set_access (db_tokens db) (db_users db) (db_sessions db)
    (<[audit_key key_now kind sequence := MkAudit kind (Some now) None None (Some detail)]> (db_audit db)) db.
Definition audits (limit : nat) (db : Db) : list AuditEntry := rev (map snd (take limit (rev (iter (db_audit db))))).

Definition user (username : bytes) (db : Db) : option UserRecord := db_users db !! username.
(** [from_utf8_lossy] is the identity on the keys, which are user names. *)
Definition users (db : Db) : list UserRecord :=
  map (λ kv : bytes * UserRecord, if bool_decide (ur_username kv.2 = [])
             then MkUserRecord kv.1 (ur_password_hash kv.2) (ur_administrator kv.2) (ur_created_at kv.2) (ur_disabled kv.2) else kv.2) (iter (db_users db)).
Definition save_user (u : UserRecord) : store_op () := λ db,
  if bool_decide (trim (ur_username u) = []) || bool_decide (ur_password_hash u = []) then (Err BadUser, db)
  else (Ok (), set_access (db_tokens db) (<[ur_username u := u]> (db_users db)) (db_sessions db) (db_audit db) db).

Definition save_session (s : SessionRecord) : store_op () := λ db,
  if bool_decide (sr_token_hash s = []) || bool_decide (sr_username s = []) then (Err BadSession, db)
  else (Ok (), set_access (db_tokens db) (db_users db) (<[sr_token_hash s := s]> (db_sessions db)) (db_audit db) db).
Definition session (token_hash : bytes) (db : Db) : option SessionRecord := db_sessions db !! token_hash.
Definition delete_session (token_hash : bytes) (db : Db) : Db :=
  set_access (db_tokens db) (db_users db) (delete token_hash (db_sessions db)) (db_audit db) db.
Definition delete_user_sessions (username : bytes) (db : Db) : nat * Db :=
  let keys := map fst (List.filter (λ kv, eqb_bytes (sr_username kv.2) username) (iter (db_sessions db))) in
  (length keys, set_access (db_tokens db) (db_users db) (delete_all keys (db_sessions db)) (db_audit db) db).

(** ** Health-check samples *)

Definition HOUR_NS : Z := 3600 * 1000000000.
(** [{nanos:039}], for times after the epoch. *)
Definition pad39 (n : Z) : bytes := let s := show_dec n in repeat 48 (39 - length s) ++ s.
Definition sample_key (s : HealthCheckSample) : bytes :=
  pad39 (hs_checked_at s) ++ [0] ++ hs_listener s ++ [0] ++ hs_host s ++ [0] ++ hs_path s ++ [0] ++ hs_backend s ++ [0] ++ hs_endpoint s.
(** [parse::<i128>] *)
Definition parse_i128 (s : bytes) : option Z :=
  match s with
  | 45 :: digits => if bool_decide (digits = []) then None else Z.opp <$> parse_digits 10 (2 ^ 127) 0 digits
  | _ => from_str_radix 10 (2 ^ 127 - 1) s
  end.
(** The leading keys whose timestamp is before the cutoff. *)
Fixpoint stale_prefix (cutoff : Z) (keys : list bytes) : list bytes :=
  match keys with
  | [] => []
  | key :: keys =>
      match parse_i128 (take 39 key) with
      | Some at_ => if (39 <=? length key)%nat && (at_ <? cutoff) then key :: stale_prefix cutoff keys else []
      | None => []
      end
  end.
Definition save_health_check_samples (now : Z) (values : list HealthCheckSample) (db : Db) : Db :=
  let stale := stale_prefix (now - 24 * HOUR_NS) (map fst (iter (db_health db))) in
  set_health (delete_all stale (foldl (λ m s, <[sample_key s := s]> m) (db_health db) values)) db.
Definition health_check_history (now : Z) (db : Db) : list HealthCheckSample :=
  List.filter (λ s, now - 24 * HOUR_NS <=? hs_checked_at s) (map snd (iter (db_health db))).
