(* ===== verification/StoreProps.v ===== *)
(** * Properties of the store: revisions, retention, sessions

    Facts on ordered iteration and batched deletion, the refinement of the
    configuration history to the list of saved configurations, and what
    [cleanup_retention] may and may not remove. *)

From stdpp Require Import sorting.
From S2P Require Import Prelude RustStd Net ProxyProtocol AcmeDns Config RuntimeConfig Store.
Open Scope Z_scope.

(** ** Big-endian keys *)

Lemma length_be_bytes k n : length (be_bytes k n) = k.
Proof. induction k as [|k IH]; [done|]. cbn. by rewrite IH. Qed.

Lemma of_be_acc l acc : foldl (λ a b, a * 256 + b) acc l = acc * 256 ^ Z.of_nat (length l) + of_be l.
Proof.
  unfold of_be. revert acc. induction l as [|x l IH]; intros acc; cbn [foldl length]; [lia|].
  rewrite IH, (IH (0 * 256 + x)). rewrite Nat2Z.inj_succ, Z.pow_succ_r by lia. lia.
Qed.
Lemma of_be_be_bytes k n : of_be (be_bytes k n) = n mod 256 ^ Z.of_nat k.
Proof.
  induction k as [|k IH]; [cbn; by rewrite Z.mod_1_r|].
  unfold of_be. cbn [be_bytes foldl]. rewrite of_be_acc, length_be_bytes, IH. rewrite Nat2Z.inj_succ, Z.pow_succ_r by lia.
  rewrite (Z.mul_comm 256). rewrite Z.rem_mul_r by lia. lia.
Qed.
Lemma of_be_be_bytes_id k n : 0 ≤ n < 256 ^ Z.of_nat k → of_be (be_bytes k n) = n.
Proof. intros. rewrite of_be_be_bytes. by apply Z.mod_small. Qed.
Lemma be_bytes_mod k n m : Z.of_nat k ≤ m → be_bytes k (n mod 256 ^ m) = be_bytes k n.
Proof.
  induction k as [|k IH]; intros Hm; [done|]. cbn [be_bytes]. rewrite IH by lia. f_equal.
  replace (256 ^ m) with (256 ^ Z.of_nat k * 256 * 256 ^ (m - Z.of_nat (S k))).
  2:{ rewrite <-Z.mul_assoc, <-(Z.pow_succ_r 256), <-Z.pow_add_r by lia. f_equal. lia. }
  rewrite <-Z.mul_assoc, Z.rem_mul_r by lia. rewrite Z.mul_comm, Z.div_add by lia.
  rewrite Z.rem_mul_r by lia. rewrite Z.div_small, Z.add_0_l by (apply Z.mod_pos_bound; lia).
  rewrite (Z.mul_comm 256), Z.mod_add by lia. by rewrite Z.mod_mod by lia.
Qed.

(** Keys compare as the numbers they encode. *)
Lemma be_bytes_le k a b : 0 ≤ a → a ≤ b → b < 256 ^ Z.of_nat k → bytes_le (be_bytes k a) (be_bytes k b) = true.
Proof.
  revert a b. induction k as [|k IH]; intros a b Ha Hab Hb; [done|].
  rewrite Nat2Z.inj_succ, Z.pow_succ_r in Hb by lia. set (P := 256 ^ Z.of_nat k) in *. assert (0 < P) by (unfold P; lia).
  cbn [be_bytes bytes_le]. fold P.
  assert (0 ≤ a / P ∧ a / P ≤ b / P ∧ b / P < 256) as (?&?&?).
  { repeat split; [by apply Z.div_pos|by apply Z.div_le_mono|apply Z.div_lt_upper_bound; lia]. }
  rewrite !(Z.mod_small (_ / P)) by lia.
  destruct (Z.ltb_spec (a / P) (b / P)); [done|]. destruct (Z.ltb_spec (b / P) (a / P)); [lia|].
  rewrite <-(be_bytes_mod k a (Z.of_nat k)), <-(be_bytes_mod k b (Z.of_nat k)) by lia. fold P.
  pose proof (Z.mod_pos_bound a P). pose proof (Z.mod_pos_bound b P).
  pose proof (Z.div_mod a P). pose proof (Z.div_mod b P). apply IH; [lia|nia|lia].
Qed.

#[global] Arguments be_bytes : simpl never.

(** ** Iteration *)

#[global] Instance entry_le_trans {V} : Transitive (@entry_le V).
Proof. intros x y z. apply bytes_le_trans. Qed.
#[global] Instance entry_le_total {V} : Total (@entry_le V).
Proof. intros x y. apply bytes_le_total. Qed.

Lemma iter_perm {V} (m : gmap bytes V) : iter m ≡ₚ map_to_list m.
Proof. apply merge_sort_Permutation. Qed.
Lemma elem_of_iter {V} (m : gmap bytes V) k v : (k, v) ∈ iter m ↔ m !! k = Some v.
Proof. rewrite iter_perm. apply elem_of_map_to_list. Qed.
Lemma elem_of_iter_key {V} (m : gmap bytes V) k : k ∈ map fst (iter m) ↔ is_Some (m !! k).
Proof.
  split.
  - intros ([k' v]&->&Hin)%list_elem_of_fmap. apply elem_of_iter in Hin. by exists v.
  - intros (v&Hv). apply list_elem_of_fmap. exists (k, v). split; [done|]. by apply elem_of_iter.
Qed.
Lemma elem_of_iter_value {V} (m : gmap bytes V) v : v ∈ map snd (iter m) ↔ ∃ k, m !! k = Some v.
Proof.
  split.
  - intros ([k v']&->&Hin)%list_elem_of_fmap. exists k. by apply elem_of_iter.
  - intros (k&Hk). apply list_elem_of_fmap. exists (k, v). split; [done|]. by apply elem_of_iter.
Qed.
Lemma NoDup_iter_keys {V} (m : gmap bytes V) : NoDup (map fst (iter m)).
Proof. rewrite iter_perm. apply NoDup_fst_map_to_list. Qed.

(** A list of entries in key order is what iteration over its map gives. *)
Lemma iter_list_to_map {V} (l : list (bytes * V)) : StronglySorted entry_le l → NoDup (l.*1) → iter (list_to_map l) = l.
Proof.
  intros Hs Hn. unfold iter. apply (StronglySorted_unique_strong entry_le).
  - intros [k v] [k' v'] Hin Hin' H1 H2. assert (k = k') as <- by (by apply bytes_le_antisym). f_equal.
    rewrite merge_sort_Permutation, map_to_list_to_map in Hin by done.
    apply (elem_of_list_to_map (M := gmap bytes)) in Hin, Hin'; [|done..]. congruence.
  - apply StronglySorted_merge_sort; apply _.
  - done.
  - rewrite merge_sort_Permutation. by apply map_to_list_to_map.
Qed.

Lemma delete_all_in {V} (keys : list bytes) (m : gmap bytes V) (k : bytes) : k ∈ keys → delete_all keys m !! k = None.
Proof.
  unfold delete_all. induction keys as [|x keys IH]; cbn; [set_solver|]. intros Hin.
  destruct (decide (k = x)) as [->|Hne]; [apply lookup_delete_eq|]. rewrite lookup_delete_ne by done. apply IH. set_solver.
Qed.
Lemma delete_all_notin {V} (keys : list bytes) (m : gmap bytes V) (k : bytes) : k ∉ keys → delete_all keys m !! k = m !! k.
Proof.
  unfold delete_all. induction keys as [|x keys IH]; cbn; [done|]. intros Hin. rewrite lookup_delete_ne by set_solver. apply IH. set_solver.
Qed.
(** Deleting the keys of the entries that satisfy [f] keeps the others. *)
Lemma delete_filtered {V} (f : V → bool) (m : gmap bytes V) k v :
  delete_all (map fst (List.filter (λ kv, f kv.2) (iter m))) m !! k = Some v ↔ m !! k = Some v ∧ f v = false.
Proof.
  set (keys := map fst _).
  assert (k ∈ keys ↔ ∃ v, m !! k = Some v ∧ f v = true) as Hk.
  { unfold keys. setoid_rewrite <-elem_of_iter. split.
    - intros ([k' v']&->&[Hin ?]%filter_elem)%list_elem_of_fmap. by exists v'.
    - intros (v'&Hin&Hf). apply list_elem_of_fmap. exists (k, v'). split; [done|]. by apply filter_elem. }
  destruct (decide (k ∈ keys)) as [Hin|Hin].
  - rewrite delete_all_in by done. apply Hk in Hin as (v'&?&?). split; [done|]. intros [? ?]. congruence.
  - rewrite delete_all_notin by done. split; [|by intros [? _]]. intros Hv. split; [done|].
    destruct (f v) eqn:Ef; [|done]. destruct Hin. apply Hk. by exists v.
Qed.
Lemma delete_prefix {V} (l1 l2 : list (bytes * V)) (keys : list bytes) :
  NoDup ((l1 ++ l2).*1) → keys ≡ₚ l1.*1 → delete_all keys (list_to_map (l1 ++ l2)) = (list_to_map l2 : gmap bytes V).
Proof.
  rewrite fmap_app. intros (Hn1&Hd&Hn2)%NoDup_app Hk. apply map_eq. intros k. destruct (decide (k ∈ keys)) as [Hin|Hin].
  - rewrite delete_all_in by done. rewrite Hk in Hin. symmetry. apply not_elem_of_list_to_map_1. by apply Hd.
  - rewrite delete_all_notin by done. rewrite Hk in Hin. rewrite list_to_map_app.
    rewrite lookup_union_r; [done|]. by apply not_elem_of_list_to_map_1.
Qed.

(** ** The configuration history *)

Definition history_entry (s : StoredConfig) : bytes * StoredConfig := (be_bytes 8 (revision s), s).
Fixpoint numbered (n : Z) (l : list StoredConfig) : Prop :=
  match l with [] => True | s :: l => revision s = n ∧ numbered (n + 1) l end.

Lemma numbered_app n l l' : numbered n (l ++ l') ↔ numbered n l ∧ numbered (n + Z.of_nat (length l)) l'.
Proof.
  revert n. induction l as [|s l IH]; intros n; cbn [app numbered length]; [replace (n + Z.of_nat 0) with n by lia; naive_solver|].
  rewrite IH. replace (n + 1 + Z.of_nat (length l)) with (n + Z.of_nat (S (length l))) by lia. naive_solver.
Qed.
Lemma numbered_drop n k l : numbered n l → numbered (n + Z.of_nat k) (drop k l).
Proof.
  revert n l. induction k as [|k IH]; intros n [|s l]; cbn [drop numbered]; [done| |done|]; [by rewrite Z.add_0_r|]. intros [_ H].
  apply IH in H. by replace (n + Z.of_nat (S k)) with (n + 1 + Z.of_nat k) by lia.
Qed.
Lemma numbered_bounds n l : numbered n l → Forall (λ s, n ≤ revision s < n + Z.of_nat (length l)) l.
Proof.
  revert n. induction l as [|s l IH]; intros n; cbn [numbered length]; [constructor|]. intros [Hs Hl]. constructor; [lia|].
  eapply Forall_impl; [by apply IH|]. cbn. intros; lia.
Qed.
Lemma numbered_last n l s : numbered n l → last l = Some s → revision s = n + Z.of_nat (length l) - 1.
Proof.
  destruct l as [|s' l] using rev_ind; [done|]. rewrite last_snoc. intros H [= ->]. apply numbered_app in H as [_ [H _]].
  rewrite H, length_app. cbn. lia.
Qed.

Lemma entries_sorted n l : 0 ≤ n → n + Z.of_nat (length l) ≤ 2 ^ 64 → numbered n l → StronglySorted entry_le (history_entry <$> l).
Proof.
  revert n. induction l as [|s l IH]; intros n Hn Hb; cbn [numbered length fmap list_fmap] in *; [constructor|]. intros [Hs Hl].
  constructor; [apply (IH (n + 1)); [lia|lia|done]|]. apply Forall_fmap. eapply Forall_impl; [by apply numbered_bounds|].
  intros s' Hs'. cbv beta in Hs'. apply be_bytes_le; [lia|lia|]. change (256 ^ Z.of_nat 8) with (2 ^ 64). lia.
Qed.
Lemma entries_NoDup n l : 0 ≤ n → n + Z.of_nat (length l) ≤ 2 ^ 64 → numbered n l → NoDup ((history_entry <$> l).*1).
Proof.
  revert n. induction l as [|s l IH]; intros n Hn Hb; cbn [numbered length fmap list_fmap] in *; [constructor|]. intros [Hs Hl].
  constructor; [|apply (IH (n + 1)); [lia|lia|done]]. intros Hin. apply list_elem_of_fmap in Hin as (?&Heq&(s'&->&Hin)%list_elem_of_fmap).
  cbn [fst history_entry] in Heq. apply (f_equal of_be) in Heq. apply numbered_bounds in Hl. rewrite Forall_forall in Hl. specialize (Hl s' Hin).
  rewrite !of_be_be_bytes_id in Heq by (change (256 ^ Z.of_nat 8) with (2 ^ 64); lia). lia.
Qed.

(** The database after the configurations [saved], oldest first: the history
    holds the latest of them, 50 at least once anything was dropped. *)
Record history_of (saved : list StoredConfig) (db : Db) : Prop := {
  ho_numbered : numbered 1 saved;
  ho_bound : Z.of_nat (length saved) ≤ u64_max;
  ho_config : db_config db = last saved;
  ho_revision : db_revision db = (λ s, be_bytes 8 (revision s)) <$> last saved;
  ho_history : ∃ k, (k = 0 ∨ HISTORY_KEPT + k ≤ length saved)%nat ∧ db_history db = list_to_map (history_entry <$> drop k saved);
}.

Lemma u64_max_pow : u64_max = 2 ^ 64 - 1.
Proof. reflexivity. Qed.

Lemma history_of_iter saved db : history_of saved db →
  ∃ k, (k = 0 ∨ HISTORY_KEPT + k ≤ length saved)%nat ∧ db_history db = list_to_map (history_entry <$> drop k saved)
    ∧ iter (db_history db) = history_entry <$> drop k saved ∧ NoDup ((history_entry <$> drop k saved).*1).
Proof.
  intros []. destruct ho_history0 as (k&Hk&Hh). exists k. split; [done|]. split; [done|]. apply (numbered_drop _ k) in ho_numbered0.
  rewrite u64_max_pow in *. destruct (decide (k ≤ length saved)%nat).
  - assert (NoDup ((history_entry <$> drop k saved).*1)) by (apply (entries_NoDup (1 + Z.of_nat k)); [lia|rewrite length_drop; lia|done]).
    split; [|done]. rewrite Hh. apply iter_list_to_map; [|done]. apply (entries_sorted (1 + Z.of_nat k)); [lia|rewrite length_drop; lia|done].
  - rewrite Hh, drop_ge by lia. split; [done|constructor].
Qed.

Lemma history_of_put saved db s audit :
  history_of saved db → revision s = Z.of_nat (length saved) + 1 → revision s ≤ u64_max → history_of (saved ++ [s]) (put_config s audit db).
Proof.
  intros [Hn Hb Hc Hr (k&Hk&Hh)] Hs Hmax. unfold u64_max in *. unfold put_config. split; cbn.
  - apply numbered_app. cbn [numbered]. split; [done|]. split; [lia|done].
  - rewrite length_app. cbn [length]. unfold u64_max. lia.
  - by rewrite last_snoc.
  - by rewrite last_snoc.
  - exists k. rewrite length_app. cbn [length]. unfold HISTORY_KEPT in *. split; [lia|]. rewrite drop_app_le by lia. rewrite fmap_app, Hh. cbn.
    symmetry. apply (list_to_map_snoc (M := gmap bytes)). intros Hin. apply list_elem_of_fmap in Hin as (?&Heq&(s'&->&Hin)%list_elem_of_fmap).
    cbn [fst history_entry] in Heq. apply (f_equal of_be) in Heq. apply (numbered_drop _ k), numbered_bounds in Hn. rewrite Forall_forall in Hn. specialize (Hn s' Hin).
    rewrite length_drop in Hn. rewrite !of_be_be_bytes_id in Heq by (change (256 ^ Z.of_nat 8) with (2 ^ 64); lia). lia.
Qed.

(** Operations elsewhere in the database. *)
Definition same_config (db db' : Db) : Prop :=
  db_config db' = db_config db ∧ db_revision db' = db_revision db ∧ db_history db' = db_history db.
Lemma history_of_same saved db db' : same_config db db' → history_of saved db → history_of saved db'.
Proof. intros (Hc&Hr&Hh) []. split; rewrite ?Hc, ?Hr, ?Hh; done. Qed.

Lemma current_revision_of saved db : history_of saved db → current_revision db = Ok (Z.of_nat (length saved)).
Proof.
  intros []. unfold current_revision. rewrite ho_revision0. destruct (last saved) as [s|] eqn:El; cbn.
  - rewrite length_be_bytes. cbn. apply (numbered_last 1) in El; [|done].
    unfold u64_max in *. rewrite of_be_be_bytes_id; [f_equal; lia|]. change (256 ^ Z.of_nat 8) with (2 ^ 64). lia.
  - apply last_None in El as ->. done.
Qed.

Lemma history_of_cleanup saved db now per days : history_of saved db → history_of saved (cleanup_retention now per days db).2.
Proof.
  intros Hh. pose proof (history_of_iter _ _ Hh) as (k&Hk&Hm&Hi&Hnd). destruct Hh as [Hn Hb Hc Hr _].
  split; [done..|]. unfold cleanup_retention. cbn [snd db_history]. rewrite Hi, Hm. set (l := drop k saved) in *.
  set (n := (length l - HISTORY_KEPT)%nat).
  exists (k + n)%nat. split. { unfold n, l. rewrite length_drop. unfold HISTORY_KEPT in *. lia. }
  rewrite <-drop_drop. fold l.
  rewrite skipn_rev, map_rev, length_fmap. fold n. rewrite <-fmap_take.
  rewrite <-(take_drop n l) at 2. rewrite fmap_app. apply delete_prefix.
  - by rewrite <-fmap_app, take_drop.
  - by rewrite <-Permutation_rev.
Qed.

(** The life of the configuration: set up, saved, cleaned up, in any order,
    among operations that do not touch it. *)
Inductive config_run (canonicalize : bytes → option bytes) (is_dir : bytes → bool) : list StoredConfig → Db → Prop :=
| run_empty : config_run canonicalize is_dir [] db_empty
| run_bootstrap saved db now key_now config administrator r db' :
    config_run canonicalize is_dir saved db → bootstrap canonicalize is_dir now key_now config administrator db = (r, db') →
    config_run canonicalize is_dir (saved ++ match r with Ok s => [s] | Err _ => [] end) db'
| run_save saved db now key_now config by_ r db' :
    config_run canonicalize is_dir saved db → save_config canonicalize is_dir now key_now config by_ db = (r, db') →
    config_run canonicalize is_dir (saved ++ match r with Ok s => [s] | Err _ => [] end) db'
| run_cleanup saved db now per days :
    config_run canonicalize is_dir saved db → config_run canonicalize is_dir saved (cleanup_retention now per days db).2
| run_other saved db db' : config_run canonicalize is_dir saved db → same_config db db' → config_run canonicalize is_dir saved db'.

Lemma bootstrap_history canonicalize is_dir saved db now key_now config administrator r db' :
  history_of saved db → bootstrap canonicalize is_dir now key_now config administrator db = (r, db') →
  history_of (saved ++ match r with Ok s => [s] | Err _ => [] end) db'.
Proof.
  intros Hh. unfold bootstrap. assert (∀ e : store_error, (Err e, db) = (r, db') →
    history_of (saved ++ match r with Ok s => [s] | Err _ => [] end) db') as Herr by (intros e [= <- <-]; by rewrite app_nil_r).
  destruct (is_initialized db) eqn:Ei; [apply Herr|]. destruct (_ || _); [apply Herr|]. destruct (validate _ _ _); [|apply Herr].
  match goal with |- (match ?c with _ => _ end = _) → _ => destruct c as [cd|] end; [|apply Herr]. intros [= <- <-].
  unfold is_initialized in Ei. apply bool_decide_eq_false_1 in Ei. pose proof (ho_config _ _ Hh) as Hc.
  assert (saved = []) as -> by (apply last_None; destruct (last saved); [by destruct Ei; rewrite Hc|done]).
  eapply history_of_same; [|apply (history_of_put [] db (MkStored 1 now (ur_username administrator) config) (audit_key key_now (lit "bootstrap") 1,
    MkAudit (lit "initial_setup_completed") (Some now) (Some (ur_username administrator)) None None)); [done|done|done]].
  by destruct cd.
Qed.
Lemma save_config_history canonicalize is_dir saved db now key_now config by_ r db' :
  history_of saved db → save_config canonicalize is_dir now key_now config by_ db = (r, db') →
  history_of (saved ++ match r with Ok s => [s] | Err _ => [] end) db'.
Proof.
  intros Hh. unfold save_config. destruct (validate _ _ _). 2: { intros [= <- <-]. by rewrite app_nil_r. }
  rewrite (current_revision_of saved) by done.
  destruct (Z.leb_spec u64_max (Z.of_nat (length saved))); intros [= <- <-]; [by rewrite app_nil_r|].
  apply history_of_put; [done|cbn; lia|cbn; lia].
Qed.
Lemma config_run_history canonicalize is_dir saved db : config_run canonicalize is_dir saved db → history_of saved db.
Proof.
  induction 1.
  - split; [done..|]. exists 0%nat. split; [by left|done].
  - by eapply bootstrap_history.
  - by eapply save_config_history.
  - by apply history_of_cleanup.
  - by eapply history_of_same.
Qed.

(** C22: the configuration history is the list of saved configurations.  After
    any sequence of set-ups, saves, clean-ups and unrelated operations, with
    failures among them, the revisions of the saved configurations are 1, 2,
    3, ... in order, the stored configuration is the last one saved, and the
    history returns the latest saved configurations, newest first, as many
    as asked for up to the 50 that clean-up keeps. *)
Theorem history_is_saved canonicalize is_dir saved db limit :
  config_run canonicalize is_dir saved db → (limit ≤ HISTORY_KEPT)%nat →
  revision <$> saved = Z.of_nat <$> seq 1 (length saved)
  ∧ load_config db = last saved
  ∧ config_history limit db = take limit (rev saved)
  ∧ (∀ s, s ∈ take HISTORY_KEPT (rev saved) → config_revision (revision s) db = Some s).
Proof.
  intros Hh%config_run_history Hl. pose proof (history_of_iter _ _ Hh) as (k&Hk&Hm&Hi&Hnd). destruct Hh as [Hn Hb Hc Hr _].
  split.
  { clear -Hn. change 1 with (Z.of_nat 1) in Hn. revert Hn. generalize 1%nat. induction saved as [|s saved IH]; intros n; cbn; [done|].
    intros [-> Hn]. f_equal. apply (IH (S n)). by replace (Z.of_nat (S n)) with (Z.of_nat n + 1) by lia. }
  split; [done|].
  assert (∀ m, (m ≤ HISTORY_KEPT)%nat → take m (rev (drop k saved)) = take m (rev saved)) as Htake.
  { intros m Hm'. rewrite !firstn_rev, length_drop, drop_drop. f_equal. f_equal. lia. }
  split.
  - unfold config_history. rewrite Hi. rewrite <-Htake by done. rewrite <-map_rev, firstn_map, map_map. apply map_id.
  - intros s. rewrite <-Htake by done. intros Hin. unfold config_revision. rewrite Hm. apply (elem_of_list_to_map (M := gmap bytes)); [done|].
    apply list_elem_of_fmap. exists s. split; [done|]. apply list_elem_of_In, in_rev, list_elem_of_In. rewrite <-(take_drop HISTORY_KEPT (rev (drop k saved))). apply elem_of_app. by left.
Qed.

(** ** Retention *)

Lemma StronglySorted_list_filter {A} (R : relation A) (f : A → bool) l : StronglySorted R l → StronglySorted R (List.filter f l).
Proof.
  induction 1 as [|x l Hs IH Hx]; cbn; [constructor|]. destruct (f x); [|done]. constructor; [done|].
  rewrite Forall_forall in *. intros y [Hy _]%filter_elem. auto.
Qed.
Lemma Permutation_list_filter {A} (f : A → bool) l l' : l ≡ₚ l' → List.filter f l ≡ₚ List.filter f l'.
Proof.
  induction 1 as [|x|x y|]; cbn; repeat destruct (f _); try done; [by constructor|by constructor|by etrans].
Qed.

(** The newer of two entries comes first. *)
Definition newer (a b : bytes * CertificateGeneration) : Prop := issued_le (cg_issued_at b.2) (cg_issued_at a.2) = true.
Lemma newer_trans a b c : newer a b → newer b c → newer a c.
Proof. unfold newer, issued_le. repeat case_goal; try done. intros; lia. Qed.
Lemma newer_total a b : newer a b ∨ newer b a.
Proof. unfold newer, issued_le. repeat case_goal; auto; rewrite !Z.leb_le; lia. Qed.

Lemma insert_by_issued_perm x l : insert_by_issued x l ≡ₚ x :: l.
Proof. induction l as [|y l IH]; cbn; [done|]. destruct (issued_le _ _); [done|]. rewrite IH. apply Permutation_swap. Qed.
Lemma sort_by_issued_perm l : sort_by_issued l ≡ₚ l.
Proof. induction l as [|x l IH]; [done|]. unfold sort_by_issued in *. cbn. by rewrite insert_by_issued_perm, IH. Qed.
Lemma insert_by_issued_sorted x l : StronglySorted newer l → StronglySorted newer (insert_by_issued x l).
Proof.
  induction 1 as [|y l Hs IH Hy]; cbn; [by repeat constructor|]. destruct (issued_le _ _) eqn:E.
  - constructor; [by constructor|]. constructor; [done|]. eapply Forall_impl; [done|]. intros z. by apply newer_trans.
  - constructor; [done|]. rewrite insert_by_issued_perm. constructor; [|done]. destruct (newer_total x y) as [H|H]; [|done].
    unfold newer in H. congruence.
Qed.
Lemma sort_by_issued_sorted l : StronglySorted newer (sort_by_issued l).
Proof. induction l as [|x l IH]; [constructor|]. by apply insert_by_issued_sorted. Qed.

Definition is_active (active : option bytes) (g : CertificateGeneration) : bool := bool_decide (active = Some (cg_id g)).
Lemma surplus_drop active limit values :
  surplus active limit values = map fst (drop limit (List.filter (λ kv, negb (is_active active kv.2)) values)).
Proof.
  revert limit. induction values as [|[k g] values IH]; intros limit; [by destruct limit|].
  cbn [surplus List.filter]. unfold is_active at 1. cbn [snd]. destruct (bool_decide _); cbn [negb]; [apply IH|].
  destruct limit as [|limit]; cbn [drop map]; rewrite IH; [by rewrite drop_0|done].
Qed.

(** The superseded generations of a certificate. *)
Definition inactive_of (db : Db) (certificate_id : bytes) (kv : bytes * CertificateGeneration) : bool :=
  eqb_bytes (cg_certificate_id kv.2) certificate_id && negb (is_active (db_active db !! certificate_id) kv.2).
Definition inactive_generations (db : Db) (certificate_id : bytes) : list (bytes * CertificateGeneration) :=
  List.filter (inactive_of db certificate_id) (iter (db_generations db)).
Definition inactive_limit (db : Db) (per_certificate : nat) (certificate_id : bytes) : nat :=
  (per_certificate - match db_active db !! certificate_id with Some _ => 1 | None => 0 end)%nat.

(** One certificate: its superseded generations, newest first, are split
    into those that stay and those that go. *)
Lemma certificate_surplus_split db per c :
  ∃ kept gone, inactive_generations db c ≡ₚ kept ++ gone ∧ certificate_surplus db per c = map fst gone
    ∧ length kept = Nat.min (inactive_limit db per c) (length (inactive_generations db c))
    ∧ (∀ x y, x ∈ kept → y ∈ gone → newer x y).
Proof.
  unfold certificate_surplus. fold (inactive_limit db per c). rewrite surplus_drop.
  set (values := List.filter _ (iter _)). set (sorted := List.filter _ (sort_by_issued values)).
  assert (inactive_generations db c ≡ₚ sorted) as Hp.
  { unfold sorted. rewrite (Permutation_list_filter _ _ _ (sort_by_issued_perm values)). unfold values, inactive_generations, inactive_of.
    clear. induction (iter (db_generations db)) as [|x l IH]; cbn; [done|]. destruct (eqb_bytes _ _); cbn; [|done].
    destruct (negb _); [by constructor|done]. }
  exists (take (inactive_limit db per c) sorted), (drop (inactive_limit db per c) sorted). split; [by rewrite take_drop|]. split; [done|].
  split; [by rewrite length_take, Hp|]. intros x y Hx Hy. eapply StronglySorted_app_1_elem_of; [|done..]. rewrite take_drop.
  apply StronglySorted_list_filter, sort_by_issued_sorted.
Qed.

Lemma inactive_key db c k g : (k, g) ∈ inactive_generations db c ↔
  db_generations db !! k = Some g ∧ cg_certificate_id g = c ∧ is_active (db_active db !! c) g = false.
Proof.
  unfold inactive_generations, inactive_of. rewrite filter_elem, elem_of_iter. cbn.
  rewrite andb_true_iff, negb_true_iff. unfold eqb_bytes. rewrite bool_decide_eq_true. tauto.
Qed.

Lemma surplus_key db per c k : k ∈ certificate_surplus db per c → ∃ g, (k, g) ∈ inactive_generations db c.
Proof.
  destruct (certificate_surplus_split db per c) as (kept&gone&Hp&->&_&_). intros ([k' g]&->&Hin)%list_elem_of_fmap. exists g.
  rewrite Hp. apply elem_of_app. by right.
Qed.
Lemma surplus_keys db per k g : db_generations db !! k = Some g →
  k ∈ certificate_ids db ≫= certificate_surplus db per ↔ k ∈ certificate_surplus db per (cg_certificate_id g).
Proof.
  intros Hg. rewrite list_elem_of_bind. split.
  - intros (c&Hk&_). pose proof (surplus_key _ _ _ _ Hk) as (g'&(Hg'&<-&_)%inactive_key). by simplify_eq.
  - intros Hk. exists (cg_certificate_id g). split; [done|]. unfold certificate_ids. apply elem_of_elements, elem_of_list_to_set.
    apply list_elem_of_fmap. exists (k, g). split; [done|]. by apply elem_of_iter.
Qed.
Lemma cleanup_generations now per days db k g :
  db_generations (cleanup_retention now per days db).2 !! k = Some g ↔
  db_generations db !! k = Some g ∧ k ∉ certificate_surplus db per (cg_certificate_id g).
Proof.
  unfold cleanup_retention. cbn [snd db_generations]. set (keys := _ ≫= _). destruct (decide (k ∈ keys)) as [Hin|Hin].
  - rewrite delete_all_in by done. split; [done|]. intros [Hg Hn]. destruct Hn. by apply (surplus_keys db per k g Hg).
  - rewrite delete_all_notin by done. split; [|tauto]. intros Hg. split; [done|]. by rewrite <-(surplus_keys db per k g Hg).
Qed.

Lemma cleanup_keeps_active now per days db k g :
  db_generations db !! k = Some g → db_active db !! cg_certificate_id g = Some (cg_id g) →
  db_generations (cleanup_retention now per days db).2 !! k = Some g.
Proof.
  intros Hg Ha. apply cleanup_generations. split; [done|]. intros (g'&(Hg'&_&Hi)%inactive_key)%surplus_key.
  rewrite Hg in Hg'. injection Hg' as <-. unfold is_active in Hi. by rewrite bool_decide_eq_false, Ha in Hi.
Qed.

(** A key is in one part only. *)
Lemma split_disjoint db c kept gone k g : inactive_generations db c ≡ₚ kept ++ gone → (k, g) ∈ kept → k ∉ map fst gone.
Proof.
  intros Hp Hin ([k' g']&Hk&Hin')%list_elem_of_fmap. cbn in Hk. subst k'.
  assert (NoDup (map fst (kept ++ gone))) as Hn.
  { rewrite <-Hp. apply NoDup_map_filter, NoDup_iter_keys. }
  rewrite map_app in Hn. apply NoDup_app in Hn as (_&Hd&_). apply (Hd k); [by apply (list_elem_of_fmap_2 fst _ (k, g))|by apply (list_elem_of_fmap_2 fst _ (k, g'))].
Qed.

Lemma NoDup_inactive db c : NoDup (inactive_generations db c).
Proof. apply NoDup_ListNoDup, List.NoDup_filter, NoDup_ListNoDup. rewrite iter_perm. apply NoDup_map_to_list. Qed.

(** C26: retention removes what it should and nothing else.  The clean-up keeps
    exactly the unexpired sessions and the audit entries that are not older
    than the cutoff; it never removes the active generation of a
    certificate; of the superseded generations of each certificate it keeps
    as many as the limit allows and no more, and none of those it removes is
    newer than one it keeps.  Users, tokens, certificates and the active
    pointers stay as they are. *)
Theorem retention_exact now per days db :
  let db' := (cleanup_retention now per days db).2 in
  (∀ k s, db_sessions db' !! k = Some s ↔ db_sessions db !! k = Some s ∧ session_expired now s = false)
  ∧ (∀ k a, db_audit db' !! k = Some a ↔
       db_audit db !! k = Some a ∧ (∀ at_, au_timestamp a = Some at_ → now - Z.max days 1 * DAY_NS ≤ at_))
  ∧ (∀ k g, db_generations db !! k = Some g → db_active db !! cg_certificate_id g = Some (cg_id g) → db_generations db' !! k = Some g)
  ∧ (∀ c, length (inactive_generations db' c) = Nat.min (inactive_limit db per c) (length (inactive_generations db c)))
  ∧ (∀ c x y, x ∈ inactive_generations db' c → y ∈ inactive_generations db c → y ∉ inactive_generations db' c → newer x y)
  ∧ (∀ c x, x ∈ inactive_generations db' c → x ∈ inactive_generations db c)
  ∧ db_users db' = db_users db ∧ db_tokens db' = db_tokens db ∧ db_certificates db' = db_certificates db
  ∧ db_domain_index db' = db_domain_index db ∧ db_active db' = db_active db.
Proof.
  intros db'.
  assert (∀ c kept gone, inactive_generations db c ≡ₚ kept ++ gone → certificate_surplus db per c = map fst gone →
    ∀ x, x ∈ inactive_generations db' c ↔ x ∈ kept) as Hkept.
  { intros c kept gone Hp Hs [k g]. unfold db'. rewrite inactive_key. rewrite cleanup_generations. split.
    - intros ([Hg Hn]&<-&Ha). rewrite Hs in Hn. assert ((k, g) ∈ kept ++ gone) as [?|Hin]%elem_of_app; [|done|].
      + rewrite <-Hp. by apply inactive_key.
      + destruct Hn. by apply (list_elem_of_fmap_2 fst _ (k, g)).
    - intros Hin. assert ((k, g) ∈ inactive_generations db c) as (Hg&Hc&Ha)%inactive_key by (rewrite Hp; apply elem_of_app; by left).
      rewrite Hc, Hs. split; [|done]. split; [done|]. by eapply split_disjoint. }
  split; [intros k s; apply (delete_filtered (session_expired now))|].
  split.
  { intros k a. unfold db', cleanup_retention. cbn [snd db_audit].
    rewrite (delete_filtered (λ a, match au_timestamp a with Some at_ => at_ <? now - Z.max days 1 * DAY_NS | None => false end)).
    destruct (au_timestamp a) as [t|]; [rewrite Z.ltb_ge|]; naive_solver. }
  split.
  { intros k g. apply cleanup_keeps_active. }
  split; [|split; [|split]].
  - intros c. destruct (certificate_surplus_split db per c) as (kept&gone&Hp&Hs&Hl&_). rewrite <-Hl. apply Permutation_length.
    apply NoDup_Permutation; [| |by apply Hkept with (gone := gone)].
    + apply NoDup_inactive.
    + pose proof (NoDup_inactive db c) as Hn. rewrite Hp in Hn. by apply NoDup_app in Hn as (?&_&_).
  - intros c x y Hx Hy Hny. destruct (certificate_surplus_split db per c) as (kept&gone&Hp&Hs&_&Hnew).
    rewrite (Hkept c kept gone Hp Hs) in Hx, Hny. apply Hnew; [done|]. rewrite Hp in Hy. set_solver.
  - intros c x. destruct (certificate_surplus_split db per c) as (kept&gone&Hp&Hs&_&_). rewrite (Hkept c kept gone Hp Hs), Hp. set_solver.
  - done.
Qed.

(** ** Examples *)

Module StoreExample.
Definition admin : UserRecord := MkUserRecord (lit "admin") (lit "$argon2id$hash") true (Some 1) false.
Definition first_run : result store_error StoredConfig * Db := bootstrap Some (λ _, true) 10 11 sample_config admin db_empty.
Definition second_run : result store_error StoredConfig * Db := save_config Some (λ _, true) 20 21 sample_config (lit "ops") first_run.2.
Definition cleaned : Db := (cleanup_retention 30 3 90 second_run.2).2.
Definition saved (n now : Z) (who : bytes) : StoredConfig := MkStored n now who sample_config.

Lemma history_is_saved_witness : config_history 1 cleaned = [saved 2 20 (lit "ops")].
Proof.
  assert (config_run Some (λ _, true) (([] ++ [saved 1 10 (lit "admin")]) ++ [saved 2 20 (lit "ops")]) cleaned) as Hrun.
  { apply run_cleanup.
    apply (run_save Some (λ _, true) _ first_run.2 20 21 sample_config (lit "ops") (Ok (saved 2 20 (lit "ops"))) second_run.2); [|vm_compute; reflexivity].
    apply (run_bootstrap Some (λ _, true) [] db_empty 10 11 sample_config admin (Ok (saved 1 10 (lit "admin"))) first_run.2); [constructor|vm_compute; reflexivity]. }
  destruct (history_is_saved Some (λ _, true) _ cleaned 1 Hrun) as (_&_&H&_); [unfold HISTORY_KEPT; lia|]. exact H.
Defined.

(** Four generations, the last one active, a limit of three: the oldest
    goes. *)
Definition generation (id : bytes) (at_ : Z) : CertificateGeneration :=
  MkGeneration id (lit "example.com") [] [] [] [] None None (Some at_).
Definition four : Db :=
  set_generations (list_to_map (map (λ g, (generation_key (cg_certificate_id g) (cg_id g), g))
    [generation (lit "g3") 3; generation (lit "g1") 1; generation (lit "g4") 4; generation (lit "g2") 2]))
    {[lit "example.com" := lit "g4"]} ∅ db_empty.
Example oldest_goes : map cg_id (map snd (iter (db_generations (cleanup_retention 9 3 90 four).2))) = [lit "g2"; lit "g3"; lit "g4"].
Proof. vm_compute. reflexivity. Qed.
End StoreExample.
