(* ===== verification/StoreExport.v ===== *)
(** * JSON export and import of the database (src/store/mod.rs)

    The raw column families, keyed by name, as [export_json] and
    [import_json] see them.  The base64 engine is a parameter; the JSON text
    around the entries is serde's. *)

From stdpp Require Import sorting.
From S2P Require Import Prelude RustStd Net Store StoreProps.
Open Scope Z_scope.

(** ** The column families *)

Definition CF_HEALTH_CHECK_STATUS : bytes := lit "health_check_status".
Definition ALL_CFS : list bytes :=
  map lit ["metadata"; "config"; "config_history"; "providers"; "accounts"; "certificates"; "domain_index"; "generations"; "active_generations";
           "renewals"; "tokens"; "users"; "sessions"; "audit"; "dns_diagnostics"; "health_check_status"]%string.
(** ["default"] and all of them but the health samples. *)
Definition exported_cfs : list bytes := List.filter (λ name, negb (eqb_bytes name CF_HEALTH_CHECK_STATUS)) (lit "default" :: ALL_CFS).

Abbreviation Families := (gmap bytes (gmap bytes bytes)).

Record RocksDbJsonEntry := MkEntry { key_base64 : bytes; value_base64 : bytes }.
Record RocksDbJsonExport := MkExport {
  ex_format : bytes;
  ex_schema_version : Z;
  ex_exported_at : Z;
  ex_column_families : gmap bytes (list RocksDbJsonEntry);
}.
Definition EXPORT_FORMAT : bytes := lit "tlsproxy-rocksdb-json-v1".

Inductive import_error := MissingFamily | BadFormat | BadVersion | UnknownFamily | NothingSelected | BadKey | BadValue.

Section base64.
Context (encode : bytes → bytes) (decode : bytes → option bytes).

(** ** Export *)

Definition export_entry (kv : bytes * bytes) : RocksDbJsonEntry := MkEntry (encode kv.1) (encode kv.2).
Definition export_family (db : Families) (acc : gmap bytes (list RocksDbJsonEntry)) (name : bytes) : result import_error (gmap bytes (list RocksDbJsonEntry)) :=
  match db !! name with
  | None => Err MissingFamily
  | Some family => Ok (<[name := map export_entry (iter family)]> acc)
  end.
Definition export_json (now : Z) (db : Families) : result import_error RocksDbJsonExport :=
  families ← foldM (export_family db) ∅ exported_cfs;
  Ok (MkExport EXPORT_FORMAT SCHEMA_VERSION now families).

(** ** Import *)

(** The batch built so far: the database it leads to and the count. *)
Definition import_entry (acc : gmap bytes bytes * nat) (entry : RocksDbJsonEntry) : result import_error (gmap bytes bytes * nat) :=
  match decode (key_base64 entry) with
  | None => Err BadKey
  | Some key =>
      match decode (value_base64 entry) with
      | None => Err BadValue
      | Some value => Ok (<[key := value]> acc.1, S acc.2)
      end
  end.
(** One family of the export; [db] is the stored database, which the loop
    reads, [acc.1] the effect of the batch. *)
Definition import_family (clear_existing : bool) (selected : option (gset bytes)) (db : Families) (acc : Families * nat)
  (item : bytes * list RocksDbJsonEntry) : result import_error (Families * nat) :=
  let '(name, entries) := item in
  guard! bool_decide (name ∈ exported_cfs) else UnknownFamily;
  if match selected with Some s => negb (bool_decide (name ∈ s)) | None => false end then Ok acc
  else match db !! name with
       | None => Err MissingFamily
       | Some family =>
           r ← foldM import_entry (if clear_existing then ∅ else family, acc.2) entries;
           Ok (<[name := r.1]> acc.1, r.2)
       end.
Definition import_json (export : RocksDbJsonExport) (clear_existing : bool) (selected : option (gset bytes)) (db : Families)
  : result import_error nat * Families :=
  match (guard! eqb_bytes (ex_format export) EXPORT_FORMAT else BadFormat;
         guard! (ex_schema_version export =? SCHEMA_VERSION) else BadVersion;
         guard! match selected with Some s => forallb (λ name, bool_decide (name ∈ exported_cfs)) (elements s) | None => true end else UnknownFamily;
         guard! match selected with Some s => negb (bool_decide (s = ∅)) | None => true end else NothingSelected;
         foldM (import_family clear_existing selected db) (db, 0%nat) (iter (ex_column_families export))) with
  | Ok (db', imported) => (Ok imported, db')
  | Err e => (Err e, db)
  end.

(** ** Round trip *)

Context (decode_encode : ∀ s, decode (encode s) = Some s).

Lemma import_entries (l : list (bytes * bytes)) m n :
  foldM import_entry (m, n) (map export_entry l) = Ok (foldl (λ m kv, <[kv.1 := kv.2]> m) m l, (n + length l)%nat).
Proof.
  revert m n. induction l as [|[k v] l IH]; intros m n; cbn; [by rewrite Nat.add_0_r|]. assert (import_entry (m, n) (export_entry (k, v)) = Ok (<[k := v]> m, S n)) as -> by (unfold import_entry; cbn; by rewrite !decode_encode).
  cbn. rewrite IH. by replace (S n + length l)%nat with (n + S (length l))%nat by lia.
Qed.
Lemma foldl_entries {V} (l : list (bytes * V)) : NoDup (map fst l) → foldl (λ m kv, <[kv.1 := kv.2]> m) ∅ l = (list_to_map l : gmap bytes V).
Proof.
  intros Hn. enough (∀ m : gmap bytes V, foldl (λ m kv, <[kv.1 := kv.2]> m) m l = list_to_map l ∪ m) as H by (by rewrite H, (right_id_L ∅ (∪))).
  induction l as [|[k v] l IH]; intros m; cbn; [by rewrite (left_id_L ∅ (∪))|]. apply NoDup_cons in Hn as [Hk Hn]. rewrite IH by done.
  rewrite <-insert_union_l, <-insert_union_r; [done|]. by apply not_elem_of_list_to_map_1.
Qed.
Lemma foldl_iter {V} (m : gmap bytes V) : foldl (λ m kv, <[kv.1 := kv.2]> m) ∅ (iter m) = m.
Proof.
  rewrite foldl_entries by apply NoDup_iter_keys. rewrite (list_to_map_proper _ (map_to_list m)); [apply list_to_map_to_list|apply NoDup_iter_keys|apply iter_perm].
Qed.

(** The family of an export as it is stored in [src]. *)
Definition exported (src : Families) (name : bytes) : option (list RocksDbJsonEntry) :=
  if bool_decide (name ∈ exported_cfs) then (λ family, map export_entry (iter family)) <$> src !! name else None.

Lemma export_families src names acc :
  (∀ name, name ∈ names → is_Some (src !! name)) →
  ∃ m, foldM (export_family src) acc names = Ok m
    ∧ ∀ name, m !! name = if bool_decide (name ∈ names) then (λ family, map export_entry (iter family)) <$> src !! name else acc !! name.
Proof.
  revert acc. induction names as [|n names IH]; intros acc Hall; cbn [foldM]; [by eexists|].
  destruct (Hall n) as [family Hf]; [set_solver|]. 
  assert (export_family src acc n = Ok (<[n := map export_entry (iter family)]> acc)) as -> by (unfold export_family; by rewrite Hf). cbn [mbind].
  destruct (IH (<[n := map export_entry (iter family)]> acc)) as (m&Em&Hm); [set_solver|]. exists m. split; [done|].
  intros name. rewrite Hm. destruct (decide (name ∈ names)) as [Hin|Hin].
  - by rewrite !bool_decide_eq_true_2 by set_solver.
  - rewrite (bool_decide_eq_false_2 (name ∈ names)) by done. destruct (decide (name = n)) as [->|Hne].
    + rewrite lookup_insert_eq, bool_decide_eq_true_2, Hf by set_solver. done.
    + rewrite lookup_insert_ne by done. by rewrite bool_decide_eq_false_2 by set_solver.
Qed.

Definition is_selected (selected : option (gset bytes)) (name : bytes) : bool :=
  match selected with Some s => bool_decide (name ∈ s) | None => true end.

Lemma import_families selected src tgt l acc n :
  (∀ name, name ∈ exported_cfs → is_Some (src !! name) ∧ is_Some (tgt !! name)) →
  (∀ name entries, (name, entries) ∈ l → exported src name = Some entries) → NoDup (map fst l) →
  ∃ out n', foldM (import_family true selected tgt) (acc, n) l = Ok (out, n')
    ∧ ∀ name, out !! name = if bool_decide (name ∈ map fst l) && is_selected selected name then src !! name else acc !! name.
Proof.
  intros Hall. revert acc n. induction l as [|[name entries] l IH]; intros acc n Hl Hn; cbn [foldM]; [by do 2 eexists|].
  apply NoDup_cons in Hn as [Hnot Hn].
  assert (exported src name = Some entries) as Hex by (apply Hl; set_solver). unfold exported in Hex. case_bool_decide as Hin; [|done].
  destruct (Hall name Hin) as [[family Hf] [old Ho]]. rewrite Hf in Hex. injection Hex as <-.
  assert (∃ acc1 n1, import_family true selected tgt (acc, n) (name, map export_entry (iter family)) = Ok (acc1, n1)
    ∧ acc1 = if is_selected selected name then <[name := family]> acc else acc) as (acc1&n1&->&Hacc).
  { unfold import_family. rewrite bool_decide_eq_true_2 by done. cbn [fst snd]. rewrite Ho.
    assert (match selected with Some s => negb (bool_decide (name ∈ s)) | None => false end = negb (is_selected selected name)) as ->
      by (by destruct selected). destruct (is_selected selected name); cbn [negb]; [|by do 2 eexists].
    rewrite import_entries. cbn. rewrite foldl_iter. by do 2 eexists. }
  cbn [mbind]. destruct (IH acc1 n1) as (out&n'&Er&Hout); [set_solver|done|]. exists out, n'. split; [done|]. intros x. rewrite Hout. cbn [map fst].
  destruct (decide (x = name)) as [->|Hne].
  - rewrite (bool_decide_eq_false_2 (name ∈ map fst l)) by done. rewrite bool_decide_eq_true_2 by set_solver. cbn [andb]. rewrite Hacc.
    destruct (is_selected selected name); [by rewrite lookup_insert_eq|done].
  - assert (bool_decide (x ∈ name :: map fst l) = bool_decide (x ∈ map fst l)) as -> by (apply bool_decide_ext; set_solver).
    destruct (_ && _); [done|]. rewrite Hacc. destruct (is_selected selected name); [by rewrite lookup_insert_ne|done].
Qed.
End base64.

(** C35: a database survives export and import.  With the base64 engine
    inverse to itself and all column families open on both sides, exporting
    one database and importing the result into another, clearing what is
    there, replaces exactly the selected families (all when no selection is
    made) by those of the source, and leaves the health samples and every
    family that was not selected as they were.  An import that fails leaves
    the database as it was, whatever the export holds. *)
Theorem export_import_roundtrip (encode : bytes → bytes) (decode : bytes → option bytes) (now : Z) (selected : option (gset bytes)) (src tgt : Families) :
  (∀ s, decode (encode s) = Some s) →
  (∀ name, name ∈ exported_cfs → is_Some (src !! name) ∧ is_Some (tgt !! name)) →
  match selected with Some s => s ≠ ∅ ∧ ∀ name, name ∈ s → name ∈ exported_cfs | None => True end →
  (∃ e n tgt', export_json encode now src = Ok e ∧ import_json decode e true selected tgt = (Ok n, tgt')
    ∧ ∀ name, tgt' !! name = if bool_decide (name ∈ exported_cfs) && is_selected selected name then src !! name else tgt !! name)
  ∧ ∀ e clear sel err tgt', import_json decode e clear sel tgt = (Err err, tgt') → tgt' = tgt.
Proof.
  intros Hde Hall Hsel. split.
  2:{ intros e clear sel err tgt'. unfold import_json. match goal with |- context [match ?x with Ok _ => _ | Err _ => _ end] => destruct x as [[? ?]|] end; by intros [= <-]. }
  destruct (export_families encode decode Hde src exported_cfs ∅) as (m&Em&Hm); [intros name Hn; by apply Hall|].
  assert (∀ name, m !! name = exported encode src name) as Hm'.
  { intros name. rewrite Hm. unfold exported. by destruct (bool_decide _). }
  destruct (import_families encode decode Hde selected src tgt (iter m) tgt 0) as (out&n&Er&Hout); [done| |apply NoDup_iter_keys|].
  { intros name entries Hin%elem_of_iter. by rewrite <-Hm'. }
  exists (MkExport EXPORT_FORMAT SCHEMA_VERSION now m), n, out. split_and!.
  - unfold export_json. by rewrite Em.
  - unfold import_json. cbn [ex_format ex_schema_version ex_column_families].
    replace (eqb_bytes EXPORT_FORMAT EXPORT_FORMAT) with true by reflexivity. replace (SCHEMA_VERSION =? SCHEMA_VERSION) with true by reflexivity.
    assert (match selected with Some s => forallb (λ name, bool_decide (name ∈ exported_cfs)) (elements s) | None => true end = true) as ->.
    { destruct selected as [s|]; [|done]. apply forallb_forall. intros x Hx%list_elem_of_In%elem_of_elements. by apply bool_decide_eq_true_2, Hsel. }
    assert (match selected with Some s => negb (bool_decide (s = ∅)) | None => true end = true) as ->.
    { destruct selected as [s|]; [|done]. by rewrite bool_decide_eq_false_2 by apply Hsel. }
    by rewrite Er.
  - intros name. rewrite Hout. assert (bool_decide (name ∈ map fst (iter m)) = bool_decide (name ∈ exported_cfs)) as ->; [|done].
    apply bool_decide_ext. rewrite elem_of_iter_key, Hm'. unfold exported. case_bool_decide as Hin; [|by split; [intros [? ?]|]].
    destruct (Hall name Hin) as [[f ->] _]. split; [done|]. by eexists.
Qed.

(** Export and import of a small database; the engine is a byte-wise
    stand-in. *)
Module ExportExample.
Definition encode : bytes → bytes := map (λ b, b + 1).
Definition decode (s : bytes) : option bytes := Some (map (λ b, b - 1) s).
Definition empty : Families := list_to_map (map (λ n, (n, ∅)) (lit "default" :: ALL_CFS)).
Definition src : Families := <[lit "accounts" := {[ [0; 255; 1] := [9; 0; 254] ]}]> empty.
Definition tgt : Families := <[lit "health_check_status" := {[ [1] := [2] ]}]> (<[lit "audit" := {[ [3] := [4] ]}]> empty).

Lemma export_import_roundtrip_witness :
  ∃ e n tgt', export_json encode 5 src = Ok e ∧ import_json decode e true None tgt = (Ok n, tgt')
    ∧ tgt' !! lit "accounts" = Some {[ [0; 255; 1] := [9; 0; 254] ]} ∧ tgt' !! lit "audit" = Some ∅
    ∧ tgt' !! lit "health_check_status" = Some {[ [1] := [2] ]}.
Proof.
  destruct (export_import_roundtrip encode decode 5 None src tgt) as [(e&n&tgt'&He&Hi&Hl) _].
  - intros s. unfold decode, encode. f_equal. rewrite map_map. rewrite <-(map_id s) at 2. apply map_ext. intros; lia.
  - intros name Hin. assert (Forall (λ n, is_Some (src !! n) ∧ is_Some (tgt !! n)) exported_cfs) as Hall.
    { apply (bool_decide_unpack _). vm_compute. exact I. }
    rewrite Forall_forall in Hall. by apply Hall.
  - exact I.
  - exists e, n, tgt'. rewrite !Hl. split_and!; [exact He|exact Hi|vm_compute; reflexivity..].
Defined.
End ExportExample.
