(* ===== verification/StoreAcme.v ===== *)
(** * ACME state in the store (src/store/acme.rs)

    Providers, accounts, managed certificates, their generations and renewal
    state, DNS diagnostics.  The certificate gate makes each check-then-write
    sequence one step. *)

From stdpp Require Import sorting.
From S2P Require Import Prelude RustStd Net ProxyProtocol AcmeDns Config RuntimeConfig Store StoreProps.
Open Scope Z_scope.

(** ** Prefix scans *)

(** [prefix_iterator_cf], left at the first key without the prefix. *)
Fixpoint seek {V} (prefix : bytes) (entries : list (bytes * V)) : list (bytes * V) :=
  match entries with
  | [] => []
  | (k, v) :: rest => if bytes_le prefix k then entries else seek prefix rest
  end.
Fixpoint while_prefix {V} (prefix : bytes) (entries : list (bytes * V)) : list (bytes * V) :=
  match entries with
  | [] => []
  | (k, v) :: rest => if starts_with prefix k then (k, v) :: while_prefix prefix rest else []
  end.
Definition prefix_scan {V} (prefix : bytes) (m : gmap bytes V) : list (bytes * V) := while_prefix prefix (seek prefix (iter m)).

(** ** DNS diagnostics *)

Definition diagnostic_key (certificate_id : bytes) (d : DnsDiagnostic) : bytes := certificate_id ++ [0] ++ dd_domain d ++ [0] ++ dd_resolver d.
Definition save_dns_diagnostics (certificate_id : bytes) (values : list DnsDiagnostic) (db : Db) : Db :=
  let kept := delete_all (map fst (prefix_scan (certificate_id ++ [0]) (db_diagnostics db))) (db_diagnostics db) in
  set_diagnostics (foldl (λ m d, <[diagnostic_key certificate_id d := d]> m) kept values) db.
Definition dns_diagnostics (db : Db) : list DnsDiagnostic := map snd (iter (db_diagnostics db)).

(** ** Providers *)

Definition set_default (b : bool) (p : AcmeProvider) : AcmeProvider :=
  MkProvider (ap_id p) (ap_name p) (ap_directory_url p) (ap_contacts p) (ap_eab_key_id p) (ap_eab_hmac_key p) (ap_staging p) b (ap_directory_ca_pem p).
Definition provider (id : bytes) (db : Db) : option AcmeProvider := db_providers db !! id.
Definition providers (db : Db) : list AcmeProvider := map snd (iter (db_providers db)).
Definition production_id : bytes := lit "letsencrypt-production".
Definition staging_id : bytes := lit "letsencrypt-staging".

Definition provider_ok (p : AcmeProvider) : bool :=
  negb (bool_decide (trim (ap_id p) = [])) && negb (bool_decide (trim (ap_directory_url p) = [])) && starts_with (lit "https://") (ap_directory_url p)
  && Bool.eqb (bool_decide (is_Some (ap_eab_key_id p))) (bool_decide (is_Some (ap_eab_hmac_key p))).
(** A new default takes the mark from the others. *)
Definition clear_default (id : bytes) (m : gmap bytes AcmeProvider) (current : AcmeProvider) : gmap bytes AcmeProvider :=
  if negb (eqb_bytes (ap_id current) id) && ap_is_default current then <[ap_id current := set_default false current]> m else m.
Definition save_provider (p : AcmeProvider) : store_op () := λ db,
  if negb (provider_ok p) then (Err BadProvider, db)
  else
    let m := if ap_is_default p then foldl (clear_default (ap_id p)) (db_providers db) (providers db) else db_providers db in
    let db := set_providers (<[ap_id p := p]> m) db in
    (Ok (),
     if negb (existsb ap_is_default (providers db))
     then match provider production_id db with
          | Some production => set_providers (<[ap_id production := set_default true production]> (db_providers db)) db
          | None => db
          end
     else db).
Definition delete_provider (id : bytes) : store_op () := λ db,
  if eqb_bytes id production_id || eqb_bytes id staging_id then (Err BuiltinProvider, db)
  else if match provider id db with Some p => ap_is_default p | None => false end then (Err DefaultProvider, db)
  else (Ok (), set_providers (delete id (db_providers db)) db).

Definition builtin_production (is_default : bool) : AcmeProvider :=
  MkProvider production_id (lit "Let's Encrypt Production") (lit "https://acme-v02.api.letsencrypt.org/directory") [] None None false is_default None.
Definition builtin_staging : AcmeProvider :=
  MkProvider staging_id (lit "Let's Encrypt Staging") (lit "https://acme-staging-v02.api.letsencrypt.org/directory") [] None None true false None.
Definition save_if_absent (p : AcmeProvider) : store_op () := λ db,
  match provider (ap_id p) db with None => save_provider p db | Some _ => (Ok (), db) end.
Definition ensure_builtin_providers : store_op () := λ db,
  let has_default := existsb ap_is_default (providers db) in
  match save_if_absent (builtin_production (negb has_default)) db with
  | (Err e, db) => (Err e, db)
  | (Ok _, db) =>
      match save_if_absent builtin_staging db with
      | (Err e, db) => (Err e, db)
      | (Ok _, db) =>
          if has_default then (Ok (), db)
          else match provider production_id db with
               | None => (Err MissingProduction, db)
               | Some production => if ap_is_default production then (Ok (), db) else save_provider (set_default true production) db
               end
      end
  end.
Definition default_provider_id (db : Db) : bytes :=
  match find ap_is_default (providers db) with Some p => ap_id p | None => production_id end.

(** ** Accounts *)

Definition save_account_credentials (now : Z) (provider_id credentials : bytes) : store_op () := λ db,
  if bool_decide (trim provider_id = []) || bool_decide (credentials = lit "null") then (Err BadAccount, db)
  else (Ok (), set_accounts (<[provider_id := MkAccount provider_id credentials (Some now)]> (db_accounts db)) db).
Definition account_credentials (provider_id : bytes) (db : Db) : option StoredAcmeAccount := db_accounts db !! provider_id.

(** ** Managed certificates *)

Definition managed_certificate (id : bytes) (db : Db) : option ManagedCertificate := db_certificates db !! id.
Definition managed_certificates (db : Db) : list ManagedCertificate := map snd (iter (db_certificates db)).
Definition certificate_for_domain (domain : bytes) (db : Db) : result store_error (option ManagedCertificate) :=
  match AcmeDns.normalize_domain domain with
  | None => Err InvalidDomain
  | Some d => Ok (match db_domain_index db !! d with Some id => db_certificates db !! id | None => None end)
  end.

Fixpoint normalize_all (domains : list bytes) : option (list bytes) :=
  match domains with
  | [] => Some []
  | d :: ds => match AcmeDns.normalize_domain d with Some d => cons d <$> normalize_all ds | None => None end
  end.
(** Some domain is indexed under another certificate. *)
Definition taken (index : gmap bytes bytes) (id : bytes) (d : bytes) : bool :=
  match index !! d with Some owner => negb (eqb_bytes owner id) | None => false end.
Definition save_managed_certificate_locked (now : Z) (c : ManagedCertificate) : store_op () := λ db,
  if negb (length (mc_domains c) =? 1)%nat then (Err NotOneDomain, db)
  else
    let existing := db_certificates db !! mc_id c in
    match normalize_all (mc_domains c) with
    | None => (Err InvalidDomain, db)
    | Some normalized =>
        if negb (bool_decide (head normalized = Some (mc_id c))) then (Err IdNotDomain, db)
        else if existsb (contains 42) normalized then (Err WildcardDomain, db)
        else if negb (bool_decide (NoDup normalized)) then (Err DuplicateDomain, db)
        else if existsb (taken (db_domain_index db) (mc_id c)) normalized then (Err DomainTaken, db)
        else
          let created := match existing ≫= mc_created_at with Some at_ => at_ | None => now end in
          let value := MkManaged (mc_id c) normalized (mc_provider_id c) (mc_enabled c) (mc_automatic c) (mc_publish c) (Some created) (Some now) in
          match normalize_all (match existing with Some old => mc_domains old | None => [] end) with
          | None => (Err InvalidDomain, db)
          | Some old_domains =>
              let dropped := List.filter (λ d, negb (bool_decide (d ∈ normalized))) old_domains in
              let index := foldl (λ m d, <[d := mc_id c]> m) (delete_all dropped (db_domain_index db)) normalized in
              (Ok (), set_certificates (<[mc_id c := value]> (db_certificates db)) index db)
          end
    end.
Definition save_managed_certificate (now : Z) (c : ManagedCertificate) : store_op () := save_managed_certificate_locked now c.

Definition automatic_certificate (domain provider_id : bytes) : ManagedCertificate :=
  MkManaged domain [domain] provider_id true true (MkPublish false false) None None.
Definition create_automatic_certificate_if_absent (now : Z) (domain : bytes) : store_op bool := λ db,
  match AcmeDns.normalize_domain domain with
  | None => (Err InvalidDomain, db)
  | Some domain =>
      match certificate_for_domain domain db with
      | Err e => (Err e, db)
      | Ok (Some _) => (Ok false, db)
      | Ok None =>
          match save_managed_certificate_locked now (automatic_certificate domain (default_provider_id db)) db with
          | (Ok _, db) => (Ok true, db)
          | (Err e, db) => (Err e, db)
          end
      end
  end.

Definition terminating (a : TlsRouteAction) : bool :=
  match a with Terminate _ _ _ _ _ | TlsReverseProxy _ => true | _ => false end.
Definition terminated_hosts (rs : list TlsHostRoute) : list bytes :=
  rs ≫= λ r, if terminating (tls_action r) then exact (tls_matcher r) else [].
(** The [BTreeSet] of exact hosts, in its order. *)
Definition automatic_domains (config : RuntimeConfig.RuntimeConfig) : list bytes :=
  let hosts := terminated_hosts (routes (ordinary_traffic (default_listener config)))
    ++ (additional_listeners config ≫= λ l, match l.2 with TlsListener c => terminated_hosts (routes (routing c)) | _ => [] end) in
  map fst (iter (list_to_map (map (λ h, (h, ())) hosts) : gmap bytes ())).
Fixpoint ensure_each (now : bytes → Z) (provider_id : bytes) (created : nat) (domains : list bytes) : store_op nat := λ db,
  match domains with
  | [] => (Ok created, db)
  | domain :: rest =>
      match AcmeDns.normalize_domain domain with
      | None => (Err InvalidDomain, db)
      | Some d =>
          match certificate_for_domain d db with
          | Err e => (Err e, db)
          | Ok (Some _) => ensure_each now provider_id created rest db
          | Ok None =>
              match save_managed_certificate (now d) (automatic_certificate d provider_id) db with
              | (Err e, db) => (Err e, db)
              | (Ok _, db) => ensure_each now provider_id (S created) rest db
              end
          end
      end
  end.
Definition ensure_automatic_certificates (now : bytes → Z) (config : RuntimeConfig.RuntimeConfig) : store_op nat := λ db,
  if negb (acme_enabled (acme config)) then (Ok 0%nat, db)
  else ensure_each now (default_provider_id db) 0 (automatic_domains config) db.

(** The deletion of a certificate takes no lock: its batch is made of what was
    read, [seen], and written to the database as it is by then. *)
Definition deletion (id : bytes) (seen : Db) : store_op bool := λ db,
  match db_certificates seen !! id with
  | None => (Ok false, db)
  | Some c =>
      match normalize_all (mc_domains c) with
      | None => (Err InvalidDomain, db)
      | Some domains =>
          let owned := List.filter (λ d, bool_decide (db_domain_index seen !! d = Some id)) domains in
          let db1 := set_certificates (delete id (db_certificates db)) (delete_all owned (db_domain_index db)) db in
          let db2 := set_generations (delete_all (map fst (prefix_scan (generation_key id []) (db_generations seen))) (db_generations db))
                       (delete id (db_active db)) (delete id (db_renewals db)) db1 in
          (Ok true, set_diagnostics (delete_all (map fst (prefix_scan (id ++ [0]) (db_diagnostics seen))) (db_diagnostics db)) db2)
      end
  end.
Definition delete_managed_certificate (id : bytes) : store_op bool := λ db, deletion id db db.

(** ** Generations and renewal state *)

Definition activate_generation (g : CertificateGeneration) (r : RenewalState) : store_op () := λ db,
  if bool_decide (cg_id g = []) || bool_decide (cg_certificate_id g = []) then (Err BadGeneration, db)
  else if negb (eqb_bytes (cg_certificate_id g) (rs_certificate_id r)) then (Err BadGeneration, db)
  else (Ok (), set_generations (<[generation_key (cg_certificate_id g) (cg_id g) := g]> (db_generations db))
                 (<[cg_certificate_id g := cg_id g]> (db_active db)) (<[cg_certificate_id g := r]> (db_renewals db)) db).
Definition renewal_state (id : bytes) (db : Db) : option RenewalState := db_renewals db !! id.
Definition save_renewal_state (r : RenewalState) : store_op () := λ db,
  if bool_decide (trim (rs_certificate_id r) = []) then (Err BadRenewal, db)
  else (Ok (), set_generations (db_generations db) (db_active db) (<[rs_certificate_id r := r]> (db_renewals db)) db).
(** The stored id is the text [activate_generation] wrote. *)
Definition active_generation (id : bytes) (db : Db) : option CertificateGeneration :=
  match db_active db !! id with Some g => db_generations db !! generation_key id g | None => None end.

(** The update of one renewal record; [now] is the clock at that entry. *)
Definition clear_gate (now : Z) (r : RenewalState) : option RenewalState :=
  let ca_gate_active := match rs_ca_retry_after r with Some deadline => now <? deadline | None => false end in
  match rs_next_attempt r with
  | Some _ => if ca_gate_active then None
              else Some (MkRenewal (rs_certificate_id r) (rs_last_attempt r) (rs_last_success r) None None (rs_consecutive_failures r) (rs_last_error r)
                           (rs_ari_suggested_at r) (rs_ari_explanation_url r) (rs_ari_checked_at r) (rs_ari_next_check r))
  | None => None
  end.
Definition gate_updates (now : bytes → Z) (db : Db) : list (bytes * RenewalState) :=
  omap (λ kv, pair kv.1 <$> clear_gate (now kv.1) kv.2) (iter (db_renewals db)).
Definition clear_renewal_retry_gates (now : bytes → Z) (db : Db) : nat * Db :=
  let updates := gate_updates now db in
  (length updates, set_generations (db_generations db) (db_active db) (foldl (λ m kv, <[kv.1 := kv.2]> m) (db_renewals db) updates) db).

(** Whether an enabled certificate is to be ordered now. *)
Definition due (now renewal_cutoff : Z) (db : Db) (c : ManagedCertificate) : bool :=
  mc_enabled c
  && negb (match renewal_state (mc_id c) db ≫= rs_next_attempt with Some next => now <? next | None => false end)
  && (match renewal_state (mc_id c) db ≫= rs_ari_suggested_at with Some suggested => suggested <=? now | None => false end
      || match active_generation (mc_id c) db ≫= cg_not_after with Some not_after => not_after <=? renewal_cutoff | None => true end).
Definition due_managed_certificates (now renew_before_days : Z) (db : Db) : list ManagedCertificate :=
  List.filter (due now (now + renew_before_days * DAY_NS) db) (managed_certificates db).

(** ** Migration to one domain per certificate *)

Definition is_legacy (c : ManagedCertificate) : bool :=
  match mc_domains c with
  | [d] => negb (bool_decide (AcmeDns.normalize_domain d = Some (mc_id c)))
  | _ => true
  end.
(** What the migration of one certificate puts for one of its domains. *)
Definition split_certificate (c : ManagedCertificate) (d : bytes) : ManagedCertificate :=
  MkManaged d [d] (mc_provider_id c) (mc_enabled c) (mc_automatic c) (mc_publish c) (mc_created_at c) (mc_updated_at c).
Definition move_renewal (r : RenewalState) (d : bytes) : RenewalState :=
  MkRenewal d (rs_last_attempt r) (rs_last_success r) (rs_next_attempt r) (rs_ca_retry_after r) (rs_consecutive_failures r) (rs_last_error r)
    (rs_ari_suggested_at r) (rs_ari_explanation_url r) (rs_ari_checked_at r) (rs_ari_next_check r).
Definition move_generation (g : CertificateGeneration) (d : bytes) : CertificateGeneration :=
  MkGeneration (cg_id g) d (cg_certificate_pem g) (cg_chain_pem g) (cg_private_key_pem g) (cg_fingerprint g) (cg_not_before g) (cg_not_after g) (cg_issued_at g).
Definition move_diagnostic (g : DnsDiagnostic) (d : bytes) : DnsDiagnostic :=
  MkDiagnostic d (dd_domain g) (dd_resolver g) (dd_addresses g) (dd_passed g) (dd_error g).

Definition split_one (c : ManagedCertificate) (active : option bytes) (renewal : option RenewalState) (old : list CertificateGeneration)
  (diags : list DnsDiagnostic) (out : Db) (d : bytes) : Db :=
  let out := set_certificates (<[d := split_certificate c d]> (db_certificates out)) (<[d := d]> (db_domain_index out)) out in
  let out := set_generations (foldl (λ m g, <[generation_key d (cg_id g) := move_generation g d]> m) (db_generations out) old)
               (match active with Some g => <[d := g]> (db_active out) | None => db_active out end)
               (match renewal with Some r => <[d := move_renewal r d]> (db_renewals out) | None => db_renewals out end) out in
  set_diagnostics (foldl (λ m g, <[diagnostic_key d g := move_diagnostic g d]> m) (db_diagnostics out)
    (List.filter (λ g, bool_decide (AcmeDns.normalize_domain (dd_domain g) = Some d)) diags)) out.
(** One legacy certificate: [db] is read, [out] is the batch applied so far. *)
Definition migrate_one (existing : gset bytes) (db : Db) (c : ManagedCertificate) (out : Db) : result store_error (list bytes * Db) :=
  match normalize_all (mc_domains c) with
  | None => Err InvalidDomain
  | Some domains =>
      if existsb (λ d, bool_decide (d ∈ existing) && negb (eqb_bytes d (mc_id c))) domains then Err MigrationConflict
      else
        let old := prefix_scan (generation_key (mc_id c) []) (db_generations db) in
        let diags := prefix_scan (mc_id c ++ [0]) (db_diagnostics db) in
        let out := set_certificates (delete (mc_id c) (db_certificates out)) (db_domain_index out) out in
        let out := set_generations (delete_all (map fst old) (db_generations out)) (delete (mc_id c) (db_active out)) (delete (mc_id c) (db_renewals out)) out in
        let out := set_diagnostics (delete_all (map fst diags) (db_diagnostics out)) out in
        Ok (domains, foldl (split_one c (db_active db !! mc_id c) (db_renewals db !! mc_id c) (map snd old) (map snd diags)) out domains)
  end.
Fixpoint migrate_each (existing : gset bytes) (db : Db) (legacy : list ManagedCertificate) (replacements : list (bytes * list bytes)) (out : Db)
  : result store_error (list (bytes * list bytes) * Db) :=
  match legacy with
  | [] => Ok (replacements, out)
  | c :: legacy => r ← migrate_one existing db c out; migrate_each existing db legacy (replacements ++ [(mc_id c, r.1)]) r.2
  end.
(** Scopes of a retrieval token follow the certificates they name. *)
Definition replace_scope (acc : gset bytes * bool) (r : bytes * list bytes) : gset bytes * bool :=
  if bool_decide (r.1 ∈ acc.1) then (acc.1 ∖ {[r.1]} ∪ list_to_set r.2, true) else acc.
Definition migrate_token (replacements : list (bytes * list bytes)) (t : RetrievalToken) : option RetrievalToken :=
  let '(ids, changed) := foldl replace_scope (rt_certificate_ids t, false) replacements in
  if changed then Some (MkToken (rt_id t) (rt_label t) (rt_token_hash t) (rt_bearer_token t) ids (rt_allow_private_key t) (rt_created_at t)
                          (rt_expires_at t) (rt_disabled t)) else None.
Definition migrate_certificates_to_single_domain_ids : store_op nat := λ db,
  let legacy := List.filter is_legacy (managed_certificates db) in
  if bool_decide (legacy = []) then (Ok 0%nat, db)
  else match migrate_each (list_to_set (map mc_id (managed_certificates db))) db legacy [] db with
       | Err e => (Err e, db)
       | Ok (replacements, out) =>
           let tokens := foldl (λ m kv, match migrate_token replacements kv.2 with Some t => <[kv.1 := t]> m | None => m end) (db_tokens db) (iter (db_tokens db)) in
           (Ok (length legacy), set_access tokens (db_users out) (db_sessions out) (db_audit out) out)
       end.
