(* ===== verification/StoreAcmeProps.v ===== *)
(** * Invariants of the ACME state in the store

    Prefix scans find exactly the keys with the prefix; the certificates,
    the domain index, the generations and the active pointers stay
    consistent under the store's operations; exactly one provider is the
    default. *)

From stdpp Require Import sorting.
From S2P Require Import Prelude RustStd Net ProxyProtocol AcmeDns Config RuntimeConfig Store StoreProps StoreExport StoreAcme.
Open Scope Z_scope.

(** ** Prefix scans *)

Lemma starts_with_le p k : starts_with p k = true → bytes_le p k = true.
Proof.
  revert k. induction p as [|x p IH]; intros [|y k]; cbn; try done. intros [->%Z.eqb_eq H]%andb_true_iff.
  rewrite Z.ltb_irrefl. by apply IH.
Qed.
(** Past the last key with the prefix there is none. *)
Lemma starts_with_interval p k k' :
  bytes_le p k = true → bytes_le k k' = true → starts_with p k' = true → starts_with p k = true.
Proof.
  revert k k'. induction p as [|x p IH]; intros [|y k] [|z k']; cbn; try done.
  rewrite !andb_true_iff, !Z.eqb_eq. destruct (Z.ltb_spec x y), (Z.ltb_spec y x), (Z.ltb_spec y z), (Z.ltb_spec z y); try done; try lia.
  intros Hle1 Hle2 [-> Hsw]. split; [lia|]. by apply (IH k k').
Qed.
Lemma seek_elem {V} (p : bytes) (l : list (bytes * V)) x : StronglySorted entry_le l → x ∈ seek p l ↔ x ∈ l ∧ bytes_le p x.1 = true.
Proof.
  induction 1 as [|[k v] l Hs IH Hx]; cbn; [set_solver|]. destruct (bytes_le p k) eqn:E.
  - split; [|tauto]. intros [->|Hin]%elem_of_cons; [split; [left|done]|]. split; [by right|].
    rewrite Forall_forall in Hx. eapply bytes_le_trans; [done|]. by apply (Hx x).
  - rewrite IH, elem_of_cons. split; [tauto|]. intros [[->|?] ?]; [cbn in *; congruence|done].
Qed.
Lemma seek_sorted {V} (p : bytes) (l : list (bytes * V)) : StronglySorted entry_le l → StronglySorted entry_le (seek p l).
Proof. induction 1 as [|[k v] l Hs IH Hx]; cbn; [constructor|]. destruct (bytes_le p k); [by constructor|done]. Qed.
Lemma while_prefix_elem {V} (p : bytes) (l : list (bytes * V)) x :
  StronglySorted entry_le l → Forall (λ y, bytes_le p y.1 = true) l → x ∈ while_prefix p l ↔ x ∈ l ∧ starts_with p x.1 = true.
Proof.
  induction 1 as [|[k v] l Hs IH Hx]; cbn; [set_solver|]. intros [Hk Hl]%Forall_cons. destruct (starts_with p k) eqn:E.
  - rewrite !elem_of_cons, IH by done. split; [|tauto]. intros [->|?]; [split; [by left|done]|tauto].
  - split; [by intros ?%elem_of_nil|]. intros [[->|Hin]%elem_of_cons Hp]; [cbn in *; congruence|].
    rewrite Forall_forall in Hx. rewrite (starts_with_interval p k x.1) in E; [done|done|by apply (Hx x)|done].
Qed.
Lemma prefix_scan_spec {V} (p : bytes) (m : gmap bytes V) (k : bytes) (v : V) : (k, v) ∈ prefix_scan p m ↔ m !! k = Some v ∧ starts_with p k = true.
Proof.
  assert (StronglySorted entry_le (iter m)) as Hs by (apply StronglySorted_merge_sort; apply _).
  unfold prefix_scan. rewrite while_prefix_elem.
  - rewrite seek_elem by done. rewrite elem_of_iter. cbn. split; [tauto|]. intros [? ?]. split; [|done]. split; [done|]. by apply starts_with_le.
  - by apply seek_sorted.
  - apply Forall_forall. intros x Hx. by apply seek_elem in Hx as [_ ?].
Qed.
(** Deleting what a scan found, possibly in an earlier state [seen]. *)
Lemma delete_scanned {V} (p : bytes) (seen m : gmap bytes V) (k : bytes) :
  delete_all (map fst (prefix_scan p seen)) m !! k = if starts_with p k && bool_decide (is_Some (seen !! k)) then None else m !! k.
Proof.
  destruct (decide (k ∈ map fst (prefix_scan p seen))) as [Hin|Hin].
  - rewrite delete_all_in by done. apply list_elem_of_fmap in Hin as ([k' v']&->&Hin). apply prefix_scan_spec in Hin as [Hv Hp]. cbn [fst].
    by rewrite Hp, Hv, bool_decide_eq_true_2 by by eexists.
  - rewrite delete_all_notin by done. destruct (starts_with p k) eqn:E; [|done]. cbn [andb]. rewrite bool_decide_eq_false_2; [done|].
    intros [v Hv]. destruct Hin. apply (list_elem_of_fmap_2 fst _ (k, v)). by apply prefix_scan_spec.
Qed.
Lemma delete_scan {V} (p : bytes) (m : gmap bytes V) (k : bytes) (v : V) :
  delete_all (map fst (prefix_scan p m)) m !! k = Some v ↔ m !! k = Some v ∧ starts_with p k = false.
Proof.
  rewrite delete_scanned. destruct (starts_with p k); cbn [andb]; [|tauto]. case_bool_decide as Hs; [naive_solver|].
  split; [|naive_solver]. intros Hv. destruct Hs. by eexists.
Qed.

(** ** Keys of generations *)

Lemma nul_split (a b r s : bytes) : 0 ∉ a → 0 ∉ b → a ++ 0 :: r = b ++ 0 :: s → a = b ∧ r = s.
Proof.
  revert b. induction a as [|x a IH]; intros [|y b] Ha Hb; cbn.
  - by intros [= ->].
  - intros [= <- _]. set_solver.
  - intros [= -> _]. set_solver.
  - intros [= -> Heq]. apply IH in Heq as [-> ->]; [done|set_solver..].
Qed.
Lemma generation_prefix c c' g : 0 ∉ c → 0 ∉ c' → starts_with (generation_key c []) (generation_key c' g) = true ↔ c' = c.
Proof.
  intros Hc Hc'. rewrite starts_with_spec. unfold generation_key. split.
  - intros (r&Heq). rewrite <-app_assoc in Heq. cbn in Heq. by apply nul_split in Heq as [? _].
  - intros ->. exists g. by rewrite <-app_assoc.
Qed.

(** ** Names *)

Definition canonical (d : bytes) : Prop := AcmeDns.normalize_domain d = Some d.
(** Names whose normal form is stable. *)
Definition clean (s : bytes) : Prop := ∀ d, AcmeDns.normalize_domain s = Some d → canonical d.
Lemma canonical_clean d : canonical d → clean d.
Proof. unfold clean, canonical. intros H d' Hd. congruence. Qed.
Lemma canonical_no_nul d : canonical d → 0 ∉ d.
Proof. intros H. by apply normalize_domain_wf in H as (_&_&_&?&_). Qed.

Lemma graphic_lower c : graphic c = true → graphic (to_ascii_lower c) = true.
Proof. unfold graphic, to_ascii_lower, is_ascii_upper. case_match; lia. Qed.
Lemma trim_all_graphic s : Forall (λ c, graphic c = true) s → trim s = s.
Proof.
  intros Hs. destruct s as [|c s]; [done|]. destruct (exists_last (l := c :: s)) as (t&d&Heq); [done|].
  apply (trim_graphic c s d t); [by inv Hs| |done]. rewrite Heq in Hs. by apply Forall_app in Hs as [_ [? _]%Forall_cons].
Qed.
Lemma trim_end_dot_lower s : trim_end_char DOT (to_ascii_lowercase s) = to_ascii_lowercase (trim_end_char DOT s).
Proof.
  unfold trim_end_char, to_ascii_lowercase. rewrite map_rev, <-(map_rev _ s). f_equal. generalize (rev s). clear s. intros s.
  induction s as [|x s IH]; cbn; [done|]. assert ((to_ascii_lower x =? DOT) = (x =? DOT)) as -> ; [|by destruct (x =? DOT)].
  unfold to_ascii_lower, is_ascii_upper, DOT. case_match; lia.
Qed.
(** Names without white space and control characters are clean. *)
Lemma graphic_clean s : Forall (λ c, graphic c = true) s → clean s.
Proof.
  intros Hs d. unfold canonical, AcmeDns.normalize_domain. cbv zeta. rewrite (trim_all_graphic s) by done.
  set (e := to_ascii_lowercase (trim_end_char DOT s)). destruct (_ || _) eqn:E; [done|]. intros [= <-].
  assert (Forall (λ c, graphic c = true) e) as He.
  { unfold e, to_ascii_lowercase. apply Forall_fmap. destruct (trim_end_char_spec DOT s) as (k&Hk). rewrite Hk in Hs.
    apply Forall_app in Hs as [Hs _]. eapply Forall_impl; [done|]. intros c. apply graphic_lower. }
  assert (to_ascii_lowercase (trim_end_char DOT (trim e)) = e) as Heq.
  { rewrite (trim_all_graphic e) by done. unfold e. by rewrite trim_end_dot_lower, trim_end_char_idem, to_ascii_lowercase_idem. }
  by rewrite Heq, E.
Qed.

(** ** Consistency of certificates, index and generations *)

Record acme_wf (db : Db) : Prop := {
  wf_certificate : ∀ k c, db_certificates db !! k = Some c → mc_id c = k ∧ mc_domains c = [k] ∧ canonical k;
  wf_index : ∀ d i, db_domain_index db !! d = Some i ↔ i = d ∧ is_Some (db_certificates db !! d);
  wf_generation : ∀ k g, db_generations db !! k = Some g → k = generation_key (cg_certificate_id g) (cg_id g) ∧ 0 ∉ cg_certificate_id g;
  wf_active : ∀ c g, db_active db !! c = Some g → ∃ gen, db_generations db !! generation_key c g = Some gen ∧ cg_certificate_id gen = c ∧ cg_id gen = g;
}.

Lemma acme_wf_certificates db v d : acme_wf db → mc_id v = d → mc_domains v = [d] → canonical d →
  acme_wf (set_certificates (<[d := v]> (db_certificates db)) (<[d := d]> (db_domain_index db)) db).
Proof.
  intros [Hc Hi Hg Ha] Hid Hd Hcan. split; cbn; [| |done|done].
  - intros k c. destruct (decide (k = d)) as [->|Hne]; [rewrite lookup_insert_eq; by intros [= <-]|rewrite lookup_insert_ne by done; apply Hc].
  - intros k i. destruct (decide (k = d)) as [->|Hne].
    + rewrite !lookup_insert_eq. split; [intros [= <-]; split; [done|by eexists]|by intros [-> _]].
    + rewrite !lookup_insert_ne by done. apply Hi.
Qed.

Lemma save_certificate_wf now c db : acme_wf db → Forall clean (mc_domains c) → acme_wf (save_managed_certificate_locked now c db).2.
Proof.
  intros Hwf Hclean. unfold save_managed_certificate_locked. destruct (length (mc_domains c) =? 1)%nat eqn:El; [|done].
  apply Nat.eqb_eq in El. destruct (mc_domains c) as [|d0 [|]] eqn:Ed; [done| |done]. apply Forall_cons in Hclean as [Hclean _].
  cbn [normalize_all negb]. destruct (AcmeDns.normalize_domain d0) as [d|] eqn:En; [|done]. cbn [fmap option_fmap option_map].
  destruct (bool_decide _) eqn:Eid; [|done]. apply bool_decide_eq_true in Eid as [= ->]. cbn [negb].
  destruct (existsb (contains 42) _); [done|]. destruct (negb _); [done|]. destruct (existsb _ _); [done|].
  apply Hclean in En.
  assert (normalize_all (match db_certificates db !! mc_id c with Some old => mc_domains old | None => [] end)
    = Some (match db_certificates db !! mc_id c with Some _ => [mc_id c] | None => [] end)) as ->.
  { destruct (db_certificates db !! mc_id c) as [old|] eqn:Eo; [|done]. apply (wf_certificate _ Hwf) in Eo as (_&->&_). cbn.
    unfold canonical in En. by rewrite En. }
  cbn [snd]. match goal with |- acme_wf (set_certificates (<[_ := ?v]> _) (foldl _ (delete_all ?l _) _) _) => assert (l = []) as -> end.
  { destruct (db_certificates db !! mc_id c); [|done]. cbn. rewrite bool_decide_eq_true_2 by set_solver. done. }
  cbn [foldl delete_all foldr]. by apply acme_wf_certificates.
Qed.

Lemma create_automatic_wf now domain db : acme_wf db → clean domain → acme_wf (create_automatic_certificate_if_absent now domain db).2.
Proof.
  intros Hwf Hc. unfold create_automatic_certificate_if_absent. destruct (AcmeDns.normalize_domain domain) as [d|] eqn:E; [|done].
  destruct (certificate_for_domain d db) as [[c|]|]; [done| |done].
  pose proof (save_certificate_wf now (automatic_certificate d (default_provider_id db)) db Hwf) as Hs.
  destruct (save_managed_certificate_locked _ _ _) as [[] db']; apply Hs; by repeat constructor; apply canonical_clean, Hc.
Qed.
Lemma ensure_each_wf now provider_id created domains db : acme_wf db → Forall clean domains → acme_wf (ensure_each now provider_id created domains db).2.
Proof.
  revert created db. induction domains as [|domain rest IH]; intros created db Hwf; cbn [ensure_each]; [done|]. intros [Hc Hr]%Forall_cons.
  destruct (AcmeDns.normalize_domain domain) as [d|] eqn:E; [|done].
  destruct (certificate_for_domain d db) as [[c|]|]; [by apply IH| |done].
  pose proof (save_certificate_wf (now d) (automatic_certificate d provider_id) db Hwf) as Hs. unfold save_managed_certificate.
  destruct (save_managed_certificate_locked _ _ _) as [[] db']; [apply IH; [|done]|]; apply Hs; by repeat constructor; apply canonical_clean, Hc.
Qed.

(** What deletion removes, in terms of the stored records. *)
Lemma delete_certificate_exact id db : acme_wf db → is_Some (db_certificates db !! id) →
  ∃ db', delete_managed_certificate id db = (Ok true, db')
    ∧ db_certificates db' = delete id (db_certificates db) ∧ db_domain_index db' = delete id (db_domain_index db)
    ∧ db_active db' = delete id (db_active db) ∧ db_renewals db' = delete id (db_renewals db)
    ∧ (∀ k g, db_generations db' !! k = Some g ↔ db_generations db !! k = Some g ∧ cg_certificate_id g ≠ id).
Proof.
  intros Hwf [c Hc]. pose proof (wf_certificate _ Hwf _ _ Hc) as (_&Hd&Hcan). unfold delete_managed_certificate, deletion. rewrite Hc, Hd. cbn [normalize_all].
  rewrite Hcan. cbn [fmap option_fmap option_map]. eexists. split; [done|]. cbn [db_certificates db_domain_index db_active db_renewals db_generations
    set_diagnostics set_generations set_certificates].
  split; [done|]. split.
  { cbn [List.filter]. rewrite bool_decide_eq_true_2; [done|]. by apply (wf_index _ Hwf). }
  split; [done|]. split; [done|]. intros k g. rewrite delete_scan. split.
  - intros [Hg Hp]. split; [done|]. intros <-. apply (wf_generation _ Hwf) in Hg as [-> Hn].
    apply Bool.not_true_iff_false in Hp. apply Hp. by apply generation_prefix.
  - intros [Hg Hne]. split; [done|]. apply Bool.not_true_iff_false. apply (wf_generation _ Hwf) in Hg as [-> Hn].
    intros H%generation_prefix; [done|by apply canonical_no_nul|done].
Qed.

(** A deletion that read one consistent state and writes to another. *)
Lemma deletion_wf id seen db : acme_wf seen → acme_wf db → acme_wf (deletion id seen db).2.
Proof.
  intros Hseen [H1 H2 H3 H4]. unfold deletion. destruct (db_certificates seen !! id) as [c|] eqn:Hc; [|done].
  pose proof (wf_certificate _ Hseen _ _ Hc) as (_&Hd&Hcan). rewrite Hd. cbn [normalize_all]. rewrite Hcan.
  cbn [fmap option_fmap option_map List.filter snd]. rewrite bool_decide_eq_true_2 by by apply (wf_index _ Hseen).
  assert (∀ k g, delete_all (map fst (prefix_scan (generation_key id []) (db_generations seen))) (db_generations db) !! k = Some g →
    db_generations db !! k = Some g) as Hsub by (intros k g; rewrite delete_scanned; by case_match).
  split; cbn.
  - intros k v [_ Hv]%lookup_delete_Some. by apply H1.
  - intros d i. destruct (decide (d = id)) as [->|Hne]; [rewrite !lookup_delete_eq; split; [done|by intros [_ [? ?]]]|].
    by rewrite !lookup_delete_ne.
  - intros k g Hg%Hsub. by apply H3.
  - intros k g [Hne Hg]%lookup_delete_Some. apply H4 in Hg as (gen&Hg&Hid&Hgid). exists gen. split; [|done]. rewrite delete_scanned.
    assert (starts_with (generation_key id []) (generation_key k g) = false) as ->; [|done]. apply Bool.not_true_iff_false.
    apply H3 in Hg as [_ Hn]. rewrite Hid in Hn. intros ?%generation_prefix; [done|by apply canonical_no_nul|done].
Qed.
Lemma migrate_wf db : acme_wf db → migrate_certificates_to_single_domain_ids db = (Ok 0%nat, db).
Proof.
  intros Hwf. unfold migrate_certificates_to_single_domain_ids. rewrite bool_decide_eq_true_2; [done|].
  destruct (List.filter is_legacy (managed_certificates db)) as [|c l] eqn:E; [done|]. exfalso.
  assert (In c (List.filter is_legacy (managed_certificates db))) as Hin by (rewrite E; by left). apply filter_In in Hin as [Hin Hleg].
  apply list_elem_of_In, list_elem_of_fmap in Hin as ([k v]&->&Hin%elem_of_iter). apply (wf_certificate _ Hwf) in Hin as (Hid&Hd&Hcan).
  unfold is_legacy in Hleg. cbn in Hleg. rewrite Hd, Hid in Hleg. unfold canonical in Hcan. rewrite Hcan, bool_decide_eq_true_2 in Hleg; done.
Qed.
Lemma cleanup_wf now per days db : acme_wf db → acme_wf (cleanup_retention now per days db).2.
Proof.
  intros [H1 H2 H3 H4]. split; [done|done| |].
  - intros k g [Hg _]%cleanup_generations. by apply H3.
  - intros c g Ha. apply H4 in Ha as Hg. destruct Hg as (gen&Hg&<-&<-). exists gen. split; [|done]. by apply cleanup_keeps_active.
Qed.
Lemma activate_wf g r db : acme_wf db → 0 ∉ cg_certificate_id g → acme_wf (activate_generation g r db).2.
Proof.
  intros Hwf Hn. unfold activate_generation. destruct (_ || _); [done|]. destruct (negb _); [done|]. cbn. destruct Hwf as [H1 H2 H3 H4].
  split; cbn; [done|done| |].
  - intros k v [[<- <-]|[_ Hv]]%lookup_insert_Some; [done|by apply H3].
  - intros c i [[<- <-]|[Hne Hi]]%lookup_insert_Some; [exists g; by rewrite lookup_insert_eq|].
    apply H4 in Hi as (gen&Hg&Hc&Hid). exists gen. rewrite lookup_insert_ne; [done|]. apply H3 in Hg as [_ Hn']. rewrite Hc in Hn'.
    unfold generation_key. by intros [? _]%nul_split.
Qed.
Lemma bootstrap_wf canonicalize is_dir now key_now config administrator db :
  acme_wf db → clean (cp_hostname (control_plane config)) → acme_wf (bootstrap canonicalize is_dir now key_now config administrator db).2.
Proof.
  intros Hwf Hc. unfold bootstrap. destruct (is_initialized db); [done|]. destruct (_ || _); [done|]. destruct (validate _ _ _); [|done].
  destruct (_ && _); [|by destruct Hwf]. destruct (AcmeDns.normalize_domain _) as [d|] eqn:E; [|done]. cbn [snd].
  apply (acme_wf_certificates _ (control_certificate d (cp_provider_id (control_plane config)) now) d); [by destruct Hwf|done|done|by apply Hc].
Qed.

(** Operations elsewhere in the database. *)
Definition same_acme (db db' : Db) : Prop :=
  db_certificates db' = db_certificates db ∧ db_domain_index db' = db_domain_index db ∧ db_generations db' = db_generations db ∧ db_active db' = db_active db.

(** An import, clearing what is there, of the database [src] as it was
    exported: the selected families are replaced, the others stay. *)
Definition import_cleared (selected : option (gset bytes)) (src db : Db) : Db :=
  let pick {A} (name : bytes) (field : Db → A) : A := if is_selected selected name then field src else field db in
  MkDb (pick (lit "metadata") db_schema) (pick (lit "metadata") db_revision) (pick (lit "config") db_config) (pick (lit "config_history") db_history)
    (pick (lit "providers") db_providers) (pick (lit "accounts") db_accounts) (pick (lit "certificates") db_certificates)
    (pick (lit "domain_index") db_domain_index) (pick (lit "generations") db_generations) (pick (lit "active_generations") db_active)
    (pick (lit "renewals") db_renewals) (pick (lit "tokens") db_tokens) (pick (lit "users") db_users) (pick (lit "sessions") db_sessions)
    (pick (lit "audit") db_audit) (pick (lit "dns_diagnostics") db_diagnostics) (db_health db).
(** The families that belong together. *)
Definition certificate_families : list bytes := map lit ["certificates"; "domain_index"; "generations"; "active_generations"]%string.
Definition together (selected : option (gset bytes)) : Prop :=
  Forall (λ name, is_selected selected name = true) certificate_families ∨ Forall (λ name, is_selected selected name = false) certificate_families.

(** The life of the ACME state: the operations of the store one after the
    other, a deletion writing later than it reads, and imports of such a
    database that do not separate what belongs together.  The names are
    those whose normal form is stable, and no certificate id of a generation
    has a NUL in it. *)
Inductive acme_run : Db → Prop :=
| acme_empty : acme_run db_empty
| acme_bootstrap canonicalize is_dir now key_now config administrator db :
    acme_run db → clean (cp_hostname (control_plane config)) → acme_run (bootstrap canonicalize is_dir now key_now config administrator db).2
| acme_save now c db : acme_run db → Forall clean (mc_domains c) → acme_run (save_managed_certificate now c db).2
| acme_create now domain db : acme_run db → clean domain → acme_run (create_automatic_certificate_if_absent now domain db).2
| acme_ensure now config db : acme_run db → Forall clean (automatic_domains config) → acme_run (ensure_automatic_certificates now config db).2
| acme_delete id seen db : acme_run seen → acme_run db → acme_run (deletion id seen db).2
| acme_activate g r db : acme_run db → 0 ∉ cg_certificate_id g → acme_run (activate_generation g r db).2
| acme_renewal r db : acme_run db → acme_run (save_renewal_state r db).2
| acme_gates now db : acme_run db → acme_run (clear_renewal_retry_gates now db).2
| acme_cleanup now per days db : acme_run db → acme_run (cleanup_retention now per days db).2
| acme_migrate db : acme_run db → acme_run (migrate_certificates_to_single_domain_ids db).2
| acme_import selected src db : acme_run src → acme_run db → together selected → acme_run (import_cleared selected src db)
| acme_other db db' : acme_run db → same_acme db db' → acme_run db'.

Lemma acme_wf_same db db' : same_acme db db' → acme_wf db → acme_wf db'.
Proof. intros (E1&E2&E3&E4) [H1 H2 H3 H4]. split; rewrite ?E1, ?E2, ?E3, ?E4; done. Qed.
Lemma import_wf selected src db : acme_wf src → acme_wf db → together selected → acme_wf (import_cleared selected src db).
Proof.
  intros Hs Hd [Hall|Hall]; unfold certificate_families in Hall; cbn [map] in Hall; rewrite !Forall_cons in Hall; destruct Hall as (H1&H2&H3&H4&_);
    [apply (acme_wf_same src)|apply (acme_wf_same db)]; try done; split_and!; cbn; by rewrite ?H1, ?H2, ?H3, ?H4.
Qed.
Lemma acme_run_wf db : acme_run db → acme_wf db.
Proof.
  induction 1.
  - split; cbn; intros *; rewrite ?lookup_empty; try done. split; [done|]. by intros [_ [? ?]].
  - by apply bootstrap_wf.
  - by apply save_certificate_wf.
  - by apply create_automatic_wf.
  - unfold ensure_automatic_certificates. destruct (negb _); [done|]. by apply ensure_each_wf.
  - by apply deletion_wf.
  - by apply activate_wf.
  - unfold save_renewal_state. destruct (bool_decide _); [done|]. by apply (acme_wf_same db).
  - by apply (acme_wf_same db).
  - by apply cleanup_wf.
  - by rewrite migrate_wf.
  - by apply import_wf.
  - by eapply acme_wf_same.
Qed.


Module AcmeStoreExample.
Definition home : bytes := lit "home.example".
Definition cert : ManagedCertificate := MkManaged home [home] (lit "le") true false (MkPublish false false) None None.
Definition gen : CertificateGeneration := MkGeneration (lit "g1") home [] [] [] [] None (Some 100) (Some 1).
Definition renewal : RenewalState := MkRenewal home None None None None 0 None None None None None.
Definition db1 : Db := (save_managed_certificate 1 cert db_empty).2.
Definition db2 : Db := (activate_generation gen renewal db1).2.


(** A name that ends in a blank before its final dot normalises to one with
    a blank at its end, which would normalise further. *)
Definition other : ManagedCertificate :=
  MkManaged (home ++ lit " ") [home ++ lit " ."] (lit "le") true false (MkPublish false false) None None.
End AcmeStoreExample.

(** A normal form is not stable.  [normalize_domain] trims white space
    before it trims dots, so the normal form of "home.example ." ends in a
    blank and normalises to another name.  Saving a certificate under that
    name a second time computes its old domain as "home.example" and removes
    that index entry, which belongs to another certificate: the certificate
    of home.example is still stored but its domain no longer finds it. *)
Theorem unstable_name_unindexes_other t1 t2 t3 :
  let db := (save_managed_certificate t3 AcmeStoreExample.other (save_managed_certificate t2 AcmeStoreExample.other
               (save_managed_certificate t1 AcmeStoreExample.cert db_empty).2).2).2 in
  is_Some (managed_certificate AcmeStoreExample.home db) ∧ certificate_for_domain AcmeStoreExample.home db = Ok None.
Proof. vm_compute. eauto. Qed.

(** What belongs together.  Restoring the certificates alone, a selection an
    import accepts, brings back a certificate that its domain no longer
    finds. *)
Theorem scoped_import_unindexes :
  let db := import_cleared (Some {[lit "certificates"]}) AcmeStoreExample.db2 db_empty in
  is_Some (managed_certificate AcmeStoreExample.home db) ∧ certificate_for_domain AcmeStoreExample.home db = Ok None.
Proof. vm_compute. eauto. Qed.

(** Deletion takes no lock.  A generation of the certificate that is activated
    between the reads of its deletion and the write stays behind, key and
    all, with no certificate it belongs to. *)
Theorem deletion_misses_activation id seen g r :
  acme_wf seen → is_Some (managed_certificate id seen) → cg_certificate_id g = id → cg_id g ≠ [] → rs_certificate_id r = id →
  db_generations seen !! generation_key id (cg_id g) = None →
  let db := (deletion id seen (activate_generation g r seen).2).2 in
  managed_certificate id db = None ∧ active_generation id db = None ∧ db_generations db !! generation_key id (cg_id g) = Some g.
Proof.
  intros Hwf [c Hc] Hg Hgid Hr Hnew. pose proof (wf_certificate _ Hwf _ _ Hc) as (_&Hd&Hcan).
  unfold activate_generation. rewrite Hg, Hr, (proj2 (eqb_bytes_spec id id) eq_refl), !bool_decide_eq_false_2; [|by intros ->|done]. cbn [orb negb snd].
  unfold managed_certificate in Hc. unfold deletion. rewrite Hc, Hd. cbn [normalize_all]. rewrite Hcan. cbn [fmap option_fmap option_map]. cbv zeta.
  unfold managed_certificate, active_generation. cbn. rewrite !lookup_delete_eq. split_and!; [done|done|].
  by rewrite delete_scanned, Hnew, andb_false_r, lookup_insert_eq.
Qed.

(** ** The default provider *)

Record providers_wf (m : gmap bytes AcmeProvider) : Prop := {
  pw_key : ∀ k q, m !! k = Some q → ap_id q = k;
  pw_unique : ∀ k k' q q', m !! k = Some q → m !! k' = Some q' → ap_is_default q = true → ap_is_default q' = true → k = k';
  pw_some : is_Some (m !! production_id) → ∃ k q, m !! k = Some q ∧ ap_is_default q = true;
}.

Lemma existsb_default db : existsb ap_is_default (providers db) = true ↔ ∃ k q, db_providers db !! k = Some q ∧ ap_is_default q = true.
Proof.
  rewrite existsb_exists. unfold providers. setoid_rewrite <-list_elem_of_In. setoid_rewrite elem_of_iter_value. naive_solver.
Qed.

(** The other defaults lose the mark, and nothing else changes hands. *)
Lemma clear_defaults_spec id l m :
  (∀ k q, m !! k = Some q → ap_id q = k) →
  (∀ k q, m !! k = Some q → ap_is_default q = true → k ≠ id → q ∈ l) →
  let m' := foldl (clear_default id) m l in
  (∀ k q, m' !! k = Some q → ap_id q = k) ∧ (∀ k q, m' !! k = Some q → ap_is_default q = true → k = id).
Proof.
  revert m. induction l as [|c l IH]; intros m Hk Hd m'.
  - split; [done|]. intros k q Hq Hdef. destruct (decide (k = id)); [done|]. exfalso. by eapply not_elem_of_nil, Hd.
  - apply IH; clear IH m'.
    + intros k q. unfold clear_default. destruct (_ && _); [|apply Hk]. intros [[<- <-]|[_ Hq]]%lookup_insert_Some; [done|by apply Hk].
    + intros k q. unfold clear_default. destruct (eqb_bytes (ap_id c) id) eqn:Eid; cbn [negb andb].
      * intros Hq Hdef Hne. pose proof (Hd k q Hq Hdef Hne) as [->|]%elem_of_cons; [|done]. exfalso. apply bool_decide_eq_true in Eid. subst. by apply Hk in Hq.
      * destruct (ap_is_default c) eqn:Ec.
        -- intros [[<- <-]|[Hne' Hq]]%lookup_insert_Some Hdef Hne; [done|]. pose proof (Hd k q Hq Hdef Hne) as [->|]%elem_of_cons; [|done].
           destruct Hne'. by apply Hk.
        -- intros Hq Hdef Hne. pose proof (Hd k q Hq Hdef Hne) as [->|]%elem_of_cons; [congruence|done].
Qed.

(** The write of [save_provider], before the fallback. *)
Lemma write_provider_wf p db m : providers_wf (db_providers db) →
  m = (if ap_is_default p then foldl (clear_default (ap_id p)) (db_providers db) (providers db) else db_providers db) →
  (∀ k q, <[ap_id p := p]> m !! k = Some q → ap_id q = k)
  ∧ (∀ k k' q q', <[ap_id p := p]> m !! k = Some q → <[ap_id p := p]> m !! k' = Some q' →
      ap_is_default q = true → ap_is_default q' = true → k = k').
Proof.
  intros [Hk Hu _] ->. destruct (ap_is_default p) eqn:Ep.
  - destruct (clear_defaults_spec (ap_id p) (providers db) (db_providers db) Hk) as [H1 H2].
    { intros k q Hq _ _. apply elem_of_iter_value. by exists k. }
    split; [intros k q [[<- <-]|[_ Hq]]%lookup_insert_Some; [done|by apply H1]|].
    assert (∀ k q, <[ap_id p := p]> (foldl (clear_default (ap_id p)) (db_providers db) (providers db)) !! k = Some q → ap_is_default q = true → k = ap_id p) as H3.
    { intros k q [[<- <-]|[_ Hq]]%lookup_insert_Some; [done|by apply H2]. }
    intros k k' q q' Hq Hq' Hd Hd'. by rewrite (H3 k q), (H3 k' q').
  - split; [intros k q [[<- <-]|[_ Hq]]%lookup_insert_Some; [done|by apply Hk]|].
    intros k k' q q' [[<- <-]|[_ Hq]]%lookup_insert_Some [[<- <-]|[_ Hq']]%lookup_insert_Some; [congruence..|]. by apply Hu.
Qed.

Lemma save_provider_wf p db : providers_wf (db_providers db) → providers_wf (db_providers (save_provider p db).2).
Proof.
  intros Hwf. unfold save_provider. destruct (provider_ok p); cbn [negb]; [|done].
  set (m := if ap_is_default p then _ else _). destruct (write_provider_wf p db m Hwf eq_refl) as [Hk Hu].
  cbn [snd]. set (db1 := set_providers _ _). destruct (existsb _ _) eqn:Ee; cbn [negb].
  - split; [done|done|]. intros _. by apply existsb_default in Ee.
  - assert (∀ k q, db_providers db1 !! k = Some q → ap_is_default q = false) as Hnone.
    { intros k q Hq. apply Bool.not_true_iff_false. intros Hd. apply Bool.not_true_iff_false in Ee. apply Ee. apply existsb_default. eauto. }
    unfold provider. destruct (db_providers db1 !! production_id) as [prod|] eqn:Eprod.
    + apply Hk in Eprod as Hid. split; cbn [db_providers set_providers].
      * intros k q [[<- <-]|[_ Hq]]%lookup_insert_Some; [done|by apply Hk].
      * intros k k' q q' [[<- <-]|[_ Hq]]%lookup_insert_Some [[<- <-]|[_ Hq']]%lookup_insert_Some Hd Hd'; try done;
          [apply Hnone in Hq'|apply Hnone in Hq|apply Hnone in Hq]; congruence.
      * intros _. exists (ap_id prod), (set_default true prod). by rewrite lookup_insert_eq.
    + split; [done|done|]. intros [? Hx]. congruence.
Qed.
Lemma delete_provider_wf id db : providers_wf (db_providers db) → providers_wf (db_providers (delete_provider id db).2).
Proof.
  intros [Hk Hu Hs]. unfold delete_provider, provider. destruct (_ || _) eqn:Eb; [done|]. bool_prop.
  destruct (match db_providers db !! id with Some p => ap_is_default p | None => false end) eqn:Ed; [done|]. cbn. split.
  - intros k q [_ Hq]%lookup_delete_Some. by apply Hk.
  - intros k k' q q' [_ Hq]%lookup_delete_Some [_ Hq']%lookup_delete_Some. by apply Hu.
  - intros [x [_ Hx]%lookup_delete_Some]. destruct Hs as (k&q&Hq&Hd); [by exists x|]. exists k, q. split; [|done]. apply lookup_delete_Some.
    split; [|done]. intros <-. rewrite Hq in Ed. congruence.
Qed.
Lemma save_if_absent_wf p db : providers_wf (db_providers db) → providers_wf (db_providers (save_if_absent p db).2).
Proof. intros Hwf. unfold save_if_absent. destruct (provider _ _); [done|]. by apply save_provider_wf. Qed.

(** A valid provider is stored, and stored ones stay. *)
Lemma save_provider_stored p db : provider_ok p = true → ∃ db', save_provider p db = (Ok (), db') ∧ is_Some (db_providers db' !! ap_id p)
  ∧ ∀ k, is_Some (db_providers db !! k) → is_Some (db_providers db' !! k).
Proof.
  intros Hp. unfold save_provider. rewrite Hp. cbn [negb]. eexists. split; [done|].
  set (m := if ap_is_default p then _ else _).
  assert (∀ k, is_Some (db_providers db !! k) → is_Some (m !! k)) as Hm.
  { unfold m. destruct (ap_is_default p); [|done]. intros k. generalize (db_providers db). induction (providers db) as [|c l IH]; [done|]. intros m' Hk.
    apply IH. unfold clear_default. destruct (_ && _); [|done]. rewrite lookup_insert_is_Some'. by right. }
  set (db1 := set_providers _ _).
  assert (∀ k, k = ap_id p ∨ is_Some (db_providers db !! k) → is_Some (db_providers db1 !! k)) as H1.
  { intros k Hk. unfold db1. cbn. rewrite lookup_insert_is_Some'. destruct Hk as [->|Hk]; [by left|right; by apply Hm]. }
  assert (∀ k, is_Some (db_providers db1 !! k) → is_Some (db_providers (if negb (existsb ap_is_default (providers db1))
     then match provider production_id db1 with
          | Some production => set_providers (<[ap_id production := set_default true production]> (db_providers db1)) db1
          | None => db1
          end
     else db1) !! k)) as H2.
  { intros k Hk. destruct (negb _); [|done]. destruct (provider _ _); [|done]. cbn [db_providers set_providers]. rewrite lookup_insert_is_Some'. by right. }
  split; [apply H2, H1; by left|]. intros k Hk. apply H2, H1. by right.
Qed.

(** A default that is stored stays stored when a default or another,
    non-default provider is saved. *)
Lemma save_provider_lookup p q db : provider_ok p = true →
  (if ap_is_default p then q = p else db_providers db !! ap_id q = Some q ∧ ap_id q ≠ ap_id p ∧ ap_is_default q = true) →
  db_providers (save_provider p db).2 !! ap_id q = Some q.
Proof.
  intros Hp Hq. unfold save_provider. rewrite Hp. cbn [negb snd]. set (m := if ap_is_default p then _ else _). set (db1 := set_providers _ _).
  assert (db_providers db1 !! ap_id q = Some q) as Hl.
  { unfold db1, m. cbn. destruct (ap_is_default p); [subst q; apply lookup_insert_eq|]. destruct Hq as (?&?&_). by rewrite lookup_insert_ne. }
  assert (existsb ap_is_default (providers db1) = true) as ->; [|done].
  apply existsb_default. exists (ap_id q), q. split; [done|]. destruct (ap_is_default p) eqn:Ep; [congruence|by destruct Hq as (_&_&?)].
Qed.
Lemma save_if_absent_stored p db : provider_ok p = true → ∃ db', save_if_absent p db = (Ok (), db') ∧ is_Some (db_providers db' !! ap_id p)
  ∧ ∀ k, is_Some (db_providers db !! k) → is_Some (db_providers db' !! k).
Proof.
  intros Hp. unfold save_if_absent, provider. destruct (db_providers db !! ap_id p) eqn:E; [|by apply save_provider_stored].
  eexists. split; [done|]. by rewrite E.
Qed.

Lemma ensure_builtin_spec db : providers_wf (db_providers db) →
  ∃ db', ensure_builtin_providers db = (Ok (), db') ∧ providers_wf (db_providers db')
    ∧ is_Some (db_providers db' !! production_id) ∧ is_Some (db_providers db' !! staging_id).
Proof.
  intros Hwf. unfold ensure_builtin_providers. set (has_default := existsb _ _).
  pose proof (save_if_absent_wf (builtin_production (negb has_default)) db Hwf) as Hwf1.
  destruct (save_if_absent_stored (builtin_production (negb has_default)) db) as (db1&E1&Hprod&_); [by destruct has_default|].
  rewrite E1 in Hwf1 |- *. cbn [snd] in Hwf1.
  pose proof (save_if_absent_wf builtin_staging db1 Hwf1) as Hwf2.
  destruct (save_if_absent_stored builtin_staging db1) as (db2&E2&Hstag&Hkeep); [done|]. rewrite E2 in Hwf2 |- *. cbn [snd] in Hwf2.
  apply Hkeep in Hprod. change (ap_id (builtin_production _)) with production_id in Hprod. change (ap_id builtin_staging) with staging_id in Hstag.
  destruct has_default eqn:Ed; [by exists db2|].
  assert (provider production_id db2 = Some (builtin_production true)) as ->; [|by exists db2].
  assert (db_providers db !! production_id = None) as Habs.
  { apply eq_None_not_Some. intros Hp. apply (pw_some _ Hwf) in Hp as Hex. apply existsb_default in Hex. unfold has_default in Ed. congruence. }
  assert (db_providers db1 !! production_id = Some (builtin_production true)) as H1.
  { unfold save_if_absent, provider in E1. cbn [ap_id builtin_production negb] in E1. rewrite Habs in E1.
    pose proof (save_provider_lookup (builtin_production true) (builtin_production true) db) as Hl. rewrite E1 in Hl. by apply Hl. }
  unfold save_if_absent in E2. destruct (provider (ap_id builtin_staging) db1); [by injection E2 as <-|].
  pose proof (save_provider_lookup builtin_staging (builtin_production true) db1) as Hl. rewrite E2 in Hl. by apply Hl.
Qed.

(** The life of the provider table. *)
Inductive provider_run : Db → Prop :=
| provider_empty : provider_run db_empty
| provider_ensure db : provider_run db → provider_run (ensure_builtin_providers db).2
| provider_save p db : provider_run db → provider_run (save_provider p db).2
| provider_delete id db : provider_run db → provider_run (delete_provider id db).2
| provider_other db db' : provider_run db → db_providers db' = db_providers db → provider_run db'.

Lemma provider_run_wf db : provider_run db → providers_wf (db_providers db).
Proof.
  induction 1 as [|db _ IH| | |db db' _ IH Heq].
  - split; intros *; rewrite ?lookup_empty; try done. by intros [? ?].
  - by destruct (ensure_builtin_spec db IH) as (db'&->&?&_).
  - by apply save_provider_wf.
  - by apply delete_provider_wf.
  - by rewrite Heq.
Qed.

(** There is exactly one default provider.  However providers were saved
    and deleted before, installing the built-in ones succeeds, and from then
    on, while the built-in production provider exists (it cannot be
    deleted), exactly one stored provider carries the default mark and it is
    the one [default_provider_id] names. *)
Theorem one_default_provider db :
  provider_run db →
  (∃ db', ensure_builtin_providers db = (Ok (), db') ∧ is_Some (provider production_id db') ∧ is_Some (provider staging_id db'))
  ∧ (∀ id, is_Some (provider production_id db) → is_Some (provider production_id (delete_provider id db).2))
  ∧ (is_Some (provider production_id db) →
      ∃ p, provider (default_provider_id db) db = Some p ∧ ap_is_default p = true ∧ ap_id p = default_provider_id db
        ∧ ∀ id q, provider id db = Some q → ap_is_default q = true → q = p).
Proof.
  intros Hwf%provider_run_wf. split; [|split].
  - destruct (ensure_builtin_spec db Hwf) as (db'&E&_&?&?). by exists db'.
  - intros id Hp. unfold delete_provider. destruct (_ || _) eqn:Eb; [done|]. destruct (match provider id db with Some p => ap_is_default p | None => false end); [done|].
    apply orb_false_iff in Eb as [Eb _]. apply bool_decide_eq_false in Eb. unfold provider. cbn [snd db_providers set_providers].
    by rewrite lookup_delete_ne.
  - intros Hp. apply (pw_some _ Hwf) in Hp as (k&q&Hq&Hd). unfold default_provider_id.
    destruct (find ap_is_default (providers db)) as [p|] eqn:Ef.
    + apply find_some in Ef as [Hin%list_elem_of_In Hdp]. unfold providers in Hin. apply elem_of_iter_value in Hin as (k'&Hk').
      pose proof (pw_key _ Hwf _ _ Hk') as Hid. exists p. unfold provider. rewrite Hid. split_and!; [done..|].
      intros id q' Hq' Hdq'. assert (id = k') as -> by (by eapply (pw_unique _ Hwf)). congruence.
    + assert (q ∈ providers db) as Hin by (apply elem_of_iter_value; eauto). apply list_elem_of_In in Hin.
      pose proof (find_none _ _ Ef q Hin). congruence.
Qed.

Lemma one_default_provider_witness : default_provider_id (ensure_builtin_providers db_empty).2 = production_id
  ∧ ∃ p, provider production_id (ensure_builtin_providers db_empty).2 = Some p ∧ ap_is_default p = true.
Proof.
  assert (provider_run (ensure_builtin_providers db_empty).2) as Hrun by (repeat constructor).
  destruct (one_default_provider _ Hrun) as (_&_&H). destruct H as (p&Hp&Hd&_); [vm_compute; eauto|].
  assert (default_provider_id (ensure_builtin_providers db_empty).2 = production_id) as Heq by (vm_compute; reflexivity).
  rewrite Heq in Hp. split; [exact Heq|]. exists p. split; assumption.
Defined.
