(* ===== verification/StoreMigrate.v ===== *)
(** * Migration of legacy certificate records (src/store/acme.rs)

    [migrate_certificates_to_single_domain_ids]: what it establishes and
    what it leaves alone. *)

From stdpp Require Import sorting.
From S2P Require Import Prelude RustStd Net ProxyProtocol AcmeDns Config RuntimeConfig Store StoreProps StoreAcme StoreAcmeProps.
Open Scope Z_scope.

(** ** One domain, one certificate *)

Definition single (d : bytes) (c : ManagedCertificate) : Prop := mc_id c = d ∧ mc_domains c = [d].

Lemma split_fold_certificates c active renewal old diags domains out :
  db_certificates (foldl (split_one c active renewal old diags) out domains) = foldl (λ m d, <[d := split_certificate c d]> m) (db_certificates out) domains.
Proof. revert out. induction domains as [|d ds IH]; intros out; [done|]. cbn [foldl]. by rewrite IH. Qed.
Lemma split_fold_index c active renewal old diags domains out :
  db_domain_index (foldl (split_one c active renewal old diags) out domains) = foldl (λ m d, <[d := d]> m) (db_domain_index out) domains.
Proof. revert out. induction domains as [|d ds IH]; intros out; [done|]. cbn [foldl]. by rewrite IH. Qed.

Lemma foldl_insert_lookup {V} (f : bytes → V) (domains : list bytes) (m : gmap bytes V) (k : bytes) :
  foldl (λ m d, <[d := f d]> m) m domains !! k = if bool_decide (k ∈ domains) then Some (f k) else m !! k.
Proof.
  revert m. induction domains as [|d ds IH]; intros m; cbn [foldl]; [done|]. rewrite IH.
  destruct (decide (k ∈ ds)) as [Hin|Hin].
  - rewrite !bool_decide_eq_true_2 by set_solver. done.
  - rewrite (bool_decide_eq_false_2 (k ∈ ds)) by done. destruct (decide (k = d)) as [->|Hne].
    + by rewrite lookup_insert_eq, bool_decide_eq_true_2 by set_solver.
    + rewrite lookup_insert_ne by done. rewrite bool_decide_eq_false_2 by set_solver. done.
Qed.

Lemma migrate_one_lookups existing db c out ds out' :
  migrate_one existing db c out = Ok (ds, out') →
  normalize_all (mc_domains c) = Some ds
  ∧ (∀ d, d ∈ ds → d ∈ existing → d = mc_id c)
  ∧ (∀ k, db_certificates out' !! k =
        if bool_decide (k ∈ ds) then Some (split_certificate c k) else if bool_decide (k = mc_id c) then None else db_certificates out !! k)
  ∧ (∀ k, db_domain_index out' !! k = if bool_decide (k ∈ ds) then Some k else db_domain_index out !! k).
Proof.
  unfold migrate_one. destruct (normalize_all _) as [ds'|]; [|done]. destruct (existsb _ _) eqn:E; [done|]. intros [= -> <-].
  split; [done|]. split; [|split].
  - intros d Hd He. destruct (decide (d = mc_id c)) as [|Hne]; [done|]. exfalso. apply Bool.not_true_iff_false in E. apply E.
    apply existsb_exists. exists d. split; [by apply list_elem_of_In|]. rewrite bool_decide_eq_true_2 by done. unfold eqb_bytes.
    by rewrite bool_decide_eq_false_2.
  - intros k. rewrite split_fold_certificates, foldl_insert_lookup. cbn. destruct (bool_decide (k ∈ ds)); [done|].
    destruct (decide (k = mc_id c)) as [->|Hne].
    + by rewrite lookup_delete_eq, bool_decide_eq_true_2.
    + by rewrite lookup_delete_ne, bool_decide_eq_false_2.
  - intros k. rewrite split_fold_index. apply (foldl_insert_lookup id).
Qed.

Lemma normalize_all_elem domains ds d : normalize_all domains = Some ds → d ∈ ds → ∃ d0, d0 ∈ domains ∧ AcmeDns.normalize_domain d0 = Some d.
Proof.
  revert ds. induction domains as [|d0 domains IH]; intros ds; cbn; [intros [= <-]; set_solver|].
  destruct (AcmeDns.normalize_domain d0) as [e|] eqn:E; [|done]. intros H Hd. apply fmap_Some in H as (ds'&Hds&->).
  apply elem_of_cons in Hd as [->|Hd]; [exists d0; set_solver|]. destruct (IH _ Hds Hd) as (d1&?&?). exists d1. set_solver.
Qed.
Lemma split_not_legacy c d : canonical d → is_legacy (split_certificate c d) = false.
Proof. intros H. unfold is_legacy. cbn. by rewrite bool_decide_eq_true_2. Qed.

(** ** The loop over legacy certificates *)

Section loop.
Context (existing : gset bytes) (db : Db).

(** Records in the batch are migrated or still to be migrated; those that
    were never legacy are as stored; replaced domains resolve. *)
Record migrating (todo : list ManagedCertificate) (replacements : list (bytes * list bytes)) (out : Db) : Prop := {
  mg_legacy : ∀ k c, db_certificates out !! k = Some c → is_legacy c = false ∨ (c ∈ todo ∧ mc_id c = k);
  mg_kept : ∀ k c, db_certificates db !! k = Some c → is_legacy c = false → db_certificates out !! k = Some c;
  mg_done : ∀ id ds d, (id, ds) ∈ replacements → d ∈ ds → db_domain_index out !! d = Some d ∧ (∃ c, db_certificates out !! d = Some c ∧ single d c);
  mg_ids : ∀ id ds d, (id, ds) ∈ replacements → d ∈ ds → d ∈ existing → d = id;
}.

Lemma migrate_each_spec todo replacements out reps' out' :
  (∀ k c, db_certificates db !! k = Some c → is_legacy c = false → k ∈ existing ∧ k ∉ map mc_id todo) →
  (∀ c, c ∈ todo → mc_id c ∈ existing ∧ Forall clean (mc_domains c)) →
  NoDup (map fst replacements ++ map mc_id todo) →
  migrating todo replacements out → migrate_each existing db todo replacements out = Ok (reps', out') → migrating [] reps' out'
  ∧ ∀ c ds, c ∈ todo → normalize_all (mc_domains c) = Some ds → (mc_id c, ds) ∈ reps'.
Proof.
  revert replacements out. induction todo as [|c todo IH]; intros reps out Hkept Htodo Hnd Hm; cbn [migrate_each].
  { intros [= <- <-]. split; [done|]. set_solver. }
  destruct (migrate_one existing db c out) as [[ds out1]|] eqn:E1; cbn [mbind]; [|done]. intros Hrun. cbn in Hrun.
  apply migrate_one_lookups in E1 as (Hds&Hex&Hcert&Hidx). destruct Hm as [M1 M2 M3 M4].
  destruct (Htodo c) as [Hce Hcl]; [set_solver|].
  assert (migrating todo (reps ++ [(mc_id c, ds)]) out1) as Hm1.
  { split.
    - intros k v. rewrite Hcert. destruct (decide (k ∈ ds)) as [Hin|Hin]; [rewrite bool_decide_eq_true_2 by done|rewrite bool_decide_eq_false_2 by done].
      + intros [= <-]. left. apply split_not_legacy. destruct (normalize_all_elem _ _ _ Hds Hin) as (d0&Hd0&Hn).
        rewrite Forall_forall in Hcl. by apply (Hcl d0 Hd0).
      + destruct (decide (k = mc_id c)) as [->|Hne]; [by rewrite bool_decide_eq_true_2|]. rewrite bool_decide_eq_false_2 by done.
        intros [?|[[->|?]%elem_of_cons Hk]]%M1; [by left|by destruct Hne|by right].
    - intros k v Hv Hl. rewrite Hcert. destruct (Hkept k v Hv Hl) as [Hke Hkn]. cbn in Hkn.
      rewrite bool_decide_eq_false_2; [rewrite bool_decide_eq_false_2 by set_solver; by apply M2|]. intros Hin. apply Hex in Hin; [|done]. set_solver.
    - intros id es d Hin Hd. rewrite Hcert, Hidx. destruct (decide (d ∈ ds)) as [Hdd|Hdd].
      { rewrite !bool_decide_eq_true_2 by done. split; [done|]. eexists. split; [done|]. by split. }
      rewrite !(bool_decide_eq_false_2 (d ∈ ds)) by done. apply elem_of_app in Hin as [Hin|[= <- <-]%list_elem_of_singleton]; [|done].
      destruct (M3 _ _ _ Hin Hd) as (?&?&?&?). split; [done|]. rewrite bool_decide_eq_false_2; [eauto|]. intros ->.
      assert (mc_id c = id) as <- by (by eapply M4). apply NoDup_app in Hnd as (_&Hdis&_). apply (Hdis (mc_id c)); [|cbn; set_solver].
      by apply (list_elem_of_fmap_2 fst _ (mc_id c, es)).
    - intros id es d Hin. apply elem_of_app in Hin as [Hin|[= -> ->]%list_elem_of_singleton]; [by eapply M4|]. apply Hex. }
  destruct (IH (reps ++ [(mc_id c, ds)]) out1) as [H1 H2]; [| | |done|done|].
  - intros k v Hv Hl. destruct (Hkept k v Hv Hl). set_solver.
  - set_solver.
  - rewrite map_app, <-app_assoc. done.
  - split; [done|]. intros c' ds' [->|Hin]%elem_of_cons Hn; [|by apply H2]. assert (ds' = ds) as -> by congruence.
    clear -Hrun. revert Hrun. assert ((mc_id c, ds) ∈ reps ++ [(mc_id c, ds)]) as Hin by set_solver. revert Hin.
    generalize (reps ++ [(mc_id c, ds)]) as l. generalize out1. induction todo as [|c' todo IH]; intros out l Hin; cbn; [by intros [= <- <-]|].
    destruct (migrate_one existing db c' out) as [[? ?]|]; cbn; [|done]. apply IH. set_solver.
Qed.
End loop.

Lemma migrate_noop db : (∀ k c, db_certificates db !! k = Some c → is_legacy c = false) →
  migrate_certificates_to_single_domain_ids db = (Ok 0%nat, db).
Proof.
  intros Hno. unfold migrate_certificates_to_single_domain_ids. rewrite bool_decide_eq_true_2; [done|].
  destruct (List.filter is_legacy (managed_certificates db)) as [|c l] eqn:Ef; [done|]. exfalso.
  assert (c ∈ List.filter is_legacy (managed_certificates db)) as Hin by (rewrite Ef; set_solver).
  apply filter_elem in Hin as [(k&Hk)%elem_of_iter_value Hl]. apply Hno in Hk. congruence.
Qed.

(** Migration is complete.  When the migration to one domain per
    certificate succeeds on a database whose records are stored under their
    ids, running it again changes nothing; every domain of a migrated
    certificate resolves to a certificate for exactly that domain, and
    certificates that already had that form are untouched. *)
Theorem migration_complete db n db' :
  (∀ k c, managed_certificate k db = Some c → mc_id c = k ∧ Forall clean (mc_domains c)) →
  migrate_certificates_to_single_domain_ids db = (Ok n, db') →
  migrate_certificates_to_single_domain_ids db' = (Ok 0%nat, db')
  ∧ (∀ k c ds d, managed_certificate k db = Some c → is_legacy c = true → normalize_all (mc_domains c) = Some ds → d ∈ ds → canonical d →
       ∃ c', certificate_for_domain d db' = Ok (Some c') ∧ single d c')
  ∧ (∀ k c, managed_certificate k db = Some c → is_legacy c = false → managed_certificate k db' = Some c).
Proof.
  intros Hids. unfold managed_certificate in *. unfold migrate_certificates_to_single_domain_ids at 1.
  set (legacy := List.filter is_legacy (managed_certificates db)).
  assert (∀ c, c ∈ legacy ↔ db_certificates db !! mc_id c = Some c ∧ is_legacy c = true) as Hleg.
  { intros c. unfold legacy. rewrite filter_elem. unfold managed_certificates. rewrite elem_of_iter_value. split; [|naive_solver].
    intros [[k Hk] Hl]. split; [|done]. by destruct (Hids _ _ Hk) as [-> _]. }
  destruct (bool_decide (legacy = [])) eqn:El.
  { intros [= <- <-]. apply bool_decide_eq_true in El. rewrite El in Hleg.
    assert (∀ k c, db_certificates db !! k = Some c → is_legacy c = false) as Hno.
    { intros k c Hk. apply Bool.not_true_iff_false. intros Hl. apply (not_elem_of_nil c). apply Hleg. split; [|done]. by destruct (Hids _ _ Hk) as [-> _]. }
    split; [|split; [|done]]; [by apply migrate_noop|intros k c ds d Hk Hl; by rewrite (Hno _ _ Hk) in Hl]. }
  destruct (migrate_each _ _ _ _ _) as [[reps out]|] eqn:Erun; [|done]. intros [= <- <-].
  destruct (migrate_each_spec (list_to_set (map mc_id (managed_certificates db))) db legacy [] db reps out) as [[M1 M2 M3 _] Hreps]; try done.
  - intros k c Hk Hl. destruct (Hids _ _ Hk) as [Hid _]. split.
    + apply elem_of_list_to_set, list_elem_of_fmap. exists c. split; [done|]. apply elem_of_iter_value. by exists k.
    + intros (c'&->&[Hc' Hl']%Hleg)%list_elem_of_fmap. rewrite Hk in Hc'. congruence.
  - intros c [Hc Hl]%Hleg. split; [|by eapply Hids]. apply elem_of_list_to_set, list_elem_of_fmap. exists c. split; [done|].
    apply elem_of_iter_value. by exists (mc_id c).
  - cbn [map app]. apply NoDup_map_filter. unfold managed_certificates. rewrite map_map.
    rewrite (map_ext_in _ fst); [apply NoDup_iter_keys|]. intros [k c] Hin%list_elem_of_In. apply elem_of_iter in Hin. by apply Hids in Hin as [? _].
  - split; [|done|set_solver|set_solver]. intros k c Hk. destruct (Hids _ _ Hk) as [Hid _]. destruct (is_legacy c) eqn:Hl; [right|by left].
    split; [|done]. apply Hleg. by rewrite Hid.
  - split; [|split].
    + apply migrate_noop. cbn. intros k c [?|[?%not_elem_of_nil _]]%M1; done.
    + intros k c ds d Hk Hl Hn Hd Hcan. unfold certificate_for_domain. rewrite Hcan. cbn.
      destruct (M3 (mc_id c) ds d) as (->&c'&Hc'&Hs); [|done|].
      * apply Hreps; [|done]. apply Hleg. split; [|done]. by destruct (Hids _ _ Hk) as [-> _].
      * rewrite Hc'. by exists c'.
    + intros k c Hk Hl. by apply M2.
Qed.

(** The example of the test suite: one record for two domains. *)
Module MigrateExample.
Definition one : bytes := lit "one.example".
Definition two : bytes := lit "two.example".
Definition legacy_cert : ManagedCertificate := MkManaged (lit "legacy-id") [one; two] (lit "test") true false (MkPublish false false) None None.
Definition legacy_db : Db :=
  set_certificates {[mc_id legacy_cert := legacy_cert]} {[one := mc_id legacy_cert; two := mc_id legacy_cert]} db_empty.
Definition legacy_gen : CertificateGeneration := MkGeneration (lit "generation-1") (lit "legacy-id") [] [] [] [] None None None.
Definition full : Db :=
  (save_retrieval_token (MkToken (lit "reader") [] (repeat 97 64) [] {[lit "legacy-id"]} false None None false)
    (activate_generation legacy_gen (MkRenewal (lit "legacy-id") None None None None 0 None None None None None) legacy_db).2).2.
Definition migrated : result store_error nat * Db := migrate_certificates_to_single_domain_ids full.

Example migrated_ok :
  migrated.1 = Ok 1%nat
  ∧ (cg_certificate_id <$> active_generation one migrated.2) = Some one ∧ (cg_certificate_id <$> active_generation two migrated.2) = Some two
  ∧ (elements ∘ rt_certificate_ids <$> retrieval_tokens migrated.2) = [[two; one]]
  ∧ managed_certificate (lit "legacy-id") migrated.2 = None.
Proof. vm_compute. repeat split. Qed.

Lemma migration_complete_witness :
  migrate_certificates_to_single_domain_ids migrated.2 = (Ok 0%nat, migrated.2)
  ∧ ∃ c, certificate_for_domain two migrated.2 = Ok (Some c) ∧ single two c.
Proof.
  destruct (migration_complete full 1%nat migrated.2) as (H1&H2&_).
  - intros k c Hk. change (({[mc_id legacy_cert := legacy_cert]} : gmap bytes ManagedCertificate) !! k = Some c) in Hk.
    apply lookup_singleton_Some in Hk as [<- <-]. split; [reflexivity|].
    repeat constructor; apply graphic_clean; apply (bool_decide_unpack _); vm_compute; exact I.
  - vm_compute. reflexivity.
  - split; [exact H1|]. refine (H2 (lit "legacy-id") legacy_cert [one; two] two _ eq_refl _ _ _); [| | |]; try (vm_compute; reflexivity).
    right. left.
Defined.
End MigrateExample.
