(* ===== verification/Lru.v ===== *)
(** * Bounded caches (the crate lru)

    What the certificate caches rely on: [lru::LruCache] as an interface with
    its documented laws, and a list in order of use that has them. *)

From S2P Require Import Prelude.

Class LruCache (C K V : Type) `{Countable K} := {
  lru_new : C;
  lru_capacity : positive;
  lru_map : C → gmap K V;
  lru_get : K → C → option V * C;
  lru_put : K → V → C → C;
  lru_pop : K → C → C;
  lru_new_empty : lru_map lru_new = ∅;
  lru_get_value k c : (lru_get k c).1 = lru_map c !! k;
  lru_get_keeps k c : lru_map (lru_get k c).2 = lru_map c;
  lru_put_same k v c : lru_map (lru_put k v c) !! k = Some v;
  lru_put_other k v c k' w : k' ≠ k → lru_map (lru_put k v c) !! k' = Some w → lru_map c !! k' = Some w;
  lru_put_bounded k v c : (size (lru_map (lru_put k v c)) ≤ Pos.to_nat lru_capacity)%nat;
  lru_pop_delete k c : lru_map (lru_pop k c) = delete k (lru_map c);
}.

Section derived.
Context {C K V : Type} `{LruCache C K V}.

(** An invariant of the entries survives a put. *)
Lemma lru_put_invariant (P : K → V → Prop) k v c :
  map_Forall P (lru_map c) → P k v → map_Forall P (lru_map (lru_put k v c)).
Proof.
  intros Hc Hv k' w Hw. destruct (decide (k' = k)) as [->|Hne].
  - rewrite lru_put_same in Hw. by injection Hw as <-.
  - by eapply Hc, lru_put_other.
Qed.
Lemma lru_pop_invariant (P : K → V → Prop) k c : map_Forall P (lru_map c) → map_Forall P (lru_map (lru_pop k c)).
Proof. intros Hc. rewrite lru_pop_delete. by apply map_Forall_delete. Qed.
End derived.

(** ** The list in order of use *)

Section list_lru.
Context {K V : Type} `{Countable K} (capacity : positive).

Definition Recency : Type := list (K * V).
Definition others (k : K) (c : Recency) : Recency := List.filter (λ kv, negb (bool_decide (kv.1 = k))) c.
Definition recency_map (c : Recency) : gmap K V := list_to_map c.
Definition recency_get (k : K) (c : Recency) : option V * Recency :=
  match recency_map c !! k with Some v => (Some v, (k, v) :: others k c) | None => (None, c) end.
Definition recency_put (k : K) (v : V) (c : Recency) : Recency := take (Pos.to_nat capacity) ((k, v) :: others k c).

Lemma others_cons k k' v c : others k ((k', v) :: c) = if decide (k' = k) then others k c else (k', v) :: others k c.
Proof. unfold others. cbn. case_bool_decide; by case_decide. Qed.
Lemma others_map k c : recency_map (others k c) = delete k (recency_map c).
Proof.
  unfold recency_map. induction c as [|[k' v] c IH]; [cbn; by rewrite delete_empty|]. rewrite others_cons.
  case_decide as Hk; cbn [list_to_map foldr uncurry].
  - subst. by rewrite IH, delete_insert_eq.
  - by rewrite IH, delete_insert_ne.
Qed.
Lemma recency_take n (c : Recency) k v : recency_map (take n c) !! k = Some v → recency_map c !! k = Some v.
Proof.
  unfold recency_map. revert n. induction c as [|[k' w] c IH]; intros [|n]; cbn; [done..|].
  destruct (decide (k' = k)) as [->|Hne]; [by rewrite !lookup_insert_eq|]. rewrite !lookup_insert_ne by done. apply IH.
Qed.
Lemma recency_size (c : Recency) : (size (recency_map c) ≤ length c)%nat.
Proof.
  unfold recency_map. induction c as [|[k v] c IH]; cbn; [by rewrite map_size_empty|].
  destruct ((list_to_map c : gmap K V) !! k) eqn:E; [rewrite map_size_insert_Some by eauto|rewrite map_size_insert_None by done]; lia.
Qed.
Lemma recency_put_map k v c : recency_put k v c = (k, v) :: take (pred (Pos.to_nat capacity)) (others k c).
Proof. unfold recency_put. destruct (Pos.to_nat capacity) eqn:E; [lia|done]. Qed.

#[global] Program Instance recency_lru : LruCache Recency K V := {|
  lru_new := [];
  lru_capacity := capacity;
  lru_map := recency_map;
  lru_get := recency_get;
  lru_put := recency_put;
  lru_pop := others |}.
Next Obligation. done. Qed.
Next Obligation. intros k c. unfold recency_get. by destruct (recency_map c !! k). Qed.
Next Obligation.
  intros k c. unfold recency_get. destruct (recency_map c !! k) as [v|] eqn:E; [|done]. cbn.
  rewrite others_map. by rewrite insert_delete_eq, insert_id.
Qed.
Next Obligation. intros k v c. rewrite recency_put_map. apply lookup_insert_eq. Qed.
Next Obligation.
  intros k v c k' w Hne Hw. unfold recency_put in Hw. apply recency_take in Hw. revert Hw. unfold recency_map at 1. cbn.
  rewrite lookup_insert_ne by done. fold (recency_map (others k c)). rewrite others_map, lookup_delete_ne by done. done.
Qed.
Next Obligation.
  intros k v c. etrans; [apply recency_size|]. unfold recency_put. rewrite length_take. lia.
Qed.
Next Obligation. intros k c. apply others_map. Qed.
End list_lru.
