(* ===== verification/LocalCa.v ===== *)
(** * The local certificate authority (src/certificate.rs, src/ca.rs)

    The CA's files, the leaves it signs and the in-memory cache of leaves.
    Key generation, signing and the parsing of keys and certificates (rcgen,
    rustls, x509-parser) are parameters; the cache is any [LruCache].  Times
    are nanoseconds. *)

From S2P Require Import Prelude RustStd Net FilePath AcmeDns Config RuntimeConfig Store Lru.
Open Scope Z_scope.

(** ** Names *)

Definition is_ascii_alphabetic (c : byte) : bool := ((65 <=? c) && (c <=? 90)) || ((97 <=? c) && (c <=? 122)).
Definition is_ascii_alphanumeric (c : byte) : bool := is_digit c || is_ascii_alphabetic c.
Definition file_char (c : byte) : bool := is_ascii_alphanumeric c || (c =? 46) || (c =? 45) || (c =? 95).
(** [sanitize_name] works on characters: the continuation bytes of one
    character add nothing. *)
Fixpoint sanitize_name (s : bytes) : bytes :=
  match s with
  | [] => []
  | c :: s => if is_cont c then sanitize_name s else (if file_char c then c else 95) :: sanitize_name s
  end.
Definition host_char (c : byte) : bool := is_ascii_alphanumeric c || (c =? 45) || (c =? 46).
Inductive ca_error :=
| EmptyHost | LongHost | InvalidHost
| IncompleteCa | NotCa | NotValidNow | KeyMismatch | BadSelfSignature | BadCaFile | WriteFailed
| BadDnsName | KeyFailed | SignFailed | BadLeaf
| OpenFailed | BadPem | NoCertificates | NoKey.
Definition sanitize_hostname (hostname : bytes) : result ca_error bytes :=
  let hostname := to_ascii_lowercase (trim_end_char DOT (trim hostname)) in
  if bool_decide (hostname = []) then Err EmptyHost
  else if 253 <? Z.of_nat (length hostname) then Err LongHost
  else if existsb (λ c, negb (host_char c)) hostname then Err InvalidHost
  else Ok hostname.
Definition normal_name (c : Component) : option bytes := match c with Normal name => Some name | _ => None end.
(** The [PathBuf] collected from the normal components. *)
Definition force_relative (path : bytes) : bytes := join [SLASH] (omap normal_name (components path)).

(** ** Subject alternative names and chains *)

Inductive SanType := SanDns (name : bytes) | SanIp (ip : IpAddr).
Definition parse_san (dns_name_ok : bytes → bool) (sans : list SanType) (entry : bytes) : result ca_error (list SanType) :=
  let entry := trim entry in
  if bool_decide (entry = []) then Ok sans
  else match parse_ip entry with
       | Some ip => Ok (sans ++ [SanIp ip])
       | None => if dns_name_ok entry then Ok (sans ++ [SanDns entry]) else Err BadDnsName
       end.
Definition parse_sans (dns_name_ok : bytes → bool) (san : list bytes) : result ca_error (list SanType) :=
  sans ← foldM (parse_san dns_name_ok) [] san;
  if bool_decide (sans = []) then (if dns_name_ok (lit "localhost") then Ok [SanDns (lit "localhost")] else Err BadDnsName) else Ok sans.

(** A served identity: the DER chain, leaf first, and the key. *)
Record CertifiedKey := MkKey { ck_chain : list bytes; ck_key : bytes }.
Definition add_ca (chain : list bytes) (ca : bytes) : list bytes := if bool_decide (ca ∈ chain) then chain else chain ++ [ca].
Definition extend_chain (key : CertifiedKey) (ca_chain : list bytes) : CertifiedKey := MkKey (foldl add_ca (ck_chain key) ca_chain) (ck_key key).

Record LeafParams := MkLeaf { lp_common_name : bytes; lp_sans : list SanType; lp_not_before : Z; lp_not_after : Z }.
Record MintedIdentity := MkMinted { mi_key : CertifiedKey; mi_expires_at : Z }.

(** ** The clock of a job *)

Lemma last_indep {A} (x y z : A) l : List.last (x :: l) y = List.last (x :: l) z.
Proof. revert x. induction l as [|w l IH]; intros x; [done|]. exact (IH w). Qed.
Lemma last_above (x : Z) l : Sorted Z.le (x :: l) → x ≤ List.last l x.
Proof.
  revert x. induction l as [|y l IH]; intros x Hs; [cbn; lia|]. apply Sorted_inv in Hs as [Hs Hr]. apply HdRel_inv in Hr. specialize (IH y Hs).
  assert (List.last (y :: l) x = List.last l y) as -> by (destruct l; [done|]; cbn [List.last]; apply last_indep). lia.
Qed.

(** ** Minting *)

Section mint.
Context (dns_name_ok : bytes → bool) (sign : LeafParams → bytes → option bytes).
Context (certificate_expires_at : bytes → option Z) (identity_ok : list bytes → bytes → bool).

(** [mint_leaf]: [key] is the generated key, [before] and [after] the two
    clock reads. *)
Definition mint_leaf (before after : Z) (key : option bytes) (ca_chain : list bytes) (san : list bytes) (common_name : bytes) (validity_days : Z)
  : result ca_error MintedIdentity :=
  sans ← parse_sans dns_name_ok san;
  key ← ok_or key KeyFailed;
  let params := MkLeaf common_name sans (before - HOUR_NS) (after + Z.max validity_days 1 * DAY_NS) in
  cert ← ok_or (sign params key) SignFailed;
  expires_at ← ok_or (certificate_expires_at cert) BadLeaf;
  guard! identity_ok [cert] key else BadLeaf;
  Ok (MkMinted (extend_chain (MkKey [cert] key) ca_chain) expires_at).

Definition LEAF_VALIDITY_DAYS : Z := 365.
Definition EVICT_WITHIN_HOURS : Z := 72.
Definition leaf_name : bytes := lit "TLS Proxy Local Leaf".
Record CachedIdentity := MkIdentity { ci_key : CertifiedKey; ci_expires_at : Z }.
Definition near_expiry (now : Z) (identity : CachedIdentity) : bool := ci_expires_at identity - now <=? EVICT_WITHIN_HOURS * HOUR_NS.

Context {C : Type} {ca_lru : LruCache C bytes CachedIdentity} (ca_chain : list bytes).

Definition get_cached (now : Z) (key : bytes) (cache : C) : option CertifiedKey * C :=
  match lru_get key cache with
  | (None, cache) => (None, cache)
  | (Some identity, cache) => if near_expiry now identity then (None, lru_pop key cache) else (Some (ci_key identity), cache)
  end.
Definition resolve_cached (now : Z) (hostname : bytes) (cache : C) : option CertifiedKey * C :=
  match sanitize_hostname hostname with
  | Ok hostname => get_cached now hostname cache
  | Err _ => (None, cache)
  end.
(** One call's clock reads and generated key. *)
Record MintInput := MkMint { in_now : Z; in_before : Z; in_after : Z; in_key : option bytes }.
Definition resolve_or_mint_inner (i : MintInput) (cache_key : bytes) (san : list bytes) (cache : C) : result ca_error CertifiedKey * C :=
  match get_cached (in_now i) cache_key cache with
  | (Some key, cache) => (Ok key, cache)
  | (None, cache) =>
      match mint_leaf (in_before i) (in_after i) (in_key i) ca_chain san leaf_name LEAF_VALIDITY_DAYS with
      | Err e => (Err e, cache)
      | Ok minted => (Ok (mi_key minted), lru_put cache_key (MkIdentity (mi_key minted) (mi_expires_at minted)) cache)
      end
  end.
Definition resolve_or_mint (i : MintInput) (hostname : bytes) (cache : C) : result ca_error CertifiedKey * C :=
  match sanitize_hostname hostname with
  | Ok hostname => resolve_or_mint_inner i hostname [hostname] cache
  | Err e => (Err e, cache)
  end.
Definition expiring_keys (now : Z) (cache : C) : list bytes :=
  map fst (List.filter (λ kv, near_expiry now kv.2) (map_to_list (lru_map cache))).
Definition evict_expiring (now : Z) (cache : C) : C := foldl (λ c k, lru_pop k c) cache (expiring_keys now cache).

(** The eviction job: a pass at once, then one after each sleep; the clock at each pass. *)
Definition eviction_job (start : Z) (wakeups : list Z) (cache : C) : C := foldl (λ c now, evict_expiring now c) (evict_expiring start cache) wakeups.

(** *** The cache holds leaves of its keys *)

(** [identity] is a leaf this CA signed for [host] alone, served with the CA. *)
Definition leaf_of (host : bytes) (identity : CachedIdentity) : Prop :=
  ∃ sans before after key cert, parse_sans dns_name_ok [host] = Ok sans
    ∧ sign (MkLeaf leaf_name sans before after) key = Some cert ∧ certificate_expires_at cert = Some (ci_expires_at identity)
    ∧ ci_key identity = extend_chain (MkKey [cert] key) ca_chain.
Definition cache_ok (cache : C) : Prop := map_Forall leaf_of (lru_map cache).

Lemma mint_leaf_ok before after key host m :
  mint_leaf before after key ca_chain [host] leaf_name LEAF_VALIDITY_DAYS = Ok m →
  leaf_of host (MkIdentity (mi_key m) (mi_expires_at m))
  ∧ ∃ sans k cert, sign (MkLeaf leaf_name sans (before - HOUR_NS) (after + 365 * DAY_NS)) k = Some cert
      ∧ certificate_expires_at cert = Some (mi_expires_at m).
Proof.
  unfold mint_leaf. destruct (parse_sans dns_name_ok [host]) as [sans|] eqn:Es; [cbn [mbind result_bind]|done]. destruct key as [key|]; [cbn [ok_or mbind result_bind]|done].
  destruct (sign _ key) as [cert|] eqn:Eg; [cbn [ok_or mbind result_bind]|done].
  destruct (certificate_expires_at cert) as [e|] eqn:Ee; [cbn [ok_or mbind result_bind]|done].
  destruct (identity_ok [cert] key); [|done]. intros [= <-]. split.
  - exists sans, (before - HOUR_NS), (after + Z.max LEAF_VALIDITY_DAYS 1 * DAY_NS), key, cert. done.
  - exists sans, key, cert. done.
Qed.

Lemma get_cached_spec now host cache :
  cache_ok cache →
  (∀ k, (get_cached now host cache).1 = Some k → ∃ i, leaf_of host i ∧ ci_key i = k ∧ now + 72 * HOUR_NS < ci_expires_at i)
  ∧ cache_ok (get_cached now host cache).2.
Proof.
  intros Hok. unfold get_cached. pose proof (lru_get_value host cache) as Hv. pose proof (lru_get_keeps host cache) as Hk.
  destruct (lru_get host cache) as [[i|] c1]; cbn [fst snd] in *.
  - assert (cache_ok c1) as Hok1 by (unfold cache_ok; by rewrite Hk). destruct (near_expiry now i) eqn:En; cbn [fst snd].
    + split; [done|]. by apply lru_pop_invariant.
    + split; [|done]. intros k [= <-]. exists i. split; [by apply Hok|]. split; [done|].
      unfold near_expiry, EVICT_WITHIN_HOURS in En. lia.
  - split; [done|]. unfold cache_ok. by rewrite Hk.
Qed.

(** The issuer dates what it signs, to the second X.509 keeps. *)
Definition dates_kept : Prop :=
  ∀ p k cert e, sign p k = Some cert → certificate_expires_at cert = Some e → lp_not_after p - 1000000000 < e ≤ lp_not_after p.

(** Whatever name a client sends, the local CA answers with a leaf it
    signed for that very name (in its canonical spelling) and no other,
    followed by the CA, and with more than 72 hours left; the cache goes on
    holding only such leaves.  A name with characters no host name has is
    refused before anything is signed. *)
Theorem local_leaf_for_name i hostname cache r cache' :
  dates_kept → cache_ok cache → in_now i ≤ in_after i → resolve_or_mint i hostname cache = (r, cache') →
  cache_ok cache'
  ∧ match r with
    | Ok key => ∃ host identity, sanitize_hostname hostname = Ok host ∧ Forall (λ c, host_char c = true) host
        ∧ leaf_of host identity ∧ ci_key identity = key ∧ in_now i + 72 * HOUR_NS < ci_expires_at identity
    | Err _ => lru_map cache' ⊆ lru_map cache
    end.
Proof.
  intros Hd Hok Hnow. unfold resolve_or_mint. destruct (sanitize_hostname hostname) as [host|] eqn:Eh; [|by intros [= <- <-]].
  assert (Forall (λ c, host_char c = true) host) as Hhost.
  { revert Eh. unfold sanitize_hostname. do 2 (case_match; [done|]). destruct (existsb _ _) eqn:Ee; [done|]. intros [= <-].
    apply Forall_forall. intros x Hx. apply negb_false_iff, not_true_iff_false. intros Hb.
    apply eq_true_false_abs in Ee; [done|]. apply existsb_exists. exists x. by rewrite <- list_elem_of_In. }
  unfold resolve_or_mint_inner. destruct (get_cached_spec (in_now i) host cache Hok) as [Hhit Hok1].
  assert (lru_map (get_cached (in_now i) host cache).2 ⊆ lru_map cache) as Hsub.
  { unfold get_cached. pose proof (lru_get_keeps host cache) as Hk. destruct (lru_get host cache) as [[j|] c1]; cbn [fst snd] in *.
    - destruct (near_expiry _ j); cbn [fst snd]; [rewrite lru_pop_delete|]; rewrite Hk; [apply delete_subseteq|done].
    - by rewrite Hk. }
  destruct (get_cached (in_now i) host cache) as [[k|] c1]; cbn [fst snd] in *.
  - intros [= <- <-]. split; [done|]. destruct (Hhit k eq_refl) as (j&Hj&Hk&Hx). exists host, j. done.
  - destruct (mint_leaf _ _ _ _ _ _ _) as [m|] eqn:Em; intros [= <- <-]; [|done].
    apply mint_leaf_ok in Em as (Hl&sans&k&cert&Hs&He). split; [by apply lru_put_invariant|].
    exists host, (MkIdentity (mi_key m) (mi_expires_at m)). do 4 (split; [done|]). cbn [ci_expires_at].
    pose proof (Hd _ _ _ _ Hs He) as [Hlo _]. cbn [lp_not_after] in Hlo. unfold HOUR_NS, DAY_NS in *. lia.
Qed.

(** The periodic sweep removes exactly the leaves within 72 hours of expiry. *)
Lemma pop_all_in keys cache k : k ∈ keys → lru_map (foldl (λ c k, lru_pop k c) cache keys) !! k = None.
Proof.
  revert cache. assert (∀ ks c, lru_map c !! k = None → lru_map (foldl (λ c k, lru_pop k c) c ks) !! k = None) as Hnone.
  { intros ks. induction ks as [|k' ks IH]; intros c Hc; cbn; [done|]. apply IH. rewrite lru_pop_delete. by apply lookup_delete_None; right. }
  induction keys as [|k' keys IH]; intros cache Hk; cbn; [by apply elem_of_nil in Hk|]. apply elem_of_cons in Hk as [->|Hk]; [|by apply IH].
  apply Hnone. rewrite lru_pop_delete. apply lookup_delete_eq.
Qed.
Lemma pop_all_notin keys cache k : k ∉ keys → lru_map (foldl (λ c k, lru_pop k c) cache keys) !! k = lru_map cache !! k.
Proof.
  revert cache. induction keys as [|k' keys IH]; intros cache Hk; cbn; [done|]. apply not_elem_of_cons in Hk as [Hne Hk].
  rewrite IH by done. by rewrite lru_pop_delete, lookup_delete_ne.
Qed.
Theorem evict_exact now cache k identity :
  lru_map (evict_expiring now cache) !! k = Some identity ↔ lru_map cache !! k = Some identity ∧ near_expiry now identity = false.
Proof.
  unfold evict_expiring. unfold expiring_keys.
  assert (k ∈ map fst (List.filter (λ kv : bytes * CachedIdentity, near_expiry now kv.2) (map_to_list (lru_map cache)))
          ↔ ∃ j, lru_map cache !! k = Some j ∧ near_expiry now j = true) as Hin.
  { rewrite list_elem_of_fmap. split.
    - intros ([k' j]&->&[Hm%elem_of_map_to_list Hn]%filter_elem). eauto.
    - intros (j&Hj&Hn). exists (k, j). split; [done|]. apply filter_elem. split; [by apply elem_of_map_to_list|done]. }
  destruct (decide (k ∈ map fst (List.filter (λ kv : bytes * CachedIdentity, near_expiry now kv.2) (map_to_list (lru_map cache))))) as [Hk|Hk].
  - rewrite pop_all_in by done. apply Hin in Hk as (j&Hj&Hn). split; [done|]. intros [Hk' Hf]. congruence.
  - rewrite pop_all_notin by done. split; [|tauto]. intros Hk'. split; [done|]. apply not_true_iff_false. intros Hn. apply Hk, Hin. eauto.
Qed.

(** Over a whole run of the job with a clock that does not go back, what is
    left is what is usable at the last pass, and nothing usable was dropped. *)
Theorem eviction_job_exact start wakeups cache k identity :
  Sorted Z.le (start :: wakeups) →
  lru_map (eviction_job start wakeups cache) !! k = Some identity
  ↔ lru_map cache !! k = Some identity ∧ near_expiry (List.last wakeups start) identity = false.
Proof.
  unfold eviction_job. revert start cache. induction wakeups as [|now wakeups IH]; intros start cache Hs; cbn [foldl]; [apply evict_exact|].
  apply Sorted_inv in Hs as [Hs Hr]. apply HdRel_inv in Hr. rewrite (IH now _ Hs), evict_exact.
  replace (List.last (now :: wakeups) start) with (List.last wakeups now) by (destruct wakeups; [done|]; cbn [List.last]; apply last_indep).
  assert (now ≤ List.last wakeups now) as Hl by (by apply last_above).
  unfold near_expiry. rewrite !Z.leb_gt. split; [tauto|]. intros [? ?]. repeat split; [done| |done]. lia.
Qed.
End mint.

(** ** The CA's files *)

Section ca_files.
Abbreviation Files := (gmap bytes bytes).
Record X509 := MkX509 { x_is_ca : bool; x_not_before : Z; x_not_after : Z; x_public_key : bytes; x_self_signed : bool }.
Record CaParams := MkCaParams { cp_common_name : bytes; cp_not_before : Z; cp_not_after : Z }.
(** An issuer is its certificate and its key, as PEM. *)
Record Issuer := MkIssuer { is_cert_pem : bytes; is_key_pem : bytes }.
Definition CA_VALIDITY_DAYS : Z := 3650.

Context (public_key_of : bytes → option bytes) (parse_certificate : bytes → option X509) (self_sign : CaParams → bytes → option bytes).
Context (issuer_of_pem : bytes → bytes → bool).
(** [Validity::time_to_expiration] of x509-parser. *)
Context (time_to_expiration : X509 → Z → option Z).

Definition temporary (path : bytes) : bytes :=
  match FilePath.extension path with Some _ => path ++ lit ".tmp" | None => path ++ lit ".generated.tmp" end.
(** Where one write stops: not at all, before the temporary file exists, or
    with part of it written. *)
Inductive write_fate := WriteDone | WriteRefused | WriteStopped (written : bytes).
Definition atomic_write (fate : write_fate) (path contents : bytes) (fs : Files) : result ca_error () * Files :=
  match fate with
  | WriteRefused => (Err WriteFailed, fs)
  | WriteStopped written => (Err WriteFailed, <[temporary path := written]> fs)
  | WriteDone => (Ok (), <[path := contents]> (delete (temporary path) fs))
  end.

(** The clock, the generated key and what happens to the two writes. *)
Record CaInput := MkCaInput { ca_now : Z; ca_key : option bytes; cert_write : write_fate; key_write : write_fate }.
Definition ca_params (now : Z) : CaParams := MkCaParams (lit "TLS Proxy Local CA") (now - DAY_NS) (now + CA_VALIDITY_DAYS * DAY_NS).
Definition generate_ca (i : CaInput) (cert_path key_path : bytes) (fs : Files) : result ca_error Issuer * Files :=
  match ca_key i with
  | None => (Err KeyFailed, fs)
  | Some key =>
      match self_sign (ca_params (ca_now i)) key with
      | None => (Err SignFailed, fs)
      | Some cert =>
          match atomic_write (cert_write i) cert_path cert fs with
          | (Err e, fs) => (Err e, fs)
          | (Ok _, fs) =>
              match atomic_write (key_write i) key_path key fs with
              | (Err e, fs) => (Err e, fs)
              | (Ok _, fs) => (Ok (MkIssuer cert key), fs)
              end
          end
      end
  end.
Definition x_valid (x : X509) (now : Z) : bool := (x_not_before x <=? now) && (now <=? x_not_after x).
Definition load_ca (i : CaInput) (cert_path key_path : bytes) (fs : Files) : result ca_error Issuer * Files :=
  match fs !! cert_path, fs !! key_path with
  | Some cert_pem, Some key_pem =>
      match public_key_of key_pem, parse_certificate cert_pem with
      | Some public, Some x =>
          if negb (x_is_ca x) then (Err NotCa, fs)
          else if negb (x_valid x (ca_now i))
          then match time_to_expiration x (ca_now i) with
               | None => generate_ca i cert_path key_path fs
               | Some _ => (Err NotValidNow, fs)
               end
          else if negb (eqb_bytes (x_public_key x) public) then (Err KeyMismatch, fs)
          else if negb (x_self_signed x) then (Err BadSelfSignature, fs)
          else if issuer_of_pem cert_pem key_pem then (Ok (MkIssuer cert_pem key_pem), fs) else (Err BadCaFile, fs)
      | _, _ => (Err BadCaFile, fs)
      end
  | _, _ => (Err BadCaFile, fs)
  end.
Definition file_exists (path : bytes) (fs : Files) : bool := bool_decide (is_Some (fs !! path)).
Definition load_or_create_ca (i : CaInput) (cert_path key_path : bytes) (fs : Files) : result ca_error Issuer * Files :=
  match file_exists cert_path fs, file_exists key_path fs with
  | false, false => generate_ca i cert_path key_path fs
  | true, true => load_ca i cert_path key_path fs
  | _, _ => (Err IncompleteCa, fs)
  end.

(** [LocalCa::new] *)
Context (pem_certs : bytes → option (list bytes)) (pem_key : bytes → option (option bytes)).
Definition read_certificates (path : bytes) (fs : Files) : result ca_error (list bytes) :=
  match fs !! path with
  | None => Err OpenFailed
  | Some contents =>
      match pem_certs contents with
      | None => Err BadPem
      | Some [] => Err NoCertificates
      | Some certs => Ok certs
      end
  end.
Definition read_private_key (path : bytes) (fs : Files) : result ca_error bytes :=
  match fs !! path with
  | None => Err OpenFailed
  | Some contents => match pem_key contents with None => Err BadPem | Some None => Err NoKey | Some (Some key) => Ok key end
  end.
Record LocalCaConfig := MkLocalCaConfig { lc_ca_cert : bytes; lc_ca_key : bytes; lc_working_dir : bytes }.
Definition local_ca_default : LocalCaConfig := MkLocalCaConfig (lit "local_ca/CA.pem") (lit "local_ca/CA.key") (lit "local_ca").
Record LocalCaInner (C : Type) := MkLocalCa {
  la_ca_cert : bytes; la_ca_key : bytes; la_working_dir : bytes; la_issuer : Issuer; la_ca_chain : list bytes; la_cache : C }.
Arguments MkLocalCa {C}.
Definition local_ca_new {C : Type} {ca_lru : LruCache C bytes CachedIdentity} (i : CaInput) (runtime_dir : bytes) (config : LocalCaConfig) (fs : Files)
    : result ca_error (LocalCaInner C) * Files :=
  let working_dir := path_join runtime_dir (force_relative (lc_working_dir config)) in
  let ca_cert := path_join runtime_dir (force_relative (lc_ca_cert config)) in
  let ca_key := path_join runtime_dir (force_relative (lc_ca_key config)) in
  match load_or_create_ca i ca_cert ca_key fs with
  | (Err e, fs) => (Err e, fs)
  | (Ok issuer, fs) =>
      match read_certificates ca_cert fs with
      | Err e => (Err e, fs)
      | Ok ca_chain => (Ok (MkLocalCa ca_cert ca_key working_dir issuer ca_chain lru_new), fs)
      end
  end.

(** What the libraries do: a signed CA certificate reads back, matches its
    key and carries its dates to the second; there is a time to expiration
    only while a certificate is valid. *)
Record ca_library : Prop := {
  cl_reads p k cert : self_sign p k = Some cert → ∃ public x, public_key_of k = Some public ∧ parse_certificate cert = Some x
    ∧ x_is_ca x = true ∧ x_public_key x = public ∧ x_self_signed x = true ∧ issuer_of_pem cert k = true
    ∧ x_not_before x ≤ cp_not_before p ∧ cp_not_after p - 1000000000 < x_not_after x;
  cl_expiration x now : x_valid x now = false → time_to_expiration x now = None;
}.

Lemma generate_ca_files i cert_path key_path fs issuer fs' :
  cert_path ≠ key_path → temporary key_path ≠ cert_path → generate_ca i cert_path key_path fs = (Ok issuer, fs') →
  fs' !! cert_path = Some (is_cert_pem issuer) ∧ fs' !! key_path = Some (is_key_pem issuer)
  ∧ self_sign (ca_params (ca_now i)) (is_key_pem issuer) = Some (is_cert_pem issuer).
Proof.
  intros Hne Htmp. unfold generate_ca. destruct (ca_key i) as [key|]; [|done]. destruct (self_sign _ key) as [cert|] eqn:Es; [|done].
  unfold atomic_write. destruct (cert_write i); [|done..]. destruct (key_write i); [|done..]. intros [= <- <-]. cbn.
  rewrite lookup_insert_eq, lookup_insert_ne, lookup_delete_ne, lookup_insert_eq by congruence. done.
Qed.

(** The CA is generated once and then reused: an issuer just generated
    is, at any time within its validity, loaded back unchanged and no file is
    touched; and with only one of the two files nothing is generated over the
    other.  A CA outside its dates is replaced — also one that is not yet
    valid, so that a clock set back costs the CA its identity; the refusal
    written for that case is never reached. *)
Theorem ca_reused_or_replaced i j cert_path key_path fs issuer fs' :
  ca_library → cert_path ≠ key_path → temporary key_path ≠ cert_path →
  generate_ca i cert_path key_path fs = (Ok issuer, fs') →
  (ca_now i - DAY_NS ≤ ca_now j ≤ ca_now i + 3650 * DAY_NS - 1000000000 → load_or_create_ca j cert_path key_path fs' = (Ok issuer, fs'))
  ∧ load_or_create_ca j cert_path key_path (delete key_path fs') = (Err IncompleteCa, delete key_path fs')
  ∧ load_or_create_ca j cert_path key_path (delete cert_path fs') = (Err IncompleteCa, delete cert_path fs')
  ∧ (∀ x, parse_certificate (is_cert_pem issuer) = Some x → ca_now j < x_not_before x →
       load_or_create_ca j cert_path key_path fs' = generate_ca j cert_path key_path fs').
Proof.
  intros Hlib Hne Htmp Hgen. apply generate_ca_files in Hgen as (Hc&Hk&Hs); [|done..].
  destruct (cl_reads Hlib _ _ _ Hs) as (public&x&Hp&Hx&Hca&Hpk&Hss&His&Hnb&Hna). unfold load_or_create_ca, file_exists.
  rewrite !lookup_delete_eq, !lookup_delete_ne by congruence. rewrite !Hc, !Hk. rewrite !bool_decide_eq_true_2 by eauto.
  rewrite !bool_decide_eq_false_2 by (intros [? ?]; congruence). unfold load_ca. rewrite Hc, Hk, Hp, Hx, Hca. cbn [negb].
  split_and!; [|done|done|].
  - intros Hj. cbn [cp_not_before cp_not_after ca_params] in *. unfold CA_VALIDITY_DAYS in *. assert (x_valid x (ca_now j) = true) as ->.
    { unfold x_valid. apply andb_true_iff. split; apply Z.leb_le; lia. }
    unfold eqb_bytes. rewrite bool_decide_eq_true_2 by done. rewrite Hss. cbn [negb]. rewrite His. by destruct issuer.
  - intros x' [= <-] Hj. assert (x_valid x (ca_now j) = false) as Hv by (unfold x_valid; apply andb_false_iff; left; lia).
    rewrite Hv. cbn [negb]. by rewrite (cl_expiration Hlib x (ca_now j) Hv).
Qed.

Lemma path_join_inj dir p q : has_root p = false → has_root q = false → path_join dir p = path_join dir q → p = q.
Proof.
  unfold path_join. intros -> ->. destruct (last dir) as [c|]; [|done]. destruct (c =? SLASH); intros H%(inj (app dir)); [done|by injection H].
Qed.
Lemma path_join_last dir p c : has_root p = false → last p = Some c → last (path_join dir p) = Some c.
Proof.
  unfold path_join. intros -> Hp. destruct (last dir) as [c'|]; [|done]. destruct (c' =? SLASH); rewrite last_app; [by rewrite Hp|].
  by rewrite last_cons, Hp.
Qed.
Lemma temporary_last p : last (temporary p) = Some 112.
Proof. unfold temporary. destruct (FilePath.extension p); by rewrite last_app. Qed.

(** Under any runtime directory the three paths of the default configuration
    are apart, as the writes need them. *)
Lemma default_paths_apart dir :
  let cert := path_join dir (force_relative (lc_ca_cert local_ca_default)) in
  let key := path_join dir (force_relative (lc_ca_key local_ca_default)) in
  cert ≠ key ∧ temporary key ≠ cert.
Proof.
  cbv zeta. split.
  - intros H%path_join_inj; [discriminate H|reflexivity|reflexivity].
  - intros H%(f_equal last). rewrite temporary_last, (path_join_last _ _ 109) in H by reflexivity. discriminate H.
Qed.

(** The authority survives a restart: what the first start created in an
    empty directory, any later start within its validity comes up with: the same
    issuer, the same chain to send, an empty cache, and no file changed. *)
Theorem local_ca_restart {C : Type} {ca_lru : LruCache C bytes CachedIdentity} i j dir fs (ca : LocalCaInner C) fs' :
  ca_library → fs !! path_join dir (force_relative (lc_ca_cert local_ca_default)) = None →
  fs !! path_join dir (force_relative (lc_ca_key local_ca_default)) = None →
  local_ca_new i dir local_ca_default fs = (Ok ca, fs') →
  ca_now i - DAY_NS ≤ ca_now j ≤ ca_now i + 3650 * DAY_NS - 1000000000 →
  local_ca_new j dir local_ca_default fs' = (Ok ca, fs').
Proof.
  intros Hlib Hc Hk Hnew Hj. destruct (default_paths_apart dir) as [Hne Htmp]. unfold local_ca_new in *.
  set (cert := path_join dir (force_relative (lc_ca_cert _))) in *. set (key := path_join dir (force_relative (lc_ca_key _))) in *.
  destruct (load_or_create_ca i cert key fs) as [[issuer|e] fs1] eqn:El; [|done].
  destruct (read_certificates cert fs1) as [chain|e] eqn:Er; [|done]. injection Hnew as <- <-.
  unfold load_or_create_ca, file_exists in El. rewrite Hc, Hk, bool_decide_eq_false_2 in El by (intros [? ?]; done).
  destruct (ca_reused_or_replaced i j cert key fs issuer fs1 Hlib Hne Htmp El) as [Hload _]. rewrite (Hload Hj). by rewrite Er.
Qed.
End ca_files.

(** ** A toy CA *)

Module ca_example.
Definition path_cert : bytes := lit "local_ca/CA.pem".
Definition path_key : bytes := lit "local_ca/CA-key.pem".
(** The certificate text is the two dates and the key. *)
Definition toy_sign (p : CaParams) (k : bytes) : option bytes := Some (cp_not_before p :: cp_not_after p :: k).
Definition toy_parse (cert : bytes) : option X509 := match cert with nb :: na :: k => Some (MkX509 true nb na k true) | _ => None end.
Definition toy_time (x : X509) (now : Z) : option Z := if x_valid x now then Some (x_not_after x - now) else None.
Definition made := generate_ca toy_sign (MkCaInput (100 * DAY_NS) (Some (lit "key")) WriteDone WriteDone) path_cert path_key ∅.
Lemma toy_library : ca_library Some toy_parse toy_sign (λ _ _, true) toy_time.
Proof.
  constructor.
  - intros p k cert [= <-]. exists k, (MkX509 true (cp_not_before p) (cp_not_after p) k true). cbn. repeat split; lia.
  - intros x now Hv. unfold toy_time. by rewrite Hv.
Qed.

Definition toy_leaf (p : LeafParams) (k : bytes) : option bytes := Some (lp_not_after p :: k).
Definition toy_expiry (cert : bytes) : option Z := head cert.
Definition small_cache : Type := Recency (K:=bytes) (V:=CachedIdentity).
#[global] Instance small_lru : LruCache small_cache bytes CachedIdentity := recency_lru 3.
Definition first_call :=
  resolve_or_mint (λ _, true) toy_leaf toy_expiry (λ _ _, true) (C:=small_cache) [lit "ca"] (MkMint 5 5 6 (Some (lit "k"))) (lit "WWW.Example.") lru_new.
End ca_example.
Import ca_example.

Lemma ca_reused_or_replaced_witness : made.1 = Ok (MkIssuer (99 * DAY_NS :: 3750 * DAY_NS :: lit "key") (lit "key")) ∧
  load_or_create_ca Some toy_parse toy_sign (λ _ _, true) toy_time (MkCaInput (200 * DAY_NS) None WriteRefused WriteRefused) path_cert path_key made.2
  = made.
Proof.
  destruct made as [r fs'] eqn:E. assert (r = Ok (MkIssuer (99 * DAY_NS :: 3750 * DAY_NS :: lit "key") (lit "key"))) as ->
    by (transitivity made.1; [by rewrite E|vm_compute; reflexivity]).
  split; [reflexivity|].
  pose proof (ca_reused_or_replaced _ _ _ _ _ _ (MkCaInput (200 * DAY_NS) None WriteRefused WriteRefused) path_cert path_key ∅ _ fs' toy_library
    ltac:(vm_compute; discriminate) ltac:(vm_compute; discriminate) E) as [Hload _].
  apply Hload. cbn [ca_now]. unfold DAY_NS. lia.
Defined.

Lemma local_leaf_for_name_witness :
  first_call.1 = Ok (MkKey [365 * DAY_NS + 6 :: lit "k"; lit "ca"] (lit "k")) ∧ cache_ok (λ _, true) toy_leaf toy_expiry [lit "ca"] first_call.2.
Proof.
  destruct first_call as [r c'] eqn:E. split; [transitivity first_call.1; [by rewrite E|vm_compute; reflexivity]|].
  refine (proj1 (local_leaf_for_name (λ _, true) toy_leaf toy_expiry (λ _ _, true) [lit "ca"] (MkMint 5 5 6 (Some (lit "k"))) (lit "WWW.Example.") lru_new r c' _ _ _ E)).
  - intros p k cert e [= <-] [= <-]. lia.
  - unfold cache_ok. rewrite lru_new_empty. apply map_Forall_empty.
  - cbn. lia.
Defined.

Definition toy_new (i : CaInput) (fs : gmap bytes bytes) :=
  local_ca_new Some toy_parse toy_sign (λ _ _, true) toy_time (λ cert, Some [cert]) (C:=small_cache) i (lit "/srv/tlsproxy") local_ca_default fs.
Definition toy_first := toy_new (MkCaInput (100 * DAY_NS) (Some (lit "key")) WriteDone WriteDone) ∅.
Lemma local_ca_restart_witness :
  (match toy_first.1 with Ok _ => true | Err _ => false end) = true
  ∧ toy_new (MkCaInput (200 * DAY_NS) None WriteRefused WriteRefused) toy_first.2 = toy_first.
Proof.
  destruct toy_first as [r fs'] eqn:E.
  assert ((match r with Ok _ => true | Err _ => false end) = true) as Hr
    by (transitivity (match toy_first.1 with Ok _ => true | Err _ => false end); [by rewrite E|vm_compute; reflexivity]).
  split; [exact Hr|]. destruct r as [ca|e]; [|discriminate Hr].
  refine (local_ca_restart Some toy_parse toy_sign (λ _ _, true) toy_time (λ cert, Some [cert]) _ _ (lit "/srv/tlsproxy") ∅ ca fs' toy_library _ _ E _);
    [apply lookup_empty|apply lookup_empty|cbn [ca_now]; unfold DAY_NS; lia].
Defined.
