(* ===== verification/ManagedTls.v ===== *)
(** * Managed certificates at handshake time (src/managed_tls.rs)

    Which stored generation is usable_entry, the cache handshakes read, the
    fallback to the local CA, and the registration of new names.  PEM and
    X.509 parsing (rustls, x509-parser), the operator's script and the DNS
    client are parameters. *)

From S2P Require Import Prelude RustStd Net FilePath AcmeDns Config RuntimeConfig Store StoreProps StoreAcme StoreAcmeProps Lru LocalCa.
Open Scope Z_scope.

(** ** Usable generations *)

Inductive GeneralName := DNSName (name : bytes) | OtherName.
(** A parsed leaf: its expiry in seconds, and its subjectAltName extension
    ([None] when it does not parse, [Some None] when it is absent). *)
Record LeafInfo := MkLeafInfo { lf_not_after : Z; lf_sans : option (option (list GeneralName)) }.
Class TlsLibrary := MkTls {
  pem_certs : bytes → option (list bytes);
  pem_key : bytes → option bytes;
  tls_identity_ok : list bytes → bytes → bool;
  keys_match : CertifiedKey → bool;
  parse_leaf : bytes → option LeafInfo;
}.

Definition fullchain_pem (g : CertificateGeneration) : bytes :=
  trim_end (cg_certificate_pem g) ++ (if bool_decide (trim (cg_chain_pem g) = []) then [] else LF :: trim (cg_chain_pem g)) ++ [LF].
(** The timestamps [OffsetDateTime::from_unix_timestamp] accepts. *)
Definition timestamp_ok (s : Z) : bool := (-377705116800 <=? s) && (s <=? 253402300799).

Inductive prepare_error :=
| OtherCertificate | BadPem | NoLeaf | BadKey | BadIdentity | UnmatchedKey | InvalidLeaf | BadTimestamp | Expired | BadSan | NoSan | BadManagedDomain
| NotCovered (domain : bytes).
Record CachedCertificate := MkCachedCert { cc_certificate_id : bytes; cc_generation_id : bytes; cc_key : CertifiedKey }.

Definition dns_names (names : list GeneralName) : list bytes :=
  omap (λ n, match n with DNSName value => normalize_domain value | OtherName => None end) names.
Fixpoint covers_all (sans : list bytes) (domains : list bytes) : result prepare_error () :=
  match domains with
  | [] => Ok ()
  | d :: domains =>
      match normalize_domain d with
      | None => Err BadManagedDomain
      | Some d => if bool_decide (d ∈ sans) then covers_all sans domains else Err (NotCovered d)
      end
  end.

Section cache.
Context `{TlsLibrary}.

Definition prepare_entry (now : Z) (managed : ManagedCertificate) (g : CertificateGeneration) : result prepare_error CachedCertificate :=
  guard! eqb_bytes (cg_certificate_id g) (mc_id managed) else OtherCertificate;
  certs ← ok_or (pem_certs (fullchain_pem g)) BadPem;
  leaf ← ok_or (head certs) NoLeaf;
  key ← ok_or (pem_key (cg_private_key_pem g)) BadKey;
  guard! tls_identity_ok certs key else BadIdentity;
  guard! keys_match (MkKey certs key) else UnmatchedKey;
  info ← ok_or (parse_leaf leaf) InvalidLeaf;
  guard! timestamp_ok (lf_not_after info) else BadTimestamp;
  guard! negb (lf_not_after info * 1000000000 <=? now) else Expired;
  names ← ok_or (lf_sans info) BadSan;
  names ← ok_or names NoSan;
  _ ← covers_all (dns_names names) (mc_domains managed);
  Ok (MkCachedCert (mc_id managed) (cg_id g) (MkKey certs key)).
Definition validate_generation (now : Z) (managed : ManagedCertificate) (g : CertificateGeneration) : result prepare_error () :=
  _ ← prepare_entry now managed g; Ok ().

(** *** The cache *)

Abbreviation Entries := (gmap bytes CachedCertificate).
Fixpoint insert_domains (cached : CachedCertificate) (domains : list bytes) (entries : Entries) : result store_error Entries :=
  match domains with
  | [] => Ok entries
  | d :: domains =>
      match normalize_domain d with
      | None => Err InvalidDomain
      | Some d => insert_domains cached domains (<[d := cached]> entries)
      end
  end.
(** [now] is the clock when a certificate is looked at. *)
Definition load_one (now : bytes → Z) (db : Db) (entries : Entries) (managed : ManagedCertificate) : result store_error Entries :=
  if negb (mc_enabled managed) then Ok entries
  else match active_generation (mc_id managed) db with
       | None => Ok entries
       | Some g =>
           match prepare_entry (now (mc_id managed)) managed g with
           | Err _ => Ok entries
           | Ok cached => insert_domains cached (mc_domains managed) entries
           end
       end.
Definition load_entries (now : bytes → Z) (db : Db) : result store_error Entries := foldM (load_one now db) ∅ (managed_certificates db).
(** [reload]: the entries are replaced only when all were loaded. *)
Definition reload (now : bytes → Z) (db : Db) (entries : Entries) : result store_error nat * Entries :=
  match load_entries now db with
  | Err e => (Err e, entries)
  | Ok fresh => (Ok (size fresh), fresh)
  end.
Definition activate_and_reload (now : bytes → Z) (g : CertificateGeneration) (r : RenewalState) (db : Db) (entries : Entries)
  : result store_error nat * Db * Entries :=
  match activate_generation g r db with
  | (Err e, db) => (Err e, db, entries)
  | (Ok _, db) => let '(n, entries) := reload now db entries in (n, db, entries)
  end.
Definition resolve (sni : bytes) (entries : Entries) : option CertifiedKey :=
  d ← normalize_domain sni; cc_key <$> entries !! d.
Definition identity (sni : bytes) (entries : Entries) : option (bytes * bytes) :=
  d ← normalize_domain sni; (λ e, (cc_certificate_id e, cc_generation_id e)) <$> entries !! d.

(** *** Lemmas *)

Lemma covers_all_ok sans domains : covers_all sans domains = Ok () → Forall (λ d, ∃ n, normalize_domain d = Some n ∧ n ∈ sans) domains.
Proof.
  induction domains as [|d domains IH]; cbn; intros Hc; [constructor|]. destruct (normalize_domain d) as [n|] eqn:En; [|done].
  case_bool_decide; [|done]. constructor; eauto.
Qed.
Lemma prepare_entry_ok now managed g e :
  prepare_entry now managed g = Ok e →
  cg_certificate_id g = mc_id managed ∧ cc_certificate_id e = mc_id managed ∧ cc_generation_id e = cg_id g
  ∧ ∃ leaf info names, head (ck_chain (cc_key e)) = Some leaf ∧ parse_leaf leaf = Some info ∧ lf_sans info = Some (Some names)
    ∧ now < lf_not_after info * 1000000000
    ∧ Forall (λ d, ∃ n, normalize_domain d = Some n ∧ n ∈ dns_names names) (mc_domains managed).
Proof.
  unfold prepare_entry. destruct (eqb_bytes _ _) eqn:Eid; [|done]. destruct (pem_certs _) as [certs|]; [|done]. cbn [ok_or mbind result_bind].
  destruct (head certs) as [leaf|] eqn:El; [|done]. cbn [ok_or mbind result_bind]. destruct (pem_key _) as [key|]; [|done]. cbn [ok_or mbind result_bind].
  destruct (tls_identity_ok certs key); [|done]. destruct (keys_match _); [|done].
  destruct (parse_leaf leaf) as [info|] eqn:Ei; [|done]. cbn [ok_or mbind result_bind]. destruct (timestamp_ok _); [|done].
  destruct (Z.leb_spec (lf_not_after info * 1000000000) now) as [|Hnow]; [done|]. cbn [negb].
  destruct (lf_sans info) as [[names|]|] eqn:En; [|done|done]. cbn [ok_or mbind result_bind].
  destruct (covers_all _ _) as [[]|] eqn:Ec; [|done]. cbn [mbind result_bind]. intros [= <-].
  apply eqb_bytes_spec in Eid. apply covers_all_ok in Ec. split_and!; [done..|]. exists leaf, info, names. done.
Qed.

(** Loading never fails: an entry is kept only if its names normalise. *)
Lemma insert_domains_ok cached domains entries :
  Forall (λ d, is_Some (normalize_domain d)) domains → ∃ entries', insert_domains cached domains entries = Ok entries'.
Proof.
  revert entries. induction domains as [|d domains IH]; intros entries Hd; cbn; [eauto|].
  apply Forall_cons in Hd as [[n Hn] Hd]. rewrite Hn. by apply IH.
Qed.
Lemma load_one_ok now db entries managed : ∃ entries', load_one now db entries managed = Ok entries'.
Proof.
  unfold load_one. destruct (negb _); [eauto|]. destruct (active_generation _ _) as [g|]; [|eauto].
  destruct (prepare_entry _ _ _) as [e|] eqn:Ee; [|eauto]. apply insert_domains_ok.
  apply prepare_entry_ok in Ee as (_&_&_&leaf&info&names&_&_&_&_&Hd). eapply Forall_impl; [exact Hd|]. intros d (n&Hn&_). by exists n.
Qed.
Lemma load_entries_ok now db : ∃ entries, load_entries now db = Ok entries.
Proof.
  unfold load_entries. generalize (∅ : Entries). induction (managed_certificates db) as [|m ms IH]; intros entries; cbn; [eauto|].
  destruct (load_one_ok now db entries m) as [e ->]. apply IH.
Qed.

(** What a certificate contributes under its own name. *)
Definition usable_entry (now : bytes → Z) (db : Db) (managed : ManagedCertificate) : option CachedCertificate :=
  if negb (mc_enabled managed) then None
  else g ← active_generation (mc_id managed) db;
       match prepare_entry (now (mc_id managed)) managed g with Ok e => Some e | Err _ => None end.
Lemma load_one_single now db entries managed d :
  mc_domains managed = [d] → canonical d →
  load_one now db entries managed = Ok (match usable_entry now db managed with Some e => <[d := e]> entries | None => entries end).
Proof.
  intros Hd Hc. unfold load_one, usable_entry. destruct (negb _); [done|]. destruct (active_generation _ _) as [g|]; [|done]. cbn [mbind option_bind].
  destruct (prepare_entry _ _ _) as [e|]; [|done]. rewrite Hd. cbn. by rewrite Hc.
Qed.
Lemma load_each now db ms entries fresh :
  Forall (λ m, mc_domains m = [mc_id m] ∧ canonical (mc_id m)) ms → NoDup (map mc_id ms) →
  foldM (load_one now db) entries ms = Ok fresh →
  (∀ m, m ∈ ms → fresh !! mc_id m = match usable_entry now db m with Some e => Some e | None => entries !! mc_id m end)
  ∧ (∀ d, d ∉ map mc_id ms → fresh !! d = entries !! d).
Proof.
  revert entries. induction ms as [|m ms IH]; intros entries Hms Hnd; cbn [foldM map].
  { intros [= <-]. split; [by intros m ?%elem_of_nil|done]. }
  apply Forall_cons in Hms as [[Hd Hc] Hms]. apply NoDup_cons in Hnd as [Hm Hnd].
  rewrite (load_one_single now db entries m (mc_id m)) by done. cbn [mbind result_bind]. intros Hf.
  destruct (IH _ Hms Hnd Hf) as [Hin Hout]. split.
  - intros m' [->|Hm']%elem_of_cons.
    + rewrite (Hout (mc_id m) Hm). by destruct (usable_entry now db m); [rewrite lookup_insert_eq|].
    + rewrite (Hin m' Hm'). assert (mc_id m' ≠ mc_id m) by (intros Heq; apply Hm; rewrite <- Heq; by apply list_elem_of_fmap_2).
      destruct (usable_entry now db m'), (usable_entry now db m); [done..|by rewrite lookup_insert_ne|done].
  - intros d [Hne Hd']%not_elem_of_cons. rewrite (Hout d Hd'). by destruct (usable_entry now db m); [rewrite lookup_insert_ne|].
Qed.
Lemma managed_elem db m : acme_wf db → m ∈ managed_certificates db ↔ db_certificates db !! mc_id m = Some m.
Proof.
  intros Hwf. unfold managed_certificates. rewrite list_elem_of_fmap. split.
  - intros ([k c]&->&Hk). rewrite iter_perm, elem_of_map_to_list in Hk. cbn. by destruct (wf_certificate _ Hwf _ _ Hk) as (->&_).
  - intros Hm. exists (mc_id m, m). split; [done|]. rewrite iter_perm. by apply elem_of_map_to_list.
Qed.
Lemma managed_nodup db : acme_wf db → NoDup (map mc_id (managed_certificates db)).
Proof.
  intros Hwf. unfold managed_certificates. rewrite map_map. assert (map (λ x, mc_id x.2) (iter (db_certificates db)) = map fst (iter (db_certificates db))) as ->.
  { apply map_ext_in. intros [k c] Hin%list_elem_of_In. rewrite iter_perm, elem_of_map_to_list in Hin. cbn. by destruct (wf_certificate _ Hwf _ _ Hin) as (->&_). }
  rewrite (Permutation_map fst (iter_perm _)). apply NoDup_fst_map_to_list.
Qed.
Lemma load_entries_spec now db : acme_wf db →
  ∃ fresh, load_entries now db = Ok fresh ∧ ∀ d, fresh !! d = c ← db_certificates db !! d; usable_entry now db c.
Proof.
  intros Hwf. destruct (load_entries_ok now db) as [fresh Hf]. exists fresh. split; [done|]. unfold load_entries in Hf.
  apply load_each in Hf as [Hin Hout]; [| |by apply managed_nodup].
  - intros d. destruct (db_certificates db !! d) as [c|] eqn:Ec; cbn [mbind option_bind].
    + destruct (wf_certificate _ Hwf _ _ Ec) as (Hid&_). subst d. rewrite (Hin c) by (by apply managed_elem). rewrite lookup_empty. by destruct (usable_entry now db c).
    + rewrite Hout; [apply lookup_empty|]. intros (m&->&Hm)%list_elem_of_fmap. apply managed_elem in Hm; [|done]. congruence.
  - apply Forall_forall. intros m Hm. apply managed_elem in Hm; [|done]. by destruct (wf_certificate _ Hwf _ _ Hm) as (_&?&?).
Qed.
Lemma usable_spec now db c e :
  usable_entry now db c = Some e ↔ mc_enabled c = true ∧ ∃ g, active_generation (mc_id c) db = Some g ∧ prepare_entry (now (mc_id c)) c g = Ok e.
Proof.
  unfold usable_entry. destruct (mc_enabled c); cbn [negb]; [|split; [done|by intros [? _]]].
  destruct (active_generation (mc_id c) db) as [g|]; cbn [mbind option_bind]; [|split; [done|by intros (_&g&?&_)]].
  destruct (prepare_entry _ c g) as [e'|] eqn:Ep; split.
  - intros [= <-]. eauto.
  - intros (_&g'&[= <-]&Hp). congruence.
  - done.
  - intros (_&g'&[= <-]&Hp). congruence.
Qed.

(** C16: The certificate cache is the store's active certificates and nothing
    else: for a database that came about by the store's operations on stable
    names and whole imports, [acme_run], a reload succeeds, and after it a
    server name is answered with a key exactly if the enabled
    certificate of its normal form has an active generation that passes every
    check, with that generation's key — so a key that is served belongs to the
    name's certificate, covers the name and was not expired when loaded. *)
Theorem cache_serves_active now db entries :
  acme_run db → ∃ n fresh, reload now db entries = (Ok n, fresh)
  ∧ (∀ sni key, resolve sni fresh = Some key ↔
       ∃ d c g e, normalize_domain sni = Some d ∧ managed_certificate d db = Some c ∧ mc_enabled c = true
         ∧ active_generation d db = Some g ∧ prepare_entry (now d) c g = Ok e ∧ cc_key e = key)
  ∧ (∀ sni key, resolve sni fresh = Some key → ∃ d leaf info names, normalize_domain sni = Some d ∧ head (ck_chain key) = Some leaf
       ∧ parse_leaf leaf = Some info ∧ lf_sans info = Some (Some names) ∧ d ∈ dns_names names ∧ now d < lf_not_after info * 1000000000).
Proof.
  intros Hwf%acme_run_wf. destruct (load_entries_spec now db Hwf) as (fresh&Hl&Hf). unfold reload. rewrite Hl. eexists _, fresh. split; [done|].
  assert (∀ sni key, resolve sni fresh = Some key ↔
       ∃ d c g e, normalize_domain sni = Some d ∧ managed_certificate d db = Some c ∧ mc_enabled c = true
         ∧ active_generation d db = Some g ∧ prepare_entry (now d) c g = Ok e ∧ cc_key e = key) as Hiff.
  { intros sni key. unfold resolve. destruct (normalize_domain sni) as [d|]; cbn [mbind option_bind]; [|split; [done|by intros (?&?&?&?&?&_)]].
    rewrite Hf. unfold managed_certificate. split.
    - destruct (db_certificates db !! d) as [c|] eqn:Ec; [|done]. cbn [mbind option_bind]. destruct (wf_certificate _ Hwf _ _ Ec) as (Hid&_).
      intros (e&Hu&->)%fmap_Some. apply usable_spec in Hu as (Hen&g&Hg&Hp). rewrite Hid in *. exists d, c, g, e. done.
    - intros (d'&c&g&e&[= <-]&Hc&Hen&Hg&Hp&<-). rewrite Hc. cbn [mbind option_bind]. destruct (wf_certificate _ Hwf _ _ Hc) as (Hid&_).
      assert (usable_entry now db c = Some e) as -> by (apply usable_spec; rewrite Hid; eauto). done. }
  split; [exact Hiff|]. intros sni key (d&c&g&e&Hd&Hc&_&_&Hp&<-)%Hiff. destruct (wf_certificate _ Hwf _ _ Hc) as (_&Hdom&Hcan).
  apply prepare_entry_ok in Hp as (_&_&_&leaf&info&names&Hl1&Hl2&Hl3&Hl4&Hcov). rewrite Hdom in Hcov.
  apply Forall_singleton in Hcov as (n&Hn&Hin). rewrite Hcan in Hn. injection Hn as <-. exists d, leaf, info, names. done.
Qed.
End cache.

(** ** The DNS check script and the fallback *)

(** One run of the script. *)
Inductive ScriptRun := SpawnFailed | ScriptTimedOut | AwaitFailed | Exited (success : bool).
Definition run_dns_check_script (run : bytes → bytes → ScriptRun) (script domain : bytes) : bool :=
  match run script domain with Exited success => success | SpawnFailed | ScriptTimedOut | AwaitFailed => false end.

Inductive tls_error := ScriptRejected | NoCertificate | InvalidSni | CaFailed (e : ca_error) | RegistrationStore (e : store_error) | DnsRejected (e : dns_error).

Section issuance.
Context {R : Type} {rejection_lru : LruCache R (bytes * bytes) Z}.
Context (run : bytes → bytes → ScriptRun).

(** [t0] is the clock at the lookup, [t1] when a rejection is remembered. *)
Definition dns_check_allows (t0 t1 : Z) (script domain : bytes) (failure_ttl : Z) (rejections : R) : bool * R :=
  let '(known, rejections) := lru_get (script, domain) rejections in
  let fresh := match known with Some rejected_at => t0 - rejected_at <? failure_ttl | None => false end in
  if fresh then (false, rejections)
  else
    let rejections := if bool_decide (is_Some known) then lru_pop (script, domain) rejections else rejections in
    if run_dns_check_script run script domain then (true, rejections) else (false, lru_put (script, domain) t1 rejections).
Definition dns_check_permits_new_issuance (config : RuntimeConfig) (t0 t1 : Z) (domain : bytes) (rejections : R) : result tls_error () * R :=
  let script := trim (dns_check_script (acme config)) in
  if bool_decide (script = []) then (Ok (), rejections)
  else if tls_routes_list_host_exactly config domain then (Ok (), rejections)
  else match dns_check_allows t0 t1 script domain (cache_failure_time_secs (acme config) * 1000000000) rejections with
       | (true, rejections) => (Ok (), rejections)
       | (false, rejections) => (Err ScriptRejected, rejections)
       end.
Definition script_gates_registration (config : RuntimeConfig) : bool := negb (bool_decide (trim (dns_check_script (acme config)) = [])).

(** What the operator's gate says of a name when it is asked now. *)
Definition script_permits (config : RuntimeConfig) (domain : bytes) : Prop :=
  script_gates_registration config = false ∨ tls_routes_list_host_exactly config domain = true
  ∨ run (trim (dns_check_script (acme config))) domain = Exited true.
Lemma dns_check_permits_sound config t0 t1 domain rejections rejections' :
  dns_check_permits_new_issuance config t0 t1 domain rejections = (Ok (), rejections') → script_permits config domain.
Proof.
  unfold dns_check_permits_new_issuance, script_permits, script_gates_registration. case_bool_decide; [by left|].
  destruct (tls_routes_list_host_exactly config domain); [by right; left|]. unfold dns_check_allows.
  destruct (lru_get _ rejections) as [known r1]. destruct (match known with Some at_ => _ | None => _ end); [done|].
  unfold run_dns_check_script. destruct (run _ domain) as [| | |[|]] eqn:Er; [done..| |done]. intros _. by right; right.
Qed.


(** *** Resolving for a handshake *)

Context `{TlsLibrary} {C : Type} {ca_lru : LruCache C bytes CachedIdentity}.
Context (dns_name_ok : bytes → bool) (sign : LeafParams → bytes → option bytes) (certificate_expires_at : bytes → option Z)
  (identity_ok : list bytes → bytes → bool) (ca_chain : list bytes).
Abbreviation mint := (resolve_or_mint dns_name_ok sign certificate_expires_at identity_ok ca_chain).

Definition lift_ca {A} (r : result ca_error A) : result tls_error A := match r with Ok a => Ok a | Err e => Err (CaFailed e) end.
(** For the control service. *)
Definition resolve_with_fallback (i : MintInput) (sni : bytes) (fallback : CertificateFallbackPolicy) (entries : gmap bytes CachedCertificate) (ca : C)
  : result tls_error CertifiedKey * C :=
  match resolve sni entries with
  | Some key => (Ok key, ca)
  | None =>
      match fallback with
      | LocalCa => let '(r, ca) := mint i sni ca in (lift_ca r, ca)
      | FallbackReject => (Err NoCertificate, ca)
      end
  end.
(** For ordinary terminating routes; [t] is the clock of the cache lookup. *)
Definition resolve_for_termination (config : RuntimeConfig) (t t0 t1 : Z) (i : MintInput) (sni : bytes) (fallback : CertificateFallbackPolicy)
  (entries : gmap bytes CachedCertificate) (ca : C) (rejections : R) : result tls_error CertifiedKey * C * R :=
  match resolve sni entries with
  | Some key => (Ok key, ca, rejections)
  | None =>
      match fallback with
      | FallbackReject => (Err NoCertificate, ca, rejections)
      | LocalCa =>
          match resolve_cached t sni ca with
          | (Some key, ca) => (Ok key, ca, rejections)
          | (None, ca) =>
              match normalize_domain sni with
              | None => (Err InvalidSni, ca, rejections)
              | Some domain =>
                  match dns_check_permits_new_issuance config t0 t1 domain rejections with
                  | (Err e, rejections) => (Err e, ca, rejections)
                  | (Ok _, rejections) => let '(r, ca) := mint i sni ca in (lift_ca r, ca, rejections)
                  end
              end
          end
      end
  end.

(** Lookups never add to the CA's cache. *)
Lemma get_cached_sub now host (ca : C) : lru_map (get_cached now host ca).2 ⊆ lru_map ca.
Proof.
  unfold get_cached. pose proof (lru_get_keeps host ca) as Hk. destruct (lru_get host ca) as [[j|] c1]; cbn [fst snd] in *; [|by rewrite Hk].
  destruct (near_expiry _ j); cbn [fst snd]; [rewrite lru_pop_delete|]; rewrite Hk; [apply delete_subseteq|done].
Qed.
Lemma resolve_cached_sub now host (ca : C) : lru_map (resolve_cached now host ca).2 ⊆ lru_map ca.
Proof. unfold resolve_cached. destruct (sanitize_hostname host); [apply get_cached_sub|done]. Qed.

End issuance.

(** A rejected name is not given to the script again before its time is up,
    whatever the script would now say. *)
Theorem rejection_remembered {R} {rejection_lru : LruCache R (bytes * bytes) Z} run run' t0 t1 t2 t3 script domain ttl (rejections rejections' : R) :
  lru_map rejections !! (script, domain) = None → dns_check_allows run t0 t1 script domain ttl rejections = (false, rejections') →
  t2 < t1 + ttl → (dns_check_allows run' t2 t3 script domain ttl rejections').1 = false.
Proof.
  intros Hnone Hrun Ht. assert (lru_map rejections' !! (script, domain) = Some t1) as Hm.
  { revert Hrun. unfold dns_check_allows. pose proof (lru_get_value (script, domain) rejections) as Hv.
    destruct (lru_get (script, domain) rejections) as [known r1]. cbn [fst] in Hv. rewrite Hv, Hnone, bool_decide_eq_false_2 by (by intros [? ?]).
    destruct (run_dns_check_script run script domain); [done|]. intros [= <-]. apply lru_put_same. }
  unfold dns_check_allows. pose proof (lru_get_value (script, domain) rejections') as Hv.
  destruct (lru_get (script, domain) rejections') as [known r1]. cbn [fst] in Hv. rewrite Hv, Hm.
  assert ((t2 - t1 <? ttl) = true) as -> by lia. done.
Qed.

(** ** Registration of new names *)

Definition REGISTRATION_RETRY_INTERVAL : Z := 600 * 1000000000.

Section registration.
Context {A : Type} {attempt_lru : LruCache A bytes Z} {R : Type} {rejection_lru : LruCache R (bytes * bytes) Z}.
Context (run : bytes → bytes → ScriptRun) (lookup_ip : IpAddr * Z → bytes → option (list IpAddr)).

(** [request_automatic_for_sni]: the name whose registration is spawned.
    [config1] and [config2] are the two reads of the live configuration,
    [t0] and [t1] the two of the clock. *)
Definition request_automatic_for_sni (config1 config2 : RuntimeConfig) (registered : bool) (t0 t1 : Z) (sni : bytes) (attempts : A) : option bytes * A :=
  if negb (acme_enabled (acme config1)) then (None, attempts)
  else
    let script_gated := script_gates_registration config2 in
    match normalize_domain sni with
    | None => (None, attempts)
    | Some domain =>
        if negb registered then (None, attempts)
        else if script_gated then (Some domain, attempts)
        else
          let '(last, attempts) := lru_get domain attempts in
          if match last with Some at_ => t0 - at_ <? REGISTRATION_RETRY_INTERVAL | None => false end then (None, attempts)
          else (Some domain, lru_put domain t1 attempts)
    end.

(** The prerequisite with the store: diagnostics are saved on every outcome
    that has some. *)
Definition verify_saving (certificate_id : bytes) (domains : list bytes) (control : ControlPlaneConfig) (db : Db) : result dns_error () * Db :=
  let '(r, diagnostics) := verify_inner lookup_ip certificate_id domains control in
  (r, match diagnostics with Some ds => save_dns_diagnostics certificate_id ds db | None => db end).

Definition lift_store {T} (r : result store_error T) : result tls_error T := match r with Ok a => Ok a | Err e => Err (RegistrationStore e) end.
(** [register_automatic]: [config1], [config2], [config3] are its reads of the
    live configuration.  The flag is whether a renewal scan is requested. *)
Definition register_automatic (config1 config2 config3 : RuntimeConfig) (t0 t1 now : Z) (domain : bytes) (db : Db) (rejections : R)
  : result tls_error bool * Db * R :=
  match certificate_for_domain domain db with
  | Err e => (Err (RegistrationStore e), db, rejections)
  | Ok (Some _) => (Ok false, db, rejections)
  | Ok None =>
      match dns_check_permits_new_issuance run config1 t0 t1 domain rejections with
      | (Err e, rejections) => (Err e, db, rejections)
      | (Ok _, rejections) =>
          let '(checked, db) := if script_gates_registration config2 then (Ok (), db) else verify_saving domain [domain] (control_plane config3) db in
          match checked with
          | Err e => (Err (DnsRejected e), db, rejections)
          | Ok _ =>
              let '(created, db) := create_automatic_certificate_if_absent now domain db in (lift_store created, db, rejections)
          end
      end
  end.

Lemma verify_saving_same certificate_id domains control db :
  db_certificates (verify_saving certificate_id domains control db).2 = db_certificates db
  ∧ db_domain_index (verify_saving certificate_id domains control db).2 = db_domain_index db.
Proof. unfold verify_saving. destruct (verify_inner _ _ _ _) as [r [ds|]]; done. Qed.

(** A client-chosen name enters the certificate store only past a gate.
    While the configuration does not change under the registration, a name
    without certificate that gets a record was either checked by the
    operator's script (or listed exactly by a route) or, with no script,
    found by public DNS to point here; a name that has a record is left
    alone, with no script run and no DNS query. *)
Theorem registration_gated config t0 t1 now domain db rejections r db' rejections' :
  register_automatic config config config t0 t1 now domain db rejections = (r, db', rejections') →
  db_certificates db' ≠ db_certificates db →
  (∃ c, normalize_domain domain = Some c ∧ certificate_for_domain domain db = Ok None)
  ∧ if script_gates_registration config
    then tls_routes_list_host_exactly config domain = true ∨ run (trim (dns_check_script (acme config))) domain = Exited true
    else ∃ diagnostics, verify_inner lookup_ip domain [domain] (control_plane config) = (Ok (), diagnostics).
Proof.
  unfold register_automatic. destruct (certificate_for_domain domain db) as [[c|]|] eqn:Ec; [by intros [= <- <- <-]| |by intros [= <- <- <-]].
  destruct (dns_check_permits_new_issuance run config t0 t1 domain rejections) as [[[]|] rej] eqn:Ep; [|by intros [= <- <- <-]].
  apply dns_check_permits_sound in Ep. assert (∃ c, normalize_domain domain = Some c ∧ Ok (E:=store_error) (A:=option ManagedCertificate) None = Ok None) as Hn.
  { revert Ec. unfold certificate_for_domain. destruct (normalize_domain domain) as [d|]; [|done]. intros _. eauto. }
  unfold script_permits in Ep. destruct (script_gates_registration config) eqn:Es.
  - intros _ _. split; [done|]. destruct Ep as [?|[?|?]]; [done|by left|by right].
  - pose proof (verify_saving_same domain [domain] (control_plane config) db) as [Hc _]. unfold verify_saving in *.
    destruct (verify_inner lookup_ip domain [domain] (control_plane config)) as [[[]|e] ds]; [eauto|]. cbn [snd] in Hc.
    intros [= <- <- <-] Hne. by rewrite Hc in Hne.
Qed.

(** The gate can be missed in between: a script that becomes configured
    after the first read of the configuration and before the second stands
    the DNS check down without having been asked, and the name is registered
    with no check at all. *)
Theorem registration_race config1 config2 config3 t0 t1 now domain db rejections :
  script_gates_registration config1 = false → script_gates_registration config2 = true → certificate_for_domain domain db = Ok None →
  register_automatic config1 config2 config3 t0 t1 now domain db rejections
  = let '(created, db') := create_automatic_certificate_if_absent now domain db in (lift_store created, db', rejections).
Proof.
  intros H1 H2 Hc. unfold register_automatic. rewrite Hc, H2. unfold dns_check_permits_new_issuance.
  unfold script_gates_registration in H1. apply negb_false_iff in H1. by rewrite H1.
Qed.

(** Without a script a name is tried at most once per ten minutes, as long as
    the attempt is remembered. *)
Theorem registration_throttled config1 config2 t0 t1 sni d last attempts :
  script_gates_registration config2 = false → normalize_domain sni = Some d → lru_map attempts !! d = Some last →
  t0 < last + REGISTRATION_RETRY_INTERVAL → (request_automatic_for_sni config1 config2 true t0 t1 sni attempts).1 = None.
Proof.
  intros Hs Hd Hl Ht. unfold request_automatic_for_sni. destruct (negb _); [done|]. rewrite Hd, Hs. cbn [negb].
  pose proof (lru_get_value d attempts) as Hv. destruct (lru_get d attempts) as [known a1]. cbn [fst] in Hv. rewrite Hv, Hl.
  assert ((t0 - last <? REGISTRATION_RETRY_INTERVAL) = true) as -> by lia. done.
Qed.
End registration.

(** ** A name through the gates *)

Import ca_example.
Module managed_example.
Definition home : bytes := lit "home.example".
Definition cert : ManagedCertificate := MkManaged home [home] production_id true false (MkPublish false false) None None.
Definition gen : CertificateGeneration := MkGeneration (lit "g1") home (lit "leaf") (lit "ca") (lit "key") [] None (Some 100) (Some 1).
Definition db : Db := (activate_generation gen (MkRenewal home None None None None 0 None None None None None) (save_managed_certificate 1 cert db_empty).2).2.
(** Every certificate text is a leaf for home.example until second 1000. *)
#[export] Instance toy_tls : TlsLibrary := {|
  pem_certs pem := Some (split_char LF pem);
  pem_key := Some;
  tls_identity_ok _ _ := true;
  keys_match _ := true;
  parse_leaf _ := Some (MkLeafInfo 1000 (Some (Some [OtherName; DNSName (lit "HOME.example.")]))) |}.
Definition key : CertifiedKey := MkKey [lit "leaf"; lit "ca"; []] (lit "key").

Definition scripted : RuntimeConfig :=
  MkRuntimeConfig (default_listener default_runtime_config) [] [] (dns_overrides default_runtime_config) (accounting default_runtime_config)
    (control_plane default_runtime_config) (MkAcmeSettings true 15 12 600 (lit " /check.sh ") 60) LocalCa.
Definition script (_ domain : bytes) : ScriptRun := Exited (ends_with (lit ".allowed.example") domain).
Definition Rejections : Type := Recency (K:=bytes * bytes) (V:=Z).
#[export] Instance rejections_lru : LruCache Rejections (bytes * bytes) Z := recency_lru 4096.
Definition handshake (name : bytes) :=
  resolve_for_termination (R:=Rejections) script (C:=small_cache) (λ _, true) toy_leaf toy_expiry (λ _ _, true) [lit "ca"] scripted
    0 1 2 (MkMint 5 5 6 (Some (lit "k"))) name LocalCa ∅ lru_new lru_new.
Definition try_register (config1 config2 : RuntimeConfig) (name : bytes) :=
  register_automatic (R:=Rejections) script (λ _ _, None) config1 config2 config2 0 1 2 name db_empty lru_new.
End managed_example.
Import managed_example.

Lemma cache_serves_active_witness : ∃ n fresh, reload (λ _, 5) db ∅ = (Ok n, fresh) ∧ resolve (lit "Home.Example.") fresh = Some key ∧ resolve (lit "other.example") fresh = None.
Proof.
  assert (acme_run db) as Hrun.
  { unfold db. apply acme_activate; [|apply (bool_decide_unpack _); vm_compute; exact I]. apply acme_save; [constructor|].
    apply Forall_singleton. apply graphic_clean. apply (bool_decide_unpack _). vm_compute. exact I. }
  pose proof (cache_serves_active (λ _, 5) db ∅ Hrun) as (n&fresh&Hr&Hiff&_). exists n, fresh. split; [exact Hr|]. split.
  - apply Hiff. eexists home, _, gen, _. split; [vm_compute; reflexivity|]. split; [vm_compute; reflexivity|]. split; [vm_compute; reflexivity|].
    split; [vm_compute; reflexivity|]. split; [vm_compute; reflexivity|]. vm_compute. reflexivity.
  - destruct (resolve (lit "other.example") fresh) as [k|] eqn:E; [|reflexivity]. apply Hiff in E as (d&c&g&e&Hd&Hc&_).
    assert (d = lit "other.example") as -> by (vm_compute in Hd; by injection Hd as <-). assert (managed_certificate (lit "other.example") db = None) as Hno by (vm_compute; reflexivity).
    rewrite Hno in Hc. discriminate.
Defined.


Lemma registration_gated_witness : (try_register scripted scripted (lit "x.allowed.example")).1.1 = Ok true
  ∧ (try_register scripted scripted (lit "x.other.example")).1 = (Err ScriptRejected, db_empty)
  ∧ script_gates_registration scripted = true
  ∧ (tls_routes_list_host_exactly scripted (lit "x.allowed.example") = true ∨ script (lit "/check.sh") (lit "x.allowed.example") = Exited true).
Proof.
  split; [vm_compute; reflexivity|]. split; [vm_compute; reflexivity|]. split; [vm_compute; reflexivity|].
  destruct (try_register scripted scripted (lit "x.allowed.example")) as [[r db'] rej'] eqn:E.
  pose proof (registration_gated script (λ _ _, None) scripted 0 1 2 (lit "x.allowed.example") db_empty lru_new r db' rej' E) as Hg.
  assert (script_gates_registration scripted = true) as Hs by (vm_compute; reflexivity). rewrite Hs in Hg. apply Hg.
  intros Heq. assert (db_certificates (try_register scripted scripted (lit "x.allowed.example")).1.2 !! lit "x.allowed.example" = None) as Hn
    by (rewrite E; cbn [fst snd]; rewrite Heq; vm_compute; reflexivity).
  vm_compute in Hn. discriminate.
Defined.

Lemma registration_race_witness : (try_register default_runtime_config scripted (lit "evil.other.example")).1.1 = Ok true.
Proof.
  unfold try_register. rewrite (registration_race script (λ _ _, None) default_runtime_config scripted scripted 0 1 2 (lit "evil.other.example") db_empty lru_new);
    vm_compute; reflexivity.
Defined.
