(* ===== verification/AcmeClient.v ===== *)
(** * Ordering a certificate (src/acme/client.rs)

    The order from the first request to the parsed generation, over the
    challenge registry.  The CA's answers and the parsing of certificates
    are parameters. *)

From S2P Require Import Prelude RustStd Net HttpHead AcmeChallenge FilePath AcmeDns Config RuntimeConfig Store StoreProps StoreAcme StoreAcmeProps Lru LocalCa ManagedTls.
Open Scope Z_scope.

(** ** PEM blocks *)

Definition BEGIN : bytes := lit "-----BEGIN CERTIFICATE-----".
Definition END : bytes := lit "-----END CERTIFICATE-----".
(** The loop over the lines: [inside] a block, [current] its lines so far. *)
Fixpoint scan_blocks (inside : bool) (current : list bytes) (lines : list bytes) : list (list bytes) :=
  match lines with
  | [] => []
  | line :: lines =>
      let '(inside, current) := if bool_decide (trim line = BEGIN) then (true, []) else (inside, current) in
      let current := if inside then current ++ [line] else current in
      if inside && bool_decide (trim line = END) then current :: scan_blocks false [] lines else scan_blocks inside current lines
  end.
Definition render_block (block : list bytes) : bytes := join [LF] block ++ [LF].
Definition certificate_blocks (pem : bytes) : list bytes := map render_block (scan_blocks false [] (str_lines pem)).

(** *** A split text is put together again *)

(** Lines without padding around the markers and without a stray CR. *)
Definition tidy_line (l : bytes) : Prop := LF ∉ l ∧ strip_cr l = l ∧ (trim l = BEGIN → l = BEGIN) ∧ (trim l = END → l = END).
#[export] Instance tidy_line_dec l : Decision (tidy_line l) := ltac:(unfold tidy_line; apply _).
Definition body_line (l : bytes) : Prop := tidy_line l ∧ trim l ≠ BEGIN ∧ trim l ≠ END.
Definition block_ok (block : list bytes) : Prop := ∃ body, block = BEGIN :: body ++ [END] ∧ Forall body_line body.

Lemma trim_BEGIN : trim BEGIN = BEGIN.
Proof. vm_compute. reflexivity. Qed.
Lemma trim_END : trim END = END.
Proof. vm_compute. reflexivity. Qed.
Lemma BEGIN_ne_END : BEGIN ≠ END.
Proof. vm_compute. discriminate. Qed.

Lemma scan_ok lines : Forall tidy_line lines → ∀ inside current,
  (inside = true → ∃ body, current = BEGIN :: body ∧ Forall body_line body) → Forall block_ok (scan_blocks inside current lines).
Proof.
  induction 1 as [|l lines Hl Hls IH]; intros inside current Hin; cbn [scan_blocks]; [constructor|].
  pose proof Hl as (_&_&Hb&He). destruct (decide (trim l = BEGIN)) as [Eb|Eb].
  - rewrite bool_decide_eq_true_2 by done. rewrite (Hb Eb), trim_BEGIN. rewrite bool_decide_eq_false_2 by apply BEGIN_ne_END. cbn [andb app].
    apply IH. intros _. exists []. done.
  - rewrite bool_decide_eq_false_2 by done. destruct inside; [|cbn [andb]; by apply IH]. destruct (Hin eq_refl) as (body&->&Hbody). cbn [andb].
    destruct (decide (trim l = END)) as [Ee|Ee].
    + rewrite bool_decide_eq_true_2 by done. constructor; [|apply IH; done]. rewrite (He Ee). exists body. done.
    + rewrite bool_decide_eq_false_2 by done. apply IH. intros _. exists (body ++ [l]). split; [done|]. apply Forall_app. split; [done|]. by constructor.
Qed.

Lemma scan_body body rest : Forall body_line body → ∀ current,
  scan_blocks true current (body ++ END :: rest) = (current ++ body ++ [END]) :: scan_blocks false [] rest.
Proof.
  induction 1 as [|l body [_ [Hb He]] Hbody IH]; intros current; cbn [app scan_blocks].
  - rewrite trim_END. rewrite bool_decide_eq_false_2 by (intros Heq; by apply BEGIN_ne_END). rewrite bool_decide_eq_true_2 by done. done.
  - rewrite !bool_decide_eq_false_2 by done. cbn [andb]. rewrite IH. by rewrite <- !app_assoc.
Qed.
Lemma scan_block block rest : block_ok block → scan_blocks false [] (block ++ rest) = block :: scan_blocks false [] rest.
Proof.
  intros (body&->&Hbody). cbn [app scan_blocks]. rewrite trim_BEGIN, bool_decide_eq_true_2 by done. rewrite bool_decide_eq_false_2 by apply BEGIN_ne_END.
  cbn [andb app]. rewrite <- app_assoc. cbn [app]. rewrite scan_body by done. done.
Qed.
(** Blocks with an empty line after each but the last. *)
Fixpoint spaced (blocks : list (list bytes)) : list bytes :=
  match blocks with [] => [] | [b] => b | b :: blocks => b ++ [] :: spaced blocks end.
Lemma scan_spaced blocks : Forall block_ok blocks → scan_blocks false [] (spaced blocks) = blocks.
Proof.
  induction 1 as [|b blocks Hb Hbs IH]; [done|]. destruct blocks as [|b2 blocks].
  - cbn [spaced]. rewrite <- (app_nil_r b) at 1. by rewrite scan_block.
  - cbn [spaced] in *. rewrite scan_block by done. cbn [scan_blocks]. rewrite bool_decide_eq_false_2 by (vm_compute; discriminate). cbn [andb]. by rewrite IH.
Qed.

Lemma join_app (sep : bytes) (a b : list bytes) : a ≠ [] → b ≠ [] → join sep (a ++ b) = join sep a ++ sep ++ join sep b.
Proof.
  intros Ha Hb. induction a as [|x a IH]; [done|]. destruct a as [|y a].
  - cbn [app]. destruct b; [done|]. done.
  - cbn [app join] in *. rewrite IH by done. by rewrite <- !app_assoc.
Qed.
Lemma block_ok_nonempty b : block_ok b → b ≠ [].
Proof. by intros (body&->&_). Qed.
Lemma spaced_nonempty b blocks : b ≠ [] → spaced (b :: blocks) ≠ [].
Proof. intros Hb. destruct blocks; cbn; [done|]. by destruct b. Qed.
(** The stored chain is the spaced lines. *)
Lemma join_blocks blocks : Forall block_ok blocks → blocks ≠ [] → join [LF] (map render_block blocks) = join [LF] (spaced blocks) ++ [LF].
Proof.
  induction 1 as [|b blocks Hb Hbs IH]; [done|]. intros _. destruct blocks as [|b2 blocks]; [done|].
  change (join [LF] (map render_block (b :: b2 :: blocks))) with (render_block b ++ [LF] ++ join [LF] (map render_block (b2 :: blocks))).
  rewrite IH by done. change (spaced (b :: b2 :: blocks)) with (b ++ [] :: spaced (b2 :: blocks)).
  apply Forall_cons in Hbs as [Hb2 _]. assert (spaced (b2 :: blocks) ≠ []) as Hne by (by apply spaced_nonempty, block_ok_nonempty).
  rewrite join_app by (done || by apply block_ok_nonempty). unfold render_block.
  change (join [LF] ([] :: spaced (b2 :: blocks))) with (join [LF] ([[]] ++ spaced (b2 :: blocks))). rewrite join_app by done. cbn [join app].
  by rewrite <- !app_assoc.
Qed.

Lemma spaced_tidy blocks : Forall block_ok blocks → Forall (λ l, LF ∉ l ∧ strip_cr l = l) (spaced blocks).
Proof.
  assert (∀ b, block_ok b → Forall (λ l, LF ∉ l ∧ strip_cr l = l) b) as Hone.
  { intros b (body&->&Hbody). constructor; [split; [apply (bool_decide_unpack _); vm_compute; exact I|vm_compute; reflexivity]|]. apply Forall_app. split.
    - eapply Forall_impl; [exact Hbody|]. intros l [(?&?&_) _]. done.
    - constructor; [|constructor]. split; [apply (bool_decide_unpack _); vm_compute; exact I|vm_compute; reflexivity]. }
  induction 1 as [|b blocks Hb Hbs IH]; [constructor|]. destruct blocks as [|b2 blocks]; [by apply Hone|]. cbn [spaced]. apply Forall_app. split; [by apply Hone|].
  constructor; [|exact IH]. split; [apply not_elem_of_nil|done].
Qed.
Lemma lines_rendered (ls : list bytes) : ls ≠ [] → Forall (λ l, LF ∉ l ∧ strip_cr l = l) ls → str_lines (join [LF] ls ++ [LF]) = ls.
Proof.
  intros Hne Hls. unfold str_lines, split_char. rewrite split_by_snoc by done. fold (split_char LF). rewrite split_char_join; [|done|].
  2: { eapply Forall_impl; [exact Hls|]. by intros l [? _]. }
  clear Hne. induction Hls as [|l ls [_ Hl] Hls IH]; [done|]. cbn [app lines_of]. destruct (ls ++ [[]]) eqn:E; [by destruct ls|].
  rewrite <- E in *. rewrite Hl. by rewrite IH.
Qed.
(** Block text begins and ends with a dash. *)
Lemma spaced_ends blocks : Forall block_ok blocks → blocks ≠ [] → ∃ s t, join [LF] (spaced blocks) = 45 :: s ∧ join [LF] (spaced blocks) = t ++ [45].
Proof.
  assert (∀ b, block_ok b → ∃ t, join [LF] b = t ++ [45]) as Hend.
  { intros b (body&->&_). exists (join [LF] (BEGIN :: body) ++ [LF] ++ removelast END). change (BEGIN :: body ++ [END]) with ((BEGIN :: body) ++ [END]).
    rewrite join_app by done. rewrite <- !app_assoc. reflexivity. }
  assert (∀ b r, block_ok b → ∃ s, join [LF] (b ++ r) = 45 :: s) as Hbegin.
  { intros b r (body&->&_). cbn [app]. destruct ((body ++ [END]) ++ r) eqn:E; [by destruct body|]. eexists. cbn [join]. reflexivity. }
  induction 1 as [|b blocks Hb Hbs IH]; [done|]. intros _. destruct blocks as [|b2 blocks].
  - destruct (Hend b Hb) as [t Ht]. destruct (Hbegin b [] Hb) as [s Hs]. rewrite app_nil_r in Hs. exists s, t. done.
  - destruct (IH ltac:(done)) as (s2&t2&_&Ht2). change (spaced (b :: b2 :: blocks)) with (b ++ [] :: spaced (b2 :: blocks)).
    destruct (Hbegin b ([] :: spaced (b2 :: blocks)) Hb) as [s Hs]. exists s. eexists. split; [exact Hs|]. rewrite join_app by (done || by apply block_ok_nonempty).
    change ([] :: spaced (b2 :: blocks)) with ([[]] ++ spaced (b2 :: blocks)). apply Forall_cons in Hbs as [Hb2 _].
    rewrite join_app by (done || by apply spaced_nonempty, block_ok_nonempty). rewrite Ht2, !app_assoc. reflexivity.
Qed.
Lemma trim_end_text t : trim_end ((t ++ [45]) ++ [LF]) = t ++ [45].
Proof.
  unfold trim_end. rewrite !rev_app_distr. change (rev [LF] ++ rev [45] ++ rev t) with (LF :: 45 :: rev t).
  change (trim_start_rev (LF :: 45 :: rev t)) with (trim_start_rev (45 :: rev t)). rewrite trim_start_rev_graphic by done. cbn [rev]. by rewrite rev_involutive.
Qed.
(** The text of blocks loses only its last newline when it is trimmed. *)
Lemma trim_blocks blocks : Forall block_ok blocks → blocks ≠ [] →
  trim_end (join [LF] (spaced blocks) ++ [LF]) = join [LF] (spaced blocks) ∧ trim (join [LF] (spaced blocks) ++ [LF]) = join [LF] (spaced blocks).
Proof.
  intros Hok Hne. destruct (spaced_ends blocks Hok Hne) as (s&t&Hs&Ht).
  assert (trim_end (join [LF] (spaced blocks) ++ [LF]) = join [LF] (spaced blocks)) as Htrim by (rewrite Ht; apply trim_end_text).
  split; [done|]. unfold trim. rewrite Hs at 1. cbn [app]. rewrite trim_start_graphic by done. change (45 :: s ++ [LF]) with ((45 :: s) ++ [LF]).
  by rewrite <- Hs.
Qed.
Lemma join_nonempty blocks : Forall block_ok blocks → blocks ≠ [] → join [LF] (spaced blocks) ≠ [].
Proof. intros Hok Hne. destruct (spaced_ends blocks Hok Hne) as (s&_&->&_). done. Qed.
Lemma fullchain_blocks g b rest : Forall block_ok (b :: rest) → cg_certificate_pem g = render_block b → cg_chain_pem g = join [LF] (map render_block rest) →
  certificate_blocks (fullchain_pem g) = map render_block (b :: rest).
Proof.
  intros Hok Hb Hrest. unfold certificate_blocks, fullchain_pem. rewrite Hb, Hrest. f_equal. pose proof Hok as [Hokb Hokr]%Forall_cons.
  destruct (trim_blocks [b]) as [Htb _]; [by constructor|done|]. unfold render_block at 1. cbn [spaced] in Htb. rewrite Htb.
  destruct (decide (rest = [])) as [->|Hne].
  - cbn [map join]. change (trim []) with (@nil Z). rewrite bool_decide_eq_true_2 by done. cbn [app].
    rewrite lines_rendered; [|by apply block_ok_nonempty|by apply (spaced_tidy [b]); constructor]. rewrite <- (app_nil_r b) at 1. by rewrite scan_block.
  - rewrite join_blocks by done. destruct (trim_blocks rest Hokr Hne) as [_ ->].
    rewrite bool_decide_eq_false_2 by (by apply join_nonempty).
    assert (spaced rest ≠ []) as Hs. { destruct rest; [done|]. apply Forall_cons in Hokr as [? _]. by apply spaced_nonempty, block_ok_nonempty. }
    change (LF :: join [LF] (spaced rest)) with ([LF] ++ join [LF] (spaced rest)). rewrite app_assoc. rewrite <- join_app by (done || by apply block_ok_nonempty).
    rewrite lines_rendered.
    + rewrite scan_block by done. by rewrite scan_spaced.
    + by destruct b.
    + apply Forall_app. split; [by apply (spaced_tidy [b]); constructor|by apply spaced_tidy].
Qed.

(** ** From the downloaded chain to a generation *)

Record X509Cert := MkX509Cert { x_subject : bytes; x_issuer : bytes; x_not_before : Z; x_not_after : Z }.
Inductive client_error :=
| NoDirectory | BadEabKey | HalfEab | BuilderFailed | AccountRefused | BadCredentials
| NoDomains | BadDomain | DuplicateDomains | OrderRefused | AuthorizationFailed | UnexpectedStatus | NoTlsAlpn | UnsupportedIdentifier
| Provisioning (e : challenge_error) | NotMarkedReady | PollFailed | NotReady | FinalizeFailed | DownloadFailed
| NoCertificate | BadCertificatePem | BadCertificate | BadValidity | BadChain | UnorderedChain | BadIssuerSignature
| BadIdentifier | AriFailed.

(** The PEM and X.509 parsers, the hash, and the check of a certificate's
    signature under its issuer's key. *)
Class X509Library := MkX509Library {
  from_pem_slice : bytes → option bytes;
  parse_x509 : bytes → option X509Cert;
  verify_signature : bytes → bytes → bool;
  sha256_hex : bytes → bytes;
  hex_encode : bytes → bytes;
}.

Section chain.
Context {x509 : X509Library}.

Definition chain_der (pem : bytes) : result client_error bytes :=
  der ← ok_or (from_pem_slice pem) BadCertificatePem;
  _ ← ok_or (parse_x509 der) BadChain;
  Ok der.
Fixpoint chain_ders (blocks : list bytes) : result client_error (list bytes) :=
  match blocks with
  | [] => Ok []
  | pem :: blocks => der ← chain_der pem; ders ← chain_ders blocks; Ok (der :: ders)
  end.
Definition link_ok (child_der issuer_der : bytes) : result client_error () :=
  child ← ok_or (parse_x509 child_der) BadChain;
  issuer ← ok_or (parse_x509 issuer_der) BadChain;
  guard! bool_decide (x_issuer child = x_subject issuer) else UnorderedChain;
  guard! verify_signature child_der issuer_der else BadIssuerSignature;
  Ok ().
(** [parsed.windows(2)] *)
Fixpoint links_ok (ders : list bytes) : result client_error () :=
  match ders with
  | child :: (issuer :: _) as rest => _ ← link_ok child issuer; links_ok rest
  | _ => Ok ()
  end.
Definition validate_issuer_chain (blocks : list bytes) : result client_error () :=
  ders ← chain_ders blocks;
  links_ok ders.

Definition generation_from_pem (now : Z) (id_bytes certificate_id fullchain private_key_pem : bytes) : result client_error CertificateGeneration :=
  let blocks := certificate_blocks fullchain in
  certificate_pem ← ok_or (head blocks) NoCertificate;
  let chain_pem := join [LF] (drop 1 blocks) in
  certificate_der ← ok_or (from_pem_slice certificate_pem) BadCertificatePem;
  parsed ← ok_or (parse_x509 certificate_der) BadCertificate;
  guard! timestamp_ok (x_not_before parsed) else BadValidity;
  guard! timestamp_ok (x_not_after parsed) else BadValidity;
  _ ← validate_issuer_chain blocks;
  Ok (MkGeneration (hex_encode id_bytes) certificate_id certificate_pem chain_pem private_key_pem (sha256_hex certificate_der)
        (Some (x_not_before parsed * 1000000000)) (Some (x_not_after parsed * 1000000000)) (Some now)).

Lemma generation_from_pem_inv now id_bytes cid fullchain key g : generation_from_pem now id_bytes cid fullchain key = Ok g →
  ∃ rest der leaf, certificate_blocks fullchain = cg_certificate_pem g :: rest ∧ cg_chain_pem g = join [LF] rest
    ∧ from_pem_slice (cg_certificate_pem g) = Some der ∧ parse_x509 der = Some leaf ∧ validate_issuer_chain (certificate_blocks fullchain) = Ok ()
    ∧ cg_certificate_id g = cid ∧ cg_private_key_pem g = key ∧ cg_fingerprint g = sha256_hex der
    ∧ cg_not_before g = Some (x_not_before leaf * 1000000000) ∧ cg_not_after g = Some (x_not_after leaf * 1000000000).
Proof.
  unfold generation_from_pem. destruct (certificate_blocks fullchain) as [|b rest]; [done|].
  generalize (validate_issuer_chain (b :: rest)). intros v. cbn. destruct (from_pem_slice b) as [der|] eqn:Ed; [|done]. cbn. destruct (parse_x509 der) as [leaf|] eqn:El; [|done]. cbn.
  destruct (timestamp_ok (x_not_before leaf)); [|done]. cbn. destruct (timestamp_ok (x_not_after leaf)); [|done]. cbn.
  destruct v as [[]|]; cbn; [|done]. intros [= <-]. exists rest, der, leaf. cbn. rewrite drop_0. done.
Qed.

(** Adjacent certificates of a chain are linked by name and signature. *)
Definition linked (child issuer : bytes) : Prop :=
  ∃ c i, parse_x509 child = Some c ∧ parse_x509 issuer = Some i ∧ x_issuer c = x_subject i ∧ verify_signature child issuer = true.
Lemma links_ok_linked ders : links_ok ders = Ok () → ∀ i child issuer, ders !! i = Some child → ders !! S i = Some issuer → linked child issuer.
Proof.
  induction ders as [|d ders IH]; [done|]. intros Hok i child issuer Hc Hi. destruct ders as [|d2 ders]; [done|].
  cbn [links_ok] in Hok. destruct (link_ok d d2) as [[]|] eqn:El; [|done]. cbn in Hok.
  destruct i as [|i]; [|by apply (IH Hok i)]. cbn in Hc, Hi. simplify_eq. unfold link_ok in El.
  destruct (parse_x509 child) as [c|] eqn:Ec; cbn in El; [|done]. destruct (parse_x509 issuer) as [s|] eqn:Es; cbn in El; [|done]. case_bool_decide as En; [|done]. cbn in El.
  destruct (verify_signature child issuer) eqn:Ev; [|done]. exists c, s. done.
Qed.
Lemma chain_ders_spec blocks ders : chain_ders blocks = Ok ders → Forall2 (λ pem der, from_pem_slice pem = Some der) blocks ders.
Proof.
  revert ders. induction blocks as [|pem blocks IH]; cbn [chain_ders]; [by intros ? [= <-]|]. intros ders. unfold chain_der.
  destruct (from_pem_slice pem) as [der|] eqn:E; [|done]. cbn. destruct (parse_x509 der); [|done]. cbn.
  destruct (chain_ders blocks) as [rest|]; [|done]. cbn. intros [= <-]. constructor; [done|]. by apply IH.
Qed.
End chain.

(** *** The stored generation is the downloaded chain *)

Section download.
Context {x509 : X509Library}.

(** The generation made from a downloaded chain serves that chain: the
    PEM text it stores in two parts, put together again by [fullchain_pem],
    splits into exactly the downloaded certificate blocks in their order;
    its names, dates and fingerprint are the first certificate's; and every
    certificate of the chain names the next as its issuer and is signed by
    it.  The downloaded lines carry no padding around the markers and no
    stray CR. *)
Theorem chain_roundtrip now id_bytes cid fullchain key g :
  Forall tidy_line (str_lines fullchain) →
  generation_from_pem now id_bytes cid fullchain key = Ok g →
  certificate_blocks (fullchain_pem g) = certificate_blocks fullchain
  ∧ ∃ ders leaf der, Forall2 (λ pem der, from_pem_slice pem = Some der) (certificate_blocks fullchain) (der :: ders)
      ∧ parse_x509 der = Some leaf ∧ cg_fingerprint g = sha256_hex der
      ∧ cg_not_before g = Some (x_not_before leaf * 1000000000) ∧ cg_not_after g = Some (x_not_after leaf * 1000000000)
      ∧ ∀ i child issuer, (der :: ders) !! i = Some child → (der :: ders) !! S i = Some issuer → linked child issuer.
Proof.
  intros Htidy (rest&der&leaf&Hb&Hc&Hd&Hl&Hv&_&_&Hf&Hnb&Hna)%generation_from_pem_inv. split.
  - pose proof (scan_ok _ Htidy false [] ltac:(done)) as Hok. unfold certificate_blocks in *.
    destruct (scan_blocks false [] (str_lines fullchain)) as [|b blocks]; [done|]. cbn [map] in Hb. injection Hb as Hb <-.
    by apply fullchain_blocks.
  - unfold validate_issuer_chain in Hv. destruct (chain_ders _) as [ders|] eqn:Ed; cbn in Hv; [|done].
    pose proof (chain_ders_spec _ _ Ed) as Hders. rewrite Hb in Hders. apply Forall2_cons_inv_l in Hders as (der'&ders'&Hder&Hders&->).
    simplify_eq. exists ders', leaf, der. rewrite Hb. split_and!; try done; [by constructor|]. by apply links_ok_linked.
Qed.
End download.

(** ** The order *)

Inductive AuthorizationStatus := AuthValid | AuthPending | AuthOther.
Inductive Identifier := Dns (domain : bytes) | OtherIdentifier.
(** An authorization as fetched: its status and its tls-alpn-01 challenge, if
    the server offers one, with the challenge's key authorization. *)
Record Authorization := MkAuthorization { az_status : AuthorizationStatus; az_tls_alpn : option (Identifier * bytes) }.
Inductive OrderStatus := OrderReady | OrderOther.

Section issue.
Context {x509 : X509Library} {Key : Type} (make_cert : bytes → bytes → result challenge_error Key).
Abbreviation registry := (gmap bytes (ChallengeEntry Key)).
(** An order at the CA.  It sees the registry as it is when a challenge is
    marked ready and while the order is polled: this is when it connects to
    the listener.  Each authorization carries the time it is fetched at. *)
Record AcmeOrder := MkOrder {
  authorizations : list (Z * option Authorization);
  set_ready : bytes → registry → bool;
  poll_ready : registry → option OrderStatus;
  finalize : option bytes;
  poll_certificate : option bytes;
}.
(** [CertificateIdentifier::try_from] on the certificate to be replaced. *)
Context {CertificateIdentifier : Type} (certificate_identifier : bytes → option CertificateIdentifier).
Context (new_order : list bytes → option CertificateIdentifier → option AcmeOrder).

Fixpoint normalize_domains (domains : list bytes) : option (list bytes) :=
  match domains with
  | [] => Some []
  | d :: domains => n ← AcmeDns.normalize_domain d; ns ← normalize_domains domains; Some (n :: ns)
  end.

(** One turn of the loop over the authorizations. *)
Definition provision_step (order : AcmeOrder) (ttl now : Z) (fetched : option Authorization) (guards : list ChallengeGuard) (entries : registry)
  : result client_error () * list ChallengeGuard * registry :=
  match fetched with
  | None => (Err AuthorizationFailed, guards, entries)
  | Some authorization =>
      match az_status authorization with
      | AuthValid => (Ok (), guards, entries)
      | AuthOther => (Err UnexpectedStatus, guards, entries)
      | AuthPending =>
          match az_tls_alpn authorization with
          | None => (Err NoTlsAlpn, guards, entries)
          | Some (OtherIdentifier, _) => (Err UnsupportedIdentifier, guards, entries)
          | Some (Dns domain, key_authorization) =>
              match AcmeDns.normalize_domain domain with
              | None => (Err BadDomain, guards, entries)
              | Some domain =>
                  match register make_cert now ttl domain key_authorization entries with
                  | Err e => (Err (Provisioning e), guards, entries)
                  | Ok (guard, entries) =>
                      if set_ready order domain entries then (Ok (), guards ++ [guard], entries) else (Err NotMarkedReady, guards ++ [guard], entries)
                  end
              end
          end
      end
  end.
Fixpoint provision (order : AcmeOrder) (ttl : Z) (pending : list (Z * option Authorization)) (guards : list ChallengeGuard) (entries : registry)
  : result client_error () * list ChallengeGuard * registry :=
  match pending with
  | [] => (Ok (), guards, entries)
  | (now, fetched) :: pending =>
      match provision_step order ttl now fetched guards entries with
      | (Ok _, guards, entries) => provision order ttl pending guards entries
      | stopped => stopped
      end
  end.
(** [guards] is dropped front to back, at [drop(guards)] or as the function
    returns. *)
Definition drop_guards (guards : list ChallengeGuard) (entries : registry) : registry := foldl (λ entries guard, drop_guard guard entries) entries guards.

Definition issue (now ttl : Z) (id_bytes : bytes) (managed : ManagedCertificate) (previous : option CertificateGeneration) (entries : registry)
  : result client_error CertificateGeneration * registry :=
  if bool_decide (mc_domains managed = []) then (Err NoDomains, entries)
  else match normalize_domains (mc_domains managed) with
  | None => (Err BadDomain, entries)
  | Some domains =>
      if negb (bool_decide (NoDup domains)) then (Err DuplicateDomains, entries)
      else
        let previous_id := g ← previous; der ← from_pem_slice (cg_certificate_pem g); certificate_identifier der in
        match new_order domains previous_id with
        | None => (Err OrderRefused, entries)
        | Some order =>
            match provision order ttl (authorizations order) [] entries with
            | (Err e, guards, entries) => (Err e, drop_guards guards entries)
            | (Ok _, guards, entries) =>
                match poll_ready order entries with
                | None => (Err PollFailed, drop_guards guards entries)
                | Some status =>
                    let entries := drop_guards guards entries in
                    match status with
                    | OrderOther => (Err NotReady, entries)
                    | OrderReady =>
                        match finalize order with
                        | None => (Err FinalizeFailed, entries)
                        | Some private_key_pem =>
                            match poll_certificate order with
                            | None => (Err DownloadFailed, entries)
                            | Some fullchain => (generation_from_pem now id_bytes (mc_id managed) fullchain private_key_pem, entries)
                            end
                        end
                    end
                end
            end
        end
  end.

(** *** The order's challenges *)

(** The entries of [entries] not in [before] belong to [guards]. *)
Definition guarded (guards : list ChallengeGuard) (before entries : registry) : Prop :=
  ∀ d e, entries !! d = Some e → before !! d = Some e ∨ MkGuard d (nonce e) ∈ guards.

Lemma guarded_cleared guards before entries : guarded guards before entries → drop_guards guards entries ⊆ before.
Proof.
  revert entries. induction guards as [|g guards IH]; intros entries Hg; cbn [drop_guards foldl].
  - apply map_subseteq_spec. intros d e He. destruct (Hg d e He) as [?|Hin]; [done|]. by apply elem_of_nil in Hin.
  - apply IH. intros d e He. unfold drop_guard in He. destruct g as [gd gn]. cbn in He.
    destruct (entries !! gd) as [entry|] eqn:Ee; [destruct (Z.eqb_spec (nonce entry) gn) as [En|En]|].
    + apply lookup_delete_Some in He as [Hne He]. destruct (Hg d e He) as [?|[[= ? ?]|?]%elem_of_cons]; [by left|done|by right].
    + destruct (Hg d e He) as [?|[[= ? ?]|?]%elem_of_cons]; [by left| |by right]. simplify_eq.
    + destruct (Hg d e He) as [?|[[= ? ?]|?]%elem_of_cons]; [by left| |by right]. simplify_eq.
Qed.
Lemma guarded_register now ttl domain ka guards before entries g entries' :
  register make_cert now ttl domain ka entries = Ok (g, entries') → guarded guards before entries → guarded (guards ++ [g]) before entries'.
Proof.
  intros (d&c&_&_&->&->)%register_spec Hg d' e He. cbn [guard_nonce] in He. destruct (decide (d = d')) as [->|Hne].
  - rewrite lookup_insert_eq in He. injection He as <-. right. apply elem_of_app. right. by apply list_elem_of_singleton.
  - rewrite lookup_insert_ne in He by done. destruct (Hg d' e He) as [?|?]; [by left|]. right. apply elem_of_app. by left.
Qed.

(** The registry name of a pending authorization, and what it registers. *)
Definition challenge_key (domain : bytes) : option bytes :=
  n ← AcmeDns.normalize_domain domain; match AcmeChallenge.normalize_domain n with Ok k => Some k | Err _ => None end.
Definition pending_for (fetched : option Authorization) : option (bytes * bytes) :=
  a ← fetched; match az_status a, az_tls_alpn a with AuthPending, Some (Dns d, ka) => k ← challenge_key d; Some (k, ka) | _, _ => None end.

(** A turn either leaves the registry alone or registers one challenge. *)
Lemma provision_step_cases order ttl now fetched guards entries r guards' entries' :
  provision_step order ttl now fetched guards entries = (r, guards', entries') →
  (guards' = guards ∧ entries' = entries ∧ (r = Ok () → ∃ a, fetched = Some a ∧ az_status a = AuthValid))
  ∨ ∃ d ka n g k c, fetched = Some (MkAuthorization AuthPending (Some (Dns d, ka))) ∧ AcmeDns.normalize_domain d = Some n
      ∧ register make_cert now ttl n ka entries = Ok (g, entries') ∧ guards' = guards ++ [g]
      ∧ pending_for fetched = Some (k, ka) ∧ AcmeChallenge.normalize_domain n = Ok k ∧ make_cert k ka = Ok c ∧ guard_domain g = k
      ∧ entries' = <[k := MkEntry c (now + ttl) (guard_nonce g)]> entries.
Proof.
  unfold provision_step. destruct fetched as [[status alpn]|]; cbn [az_status az_tls_alpn]; [|by left; simplify_eq].
  destruct status; [by intros [= <- <- <-]; left; eauto| |by left; simplify_eq].
  destruct alpn as [[[d|] ka]|]; [|by left; simplify_eq|by left; simplify_eq].
  destruct (AcmeDns.normalize_domain d) as [n|] eqn:En; [|by left; simplify_eq].
  destruct (register make_cert now ttl n ka entries) as [[g entries1]|] eqn:Er; [|by left; simplify_eq].
  intros Hrun. assert (guards' = guards ++ [g] ∧ entries' = entries1) as [-> ->] by (destruct (set_ready _ _ _); by simplify_eq).
  right. pose proof Er as (k&c&Hk&Hc&Hg&He)%register_spec. exists d, ka, n, g, k, c. split_and!; try done; [|by rewrite Hg].
  unfold pending_for, challenge_key. cbn. rewrite En. cbn. by rewrite Hk.
Qed.

Lemma provision_guarded order ttl before pending : ∀ guards entries r guards' entries',
  provision order ttl pending guards entries = (r, guards', entries') → guarded guards before entries → guarded guards' before entries'.
Proof.
  induction pending as [|[now fetched] pending IH]; intros guards entries r guards' entries'; cbn [provision]; [by intros [= <- <- <-]|].
  destruct (provision_step order ttl now fetched guards entries) as [[r1 guards1] entries1] eqn:Es. intros Hrun Hg.
  assert (guarded guards1 before entries1) as Hg1.
  { apply provision_step_cases in Es as [(->&->&_)|(d&ka&n&g&k&c&_&_&Hr&->&_)]; [done|]. by eapply guarded_register. }
  destruct r1; [by eapply IH|]. by simplify_eq.
Qed.
(** Names without a pending authorization keep their entry. *)
Lemma drop_guards_other guards entries d : Forall (λ g, guard_domain g ≠ d) guards → drop_guards guards entries !! d = entries !! d.
Proof.
  intros Hg. revert entries. induction Hg as [|g guards Hne _ IH]; intros entries; [done|]. cbn [drop_guards foldl]. unfold drop_guards in IH. rewrite IH.
  unfold drop_guard. case_match; [|done]. case_match; [|done]. by rewrite lookup_delete_ne.
Qed.
Lemma provision_other order ttl d pending : ∀ guards entries r guards' entries',
  provision order ttl pending guards entries = (r, guards', entries') →
  Forall (λ x, ∀ k ka, pending_for x.2 = Some (k, ka) → k ≠ d) pending →
  entries' !! d = entries !! d ∧ (Forall (λ g, guard_domain g ≠ d) guards → Forall (λ g, guard_domain g ≠ d) guards').
Proof.
  induction pending as [|[now fetched] pending IH]; intros guards entries r guards' entries'; cbn [provision]; [by intros [= <- <- <-]|].
  destruct (provision_step order ttl now fetched guards entries) as [[r1 guards1] entries1] eqn:Es. intros Hrun [Hd Hds]%Forall_cons.
  assert (entries1 !! d = entries !! d ∧ (Forall (λ g, guard_domain g ≠ d) guards → Forall (λ g, guard_domain g ≠ d) guards1)) as [Heq Hg1].
  { apply provision_step_cases in Es as [(->&->&_)|(d'&ka&n&g&k&c&_&_&_&->&Hp&_&_&Hgk&->)]; [done|]. pose proof (Hd k ka Hp) as Hne.
    split; [by rewrite lookup_insert_ne|]. intros Hg. apply Forall_app. split; [done|]. constructor; [|constructor]. by rewrite Hgk. }
  destruct r1; [|by simplify_eq]. destruct (IH _ _ _ _ _ Hrun Hds) as [-> ?]. split; [done|]. auto.
Qed.

(** The registry answers a challenge: the listener presents the certificate
    made for it until the entry's deadline. *)
Definition answered (entries : registry) (deadline : Z) (k ka : bytes) : Prop :=
  ∃ c n, make_cert k ka = Ok c ∧ entries !! k = Some (MkEntry c deadline n).
Definition all_answered (ttl : Z) (pending : list (Z * option Authorization)) (entries : registry) : Prop :=
  ∀ now fetched k ka, (now, fetched) ∈ pending → pending_for fetched = Some (k, ka) → answered entries (now + ttl) k ka.
(** The registry names of an order's pending authorizations. *)
Definition pending_keys (pending : list (Z * option Authorization)) : list bytes := omap (λ x, fst <$> pending_for x.2) pending.

Lemma pending_keys_cons now fetched pending :
  pending_keys ((now, fetched) :: pending) = match pending_for fetched with Some (k, _) => k :: pending_keys pending | None => pending_keys pending end.
Proof. unfold pending_keys. cbn -[pending_for]. by destruct (pending_for fetched) as [[? ?]|]. Qed.
Lemma pending_keys_other k pending : k ∉ pending_keys pending → Forall (λ x, ∀ k' ka, pending_for x.2 = Some (k', ka) → k' ≠ k) pending.
Proof.
  intros Hk. apply Forall_forall. intros x Hx k' ka Hp ->. apply Hk. apply list_elem_of_omap. exists x. split; [done|]. by rewrite Hp.
Qed.
Lemma provision_answers order ttl pending : ∀ guards entries guards' entries',
  NoDup (pending_keys pending) → provision order ttl pending guards entries = (Ok (), guards', entries') → all_answered ttl pending entries'.
Proof.
  induction pending as [|[now fetched] pending IH]; intros guards entries guards' entries' Hnd; cbn [provision].
  { intros _ now fetched k ka Hin. by apply elem_of_nil in Hin. }
  destruct (provision_step order ttl now fetched guards entries) as [[r1 guards1] entries1] eqn:Es. destruct r1 as [[]|]; [|done]. intros Hrun.
  assert (NoDup (pending_keys pending)) as Hnd2. { revert Hnd. rewrite pending_keys_cons. destruct (pending_for fetched) as [[? ?]|]; [|done]. by intros [_ ?]%NoDup_cons. }
  intros now' f k ka [[= -> ->]|Hin]%elem_of_cons Hp; [|by eapply IH].
  apply provision_step_cases in Es as [(_&_&Hv)|(d&ka'&n&g&k'&c&_&_&_&_&Hp'&_&Hc&_&->)].
  - destruct (Hv eq_refl) as ([status alpn]&->&Hst). cbn in Hst. subst status. done.
  - assert (k' = k ∧ ka' = ka) as [-> ->] by (rewrite Hp in Hp'; by injection Hp'). exists c, (guard_nonce g). split; [done|].
    assert (k ∉ pending_keys pending) as Hk. { revert Hnd. rewrite pending_keys_cons, Hp. by intros [? _]%NoDup_cons. }
    destruct (provision_other _ _ k _ _ _ _ _ _ Hrun (pending_keys_other _ _ Hk)) as [-> _]. by rewrite lookup_insert_eq.
Qed.

(** What a completed run of [issue] leaves in the registry, whatever its
    outcome. *)
Lemma issue_registry now ttl id_bytes managed previous entries r entries' :
  issue now ttl id_bytes managed previous entries = (r, entries') →
  entries' = entries ∨ ∃ domains id order r1 guards polled, new_order domains id = Some order
    ∧ provision order ttl (authorizations order) [] entries = (r1, guards, polled) ∧ entries' = drop_guards guards polled.
Proof.
  unfold issue. case_bool_decide; [intros [= _ <-]; by left|]. destruct (normalize_domains _) as [domains|]; [|intros [= _ <-]; by left].
  destruct (negb _); [intros [= _ <-]; by left|]. cbv zeta. destruct (new_order _ _) as [order|] eqn:Eo; [|intros [= _ <-]; by left].
  destruct (provision order ttl (authorizations order) [] entries) as [[r1 guards] polled] eqn:Ep. intros Hrun. right.
  eexists _, _, order, r1, guards, polled. split; [exact Eo|]. split; [done|].
  destruct r1; [|by injection Hrun]. repeat (case_match; try by injection Hrun).
Qed.

(** Whatever becomes of an order - a refused authorization, a failed
    registration, a poll that times out, a finished certificate - none of
    the challenges it registered stays in the registry when [issue] returns:
    every entry that is left was there before the order.  Entries of names
    the order has no pending authorization for are untouched. *)
Theorem challenges_cleared now ttl id_bytes managed previous entries :
  let entries' := (issue now ttl id_bytes managed previous entries).2 in
  entries' ⊆ entries
  ∧ ∀ d, entries' !! d ≠ entries !! d → ∃ domains id order, new_order domains id = Some order ∧ d ∈ pending_keys (authorizations order).
Proof.
  cbv zeta. destruct (issue now ttl id_bytes managed previous entries) as [r entries'] eqn:E. cbn [snd].
  apply issue_registry in E as [->|(domains&id&order&r1&guards&polled&Ho&Hp&->)]; [done|]. split.
  - apply guarded_cleared. eapply provision_guarded; [exact Hp|]. intros d e He. by left.
  - intros d Hd. exists domains, id, order. split; [done|]. destruct (decide (d ∈ pending_keys (authorizations order))) as [?|Hk]; [done|]. destruct Hd.
    destruct (provision_other _ _ d _ _ _ _ _ _ Hp (pending_keys_other _ _ Hk)) as [Heq Hg]. rewrite drop_guards_other by (apply Hg; constructor). done.
Qed.

(** An authorization the server can be answered on. *)
Definition workable (order : AcmeOrder) (ttl : Z) (x : Z * option Authorization) : Prop :=
  (∃ alpn, x.2 = Some (MkAuthorization AuthValid alpn))
  ∨ ∃ d ka n k c, x.2 = Some (MkAuthorization AuthPending (Some (Dns d, ka))) ∧ AcmeDns.normalize_domain d = Some n
      ∧ AcmeChallenge.normalize_domain n = Ok k ∧ make_cert k ka = Ok c ∧ ∀ entries, answered entries (x.1 + ttl) k ka → set_ready order n entries = true.
Lemma provision_workable order ttl pending : Forall (workable order ttl) pending → ∀ guards entries,
  ∃ guards' entries', provision order ttl pending guards entries = (Ok (), guards', entries').
Proof.
  induction 1 as [|[now fetched] pending Hx Hxs IH]; intros guards entries; cbn [provision]; [by eauto|].
  destruct Hx as [[alpn Hx]|(d&ka&n&k&c&Hx&Hn&Hk&Hc&Hready)]; cbn [fst snd] in *; subst fetched; unfold provision_step; cbn [az_status az_tls_alpn]; [apply IH|].
  rewrite Hn. unfold register. rewrite Hk. cbn. rewrite Hc. cbn. rewrite Hready; [apply IH|]. eexists c, _. split; [done|]. by rewrite lookup_insert_eq.
Qed.

(** C21: an order with a CA that keeps its side completes: when every
    authorization is already valid or offers a tls-alpn-01 challenge for a
    name of its own, and the CA reports the order ready once the listener
    answers every pending challenge, [issue] gets through to the download
    and its result is the generation parsed from the downloaded chain. *)
Theorem order_completes now ttl id_bytes managed previous entries domains order key fullchain :
  mc_domains managed ≠ [] → normalize_domains (mc_domains managed) = Some domains → NoDup domains →
  new_order domains (g ← previous; der ← from_pem_slice (cg_certificate_pem g); certificate_identifier der) = Some order →
  Forall (workable order ttl) (authorizations order) → NoDup (pending_keys (authorizations order)) →
  (∀ polled, all_answered ttl (authorizations order) polled → poll_ready order polled = Some OrderReady) →
  finalize order = Some key → poll_certificate order = Some fullchain →
  (issue now ttl id_bytes managed previous entries).1 = generation_from_pem now id_bytes (mc_id managed) fullchain key.
Proof.
  intros Hne Hd Hnd Ho Hw Hk Hpoll Hf Hc. unfold issue. rewrite bool_decide_eq_false_2 by done. rewrite Hd, bool_decide_eq_true_2 by done. cbn [negb]. cbv zeta. rewrite Ho.
  destruct (provision_workable order ttl _ Hw [] entries) as (guards&polled&Hp). rewrite Hp. rewrite (Hpoll polled) by (by eapply provision_answers). by rewrite Hf, Hc.
Qed.
End issue.

(** ** Accounts *)

Section accounts.
Context {Account Credentials Builder ExternalKey : Type}.
(** base64 and serde_json *)
Context (url_safe_no_pad url_safe : bytes → option bytes) (parse_credentials : bytes → option Credentials).
(** instant_acme: a builder on the platform's roots or on a file's, and its
    requests. *)
Context (builder : option Builder) (builder_with_root : bytes → option Builder) (external_key : bytes → bytes → ExternalKey).
Context (create : Builder → list bytes → bytes → option ExternalKey → option (Account * Credentials)) (from_credentials : Builder → Credentials → option Account).

Definition account_builder (p : AcmeProvider) : option Builder :=
  match ap_directory_ca_pem p with None => builder | Some pem => builder_with_root pem end.
Definition external_binding (p : AcmeProvider) : result client_error (option ExternalKey) :=
  match ap_eab_key_id p, ap_eab_hmac_key p with
  | Some id, Some value =>
      decoded ← ok_or (match url_safe_no_pad value with Some d => Some d | None => url_safe value end) BadEabKey;
      Ok (Some (external_key id decoded))
  | None, None => Ok None
  | _, _ => Err HalfEab
  end.
Definition create_account (p : AcmeProvider) : result client_error (Account * Credentials) :=
  guard! negb (bool_decide (trim (ap_directory_url p) = [])) else NoDirectory;
  external ← external_binding p;
  builder ← ok_or (account_builder p) BuilderFailed;
  ok_or (create builder (ap_contacts p) (ap_directory_url p) external) AccountRefused.
Definition restore_account (p : AcmeProvider) (credentials_json : bytes) : result client_error Account :=
  credentials ← ok_or (parse_credentials credentials_json) BadCredentials;
  builder ← ok_or (account_builder p) BuilderFailed;
  ok_or (from_credentials builder credentials) AccountRefused.

(** No account is created without a directory, and one is bound to an
    external account exactly when both parts of the binding are given. *)
Lemma create_account_binding p a : create_account p = Ok a →
  trim (ap_directory_url p) ≠ [] ∧ ∃ b external, account_builder p = Some b ∧ create b (ap_contacts p) (ap_directory_url p) external = Some a
    ∧ (is_Some external ↔ is_Some (ap_eab_key_id p)) ∧ (is_Some external ↔ is_Some (ap_eab_hmac_key p)).
Proof.
  unfold create_account. case_bool_decide as Hd; cbn; [done|]. unfold external_binding.
  destruct (ap_eab_key_id p) as [id|], (ap_eab_hmac_key p) as [value|]; cbn; try done.
  - destruct (match url_safe_no_pad value with Some d => Some d | None => url_safe value end) as [d|]; cbn; [|done].
    destruct (account_builder p) as [b|]; cbn; [|done]. destruct (create _ _ _ _) as [x|] eqn:Ec; cbn; [|done]. intros [= ->]. split; [done|]. exists b. eexists. by split_and!.
  - destruct (account_builder p) as [b|]; cbn; [|done]. destruct (create _ _ _ _) as [x|] eqn:Ec; cbn; [|done]. intros [= ->]. split; [done|]. exists b. eexists. split_and!; try done.
Qed.
End accounts.

(** ** Renewal information *)

Record AriSuggestion := MkAri { ari_at : Z; ari_url : option bytes; ari_retry_after : Z }.
Record RenewalInfo := MkRenewalInfo { window_start : Z; window_end : Z; explanation_url : option bytes }.
Inductive ari_answer := AriInfo (info : RenewalInfo) (retry_after : Z) | AriUnsupported | AriError.

Section ari.
Context {x509 : X509Library} {CertificateIdentifier : Type} (certificate_identifier : bytes → option CertificateIdentifier).
Context (renewal_info : CertificateIdentifier → ari_answer).
(** [rand::random_range(0..=span)] *)
Context (random_range : Z → Z).

Definition renewal_information (g : CertificateGeneration) : result client_error (option AriSuggestion) :=
  der ← ok_or (from_pem_slice (cg_certificate_pem g)) BadCertificatePem;
  identifier ← ok_or (certificate_identifier der) BadIdentifier;
  match renewal_info identifier with
  | AriInfo info retry_after =>
      let span := Z.max (Z.quot (window_end info - window_start info) 1000000000) 0 in
      let offset := if span =? 0 then 0 else random_range span in
      Ok (Some (MkAri (window_start info + offset * 1000000000) (explanation_url info) retry_after))
  | AriUnsupported => Ok None
  | AriError => Err AriFailed
  end.

(** A suggested time is in the window the CA gave. *)
Lemma suggestion_in_window g s : (∀ span, 0 < span → 0 ≤ random_range span ≤ span) → renewal_information g = Ok (Some s) →
  ∃ info id, renewal_info id = AriInfo info (ari_retry_after s) ∧ window_start info ≤ ari_at s
    ∧ (window_start info ≤ window_end info → ari_at s ≤ window_end info).
Proof.
  intros Hr. unfold renewal_information. destruct (from_pem_slice _) as [der|]; cbn; [|done]. destruct (certificate_identifier der) as [id|]; cbn; [|done].
  destruct (renewal_info id) as [info retry| |] eqn:E; [|done|done]. intros [= <-]. exists info, id. cbn. split; [done|].
  set (q := Z.quot _ _). assert (window_start info ≤ window_end info → q * 1000000000 ≤ window_end info - window_start info) as Hq.
  { intros Hle. unfold q. rewrite Z.mul_comm. apply Z.mul_quot_le; lia. }
  destruct (Z.eqb_spec (Z.max q 0) 0) as [?|?]; [lia|]. pose proof (Hr (Z.max q 0) ltac:(lia)). nia.
Qed.
End ari.

(** ** Concrete orders *)

Module AcmeClientExamples.
Definition block (name : bytes) : list bytes := [BEGIN; name; END].
Definition chain_text : bytes := join [LF] (lit "noise" :: block (lit "leaf") ++ block (lit "ca")) ++ [LF].
Definition library : X509Library :=
  MkX509Library (λ pem, str_lines pem !! 1%nat)
    (λ der, Some (if bool_decide (der = lit "leaf") then MkX509Cert (lit "www") (lit "ca") 100 200 else MkX509Cert (lit "ca") (lit "ca") 0 900))
    (λ child issuer, bool_decide (issuer = lit "ca")) (λ der, der) (λ id, id).
Definition www : bytes := lit "www.example.com".
Definition managed : ManagedCertificate := MkManaged (lit "c1") [lit "WWW.example.com."] (lit "p1") true true (MkPublish false false) None None.
Definition make (k ka : bytes) : result challenge_error bytes := Ok (k ++ ka).
Definition pending : list (Z * option Authorization) := [(5, Some (MkAuthorization AuthPending (Some (Dns www, lit "token"))))].
Definition answers (entries : gmap bytes (ChallengeEntry bytes)) : bool :=
  match entries !! www with Some e => bool_decide (certificate e = www ++ lit "token") | None => false end.
Definition order : AcmeOrder (Key := bytes) :=
  MkOrder pending (λ _ entries, answers entries) (λ entries, Some (if answers entries then OrderReady else OrderOther)) (Some (lit "key")) (Some chain_text).
Definition ca (domains : list bytes) (replaces : option bytes) : option (AcmeOrder (Key := bytes)) := if bool_decide (domains = [www]) then Some order else None.
Definition run := issue (x509 := library) make Some ca 10 600 [1; 2] managed None ∅.
End AcmeClientExamples.

Lemma chain_roundtrip_witness : ∃ g, generation_from_pem (x509 := AcmeClientExamples.library) 10 [1; 2] (lit "c1") AcmeClientExamples.chain_text (lit "key") = Ok g
  ∧ certificate_blocks (fullchain_pem g) = certificate_blocks AcmeClientExamples.chain_text ∧ length (certificate_blocks AcmeClientExamples.chain_text) = 2%nat.
Proof.
  eexists. split; [vm_compute; reflexivity|]. split; [|vm_compute; reflexivity].
  eapply (proj1 (chain_roundtrip (x509 := AcmeClientExamples.library) 10 [1; 2] (lit "c1") AcmeClientExamples.chain_text (lit "key") _ _ _)).
  Unshelve. all: [> apply (bool_decide_unpack _); vm_compute; exact I | vm_compute; reflexivity].
Defined.

Lemma order_completes_witness : is_ok AcmeClientExamples.run.1 = true
  ∧ AcmeClientExamples.run.1 = generation_from_pem (x509 := AcmeClientExamples.library) 10 [1; 2] (lit "c1") AcmeClientExamples.chain_text (lit "key").
Proof.
  split; [vm_compute; reflexivity|].
  apply (order_completes (x509 := AcmeClientExamples.library) AcmeClientExamples.make Some AcmeClientExamples.ca 10 600 [1; 2] AcmeClientExamples.managed None ∅
    [AcmeClientExamples.www] AcmeClientExamples.order (lit "key") AcmeClientExamples.chain_text).
  - done.
  - vm_compute. reflexivity.
  - apply NoDup_singleton.
  - vm_compute. reflexivity.
  - constructor; [|constructor]. right. eexists AcmeClientExamples.www, (lit "token"), AcmeClientExamples.www, AcmeClientExamples.www, _.
    split; [reflexivity|]. split; [vm_compute; reflexivity|]. split; [vm_compute; reflexivity|]. split; [reflexivity|].
    intros entries (c&n&[= <-]&He). cbn [AcmeClientExamples.order set_ready]. unfold AcmeClientExamples.answers. rewrite He. reflexivity.
  - apply (bool_decide_unpack _). vm_compute. exact I.
  - intros polled Hall. destruct (Hall 5 _ AcmeClientExamples.www (lit "token") ltac:(left) ltac:(vm_compute; reflexivity)) as (c&n&[= <-]&He).
    cbn [AcmeClientExamples.order poll_ready]. unfold AcmeClientExamples.answers. rewrite He. reflexivity.
  - reflexivity.
  - reflexivity.
Defined.
