(* ===== verification/ScanLoop.v ===== *)
(** * The scheduler's loop (src/acme/scheduler.rs)

    When scans start: the startup scan, the fixed cadence, and requested
    scans, which coalesce while a scan is running.  A scan itself is
    [run_once] (Renewal).  tokio's interval with [MissedTickBehavior::Skip]
    is the interface [SkipInterval]; its [Notify] holds at most one permit. *)

From S2P Require Import Prelude RustStd.
Open Scope Z_scope.

Inductive ScanTrigger := Startup | Scheduled | Manual.
#[export] Instance scan_trigger_eq_dec : EqDecision ScanTrigger.
Proof. solve_decision. Defined.

(** The deadline after one that was consumed at [now]: later than [now] and
    in the same phase. *)
Class SkipInterval (interval : Z) := {
  next_tick : Z → Z → Z;
  next_tick_phase deadline now : deadline ≤ now → ∃ k, 1 ≤ k ∧ next_tick deadline now = deadline + k * interval;
  next_tick_future deadline now : deadline ≤ now → now < next_tick deadline now;
}.
#[export] Program Instance skip_missed (interval : Z) (Hpos : 0 < interval) : SkipInterval interval := {|
  next_tick deadline now := now + interval - (now - deadline) mod interval |}.
Next Obligation.
  intros interval Hpos deadline now Hle. exists ((now - deadline) / interval + 1). pose proof (Z.div_mod (now - deadline) interval ltac:(lia)).
  pose proof (Z.div_pos (now - deadline) interval ltac:(lia) Hpos). split; [lia|].
  rewrite Z.mul_add_distr_r. lia.
Qed.
Next Obligation. intros interval Hpos deadline now Hle. cbn. pose proof (Z.mod_pos_bound (now - deadline) interval Hpos). lia. Qed.

(** [running] is the scan under way, [tick] the next deadline, set when the
    startup scan ends. *)
Record Loop := MkLoop { running : option ScanTrigger; permit : bool; tick : option Z }.
Definition loop_start : Loop := MkLoop (Some Startup) false None.

Section scan_loop.
Context {interval : Z} {ticks : SkipInterval interval}.

Definition request_scan (l : Loop) : Loop := MkLoop (running l) true (tick l).
Definition scan_finished (now : Z) (l : Loop) : option Loop :=
  match running l with
  | None => None
  | Some Startup => Some (MkLoop None (permit l) (Some (now + interval)))
  | Some _ => Some (MkLoop None (permit l) (tick l))
  end.
(** [tokio::select!]: [choice] decides when both branches are ready. *)
Definition select (now : Z) (choice : bool) (l : Loop) : option (ScanTrigger * Loop) :=
  match running l, tick l with
  | None, Some deadline =>
      if (deadline <=? now) && (choice || negb (permit l)) then Some (Scheduled, MkLoop (Some Scheduled) (permit l) (Some (next_tick deadline now)))
      else if permit l then Some (Manual, MkLoop (Some Manual) false (tick l))
      else None
  | _, _ => None
  end.

Inductive loop_event := Request | Finished (now : Z) | Wake (now : Z) (choice : bool).
(** The loop after some events, and the scans they started. *)
Fixpoint run_loop (events : list loop_event) (l : Loop) : option (list ScanTrigger * Loop) :=
  match events with
  | [] => Some ([], l)
  | Request :: events => run_loop events (request_scan l)
  | Finished now :: events => l ← scan_finished now l; run_loop events l
  | Wake now choice :: events => '(trigger, l) ← select now choice l; '(started, l) ← run_loop events l; Some (trigger :: started, l)
  end.

(** Outside of the startup scan there is a deadline. *)
Definition loop_inv (l : Loop) : Prop := running l = Some Startup ∨ is_Some (tick l).

Lemma scan_finished_inv now l l' : loop_inv l → scan_finished now l = Some l' → loop_inv l' ∧ permit l' = permit l ∧ running l' = None.
Proof. unfold scan_finished, loop_inv. destruct (running l) as [[]|]; intros Hi [= <-]; cbn; (split; [|done]); [eauto|destruct Hi as [|]; [done|auto]..]. Qed.
Lemma select_inv now choice l trigger l' : select now choice l = Some (trigger, l') →
  loop_inv l' ∧ running l' = Some trigger ∧ ((trigger = Manual ∧ permit l = true ∧ permit l' = false ∧ tick l' = tick l)
    ∨ (trigger = Scheduled ∧ permit l' = permit l ∧ ∃ d, tick l = Some d ∧ d ≤ now ∧ tick l' = Some (next_tick d now))).
Proof.
  unfold select, loop_inv. destruct (running l); [done|]. destruct (tick l) as [d|] eqn:Et; [|done]. destruct (Z.leb_spec d now); cbn [andb].
  - destruct (choice || negb (permit l)); [intros [= <- <-]; cbn; split_and!; eauto 10|]. destruct (permit l) eqn:Ep; [|done]. intros [= <- <-]. cbn. split_and!; eauto 10.
  - destruct (permit l) eqn:Ep; [|done]. intros [= <- <-]. cbn. split_and!; eauto 10.
Qed.
Lemma run_loop_inv events : ∀ l started l', loop_inv l → run_loop events l = Some (started, l') → loop_inv l'.
Proof.
  induction events as [|[|now|now choice] events IH]; intros l started l' Hi; cbn [run_loop].
  - by intros [= _ <-].
  - by apply IH.
  - destruct (scan_finished now l) as [l1|] eqn:E; cbn; [|done]. apply IH. by eapply scan_finished_inv.
  - destruct (select now choice l) as [[trigger l1]|] eqn:E; cbn; [|done]. destruct (run_loop events l1) as [[st l2]|] eqn:Er; cbn; [|done].
    intros [= <- <-]. eapply IH; [|exact Er]. by eapply select_inv.
Qed.
Lemma permit_kept events : ∀ l started l', permit l = true → run_loop events l = Some (started, l') → Manual ∈ started ∨ permit l' = true.
Proof.
  induction events as [|[|now|now choice] events IH]; intros l started l' Hp; cbn [run_loop].
  - intros [= <- <-]. by right.
  - by apply IH.
  - destruct (scan_finished now l) as [l1|] eqn:E; cbn; [|done]. apply IH. unfold scan_finished in E. destruct (running l) as [[]|]; by simplify_eq.
  - destruct (select now choice l) as [[trigger l1]|] eqn:E; cbn; [|done]. destruct (run_loop events l1) as [[st l2]|] eqn:Er; cbn; [|done].
    intros [= <- <-]. apply select_inv in E as (_&_&[(->&_)|(->&Hp1&_)]); [left; left|]. destruct (IH l1 st l2) as [?|?]; [congruence|done|left; by right|by right].
Qed.

(** A requested scan is not lost, however busy the loop is: after a
    request, either a manual scan has been started or the permit is still
    there, and then the loop starts a scan as soon as it is idle. *)
Theorem request_not_lost before after scans1 l1 started l2 :
  run_loop before loop_start = Some (scans1, l1) → run_loop (Request :: after) l1 = Some (started, l2) →
  Manual ∈ started ∨ (permit l2 = true ∧ (running l2 = None → ∀ now choice, is_Some (select now choice l2))).
Proof.
  intros H1 H2. assert (loop_inv l2) as Hi by (eapply run_loop_inv, H2; eapply run_loop_inv, H1; by left).
  destruct (permit_kept after (request_scan l1) started l2) as [?|Hp]; [done|exact H2|by left|]. right. split; [done|]. intros Hr now choice.
  unfold select. rewrite Hr. destruct Hi as [?|[d ->]]; [congruence|]. rewrite Hp. destruct (_ && _); by eexists.
Qed.

Definition count_trigger (t : ScanTrigger) (started : list ScanTrigger) : nat := length (filter (λ x, x = t) started).
Definition is_request (e : loop_event) : bool := match e with Request => true | _ => false end.
Definition requests (events : list loop_event) : nat := length (List.filter is_request events).

Lemma count_cons t x l : count_trigger t (x :: l) = ((if decide (x = t) then 1 else 0) + count_trigger t l)%nat.
Proof. unfold count_trigger. rewrite filter_cons. by destruct (decide (x = t)). Qed.

(** Requests coalesce and missed ticks do not pile up: there are at most as
    many manual scans as requests, and the deadline has moved by at least
    one whole interval for every scheduled scan, so it keeps its phase. *)
Theorem scans_coalesce events : ∀ l started l',
  run_loop events l = Some (started, l') →
  (count_trigger Manual started ≤ requests events + if permit l then 1 else 0)%nat
  ∧ ∀ d, tick l = Some d → running l ≠ Some Startup →
      ∃ k, Z.of_nat (count_trigger Scheduled started) ≤ k ∧ tick l' = Some (d + k * interval).
Proof.
  induction events as [|[|now|now choice] events IH]; intros l started l'; cbn [run_loop].
  - intros [= <- <-]. split; [cbn; lia|]. intros d Hd _. exists 0. split; [done|]. rewrite Hd. f_equal. lia.
  - intros Hrun. destruct (IH _ _ _ Hrun) as [Hm Ht]. split; [|exact Ht]. unfold requests in *. cbn in *. destruct (permit l); lia.
  - destruct (scan_finished now l) as [l1|] eqn:E; cbn [mbind option_bind]; [|done]. intros Hrun. destruct (IH _ _ _ Hrun) as [Hm Ht].
    unfold scan_finished in E. destruct (running l) as [tr|] eqn:Er; [|done].
    assert (permit l1 = permit l) as Hp by (destruct tr; by injection E as <-). rewrite Hp in Hm. split; [exact Hm|].
    intros d Hd Hs. apply Ht; destruct tr; try done; by injection E as <-.
  - destruct (select now choice l) as [[trigger l1]|] eqn:E; cbn [mbind option_bind]; [|done]. destruct (run_loop events l1) as [[st l2]|] eqn:Er; cbn [mbind option_bind]; [|done].
    intros [= <- <-]. destruct (IH _ _ _ Er) as [Hm Ht]. apply select_inv in E as (_&Hr&Hcase). rewrite !count_cons.
    change (requests (Wake now choice :: events)) with (requests events).
    destruct Hcase as [(->&Hp&Hp1&Htick)|(->&Hp1&d&Hd&Hle&Htick)].
    + rewrite Hp1 in Hm. rewrite Hp. split; [repeat case_decide; try done; lia|]. intros d Hd _. destruct (Ht d) as (k&Hk&Hk2); [congruence|by rewrite Hr|]. exists k. split; [repeat case_decide; try done; lia|done].
    + rewrite Hp1 in Hm. split; [repeat case_decide; try done; destruct (permit l); lia|]. intros d' Hd' _. replace d' with d by congruence.
      destruct (next_tick_phase d now Hle) as (k1&Hk1&Hnext). rewrite Hnext in Htick. destruct (Ht _ Htick) as (k&Hk&Hk2); [by rewrite Hr|].
      exists (k1 + k). split; [repeat case_decide; try done; lia|]. rewrite Hk2. f_equal. lia.
Qed.
End scan_loop.

Module ScanLoopExamples.
#[export] Instance hourly : SkipInterval 60 := skip_missed 60 ltac:(lia).
(** Two requests during the startup scan start one manual scan; a scan that
    runs over two ticks starts one scheduled scan. *)
Example busy_loop :
  run_loop [Request; Request; Finished 5; Wake 6 false; Finished 200; Wake 200 true; Finished 201] loop_start
  = Some ([Manual; Scheduled], MkLoop None false (Some 245)).
Proof. vm_compute. reflexivity. Qed.
End ScanLoopExamples.
