(* ===== verification/Renewal.v ===== *)
(** * Certificate renewal (src/acme/scheduler.rs, src/acme/backend.rs)

    One scan of the scheduler over an abstract backend ([RenewalBackend], the
    trait of the source), and the backend over the store.  Times are
    nanoseconds.  The ACME client calls (accounts, issuing, renewal
    information), the text search for a Retry-After deadline and the random
    jitter are parameters; the DNS prerequisite is the interface
    [DnsPrerequisite], which [ManagedTls.verify_saving] implements. *)

From S2P Require Import Prelude RustStd Net ProxyProtocol FilePath AcmeDns Config RuntimeConfig Store StoreProps StoreAcme StoreAcmeProps Lru LocalCa ManagedTls AcmeClient.
Open Scope Z_scope.

(** ** The scheduler *)

Record RenewalCandidate := MkCandidate { rc_certificate_id : bytes; rc_domains : list bytes; rc_provider_id : bytes }.
Record ScanSummary := MkSummary { sm_due : nat; sm_renewed : nat; sm_failed : nat; sm_timed_out : nat }.
Definition summary_default : ScanSummary := MkSummary 0 0 0 0.
Inductive RenewalOutcome := Renewed | RenewalFailed | TimedOut.

(** What the scheduler asks of storage and protocol; [renew] and
    [due_certificates] give [None] when their deadline passes. *)
Class RenewalBackend (B E : Type) := {
  due_certificates : Z → B → option (result E (list RenewalCandidate)) * B;
  renew : RenewalCandidate → B → option (result E ()) * B;
  record_timeout : RenewalCandidate → B → result E () * B;
}.

Section scheduler.
Context {B E : Type} `{RenewalBackend B E}.

Inductive scan_error := ScanFailed (e : E) | ScanTimedOut.

Definition renew_candidate (c : RenewalCandidate) (b : B) : RenewalOutcome * B :=
  match renew c b with
  | (Some (Ok _), b) => (Renewed, b)
  | (Some (Err _), b) => (RenewalFailed, b)
  | (None, b) => (TimedOut, (record_timeout c b).2)
  end.
(** The renewals of a scan, in the order in which they complete. *)
Fixpoint renew_all (cs : list RenewalCandidate) (b : B) : list RenewalOutcome * B :=
  match cs with
  | [] => ([], b)
  | c :: cs => let '(o, b) := renew_candidate c b in let '(os, b) := renew_all cs b in (o :: os, b)
  end.
Definition count_outcome (s : ScanSummary) (o : RenewalOutcome) : ScanSummary :=
  match o with
  | Renewed => MkSummary (sm_due s) (S (sm_renewed s)) (sm_failed s) (sm_timed_out s)
  | RenewalFailed => MkSummary (sm_due s) (sm_renewed s) (S (sm_failed s)) (sm_timed_out s)
  | TimedOut => MkSummary (sm_due s) (sm_renewed s) (S (sm_failed s)) (S (sm_timed_out s))
  end.
(** [run_once]; [order] is the order in which [buffer_unordered] completes
    the candidates. *)
Definition run_once (acme_enabled : bool) (now : Z) (order : list RenewalCandidate → list RenewalCandidate) (b : B) : result scan_error ScanSummary * B :=
  if negb acme_enabled then (Ok summary_default, b)
  else match due_certificates now b with
       | (None, b) => (Err ScanTimedOut, b)
       | (Some (Err e), b) => (Err (ScanFailed e), b)
       | (Some (Ok candidates), b) =>
           let '(outcomes, b) := renew_all (order candidates) b in
           (Ok (foldl count_outcome (MkSummary (length candidates) 0 0 0) outcomes), b)
       end.

Lemma count_outcomes os s :
  let s' := foldl count_outcome s os in
  sm_due s' = sm_due s ∧ (sm_renewed s' + sm_failed s' = sm_renewed s + sm_failed s + length os)%nat
  ∧ (sm_timed_out s ≤ sm_failed s → sm_timed_out s' ≤ sm_failed s')%nat.
Proof.
  revert s. induction os as [|o os IH]; intros s; cbn; [lia|]. destruct (IH (count_outcome s o)) as (->&H2&H3).
  rewrite H2. destruct o; cbn in *; lia.
Qed.
Lemma renew_all_length cs b : length (renew_all cs b).1 = length cs.
Proof.
  revert b. induction cs as [|c cs IH]; intros b; cbn; [done|]. destruct (renew_candidate c b) as [o b1]. specialize (IH b1).
  destruct (renew_all cs b1) as [os b2]. cbn in *. by rewrite IH.
Qed.

(** A scan accounts for every due certificate exactly once: renewed or
    failed, with the timed-out ones among the failed. *)
Theorem scan_accounts now order b s b' :
  (∀ cs, Permutation (order cs) cs) → run_once true now order b = (Ok s, b') →
  (sm_renewed s + sm_failed s = sm_due s)%nat ∧ (sm_timed_out s ≤ sm_failed s)%nat.
Proof.
  intros Hord. unfold run_once. cbn [negb]. destruct (due_certificates now b) as [[[cs|]|] b1]; [|done|done].
  pose proof (renew_all_length (order cs) b1) as Hl. destruct (renew_all (order cs) b1) as [os b2]. intros [= <- <-]. cbn in Hl.
  destruct (count_outcomes os (MkSummary (length cs) 0 0 0)) as (H1&H2&H3). rewrite H1, H2. cbn. rewrite Hl, (Hord cs). split; [done|]. by apply H3.
Qed.
End scheduler.

(** ** The backend over the store *)

Definition SECOND_NS : Z := 1000000000.
(** [failure_backoff]: [jitter] is the sample of [random_range]. *)
Definition backoff_minutes (consecutive_failures : Z) : Z :=
  Z.min (Z.shiftl 5 (Z.min (Z.max (consecutive_failures - 1) 0) 8)) (12 * 60).
Definition jitter_range (consecutive_failures : Z) : Z := backoff_minutes consecutive_failures * 60 ÷ 5.
Definition failure_backoff (consecutive_failures jitter : Z) : Z := (backoff_minutes consecutive_failures * 60 + jitter) * SECOND_NS.

(** The part of the database that holds certificates. *)
Definition same_certificates (db db' : Db) : Prop :=
  db_certificates db' = db_certificates db ∧ db_domain_index db' = db_domain_index db ∧ db_generations db' = db_generations db
  ∧ db_active db' = db_active db ∧ db_renewals db' = db_renewals db.
Lemma same_refl db : same_certificates db db.
Proof. by repeat split. Qed.
Lemma same_trans db1 db2 db3 : same_certificates db1 db2 → same_certificates db2 db3 → same_certificates db1 db3.
Proof. unfold same_certificates. intuition congruence. Qed.

(** The injected public-DNS check: it may write to the store, but not to the
    certificates. *)
Class DnsPrerequisite := {
  dns_verify : bytes → list bytes → ControlPlaneConfig → Db → result dns_error () * Db;
  dns_verify_same id domains control db : same_certificates db (dns_verify id domains control db).2;
}.
#[global] Program Instance public_dns (lookup_ip : IpAddr * Z → bytes → option (list IpAddr)) : DnsPrerequisite := {|
  dns_verify := verify_saving lookup_ip |}.
Next Obligation. intros. unfold verify_saving. destruct (verify_inner _ _ _ _) as [r [ds|]]; by repeat split. Qed.

Inductive backend_error :=
| BackendStore (e : store_error)
| ProviderMissing
| AccountFailed
| CertificateDeleted
| CertificateDisabled
| CertificateChanged
| DnsFailed (e : dns_error)
| IssueFailed
| InvalidGeneration (e : prepare_error).

Section backend.
Context {Account : Type}.
(** The ACME client. *)
Context (restore_account : AcmeProvider → bytes → option Account) (create_account : AcmeProvider → option (Account * bytes)).
Context (renewal_information : Account → CertificateGeneration → option (option AriSuggestion)).
Context (issue : Account → ManagedCertificate → option CertificateGeneration → option CertificateGeneration).
Context {tls : TlsLibrary} {dns : DnsPrerequisite} (control : ControlPlaneConfig).
(** The clock as a certificate's entry is reloaded. *)
Context (reload_clock : bytes → Z).
(** The text of an error and the deadline found in it. *)
Context (error_text : backend_error → bytes) (retry_after_from_error : bytes → Z → option Z).

Record Backend := MkBackend { be_db : Db; be_accounts : gmap bytes Account; certificate_cache : option (gmap bytes CachedCertificate) }.
Definition set_be_db (db : Db) (b : Backend) : Backend := MkBackend db (be_accounts b) (certificate_cache b).

Definition consume_eab (p : AcmeProvider) : AcmeProvider :=
  MkProvider (ap_id p) (ap_name p) (ap_directory_url p) (ap_contacts p) None None (ap_staging p) (ap_is_default p) (ap_directory_ca_pem p).
Definition remember_account (provider_id : bytes) (account : Account) (db : Db) (b : Backend) : Backend :=
  MkBackend db (<[provider_id := account]> (be_accounts b)) (certificate_cache b).
Definition account (now : Z) (provider_id : bytes) (b : Backend) : result backend_error Account * Backend :=
  match be_accounts b !! provider_id with
  | Some account => (Ok account, b)
  | None =>
      match provider provider_id (be_db b) with
      | None => (Err ProviderMissing, b)
      | Some p =>
          match account_credentials provider_id (be_db b) with
          | Some stored =>
              match restore_account p (sa_credentials stored) with
              | None => (Err AccountFailed, b)
              | Some account => (Ok account, remember_account provider_id account (be_db b) b)
              end
          | None =>
              match create_account p with
              | None => (Err AccountFailed, b)
              | Some (account, credentials) =>
                  match save_account_credentials now provider_id credentials (be_db b) with
                  | (Err e, db) => (Err (BackendStore e), set_be_db db b)
                  | (Ok _, db) =>
                      match (if bool_decide (is_Some (ap_eab_hmac_key p)) then save_provider (consume_eab p) db else (Ok (), db)) with
                      | (Err e, db) => (Err (BackendStore e), set_be_db db b)
                      | (Ok _, db) => (Ok account, remember_account provider_id account db b)
                      end
                  end
              end
          end
      end
  end.

Definition fresh_renewal (id : bytes) : RenewalState := MkRenewal id None None None None 0 None None None None None.
Definition with_ari (suggested : option Z) (url : option bytes) (checked next : Z) (r : RenewalState) : RenewalState :=
  MkRenewal (rs_certificate_id r) (rs_last_attempt r) (rs_last_success r) (rs_next_attempt r) (rs_ca_retry_after r) (rs_consecutive_failures r)
    (rs_last_error r) suggested url (Some checked) (Some next).

(** [refresh_ari]: one certificate, then all of them; a step that times out
    or fails is skipped. *)
Definition refresh_one (now : Z) (managed : ManagedCertificate) (b : Backend) : result backend_error () * Backend :=
  if negb (mc_enabled managed) then (Ok (), b)
  else
    let previous := default (fresh_renewal (mc_id managed)) (renewal_state (mc_id managed) (be_db b)) in
    if match rs_ari_next_check previous with Some next => now <? next | None => false end then (Ok (), b)
    else match active_generation (mc_id managed) (be_db b) with
         | None => (Ok (), b)
         | Some generation =>
             match account now (mc_provider_id managed) b with
             | (Err _, b) => (Ok (), b)
             | (Ok acct, b) =>
                 match renewal_information acct generation with
                 | None => (Ok (), b)
                 | Some info =>
                     let state := match info with
                                  | Some v => with_ari (Some (ari_at v)) (ari_url v) now (now + ari_retry_after v) previous
                                  | None => with_ari (rs_ari_suggested_at previous) (rs_ari_explanation_url previous) now (now + 7 * DAY_NS) previous
                                  end in
                     match save_renewal_state state (be_db b) with
                     | (Err e, db) => (Err (BackendStore e), set_be_db db b)
                     | (Ok _, db) => (Ok (), set_be_db db b)
                     end
                 end
             end
         end.
Fixpoint refresh_each (now : Z) (cs : list ManagedCertificate) (b : Backend) : result backend_error () * Backend :=
  match cs with
  | [] => (Ok (), b)
  | c :: cs => match refresh_one now c b with (Err e, b) => (Err e, b) | (Ok _, b) => refresh_each now cs b end
  end.
Definition refresh_ari (now : Z) (b : Backend) : result backend_error () * Backend := refresh_each now (managed_certificates (be_db b)) b.

Definition candidate_of (c : ManagedCertificate) : RenewalCandidate := MkCandidate (mc_id c) (mc_domains c) (mc_provider_id c).
Definition store_due (renew_before_days now : Z) (b : Backend) : result backend_error (list RenewalCandidate) * Backend :=
  match refresh_ari now b with
  | (Err e, b) => (Err e, b)
  | (Ok _, b) => (Ok (map candidate_of (due_managed_certificates now renew_before_days (be_db b))), b)
  end.

Definition activate (g : CertificateGeneration) (r : RenewalState) (b : Backend) : result store_error () * Backend :=
  match certificate_cache b with
  | Some entries =>
      let '(n, db, entries) := activate_and_reload reload_clock g r (be_db b) entries in
      (_ ← n; Ok (), MkBackend db (be_accounts b) (Some entries))
  | None => let '(r, db) := activate_generation g r (be_db b) in (r, set_be_db db b)
  end.
(** [renew_inner]; [now] is the time of issuance. *)
Definition renew_inner (now : Z) (c : RenewalCandidate) (b : Backend) : result backend_error () * Backend :=
  match managed_certificate (rc_certificate_id c) (be_db b) with
  | None => (Err CertificateDeleted, b)
  | Some managed =>
      if negb (mc_enabled managed) then (Err CertificateDisabled, b)
      else if negb (eqb_bytes (mc_provider_id managed) (rc_provider_id c)) || negb (bool_decide (mc_domains managed = rc_domains c))
      then (Err CertificateChanged, b)
      else match dns_verify (mc_id managed) (mc_domains managed) control (be_db b) with
           | (Err e, db) => (Err (DnsFailed e), set_be_db db b)
           | (Ok _, db) =>
               match account now (mc_provider_id managed) (set_be_db db b) with
               | (Err e, b) => (Err e, b)
               | (Ok acct, b) =>
                   match issue acct managed (active_generation (mc_id managed) (be_db b)) with
                   | None => (Err IssueFailed, b)
                   | Some generation =>
                       match validate_generation now managed generation with
                       | Err e => (Err (InvalidGeneration e), b)
                       | Ok _ =>
                           let '(suggested, url, next) := match renewal_information acct generation with
                                                          | Some (Some v) => (Some (ari_at v), ari_url v, Some (now + ari_retry_after v))
                                                          | _ => (None, None, None)
                                                          end in
                           let renewal := MkRenewal (mc_id managed) (Some now) (Some now) None None 0 None suggested url (Some now) next in
                           match activate generation renewal b with
                           | (Err e, b) => (Err (BackendStore e), b)
                           | (Ok _, b) => (Ok (), b)
                           end
                       end
                   end
               end
           end
  end.

(** [record_failure]: the state a failure leaves. *)
Definition u32_max : Z := 4294967295.
Definition failed_state (now jitter : Z) (id error : bytes) (previous : option RenewalState) : RenewalState :=
  let failures := match previous with Some s => Z.min (rs_consecutive_failures s + 1) u32_max | None => 1 end in
  let ca_retry_after := match retry_after_from_error error now with
                        | Some deadline => if now <? deadline then Some (Z.min deadline (now + 48 * HOUR_NS)) else None
                        | None => None
                        end in
  let next_attempt := default (now + failure_backoff failures jitter) ca_retry_after in
  MkRenewal id (Some now) (previous ≫= rs_last_success) (Some next_attempt) ca_retry_after failures (Some error)
    (previous ≫= rs_ari_suggested_at) (previous ≫= rs_ari_explanation_url) (previous ≫= rs_ari_checked_at) (previous ≫= rs_ari_next_check).
Definition record_failure (now jitter : Z) (id error : bytes) (b : Backend) : result backend_error () * Backend :=
  match save_renewal_state (failed_state now jitter id error (renewal_state id (be_db b))) (be_db b) with
  | (Err e, db) => (Err (BackendStore e), set_be_db db b)
  | (Ok _, db) => (Ok (), set_be_db db b)
  end.
Definition store_renew (now jitter : Z) (c : RenewalCandidate) (b : Backend) : result backend_error () * Backend :=
  match renew_inner now c b with
  | (Ok _, b) => (Ok (), b)
  | (Err cause, b) =>
      match record_failure now jitter (rc_certificate_id c) (error_text cause) b with
      | (Err e, b) => (Err e, b)
      | (Ok _, b) => (Err cause, b)
      end
  end.

(** The backend as the scheduler sees it.  [cut_scan] and [cut_renew] say
    whether the deadline passes and what the cancelled call has done by then. *)
Section as_backend.
Context (renew_before_days : Z) (cut_scan : Backend → option Backend) (cut_renew : RenewalCandidate → Backend → option Backend).
Context (clock : RenewalCandidate → Z) (jitter : RenewalCandidate → Z) (timeout_text : bytes).
Definition store_backend : RenewalBackend Backend backend_error := {|
  due_certificates now b := match cut_scan b with
                            | Some b => (None, b)
                            | None => let '(r, b) := store_due renew_before_days now b in (Some r, b)
                            end;
  renew c b := match cut_renew c b with
               | Some b => (None, b)
               | None => let '(r, b) := store_renew (clock c) (jitter c) c b in (Some r, b)
               end;
  record_timeout c b := record_failure (clock c) (jitter c) (rc_certificate_id c) timeout_text b |}.
End as_backend.

(** *** What an account lookup leaves alone *)

Lemma save_provider_same p db r db' : save_provider p db = (r, db') → same_certificates db db'.
Proof. unfold save_provider. intros H. repeat case_match; simplify_eq; by repeat split. Qed.
Lemma save_account_same now id cred db r db' : save_account_credentials now id cred db = (r, db') → same_certificates db db'.
Proof. unfold save_account_credentials. intros H. repeat case_match; simplify_eq; by repeat split. Qed.
Lemma account_same now id b r b' : account now id b = (r, b') → same_certificates (be_db b) (be_db b').
Proof.
  unfold account. destruct (be_accounts b !! id); [intros [= <- <-]; apply same_refl|].
  destruct (provider id (be_db b)) as [p|]; [|intros [= <- <-]; apply same_refl].
  destruct (account_credentials id (be_db b)).
  { destruct (restore_account _ _); intros [= <- <-]; apply same_refl. }
  destruct (create_account p) as [[a cred]|]; [|intros [= <- <-]; apply same_refl].
  destruct (save_account_credentials now id cred (be_db b)) as [[|] db1] eqn:E1; apply save_account_same in E1; [|intros [= <- <-]; done].
  case_bool_decide; [|intros [= <- <-]; done].
  destruct (save_provider (consume_eab p) db1) as [[|] db2] eqn:E2; apply save_provider_same in E2;
    intros [= <- <-]; eauto using same_trans.
Qed.

(** *** Backoff *)

Lemma backoff_minutes_bounds n : 5 ≤ backoff_minutes n ≤ 720.
Proof.
  unfold backoff_minutes. set (e := Z.min (Z.max (n - 1) 0) 8). assert (0 ≤ e ≤ 8) by lia. rewrite Z.shiftl_mul_pow2 by lia.
  assert (1 ≤ 2 ^ e) by (apply Z.pow_le_mono_r with (b:=0) (c:=e); lia). lia.
Qed.
Lemma failure_backoff_bounds n j : Z.abs j ≤ jitter_range n → 240 * SECOND_NS ≤ failure_backoff n j ≤ 15 * HOUR_NS.
Proof.
  unfold jitter_range, failure_backoff. pose proof (backoff_minutes_bounds n) as Hb. set (m := backoff_minutes n) in *.
  rewrite Z.quot_div_nonneg by lia. intros Hj. pose proof (Z.div_le_upper_bound (m * 60) 5 (m * 12) ltac:(lia) ltac:(lia)).
  unfold SECOND_NS, HOUR_NS. nia.
Qed.
Lemma backoff_minutes_mono n m : n ≤ m → backoff_minutes n ≤ backoff_minutes m.
Proof.
  intros Hnm. unfold backoff_minutes. rewrite !Z.shiftl_mul_pow2 by lia.
  assert (2 ^ Z.min (Z.max (n - 1) 0) 8 ≤ 2 ^ Z.min (Z.max (m - 1) 0) 8) by (apply Z.pow_le_mono_r; lia). lia.
Qed.

(** *** Failure and success of one renewal *)

(** Activation fails only before it writes; a reload never fails. *)
Lemma activate_spec g r b res b' : activate g r b = (res, b') →
  match res with
  | Ok _ => cg_certificate_id g = rs_certificate_id r
      ∧ be_db b' = set_generations (<[generation_key (cg_certificate_id g) (cg_id g) := g]> (db_generations (be_db b)))
                     (<[cg_certificate_id g := cg_id g]> (db_active (be_db b))) (<[cg_certificate_id g := r]> (db_renewals (be_db b))) (be_db b)
      ∧ (is_Some (certificate_cache b) → ∃ fresh, certificate_cache b' = Some fresh ∧ load_entries reload_clock (be_db b') = Ok fresh)
  | Err _ => be_db b' = be_db b
  end.
Proof.
  unfold activate, activate_and_reload, activate_generation. destruct (_ || _); [by destruct (certificate_cache b); intros [= <- <-]|].
  destruct (eqb_bytes _ _) eqn:Eq; cbn [negb]; [|by destruct (certificate_cache b); intros [= <- <-]]. apply eqb_bytes_spec in Eq.
  destruct (certificate_cache b) as [entries|] eqn:Ec; [|intros [= <- <-]; split_and!; [done|done|intros [? ?]; done]]. unfold reload.
  match goal with |- context [load_entries ?c ?d] => destruct (load_entries_ok c d) as [fresh Hf] end. rewrite Hf.
  intros [= <- <-]. split_and!; [done|done|]. intros _. exists fresh. done.
Qed.
(** Every failure of [renew_inner] leaves the certificates as they were. *)
Lemma renew_inner_failed now c b e b' : renew_inner now c b = (Err e, b') → same_certificates (be_db b) (be_db b').
Proof.
  unfold renew_inner. destruct (managed_certificate _ _) as [m|]; [|intros [= <- <-]; apply same_refl].
  do 2 (case_match; [intros [= <- <-]; apply same_refl|]). pose proof (dns_verify_same (mc_id m) (mc_domains m) control (be_db b)) as Hd.
  destruct (dns_verify _ _ _ _) as [[[]|] db1]; cbn [snd] in Hd; [|by intros [= <- <-]].
  destruct (account now (mc_provider_id m) _) as [[acct|] b1] eqn:Ea; apply account_same in Ea; cbn [be_db set_be_db] in Ea;
    pose proof (same_trans _ _ _ Hd Ea); [|by intros [= <- <-]].
  destruct (issue _ _ _) as [g|]; [|by intros [= <- <-]]. destruct (validate_generation _ _ _); [|by intros [= <- <-]].
  destruct (match renewal_information acct g with Some (Some v) => _ | _ => _ end) as [[s u] n].
  destruct (activate _ _ _) as [[|] b2] eqn:Eact; [done|]. apply activate_spec in Eact. intros [= <- <-]. by rewrite Eact.
Qed.
(** The counter a failure stores. *)
Definition failures_after (previous : option RenewalState) : Z :=
  match previous with Some s => Z.min (rs_consecutive_failures s + 1) u32_max | None => 1 end.
Lemma failed_next now j id error previous : Z.abs j ≤ jitter_range (failures_after previous) →
  ∃ next, rs_next_attempt (failed_state now j id error previous) = Some next ∧ now < next ≤ now + 48 * HOUR_NS.
Proof.
  intros Hj. apply failure_backoff_bounds in Hj. unfold failed_state. fold (failures_after previous). cbn [rs_next_attempt].
  eexists. split; [done|]. unfold SECOND_NS, HOUR_NS in *.
  destruct (retry_after_from_error error now) as [d|]; [|cbn [default from_option Datatypes.id]; lia].
  destruct (Z.ltb_spec now d); cbn [default from_option Datatypes.id]; lia.
Qed.
(** Due, for an enabled certificate whose renewal record is [r]. *)
Definition wanted (t renew_before_days : Z) (r : RenewalState) (g : option CertificateGeneration) : bool :=
  match rs_ari_suggested_at r with Some suggested => suggested <=? t | None => false end
  || match g ≫= cg_not_after with Some not_after => not_after <=? t + renew_before_days * DAY_NS | None => true end.
Lemma due_with t days db m r next :
  renewal_state (mc_id m) db = Some r → rs_next_attempt r = Some next → mc_enabled m = true →
  due t (t + days * DAY_NS) db m = (next <=? t) && wanted t days r (active_generation (mc_id m) db).
Proof.
  intros Hr Hn He. unfold due, wanted. rewrite Hr, He. cbn [mbind option_bind andb]. rewrite Hn.
  by rewrite Z.leb_antisym.
Qed.
Lemma record_failure_ok now j id error b r b' : trim id ≠ [] → record_failure now j id error b = (r, b') →
  r = Ok () ∧ db_certificates (be_db b') = db_certificates (be_db b) ∧ db_generations (be_db b') = db_generations (be_db b)
  ∧ db_active (be_db b') = db_active (be_db b)
  ∧ db_renewals (be_db b') = <[id := failed_state now j id error (renewal_state id (be_db b))]> (db_renewals (be_db b)).
Proof.
  intros Hid. unfold record_failure, save_renewal_state. cbn [rs_certificate_id failed_state].
  rewrite bool_decide_eq_false_2 by done. by intros [= <- <-].
Qed.

(** The steps of a renewal that goes through. *)
Lemma account_cache now id b r b' : account now id b = (r, b') → certificate_cache b' = certificate_cache b.
Proof. unfold account. intros Ha. repeat case_match; simplify_eq; done. Qed.
Lemma renew_inner_done now c b b' : renew_inner now c b = (Ok (), b') →
  ∃ m acct g db1 b2 r, managed_certificate (rc_certificate_id c) (be_db b) = Some m
    ∧ mc_enabled m = true ∧ mc_domains m = rc_domains c ∧ dns_verify (mc_id m) (mc_domains m) control (be_db b) = (Ok (), db1)
    ∧ same_certificates (be_db b) (be_db b2) ∧ certificate_cache b2 = certificate_cache b
    ∧ issue acct m (active_generation (mc_id m) (be_db b2)) = Some g ∧ validate_generation now m g = Ok ()
    ∧ rs_certificate_id r = mc_id m ∧ (rs_consecutive_failures r = 0 ∧ rs_next_attempt r = None ∧ rs_last_success r = Some now)
    ∧ activate g r b2 = (Ok (), b').
Proof.
  unfold renew_inner. destruct (managed_certificate _ _) as [m|] eqn:Em; [|done]. destruct (mc_enabled m) eqn:He; [|done]. cbn [negb].
  destruct (_ || _) eqn:Eo; [done|]. apply orb_false_iff in Eo as [_ Hd%negb_false_iff%bool_decide_eq_true].
  pose proof (dns_verify_same (mc_id m) (mc_domains m) control (be_db b)) as Hsame. destruct (dns_verify _ _ _ _) as [[[]|] db1] eqn:Ed; [|done]. cbn [snd] in Hsame.
  destruct (account now (mc_provider_id m) _) as [[a|] b2] eqn:Ea; [|done]. pose proof (account_cache _ _ _ _ _ Ea) as Hcc.
  apply account_same in Ea. cbn [be_db set_be_db certificate_cache] in *.
  destruct (issue _ _ _) as [g|] eqn:Ei; [|done]. destruct (validate_generation now m g) as [[]|] eqn:Ev; [|done].
  destruct (match renewal_information a g with Some (Some v) => _ | _ => _ end) as [[s u] n].
  destruct (activate _ _ _) as [[[]|] b3] eqn:Eact; [|done]. intros [= <-].
  match type of Eact with activate _ ?r _ = _ => exists m, a, g, db1, b2, r end. do 4 (split; [done|]). split; [by eapply same_trans|]. done.
Qed.

(** C20: A renewal that fails, at any step, costs no certificate and cannot
    lock one out: the generations and the active pointers are untouched; the
    failure is counted; and the stored gate lies after now and within 48
    hours, so an enabled certificate is not offered again before it and,
    still wanted, is offered from then on. *)
Theorem failed_renewal_contained now j c b e b' days :
  trim (rc_certificate_id c) ≠ [] → Z.abs j ≤ jitter_range (failures_after (renewal_state (rc_certificate_id c) (be_db b))) →
  store_renew now j c b = (Err e, b') →
  db_certificates (be_db b') = db_certificates (be_db b) ∧ db_generations (be_db b') = db_generations (be_db b) ∧ db_active (be_db b') = db_active (be_db b)
  ∧ ∃ r next, renewal_state (rc_certificate_id c) (be_db b') = Some r ∧ rs_next_attempt r = Some next
    ∧ rs_consecutive_failures r = failures_after (renewal_state (rc_certificate_id c) (be_db b))
    ∧ now < next ≤ now + 48 * HOUR_NS
    ∧ (∀ m t, mc_id m = rc_certificate_id c → mc_enabled m = true →
         due t (t + days * DAY_NS) (be_db b') m = (next <=? t) && wanted t days r (active_generation (mc_id m) (be_db b))).
Proof.
  intros Hid Hj. unfold store_renew. destruct (renew_inner now c b) as [[|cause] b1] eqn:Er; [done|].
  apply renew_inner_failed in Er as (Hc&_&Hg&Ha&Hr). destruct (record_failure _ _ _ _ b1) as [r b2] eqn:Ef.
  apply record_failure_ok in Ef as (->&Hc'&Hg'&Ha'&Hr'); [|done]. intros [= <- <-].
  split_and!; [congruence..|]. assert (renewal_state (rc_certificate_id c) (be_db b1) = renewal_state (rc_certificate_id c) (be_db b)) as Hs
    by (unfold renewal_state; congruence). rewrite Hs in Hr'.
  destruct (failed_next now j (rc_certificate_id c) (error_text cause) _ Hj) as (next&Hn&Hb).
  eexists _, next. split; [unfold renewal_state; rewrite Hr'; apply lookup_insert_eq|]. split; [done|]. split; [done|]. split; [done|].
  intros m t Hm He. assert (active_generation (mc_id m) (be_db b) = active_generation (mc_id m) (be_db b2)) as -> by (unfold active_generation; by rewrite Ha', Hg', Ha, Hg).
  apply due_with; [|done..]. unfold renewal_state. rewrite Hr', Hm. apply lookup_insert_eq.
Qed.

(** A renewal that succeeds has ordered the certificate as configured —
    enabled, with the candidate's names and provider, its DNS checked — and
    makes a generation that passed validation the active one, with a clean
    renewal record; handshakes then read a cache loaded from that very
    database.  All other generations (the previous one among them) and all
    other active pointers stay. *)
Theorem renewal_activates now j c b b' :
  store_renew now j c b = (Ok (), b') →
  ∃ m acct g, managed_certificate (rc_certificate_id c) (be_db b) = Some m
    ∧ mc_enabled m = true ∧ mc_domains m = rc_domains c ∧ (dns_verify (mc_id m) (mc_domains m) control (be_db b)).1 = Ok ()
    ∧ issue acct m (active_generation (mc_id m) (be_db b)) = Some g ∧ validate_generation now m g = Ok ()
    ∧ cg_certificate_id g = mc_id m ∧ active_generation (mc_id m) (be_db b') = Some g
    ∧ (is_Some (certificate_cache b) → ∃ fresh, certificate_cache b' = Some fresh ∧ load_entries reload_clock (be_db b') = Ok fresh)
    ∧ (∀ k, k ≠ generation_key (mc_id m) (cg_id g) → db_generations (be_db b') !! k = db_generations (be_db b) !! k)
    ∧ (∀ id, id ≠ mc_id m → db_active (be_db b') !! id = db_active (be_db b) !! id)
    ∧ ∃ r, renewal_state (mc_id m) (be_db b') = Some r ∧ rs_consecutive_failures r = 0 ∧ rs_next_attempt r = None ∧ rs_last_success r = Some now.
Proof.
  unfold store_renew. destruct (renew_inner now c b) as [[[]|cause] b1] eqn:Er; [|by destruct (record_failure _ _ _ _ _) as [[|] ?]]. intros [= <-].
  apply renew_inner_done in Er as (m&a&g&db1&b2&r&Em&He&Hd&Ed&Hs&Hcc&Ei&Ev&Hid&Hr0&Hact). destruct Hs as (_&_&Hg&Ha&_).
  apply activate_spec in Hact as (Eq&Hdb&Hfresh). cbn [rs_certificate_id] in Eq. rewrite Hid in Eq.
  assert (active_generation (mc_id m) (be_db b2) = active_generation (mc_id m) (be_db b)) as Hg2 by (unfold active_generation; by rewrite Ha, Hg).
  rewrite Hg2 in Ei. exists m, a, g. rewrite Ed. split_and!; try done.
  - unfold active_generation. rewrite Hdb. cbn. rewrite Eq, lookup_insert_eq. apply lookup_insert_eq.
  - by rewrite <- Hcc.
  - intros k Hk. rewrite Hdb. cbn. rewrite Eq, lookup_insert_ne by done. by rewrite Hg.
  - intros id Hne. rewrite Hdb. cbn. rewrite Eq, lookup_insert_ne by done. by rewrite Ha.
  - eexists. split; [unfold renewal_state; rewrite Hdb; cbn; rewrite Eq; apply lookup_insert_eq|tauto].
Qed.
End backend.

(** ** A certificate through a failure and a success *)

Module renewal_example.
Definition home : bytes := lit "home.example".
Definition cert : ManagedCertificate := MkManaged home [home] production_id true false (MkPublish false false) None None.
Definition issued : CertificateGeneration :=
  MkGeneration (lit "g1") home (lit "leaf") (lit "chain") (lit "key") (lit "fp") (Some 0) (Some (90 * DAY_NS)) (Some 0).
Definition start : Backend :=
  MkBackend (Account:=unit) (save_managed_certificate 0 cert (ensure_builtin_providers db_empty).2).2 ∅ (Some ∅).
Definition here (control_ips : bool) : ControlPlaneConfig := MkControlPlane home [if control_ips then lit "192.0.2.1" else lit "192.0.2.9"] [lit "9.9.9.9"] false production_id.
Definition cand : RenewalCandidate := MkCandidate home [home] production_id.
Definition dns_here : DnsPrerequisite := public_dns (λ _ _, Some [V4 [192; 0; 2; 1]]).
Definition renew_with (points : bool) (now jitter : Z) (b : Backend) :=
  store_renew (λ _ _, None) (λ _, Some ((), lit "credentials")) (λ _ _, None) (λ _ _ _, Some issued)
    (tls:=managed_example.toy_tls) (dns:=dns_here) (here points) (λ _, 5) (λ _, lit "public DNS does not point here") (λ _ _, None) now jitter cand b.
Definition failed := renew_with false 1000 (-60) start.
Definition renewed := renew_with true (600 * SECOND_NS) 0 failed.2.
End renewal_example.
Import renewal_example.

(** The first failure gates the certificate four minutes. *)
Lemma failed_renewal_contained_witness :
  failed.1 = Err (DnsFailed (PrerequisiteFailed home)) ∧ db_active (be_db failed.2) = db_active (be_db start)
  ∧ ∃ next, 1000 < next ≤ 1000 + 48 * HOUR_NS ∧ due next (next + 30 * DAY_NS) (be_db failed.2) cert = true.
Proof.
  destruct failed as [r b'] eqn:E. assert (r = Err (DnsFailed (PrerequisiteFailed home))) as -> by (transitivity failed.1; [by rewrite E|vm_compute; reflexivity]).
  split; [reflexivity|].
  pose proof (failed_renewal_contained (λ _ _, None) (λ _, Some ((), lit "credentials")) (λ _ _, None) (λ _ _ _, Some issued)
    (tls:=managed_example.toy_tls) (dns:=dns_here) (here false) (λ _, 5) (λ _, lit "public DNS does not point here") (λ _ _, None) 1000 (-60) cand start (DnsFailed (PrerequisiteFailed home)) b' 30 ltac:(vm_compute; discriminate)
    ltac:(vm_compute; discriminate) E) as (_&_&Ha&r&next&Hr&Hn&_&Hb&Hdue).
  split; [exact Ha|]. exists next. split; [exact Hb|]. cbn [snd]. rewrite (Hdue cert next eq_refl eq_refl), Z.leb_refl.
  cbn [andb]. unfold wanted. replace (active_generation (mc_id cert) (be_db start)) with (@None CertificateGeneration) by (vm_compute; reflexivity).
  apply orb_true_r.
Defined.

Lemma renewal_activates_witness :
  renewed.1 = Ok () ∧ active_generation home (be_db renewed.2) = Some issued ∧ active_generation home (be_db failed.2) = None.
Proof.
  destruct renewed as [r b'] eqn:E. assert (r = Ok ()) as -> by (transitivity renewed.1; [by rewrite E|vm_compute; reflexivity]).
  split; [reflexivity|]. split; [|vm_compute; reflexivity].
  pose proof (renewal_activates (λ _ _, None) (λ _, Some ((), lit "credentials")) (λ _ _, None) (λ _ _ _, Some issued)
    (tls:=managed_example.toy_tls) (dns:=dns_here) (here true) (λ _, 5) (λ _, lit "public DNS does not point here") (λ _ _, None) (600 * SECOND_NS) 0 cand failed.2 b' E) as (m&acct&g&Hm&_&_&_&Hi&_&_&Hg&_).
  injection Hi as <-. assert (managed_certificate home (be_db failed.2) = Some m) as Hm' by exact Hm. clear Hm.
  assert (mc_id <$> managed_certificate home (be_db failed.2) = Some home) as Hid by (vm_compute; reflexivity).
  rewrite Hm' in Hid. injection Hid as Hid. rewrite Hid in Hg. exact Hg.
Defined.
