(* ===== verification/RenewalChain.v ===== *)
(** * From a due certificate to the handshake

    The renewal backend (src/acme/backend.rs) with its ACME client
    (src/acme/client.rs) and the certificate cache (src/managed_tls.rs) put
    together: [Renewal]'s parameter [issue] is [AcmeClient.issue] at the
    challenge registry. *)

From S2P Require Import Prelude RustStd Net HttpHead AcmeChallenge FilePath AcmeDns Config RuntimeConfig Store StoreProps StoreAcme StoreAcmeProps Lru LocalCa ManagedTls AcmeClient Renewal.
Open Scope Z_scope.

Section chain.
Context {Account : Type}.
Context (restore_account : AcmeProvider → bytes → option Account) (create_account : AcmeProvider → option (Account * bytes)).
Context (renewal_information : Account → CertificateGeneration → option (option AriSuggestion)).
Context {x509 : X509Library} {Key : Type} (make_cert : bytes → bytes → result challenge_error Key).
Context {CertificateIdentifier : Type} (certificate_identifier : bytes → option CertificateIdentifier).
(** An account's orders at its CA. *)
Context (new_order : Account → list bytes → option CertificateIdentifier → option (AcmeOrder (Key := Key))).
Context {tls : TlsLibrary} {dns : DnsPrerequisite} (control : ControlPlaneConfig) (reload_clock : bytes → Z).
Context (error_text : backend_error → bytes) (retry_after_from_error : bytes → Z → option Z).

(** The call of [client::issue] in [renew_inner]: [registry] is the challenge
    registry at that time, [issued_at] and [id_bytes] are the clock and the
    random bytes [generation_from_pem] reads. *)
Definition client_issue (registry : gmap bytes (ChallengeEntry Key)) (ttl issued_at : Z) (id_bytes : bytes)
    (acct : Account) (managed : ManagedCertificate) (previous : option CertificateGeneration) : option CertificateGeneration :=
  match (AcmeClient.issue make_cert certificate_identifier (new_order acct) issued_at ttl id_bytes managed previous registry).1 with
  | Ok g => Some g
  | Err _ => None
  end.
Definition acme_renew (registry : gmap bytes (ChallengeEntry Key)) (ttl issued_at : Z) (id_bytes : bytes) (now jitter : Z) (c : RenewalCandidate)
    (b : Backend (Account := Account)) : result backend_error () * Backend :=
  store_renew restore_account create_account renewal_information (client_issue registry ttl issued_at id_bytes) (tls := tls) (dns := dns) control reload_clock
    error_text retry_after_from_error now jitter c b.

(** What an order that yields a generation went through. *)
Lemma issue_ok registry ttl issued_at id_bytes acct managed previous g :
  client_issue registry ttl issued_at id_bytes acct managed previous = Some g →
  ∃ domains id order guards polled key fullchain, normalize_domains (mc_domains managed) = Some domains ∧ new_order acct domains id = Some order
    ∧ provision make_cert order ttl (authorizations order) [] registry = (Ok (), guards, polled)
    ∧ poll_ready order polled = Some OrderReady ∧ finalize order = Some key ∧ poll_certificate order = Some fullchain
    ∧ generation_from_pem issued_at id_bytes (mc_id managed) fullchain key = Ok g.
Proof.
  unfold client_issue, issue. case_bool_decide; [done|]. destruct (normalize_domains _) as [domains|] eqn:Ed; [|done]. destruct (negb _); [done|]. cbv zeta.
  destruct (new_order acct _ _) as [order|] eqn:Eo; [|done].
  destruct (provision make_cert order ttl (authorizations order) [] registry) as [[[[]|] guards] polled] eqn:Ep; [|done].
  destruct (poll_ready order polled) as [[]|] eqn:Er; [|done|done]. destruct (finalize order) as [key|] eqn:Ef; [|done].
  destruct (poll_certificate order) as [fullchain|] eqn:Ec; [|done]. cbn [fst]. destruct (generation_from_pem _ _ _ _ _) as [g'|] eqn:Eg; [|done].
  intros [= ->]. eexists domains, _, order, guards, polled, key, fullchain. done.
Qed.

(** The database a successful renewal leaves is consistent. *)
Lemma activated_wf g r (b b' : Backend (Account := Account)) d c : acme_wf (be_db b) → db_certificates (be_db b) !! d = Some c → cg_certificate_id g = d →
  activate reload_clock g r b = (Ok (), b') → acme_wf (be_db b').
Proof.
  intros Hwf Hc Hg Ha. assert (be_db b' = (activate_generation g r (be_db b)).2) as ->.
  { revert Ha. unfold activate, activate_and_reload. destruct (activate_generation g r (be_db b)) as [[[]|] db]; destruct (certificate_cache b) as [entries|]; try done.
    - destruct (reload reload_clock db entries). by intros [= _ <-].
    - by intros [= <-]. }
  apply activate_wf; [done|]. rewrite Hg. by destruct (wf_certificate _ Hwf _ _ Hc) as (_&_&?%canonical_no_nul).
Qed.
(** A generation that passes every check at one time passes them at another,
    unless its leaf has expired by then. *)
Lemma prepare_entry_clock now t m g e : prepare_entry now m g = Ok e →
  pem_certs (fullchain_pem g) = Some (ck_chain (cc_key e)) ∧ pem_key (cg_private_key_pem g) = Some (ck_key (cc_key e))
  ∧ ∃ leaf info, head (ck_chain (cc_key e)) = Some leaf ∧ parse_leaf leaf = Some info
    ∧ prepare_entry t m g = if lf_not_after info * 1000000000 <=? t then Err Expired else Ok e.
Proof.
  unfold prepare_entry. destruct (eqb_bytes _ _); [|done]. destruct (pem_certs _) as [certs|]; [|done]. cbn [ok_or mbind result_bind].
  destruct (head certs) as [leaf|] eqn:El; [|done]. cbn [ok_or mbind result_bind]. destruct (pem_key _) as [key|]; [|done]. cbn [ok_or mbind result_bind].
  destruct (tls_identity_ok certs key); [|done]. destruct (keys_match _); [|done].
  destruct (parse_leaf leaf) as [info|] eqn:Ei; [|done]. cbn [ok_or mbind result_bind]. destruct (timestamp_ok _); [|done].
  destruct (negb (lf_not_after info * 1000000000 <=? now)); [|done]. destruct (lf_sans info) as [[names|]|]; [|done|done]. cbn [ok_or mbind result_bind].
  destruct (covers_all _ _) as [[]|]; [|done]. cbn [mbind result_bind]. intros [= <-]. split_and!; [done..|]. exists leaf, info. split_and!; [done..|].
  by destruct (lf_not_after info * 1000000000 <=? t).
Qed.
(** A certificate's entry depends on its own generation only. *)
Lemma usable_same now db db' c : active_generation (mc_id c) db' = active_generation (mc_id c) db → usable_entry now db' c = usable_entry now db c.
Proof. unfold usable_entry. by intros ->. Qed.
Lemma activated_generation g r (b b' : Backend (Account := Account)) : acme_wf (be_db b) → is_Some (db_certificates (be_db b) !! cg_certificate_id g) →
  activate reload_clock g r b = (Ok (), b') →
  db_certificates (be_db b') = db_certificates (be_db b)
  ∧ active_generation (cg_certificate_id g) (be_db b') = Some g
  ∧ ∀ id, is_Some (db_certificates (be_db b) !! id) → id ≠ cg_certificate_id g → active_generation id (be_db b') = active_generation id (be_db b).
Proof.
  intros Hwf Hg (_&Hdb&_)%activate_spec. unfold active_generation. rewrite Hdb. cbn. split; [done|]. split; [by rewrite !lookup_insert_eq|].
  intros id Hid Hne. rewrite lookup_insert_ne by done. destruct (db_active (be_db b) !! id) as [i|]; [|done]. rewrite lookup_insert_ne; [done|].
  destruct Hg as [c Hc], Hid as [c' Hc']. apply (wf_certificate _ Hwf) in Hc as (_&_&Hc%canonical_no_nul), Hc' as (_&_&Hc'%canonical_no_nul).
  unfold generation_key. by intros [? _]%nul_split.
Qed.

(** C19: a renewal that succeeds is what handshakes serve.  The order was for
    the certificate's own name, and the CA called it ready while its
    challenges were registered; the stored generation is the chain that was
    downloaded - block by block, if no line of it has blanks around it - with
    the key of the finalised order; and from then on every spelling of the name resolves to that chain and key, unless the leaf had
    already expired when the cache was reloaded.  Every other server name
    resolves as a reload before the renewal would have had it. *)
Theorem renewed_certificate_served registry ttl issued_at id_bytes now jitter c b entries b' :
  acme_run (be_db b) → certificate_cache b = Some entries → acme_renew registry ttl issued_at id_bytes now jitter c b = (Ok (), b') →
  ∃ acct replaced order guards polled key fullchain g e leaf info fresh before,
    new_order acct [rc_certificate_id c] replaced = Some order
    ∧ provision make_cert order ttl (authorizations order) [] registry = (Ok (), guards, polled) ∧ poll_ready order polled = Some OrderReady
    ∧ poll_certificate order = Some fullchain ∧ finalize order = Some key
    ∧ (Forall tidy_line (str_lines fullchain) → certificate_blocks (fullchain_pem g) = certificate_blocks fullchain)
    ∧ pem_certs (fullchain_pem g) = Some (ck_chain (cc_key e)) ∧ pem_key key = Some (ck_key (cc_key e))
    ∧ head (ck_chain (cc_key e)) = Some leaf ∧ parse_leaf leaf = Some info ∧ now < lf_not_after info * 1000000000
    ∧ certificate_cache b' = Some fresh ∧ load_entries reload_clock (be_db b) = Ok before
    ∧ ∀ sni, resolve sni fresh =
        if bool_decide (normalize_domain sni = Some (rc_certificate_id c))
        then if lf_not_after info * 1000000000 <=? reload_clock (rc_certificate_id c) then None else Some (cc_key e)
        else resolve sni before.
Proof.
  intros Hwf%acme_run_wf Hcache. unfold acme_renew, store_renew. set (id := rc_certificate_id c).
  destruct (renew_inner _ _ _ _ _ _ now c b) as [[[]|cause] b1] eqn:Er; [|by destruct (record_failure _ _ _ _ _ _) as [[|] ?]]. intros [= <-].
  apply renew_inner_done in Er as (m&acct&g&db1&b2&r&Em&He&_&_&Hs&Hcc&Ei&Ev&Hid&_&Hact). fold id in Em.
  assert (acme_wf (be_db b2)) as Hwf2. { apply (acme_wf_same (be_db b)); [|done]. destruct Hs as (?&?&?&?&_). done. }
  pose proof Em as Hm. unfold managed_certificate in Hm. destruct (wf_certificate _ Hwf _ _ Hm) as (Hmid&Hdom&Hcan).
  apply issue_ok in Ei as (domains&replaced&order&guards&polled&key&fullchain&Hn&Ho&Hp&Hr&Hf&Hd&Hg).
  rewrite Hdom in Hn. cbn in Hn. rewrite Hcan in Hn. cbn in Hn. injection Hn as <-.
  apply generation_from_pem_inv in Hg as (rest&der&x&Hb&Hch&_&_&_&Hcid&Hkey&_). rewrite Hmid in Hcid.
  unfold validate_generation in Ev. destruct (prepare_entry now m g) as [e|] eqn:Ee; [|done].
  destruct (prepare_entry_clock now (reload_clock id) m g e Ee) as (Hpc&Hpk&leaf&info&Hleaf&Hinfo&Hlater).
  apply prepare_entry_ok in Ee as (_&_&_&leaf'&info'&names&Hl'&Hi'&_&Hnow&_). assert (leaf' = leaf) as -> by congruence. assert (info' = info) as -> by congruence.
  destruct Hs as (Hsc&_&Hsg&Hsa&_). assert (db_certificates (be_db b2) !! id = Some m) as Hm2 by congruence.
  pose proof (activated_wf g r b2 b1 id m Hwf2 Hm2 Hcid Hact) as Hwf1.
  pose proof (activated_generation g r b2 b1 Hwf2 ltac:(rewrite Hcid; eauto) Hact) as (Hsc1&Hag&Hother). rewrite Hcid in Hag, Hother.
  apply activate_spec in Hact as (_&_&Hfresh). destruct Hfresh as (fresh&Hcache1&Hload); [rewrite Hcc, Hcache; eauto|].
  destruct (load_entries_spec reload_clock _ Hwf1) as (fresh'&Hload'&Hspec). assert (fresh' = fresh) as -> by congruence.
  destruct (load_entries_spec reload_clock _ Hwf) as (before&Hbefore&Hspec0).
  exists acct, replaced, order, guards, polled, key, fullchain, g, e, leaf, info, fresh, before.
  split_and!; try done; [|by rewrite <- Hkey|].
  - intros Htidy. pose proof (scan_ok _ Htidy false [] ltac:(done)) as Hok. unfold certificate_blocks in *.
    destruct (scan_blocks false [] (str_lines fullchain)) as [|blk blocks]; [done|]. cbn [map] in Hb. injection Hb as Hb <-. by apply fullchain_blocks.
  - intros sni. unfold resolve. destruct (normalize_domain sni) as [d|]; [|done]. cbn [mbind option_bind]. rewrite Hspec, Hspec0, Hsc1, Hsc.
    case_bool_decide as Hd'.
    + injection Hd' as ->. rewrite Hm. cbn [mbind option_bind]. unfold usable_entry. rewrite He, Hmid, Hag. cbn [negb mbind option_bind]. rewrite Hlater.
      by destruct (_ <=? _).
    + destruct (db_certificates (be_db b) !! d) as [c'|] eqn:Ec'; [|done]. cbn [mbind option_bind]. destruct (wf_certificate _ Hwf _ _ Ec') as (Hc'&_&_).
      rewrite (usable_same reload_clock (be_db b) (be_db b1)); [done|]. rewrite Hc'. rewrite Hother; [|rewrite Hsc; eauto|congruence].
      unfold active_generation. by rewrite Hsa, Hsg.
Qed.
End chain.

(** ** Deadlines a CA asks for *)

Definition ISO : bytes := lit "(?i)retry[ -]after:?\s+(\d{4}-\d{2}-\d{2}[ T]\d{2}:\d{2}:\d{2})(?:Z| UTC)".
Definition HTTP_DATE : bytes := lit "(?i)retry[ -]after:?\s+(?:[a-z]{3},\s*)?(\d{1,2} [A-Za-z]{3} \d{4} \d{2}:\d{2}:\d{2})\s*(?:GMT|UTC)".
Definition DELTA : bytes := lit "(?i)retry[ -]after:?\s+(\d{1,8})(?:[^\d-]|$)".
Inductive DateFormat := IsoWithT | IsoWithSpace | HttpDate.
Definition i64_max : Z := 9223372036854775807.
Definition parse_i64 (s : bytes) : option Z :=
  match s with
  | 45 :: rest => if bool_decide (rest = []) then None else Z.opp <$> parse_digits 10 (i64_max + 1) 0 rest
  | _ => from_str_radix 10 i64_max s
  end.

Section retry_after.
(** The first group of a pattern's first match (the regex crate), and the
    time a date text stands for (the time crate). *)
Context (captures : bytes → bytes → option bytes) (parse_datetime : DateFormat → bytes → option Z).

(** The first pattern that matches decides, also when its text is no date. *)
Definition retry_after_from_error (error : bytes) (now : Z) : option Z :=
  match captures ISO error with
  | Some value => parse_datetime (if bool_decide (value !! 10%nat = Some 84) then IsoWithT else IsoWithSpace) value
  | None =>
      match captures HTTP_DATE error with
      | Some value => parse_datetime HttpDate value
      | None =>
          match captures DELTA error with
          | Some value => seconds ← parse_i64 value; Some (now + seconds * SECOND_NS)
          | None => None
          end
      end
  end.

Lemma parse_i64_show n : 0 ≤ n ≤ i64_max → parse_i64 (show_dec n) = Some n.
Proof.
  intros Hn. transitivity (from_str_radix 10 i64_max (show_dec n)); [|by apply from_str_show_dec]. pose proof (show_dec_digits n ltac:(lia)) as Hd. unfold parse_i64.
  destruct (show_dec n) as [|c s]; [done|]. apply Forall_cons in Hd as [Hc _]. unfold is_digit in Hc. repeat (case_match; try done; try lia).
Qed.

(** A failed renewal waits as long as the CA said, and no longer than 48
    hours: a number of seconds is counted from now, a date is taken as it
    is, and a wait of nothing or a date that is past or none at all leaves
    the backoff. *)
Theorem ca_deadline_honoured now jitter id error previous :
  let next := rs_next_attempt (failed_state retry_after_from_error now jitter id error previous) in
  let backoff := Some (now + failure_backoff (failures_after previous) jitter) in
  (∀ n, captures ISO error = None → captures HTTP_DATE error = None → captures DELTA error = Some (show_dec n) → 0 ≤ n ≤ i64_max →
     next = if n =? 0 then backoff else Some (now + Z.min (n * SECOND_NS) (48 * HOUR_NS)))
  ∧ (∀ value, captures ISO error = Some value →
     next = match parse_datetime (if bool_decide (value !! 10%nat = Some 84) then IsoWithT else IsoWithSpace) value with
            | Some d => if d <=? now then backoff else Some (Z.min d (now + 48 * HOUR_NS))
            | None => backoff
            end).
Proof.
  cbv zeta. unfold failed_state. fold (failures_after previous). cbn [rs_next_attempt]. unfold retry_after_from_error. split.
  - intros n -> -> -> Hn. rewrite (parse_i64_show n Hn). cbn [mbind option_bind]. unfold SECOND_NS, HOUR_NS.
    destruct (Z.eqb_spec n 0), (Z.ltb_spec now (now + n * 1000000000)); try lia; [done|]. cbn. f_equal. lia.
  - intros value ->. destruct (parse_datetime _ value) as [d|]; [|done]. rewrite Z.leb_antisym. by destruct (now <? d).
Qed.
End retry_after.

(** ** A renewal through to the handshake *)

Module chain_example.
Import renewal_example.
Definition pending : list (Z * option Authorization) := [(5, Some (MkAuthorization AuthPending (Some (Dns home, lit "token"))))].
Definition answers (entries : gmap bytes (ChallengeEntry bytes)) : bool :=
  match entries !! home with Some e => bool_decide (certificate e = home ++ lit "token") | None => false end.
Definition order : AcmeOrder (Key := bytes) :=
  MkOrder pending (λ _ entries, answers entries) (λ entries, Some (if answers entries then OrderReady else OrderOther)) (Some (lit "key")) (Some AcmeClientExamples.chain_text).
Definition ca (_ : unit) (domains : list bytes) (replaces : option bytes) : option (AcmeOrder (Key := bytes)) :=
  if bool_decide (domains = [home]) then Some order else None.
Definition renew_home (t : Z) :=
  acme_renew (λ _ _, None) (λ _, Some ((), lit "credentials")) (λ _ _, None) (x509 := AcmeClientExamples.library) AcmeClientExamples.make Some ca
    (tls := managed_example.toy_tls) (dns := dns_here) (here true) (λ _, t) (λ _, []) (λ _ _, None) ∅ 600 10 [1; 2] 20 0 cand start.
End chain_example.
Import renewal_example chain_example.

Lemma renewed_certificate_served_witness : (renew_home 30).1 = Ok () ∧ ∃ fresh, certificate_cache (renew_home 30).2 = Some fresh
  ∧ (∃ key, resolve (lit "HOME.example.") fresh = Some key ∧ ck_key key = lit "key") ∧ resolve (lit "www.example") fresh = None.
Proof.
  assert (acme_run (be_db start)) as Hrun.
  { apply acme_save; [eapply acme_other; [constructor|by repeat split]|]. apply Forall_singleton. apply graphic_clean. apply (bool_decide_unpack _). vm_compute. exact I. }
  destruct (renew_home 30) as [r b'] eqn:E. assert (r = Ok ()) as -> by (transitivity (renew_home 30).1; [by rewrite E|vm_compute; reflexivity]). split; [reflexivity|].
  pose proof (renewed_certificate_served (λ _ _, None) (λ _, Some ((), lit "credentials")) (λ _ _, None) (x509 := AcmeClientExamples.library) AcmeClientExamples.make Some ca
    (tls := managed_example.toy_tls) (dns := dns_here) (here true) (λ _, 30) (λ _, []) (λ _ _, None) ∅ 600 10 [1; 2] 20 0 cand start ∅ b' Hrun eq_refl E)
    as (acct&rep&o&gu&po&key&fc&g&e&leaf&info&fresh&before&Ho&_&_&Hd&Hf&Ht&Hc&Hk&_&Hi&_&Hcache&Hb&Hr).
  exists fresh. split; [exact Hcache|]. cbn [snd]. rewrite !Hr.
  assert (Some order = Some o) as [= <-] by (rewrite <- Ho; vm_compute; reflexivity). injection Hf as <-.
  injection Hi as <-. injection Hk as Hk. split.
  - rewrite bool_decide_eq_true_2 by (vm_compute; reflexivity). eexists. split; [reflexivity|]. symmetry. exact Hk.
  - rewrite bool_decide_eq_false_2 by (vm_compute; discriminate). assert (before = ∅) as -> by (vm_compute in Hb; by injection Hb as <-). vm_compute. reflexivity.
Defined.

(** An error that asks for an hour is retried in an hour; "Retry-After: 0" and
    no date at all leave the backoff. *)
Lemma ca_deadline_honoured_witness :
  rs_next_attempt (failed_state (retry_after_from_error (λ p e, if bool_decide (p = DELTA) then Some (drop 13 e) else None) (λ _ _, None)) 1000 0 home (lit "Retry-After: 3600") None)
  = Some (1000 + 3600 * SECOND_NS).
Proof.
  destruct (ca_deadline_honoured (λ p e, if bool_decide (p = DELTA) then Some (drop 13 e) else None) (λ _ _, None) 1000 0 home (lit "Retry-After: 3600") None) as [H _].
  apply (H 3600); [vm_compute; reflexivity|vm_compute; reflexivity|vm_compute; reflexivity|unfold i64_max; lia].
Defined.
