(* ===== verification/Resolver.v ===== *)
(** * DNS overrides (src/resolver.rs)

    The override tables built from the configuration, and their lookup.
    [override_spec] is the documented priority, computed directly from the
    configured rules.  [str::to_lowercase] (Unicode) and the regex crate are
    parameters. *)

From S2P Require Import Prelude RustStd Config.
Open Scope Z_scope.

Section resolver.
Context (to_lowercase : bytes → bytes).
Context {R : Type} (compile_dns_pattern : bytes → option R) (is_match : R → bytes → bool).

Record SuffixRule := MkSuffixRule { sr_base : bytes; sr_port : option Z; sr_to : bytes }.
Record RegexRule := MkRegexRule { rr_pattern : R; rr_port : option Z; rr_to : bytes }.
Record Tables := MkTables {
  exact_with_port : gmap (bytes * Z) bytes;
  exact_any_port : gmap bytes bytes;
  t_suffix : list SuffixRule;
  t_regex : list RegexRule;
}.

Definition split_host_port (value : bytes) : bytes * option Z :=
  match rsplit_once COLON value with
  | Some (host, port) =>
      match parse_u16 port with
      | Some port => (to_lowercase host, Some port)
      | None => (to_lowercase value, None)
      end
  | None => (to_lowercase value, None)
  end.

Definition add_exact (t : gmap (bytes * Z) bytes * gmap bytes bytes) (rule : ExactDnsRule)
  : gmap (bytes * Z) bytes * gmap bytes bytes :=
  match split_host_port (trim (exact_from rule)) with
  | (host, Some port) => (<[(host, port) := exact_to rule]> t.1, t.2)
  | (host, None) => (t.1, <[host := exact_to rule]> t.2)
  end.

Definition suffix_rule (rule : SuffixDnsRule) : option SuffixRule :=
  let '(suffix, port) := split_host_port (trim (suffix_from rule)) in
  let base := trim_start_char DOT suffix in
  if bool_decide (base = []) then None else Some (MkSuffixRule base port (suffix_to rule)).

Definition regex_rule (rule : RegexDnsRule) : option RegexRule :=
  pattern ← compile_dns_pattern (regex_hostname rule);
  Some (MkRegexRule pattern (regex_port rule) (regex_to rule)).

(** The sort key [(port.is_none(), Reverse(base.len()))]. *)
Definition key_le (a b : SuffixRule) : bool :=
  match sr_port a, sr_port b with
  | Some _, None => true
  | None, Some _ => false
  | _, _ => (length (sr_base b) <=? length (sr_base a))%nat
  end.

(** [sort_by_key] is stable: an element goes before the first one that is not
    smaller. *)
Fixpoint insert_by (x : SuffixRule) (l : list SuffixRule) : list SuffixRule :=
  match l with
  | [] => [x]
  | y :: l' => if key_le x y then x :: l else y :: insert_by x l'
  end.
Definition sort_rules (l : list SuffixRule) : list SuffixRule := foldr insert_by [] l.

Definition init_inner (dns : DnsConfig) : Tables * Z :=
  let '(with_port, any_port) := foldl add_exact (∅, ∅) (dns_exact dns) in
  let t := MkTables with_port any_port (sort_rules (omap suffix_rule (dns_suffix dns)))
             (omap regex_rule (dns_regex dns)) in
  (t, Z.of_nat (size with_port + size any_port + length (t_suffix t) + length (t_regex t))).

Definition suffix_matches (host base : bytes) : bool :=
  eqb_bytes host base
  || ((length base <? length host)%nat && ends_with base host
      && bool_decide (host !! (length host - length base - 1)%nat = Some DOT)).

Definition port_admits (rule_port : option Z) (port : Z) : bool :=
  match rule_port with Some p => p =? port | None => true end.

Definition resolve (t : Tables) (host : bytes) (port : Z) : option bytes :=
  let host := to_lowercase host in
  match exact_with_port t !! (host, port) with
  | Some to => Some to
  | None =>
      match exact_any_port t !! host with
      | Some to => Some to
      | None =>
          match List.find (λ r, port_admits (sr_port r) port && suffix_matches host (sr_base r)) (t_suffix t) with
          | Some rule => Some (sr_to rule)
          | None =>
              rr_to <$> List.find (λ r, port_admits (rr_port r) port && is_match (rr_pattern r) host) (t_regex t)
          end
      end
  end.

(** ** The promise *)

(** The last rule that satisfies [f]. *)
Definition last_that {A} (f : A → bool) (l : list A) : option A := List.find f (rev l).

(** The first rule with the longest base among those that satisfy [f]. *)
Fixpoint longest_that (f : SuffixRule → bool) (l : list SuffixRule) : option SuffixRule :=
  match l with
  | [] => None
  | x :: l =>
      match longest_that f l with
      | None => if f x then Some x else None
      | Some y => if f x && (length (sr_base y) <=? length (sr_base x))%nat then Some x else Some y
      end
  end.

Definition is_port (p : option Z) : bool := bool_decide (is_Some p).

Definition override_spec (dns : DnsConfig) (host : bytes) (port : Z) : option bytes :=
  let host := to_lowercase host in
  let from r := split_host_port (trim (exact_from r)) in
  let suffixes := omap suffix_rule (dns_suffix dns) in
  match last_that (λ r, bool_decide (from r = (host, Some port))) (dns_exact dns) with
  | Some r => Some (exact_to r)
  | None =>
  match last_that (λ r, bool_decide (from r = (host, None))) (dns_exact dns) with
  | Some r => Some (exact_to r)
  | None =>
  match longest_that (λ r, bool_decide (sr_port r = Some port) && suffix_matches host (sr_base r)) suffixes with
  | Some r => Some (sr_to r)
  | None =>
  match longest_that (λ r, bool_decide (sr_port r = None) && suffix_matches host (sr_base r)) suffixes with
  | Some r => Some (sr_to r)
  | None => rr_to <$> List.find (λ r, port_admits (rr_port r) port && is_match (rr_pattern r) host)
                        (omap regex_rule (dns_regex dns))
  end end end end.

(** ** Lemmas *)

Lemma key_le_total a b : key_le a b = false → key_le b a = true.
Proof. unfold key_le. repeat case_match; try done; rewrite ?Nat.leb_gt, ?Nat.leb_le; lia. Qed.
Lemma key_le_trans a b c : key_le a b = true → key_le b c = true → key_le a c = true.
Proof. unfold key_le. repeat case_match; try done; rewrite ?Nat.leb_le; lia. Qed.

Lemma sort_rules_sorted l : StronglySorted (λ a b, key_le a b = true) (sort_rules l).
Proof.
  induction l as [|x l IH]; cbn; [constructor|]. fold (sort_rules l).
  induction IH as [|y l' Hs IHs Hall]; cbn; [repeat constructor|]. destruct (key_le x y) eqn:E.
  - constructor; [by constructor|]. constructor; [done|].
    eapply Forall_impl; [exact Hall|]. intros z Hz. by eapply key_le_trans.
  - constructor; [done|]. clear IHs Hs. apply key_le_total in E.
    induction l' as [|z l' IHl]; cbn; [by repeat constructor|]. apply Forall_cons in Hall as [Hz Hall].
    destruct (key_le x z); repeat constructor; try done. by apply IHl.
Qed.

(** The first match in the sorted table, from the table without the newest
    element. *)
Lemma find_insert_by f x l :
  StronglySorted (λ a b, key_le a b = true) l →
  List.find f (insert_by x l) =
    if f x then match List.find f l with Some y => if key_le x y then Some x else Some y | None => Some x end
    else List.find f l.
Proof.
  induction 1 as [|y l Hs IH Hall]; cbn; [by destruct (f x)|]. destruct (key_le x y) eqn:E; cbn.
  - destruct (f x) eqn:Hfx; [|done]. destruct (f y); [by rewrite E|].
    destruct (List.find f l) as [z|] eqn:Hz; [|done]. apply find_some in Hz as [Hz _].
    rewrite Forall_forall in Hall. specialize (Hall z ltac:(by apply list_elem_of_In)).
    by rewrite (key_le_trans _ _ _ E Hall).
  - rewrite IH. destruct (f y); [|done]. destruct (f x); [by rewrite E|done].
Qed.

(** Searching the sorted table is: longest port-qualified match, else longest
    port-less match, earlier rules first. *)
Lemma find_sort_rules f l :
  List.find f (sort_rules l) =
    match longest_that (λ r, is_port (sr_port r) && f r) l with
    | Some r => Some r
    | None => longest_that (λ r, negb (is_port (sr_port r)) && f r) l
    end.
Proof.
  assert (∀ g l r, longest_that g l = Some r → g r = true) as Hsat.
  { intros g l0 r. revert r; induction l0 as [|x l0 IH]; intros r; cbn; [done|]. destruct (longest_that g l0) as [y|].
    - destruct (g x && _) eqn:E; intros [= <-]; [by bool_prop|by apply IH].
    - destruct (g x) eqn:E; [by intros [= <-]|done]. }
  induction l as [|x l IH]; [done|]. cbn [sort_rules foldr]. fold (sort_rules l).
  rewrite find_insert_by by apply sort_rules_sorted. rewrite IH. clear IH. cbn [longest_that].
  set (lp := longest_that (λ r, is_port (sr_port r) && f r) l).
  set (ln := longest_that (λ r, negb (is_port (sr_port r)) && f r) l).
  assert (∀ r, lp = Some r → is_Some (sr_port r)) as Hlp.
  { intros r Hr%Hsat. bool_prop. unfold is_port in *. by bool_prop. }
  assert (∀ r, ln = Some r → sr_port r = None) as Hln.
  { intros r Hr%Hsat. bool_prop. unfold is_port in *. bool_prop. by apply eq_None_not_Some. }
  unfold is_port. destruct (sr_port x) as [p|] eqn:Hx;
    [rewrite bool_decide_true by eauto|rewrite bool_decide_false by (by intros [? [=]])]; cbn [negb andb].
  - destruct (f x) eqn:Hf; cbn [andb]; [|by destruct lp, ln].
    destruct lp as [r|] eqn:Er.
    + destruct (Hlp r eq_refl) as [q Hq]. unfold key_le. rewrite Hx, Hq. by destruct (_ <=? _)%nat.
    + destruct ln as [r|] eqn:En; [|done]. unfold key_le. by rewrite Hx, (Hln r eq_refl).
  - destruct (f x) eqn:Hf; cbn [andb]; [|by destruct lp, ln].
    destruct lp as [r|] eqn:Er.
    + destruct (Hlp r eq_refl) as [q Hq]. unfold key_le. by rewrite Hx, Hq.
    + destruct ln as [r|] eqn:En; [|done]. unfold key_le. rewrite Hx, (Hln r eq_refl). by destruct (_ <=? _)%nat.
Qed.

Lemma longest_that_ext f g l : (∀ r, f r = g r) → longest_that f l = longest_that g l.
Proof. intros H. induction l as [|x l IH]; cbn; [done|]. by rewrite H, IH. Qed.

Lemma add_exact_lookup rules :
  let t := foldl add_exact (∅, ∅) rules in
  (∀ host port, t.1 !! (host, port)
     = exact_to <$> last_that (λ r, bool_decide (split_host_port (trim (exact_from r)) = (host, Some port))) rules) ∧
  (∀ host, t.2 !! host
     = exact_to <$> last_that (λ r, bool_decide (split_host_port (trim (exact_from r)) = (host, None))) rules).
Proof.
  cbn zeta. induction rules as [|r rules [IH1 IH2]] using rev_ind; [done|].
  rewrite foldl_app. cbn [foldl]. unfold last_that in *. unfold add_exact at 1 3.
  setoid_rewrite rev_app_distr. cbn [rev app List.find].
  destruct (split_host_port (trim (exact_from r))) as [h [p|]]; cbn [fst snd]; split; intros.
  - case_bool_decide as E; [simplify_eq; by rewrite lookup_insert_eq|].
    rewrite lookup_insert_ne by congruence. apply IH1.
  - rewrite bool_decide_false by congruence. apply IH2.
  - rewrite bool_decide_false by congruence. apply IH1.
  - case_bool_decide as E; [simplify_eq; by rewrite lookup_insert_eq|].
    rewrite lookup_insert_ne by congruence. apply IH2.
Qed.

(** The override tables implement the documented priority for every
    configuration: exact host and port (the last such rule), exact host,
    longest suffix with that port, longest suffix without a port (earlier
    rules first among equally long ones), then the patterns in order. *)
Theorem resolve_implements_priority dns host port :
  resolve (init_inner dns).1 host port = override_spec dns host port.
Proof.
  unfold resolve, override_spec, init_inner. pose proof (add_exact_lookup (dns_exact dns)) as [H1 H2].
  destruct (foldl add_exact (∅, ∅) (dns_exact dns)) as [wp ap]. cbn [fst snd exact_with_port exact_any_port t_suffix t_regex] in *.
  rewrite H1, H2. set (h := to_lowercase host). destruct (last_that _ _) as [r|]; [done|]. cbn [fmap option_fmap option_map].
  destruct (last_that _ _) as [r|]; [done|]. cbn [fmap option_fmap option_map]. rewrite find_sort_rules.
  rewrite (longest_that_ext (λ r, is_port (sr_port r) && _)
    (λ r, bool_decide (sr_port r = Some port) && suffix_matches h (sr_base r))).
  2: { intros r. unfold is_port, port_admits. destruct (sr_port r) as [p|].
       - rewrite bool_decide_true by eauto. cbn [andb]. destruct (Z.eqb_spec p port) as [->|].
         + by rewrite bool_decide_true.
         + by rewrite bool_decide_false by congruence.
       - rewrite bool_decide_false by (by intros [? [=]]). by rewrite bool_decide_false by congruence. }
  rewrite (longest_that_ext (λ r, negb (is_port (sr_port r)) && _)
    (λ r, bool_decide (sr_port r = None) && suffix_matches h (sr_base r))).
  2: { intros r. unfold is_port, port_admits. destruct (sr_port r) as [p|].
       - rewrite bool_decide_true by eauto. by rewrite bool_decide_false by congruence.
       - rewrite bool_decide_false by (by intros [? [=]]). by rewrite bool_decide_true. }
  destruct (longest_that _ _) as [r|]; [done|]. by destruct (longest_that _ _).
Qed.

(** Suffix rules respect label boundaries: a base matches itself and
    names that end in a dot and the base, nothing else. *)
Theorem suffix_rule_label_boundary host base :
  suffix_matches host base = true ↔ host = base ∨ ∃ labels, host = labels ++ DOT :: base.
Proof.
  unfold suffix_matches. rewrite orb_true_iff, !andb_true_iff, eqb_bytes_spec, Nat.ltb_lt, ends_with_spec, bool_decide_eq_true.
  split; (intros [?|H]; [by left|right]).
  - destruct H as ((Hl & r & ->) & Hd). rewrite length_app in *.
    replace (length r + length base - length base - 1)%nat with (length r - 1)%nat in Hd by lia.
    assert (r ≠ []) as Hne by (destruct r; [cbn in Hl; lia|done]).
    destruct (exists_last Hne) as (r' & c & ->). rewrite length_app in Hd. cbn [length] in Hd.
    rewrite <-app_assoc in Hd. cbn [app] in Hd. rewrite lookup_app_r in Hd by lia.
    replace (length r' + 1 - 1 - length r')%nat with 0%nat in Hd by lia. cbn in Hd. simplify_eq.
    exists r'. by rewrite <-app_assoc.
  - destruct H as (labels & ->). rewrite length_app. cbn [length]. split_and!; [lia| |].
    + exists (labels ++ [DOT]). by rewrite <-app_assoc.
    + rewrite lookup_app_r by lia. by replace (length labels + S (length base) - length base - 1 - length labels)%nat with 0%nat by lia.
Qed.

End resolver.
