(* ===== verification/Forward.v ===== *)
(** * Backend groups: registration, resolution, selection (src/forward/mod.rs)

    The shared tables of the module are one [Pools] record; an operation that
    takes the locks in turn is one state transformer.  What the operations
    observe from outside is explicit: the wall clock ([now]), a fresh random
    cursor ([seed]), the DNS override ([override], the function of Resolver),
    the system resolver ([lookup_host]) and the process-wide hasher ([hash]).
    A [HashMap] is a [gmap]; its iteration order matters nowhere below. *)

From S2P Require Import Prelude RustStd Net ProxyProtocol HostUtil Config RuntimeConfig.
Open Scope Z_scope.

Definition RUNTIME_TTL_MS : Z := 600000.
Definition RUNTIME_GROUP_MAX : nat := 1000.
Definition DNS_CACHE_TTL_MS : Z := 60000.
Definition DNS_NEGATIVE_CACHE_TTL_MS : Z := 5000.
Definition u64_add (a b : Z) : Z := (a + b) mod (u64_max + 1).

(** ** Data *)

#[global] Instance ProxyProtocol_countable : Countable ProxyProtocol.ProxyProtocol.
Proof.
  refine (inj_countable'
    (λ p, match p with ProxyProtocol.PNone => 0%nat | ProxyProtocol.PV1 => 1%nat | ProxyProtocol.PV2 => 2%nat end)
    (λ n, match n with 0%nat => ProxyProtocol.PNone | 1%nat => ProxyProtocol.PV1 | _ => ProxyProtocol.PV2 end) _).
  by intros [].
Defined.

Record GroupKey := MkGroupKey {
  gk_target : bytes;
  gk_upstream_tls : bool;
  gk_http_health : bool;
  gk_proxy_protocol : ProxyProtocol.ProxyProtocol;
}.
#[global] Instance GroupKey_eq_dec : EqDecision GroupKey.
Proof. solve_decision. Defined.
#[global] Instance GroupKey_countable : Countable GroupKey.
Proof.
  refine (inj_countable' (λ k, (gk_target k, gk_upstream_tls k, gk_http_health k, gk_proxy_protocol k))
    (λ '(t, u, h, p), MkGroupKey t u h p) _).
  by intros [].
Defined.

Inductive Owner := Configured | Runtime.
#[global] Instance Owner_eq_dec : EqDecision Owner.
Proof. solve_decision. Defined.

Record EndpointState := MkEndpoint {
  ep_endpoint : bytes;
  ep_online : option bool;
  ep_since_ms : Z;
  ep_last_checked_ms : Z;
}.

Record MonitorGroup := MkGroup {
  g_key : GroupKey;
  g_requested_target : bytes;
  g_effective_host : bytes;
  g_effective_port : Z;
  g_tls_server_name : bytes;
  g_owner : Owner;
  g_endpoints : list EndpointState;
  g_last_activity_ms : Z;
  g_sequence : Z;
}.

Record BackendStatus := MkStatus { bs_name : bytes; bs_online : option bool; bs_since_ms : Z }.
Record SelectedTarget := MkSelected { st_endpoint : bytes; st_tls_server_name : bytes }.
Record CachedDns := MkCachedDns { cd_endpoints : list bytes; cd_expires_at_ms : Z }.

Record HealthBinding := MkBinding {
  hb_group : GroupKey;
  hb_listener : bytes;
  hb_host : bytes;
  hb_path : bytes;
  hb_backend : bytes;
  hb_transport : bytes;
  hb_load_balancing : bytes;
}.

(** The module's statics. *)
Record Pools := MkPools {
  listener_backends : gmap bytes (list BackendStatus);
  forward_listeners : gmap bytes (list GroupKey);
  groups : gmap GroupKey MonitorGroup;
  dns_cache : gmap (bytes * Z) CachedDns;
  cursors : gmap bytes Z;
  bindings : list HealthBinding;
}.

Definition set_groups (gs : gmap GroupKey MonitorGroup) (p : Pools) : Pools :=
  MkPools (listener_backends p) (forward_listeners p) gs (dns_cache p) (cursors p) (bindings p).
Definition set_forward_listeners (m : gmap bytes (list GroupKey)) (p : Pools) : Pools :=
  MkPools (listener_backends p) m (groups p) (dns_cache p) (cursors p) (bindings p).
Definition set_listener_backends (m : gmap bytes (list BackendStatus)) (p : Pools) : Pools :=
  MkPools m (forward_listeners p) (groups p) (dns_cache p) (cursors p) (bindings p).
Definition set_dns_cache (m : gmap (bytes * Z) CachedDns) (p : Pools) : Pools :=
  MkPools (listener_backends p) (forward_listeners p) (groups p) m (cursors p) (bindings p).
Definition set_cursors (m : gmap bytes Z) (p : Pools) : Pools :=
  MkPools (listener_backends p) (forward_listeners p) (groups p) (dns_cache p) m (bindings p).
Definition set_bindings (b : list HealthBinding) (p : Pools) : Pools :=
  MkPools (listener_backends p) (forward_listeners p) (groups p) (dns_cache p) (cursors p) b.

(** [reset]: the DNS cache stays. *)
Definition reset (p : Pools) : Pools := MkPools ∅ ∅ ∅ (dns_cache p) ∅ [].

(** ** Groups *)

Definition with_endpoints (es : list EndpointState) (g : MonitorGroup) : MonitorGroup :=
  MkGroup (g_key g) (g_requested_target g) (g_effective_host g) (g_effective_port g) (g_tls_server_name g)
    (g_owner g) es (g_last_activity_ms g) (g_sequence g).
Definition with_owner (o : Owner) (g : MonitorGroup) : MonitorGroup :=
  MkGroup (g_key g) (g_requested_target g) (g_effective_host g) (g_effective_port g) (g_tls_server_name g)
    o (g_endpoints g) (g_last_activity_ms g) (g_sequence g).
Definition with_sequence (n : Z) (g : MonitorGroup) : MonitorGroup :=
  MkGroup (g_key g) (g_requested_target g) (g_effective_host g) (g_effective_port g) (g_tls_server_name g)
    (g_owner g) (g_endpoints g) (g_last_activity_ms g) n.

Definition touch (now : Z) (g : MonitorGroup) : MonitorGroup :=
  MkGroup (g_key g) (g_requested_target g) (g_effective_host g) (g_effective_port g) (g_tls_server_name g)
    (g_owner g) (g_endpoints g) now (g_sequence g).

(** [now.saturating_sub(last) > RUNTIME_TTL_MS] *)
Definition expired (now : Z) (g : MonitorGroup) : bool :=
  bool_decide (g_owner g = Runtime) && (RUNTIME_TTL_MS <? Z.max 0 (now - g_last_activity_ms g)).

Definition group_is_viable (es : list EndpointState) : option bool :=
  match es with
  | [] => None
  | _ => Some (existsb (λ e, negb (bool_decide (ep_online e = Some false))) es)
  end.

Definition endpoint_is_ipv4 (endpoint : bytes) : bool :=
  match parse_sockaddr endpoint with Some a => is_ipv4 a | None => false end.

(** The candidate set: the online endpoints, else the unprobed ones, else
    all; outside the first case IPv4 addresses alone if there are any. *)
Definition candidates (es : list EndpointState) : list EndpointState :=
  let online := List.filter (λ e, bool_decide (ep_online e = Some true)) es in
  let unknown := List.filter (λ e, bool_decide (ep_online e = None)) es in
  match online with
  | _ :: _ => online
  | [] =>
      let fallback := match unknown with _ :: _ => unknown | [] => es end in
      let ipv4 := List.filter (λ e, endpoint_is_ipv4 (ep_endpoint e)) fallback in
      match ipv4 with _ :: _ => ipv4 | [] => fallback end
  end.

Inductive Pick := Sequential | Sticky (client_ip : IpAddr).

Section hashing.
Context (hash : IpAddr → bytes → Z).

(** The index of the last member with the greatest hash. *)
Definition rendezvous_index {T} (member_key : T → bytes) (items : list T) (client_ip : IpAddr) : nat :=
  match max_by_key (λ '(_, item), hash client_ip (member_key item)) (imap pair items) with
  | Some (index, _) => index
  | None => 0%nat
  end.

(** [fetch_add] wraps; the old value, as [usize], picks the member. *)
Definition choose_endpoint (pick : Pick) (g : MonitorGroup) : option SelectedTarget * MonitorGroup :=
  let cs := candidates (g_endpoints g) in
  match cs with
  | [] => (None, g)
  | _ =>
      let '(index, g) :=
        match pick with
        | Sequential => (Z.to_nat (g_sequence g mod Z.of_nat (length cs)), with_sequence (u64_add (g_sequence g) 1) g)
        | Sticky client_ip => (rendezvous_index ep_endpoint cs client_ip, g)
        end in
      (e ← cs !! index; Some (MkSelected (ep_endpoint e) (g_tls_server_name g)), g)
  end.

End hashing.

(** The resolved list, each entry with the state it already had. The old
    list as a map: the last entry of a name counts. *)
Definition reconcile (now : Z) (resolved : list bytes) (old : list EndpointState) : list EndpointState :=
  map (λ endpoint, default (MkEndpoint endpoint None now 0)
                     (List.find (λ e, eqb_bytes (ep_endpoint e) endpoint) (rev old))) resolved.

(** [set_endpoint_state] on the endpoint list: the first entry of that name. *)
Fixpoint set_state (now : Z) (endpoint : bytes) (online : bool) (es : list EndpointState) : list EndpointState :=
  match es with
  | [] => []
  | e :: es =>
      if eqb_bytes (ep_endpoint e) endpoint then
        (if bool_decide (ep_online e = Some online)
         then MkEndpoint (ep_endpoint e) (ep_online e) (ep_since_ms e) now
         else MkEndpoint (ep_endpoint e) (Some online) now now) :: es
      else e :: set_state now endpoint online es
  end.

Definition min_list (l : list Z) : option Z :=
  match l with [] => None | x :: l => Some (foldl Z.min x l) end.

Definition status (now : Z) (g : MonitorGroup) : BackendStatus :=
  let es := g_endpoints g in
  let online :=
    if existsb (λ e, bool_decide (ep_online e = Some true)) es then Some true
    else if existsb (λ e, bool_decide (ep_online e = None)) es then None
    else Some false in
  MkStatus (g_requested_target g) online
    (default now (min_list (map ep_since_ms (List.filter (λ e, bool_decide (ep_online e = online)) es)))).

Definition publish_configured_statuses (now : Z) (p : Pools) : Pools :=
  set_listener_backends
    ((λ keys, map (status now) (omap (λ k, groups p !! k) keys)) <$> forward_listeners p) p.

(** ** Eviction *)

(** Each eviction reads the table, then takes the keys it found out of it. *)
Definition expired_keys (now : Z) (p : Pools) : list GroupKey :=
  omap (λ '(_, g), if expired now g then Some (g_key g) else None) (map_to_list (groups p)).
Definition remove_groups (ks : list GroupKey) (p : Pools) : Pools := set_groups (filter (λ '(k, _), k ∉ ks) (groups p)) p.
Definition evict_expired_runtime_groups (now : Z) (p : Pools) : Pools := remove_groups (expired_keys now p) p.

(** [sort_by_key] by activity, oldest first, stable. *)
Fixpoint insert_activity (x : GroupKey * Z) (l : list (GroupKey * Z)) : list (GroupKey * Z) :=
  match l with
  | [] => [x]
  | y :: l' => if x.2 <=? y.2 then x :: l else y :: insert_activity x l'
  end.
Definition sort_activity (l : list (GroupKey * Z)) : list (GroupKey * Z) := foldr insert_activity [] l.

Definition excess_runtime_groups_to_evict (runtime_groups : list (GroupKey * Z)) : list GroupKey :=
  if (length runtime_groups <=? RUNTIME_GROUP_MAX)%nat then []
  else map fst (take (length runtime_groups - RUNTIME_GROUP_MAX) (sort_activity runtime_groups)).

Definition runtime_activity (gs : gmap GroupKey MonitorGroup) : list (GroupKey * Z) :=
  omap (λ '(_, g), if bool_decide (g_owner g = Runtime) then Some (g_key g, g_last_activity_ms g) else None)
    (map_to_list gs).

Definition evict_excess_runtime_groups (p : Pools) : Pools :=
  remove_groups (excess_runtime_groups_to_evict (runtime_activity (groups p))) p.

(** ** Resolution and group creation *)

Definition parse_ip_literal (host : bytes) : option IpAddr :=
  parse_ip (trim_end_char 93 (trim_start_char 91 host)).

Section pools.
Context (override : bytes → Z → option bytes).
Context (lookup_host : bytes → option (list SocketAddr)).
Context (hash : IpAddr → bytes → Z).

(** [addrs.sort_by_key]: IPv4 first, otherwise in the resolver's order. *)
Definition ipv4_first (addrs : list SocketAddr) : list SocketAddr :=
  List.filter is_ipv4 addrs ++ List.filter (λ a, negb (is_ipv4 a)) addrs.

Definition resolve_effective_endpoints (now : Z) (host : bytes) (port : Z) (p : Pools) : list bytes * Pools :=
  match parse_ip_literal host with
  | Some ip => ([show_sockaddr (MkSocketAddr ip port)], p)
  | None =>
      let key := (to_ascii_lowercase host, port) in
      let miss :=
        let endpoints := match lookup_host (host ++ [COLON] ++ show_dec port) with
                         | Some addrs => map show_sockaddr (ipv4_first addrs)
                         | None => []
                         end in
        let ttl := match endpoints with [] => DNS_NEGATIVE_CACHE_TTL_MS | _ => DNS_CACHE_TTL_MS end in
        (endpoints, set_dns_cache (<[key := MkCachedDns endpoints (now + ttl)]> (dns_cache p)) p) in
      match dns_cache p !! key with
      | Some cached => if now <? cd_expires_at_ms cached then (cd_endpoints cached, p) else miss
      | None => miss
      end
  end.

(** [reconcile_endpoints] of one group. *)
Definition reconcile_endpoints (now : Z) (g : MonitorGroup) (p : Pools) : MonitorGroup * Pools :=
  let '(resolved, p) := resolve_effective_endpoints now (g_effective_host g) (g_effective_port g) p in
  (with_endpoints (reconcile now resolved (g_endpoints g)) g, p).

Definition resolve_override_first (host : bytes) (port : Z) : HostAndPort :=
  parse_or_default (default (host ++ [COLON] ++ show_dec port) (override host port)) port.

(** What a caller asks [ensure_group] for. *)
Record GroupRequest := MkRequest {
  rq_requested_target : bytes;
  rq_host : bytes;
  rq_port : Z;
  rq_upstream_tls : bool;
  rq_http_health : bool;
  rq_proxy_protocol : ProxyProtocol.ProxyProtocol;
  rq_tls_server_name : bytes;
  rq_owner : Owner;
}.

Definition request_key (r : GroupRequest) : GroupKey :=
  MkGroupKey (hp_to_string (resolve_override_first (rq_host r) (rq_port r))) (rq_upstream_tls r) (rq_http_health r)
    (rq_proxy_protocol r).

(** [MonitorGroup::new] *)
Definition group_new (now : Z) (r : GroupRequest) (p : Pools) : MonitorGroup * Pools :=
  let effective := resolve_override_first (rq_host r) (rq_port r) in
  reconcile_endpoints now
    (MkGroup (request_key r) (rq_requested_target r) (hp_host effective) (hp_port effective) (rq_tls_server_name r)
       (rq_owner r) [] now (now mod (u64_max + 1))) p.

(** The first half of [ensure_group]: the group is there. *)
Definition reuse_group (now : Z) (o : Owner) (g : MonitorGroup) : MonitorGroup :=
  match o with Runtime => touch now g | Configured => with_owner Configured g end.

Definition ensure_lookup (now : Z) (r : GroupRequest) (p : Pools) : option (MonitorGroup * Pools) :=
  let key := request_key r in
  match groups p !! key with
  | Some g => let g := reuse_group now (rq_owner r) g in Some (g, set_groups (<[key := g]> (groups p)) p)
  | None => None
  end.

(** Its second half, after the group was built without any lock held. *)
Definition ensure_insert (r : GroupRequest) (g : MonitorGroup) (p : Pools) : Pools :=
  set_groups (<[request_key r := g]> (groups p)) p.

Definition ensure_group (now : Z) (r : GroupRequest) (p : Pools) : MonitorGroup * Pools :=
  match ensure_lookup now r p with
  | Some found => found
  | None => let '(g, p) := group_new now r p in (g, ensure_insert r g p)
  end.

(** [group.touch()] through the shared pointer. *)
Definition touch_group (now : Z) (k : GroupKey) (p : Pools) : Pools :=
  set_groups (alter (touch now) k (groups p)) p.

(** [group.choose_endpoint(pick)] through the shared pointer. *)
Definition choose_in (pick : Pick) (k : GroupKey) (p : Pools) : option SelectedTarget * Pools :=
  match groups p !! k with
  | Some g => let '(s, g) := choose_endpoint hash pick g in (s, set_groups (<[k := g]> (groups p)) p)
  | None => (None, p)
  end.

(** ** Registration of forward listeners *)

Definition listener_request (upstream_tls : bool) (pp : ProxyProtocol.ProxyProtocol) (target : bytes) : GroupRequest :=
  let requested := parse_or_default target 0 in
  MkRequest (hp_to_string requested) (hp_host requested) (hp_port requested) upstream_tls false pp (hp_host requested)
    Configured.

Fixpoint ensure_all (now : Z) (rs : list GroupRequest) (p : Pools) : list GroupKey * Pools :=
  match rs with
  | [] => ([], p)
  | r :: rs =>
      let '(g, p) := ensure_group now r p in
      let '(ks, p) := ensure_all now rs p in (g_key g :: ks, p)
  end.

Definition register_forward_listener (now : Z) (name targets : bytes) (upstream_tls : bool)
  (pp : ProxyProtocol.ProxyProtocol) (p : Pools) : result Targets.target_error () * Pools :=
  match Targets.parse_targets targets with
  | Err e => (Err e, p)
  | Ok ts =>
      let '(keys, p) := ensure_all now (map (listener_request upstream_tls pp) ts) p in
      (Ok (), publish_configured_statuses now (set_forward_listeners (<[name := keys]> (forward_listeners p)) p))
  end.

Definition http_listener_targets (target : option bytes) : option bytes :=
  match trim <$> target with
  | Some [] => None
  | o => o
  end.

(** ** Selection *)

Inductive select_error := InvalidBackend | NoBackend | NoEndpoint | ZeroRoutePort | EmptyPool.

(** The round-robin cursor of a route: the current value, advanced. *)
Definition next_cursor (seed : Z) (route_key : bytes) (p : Pools) : Z * Pools :=
  let cursor := default seed (cursors p !! route_key) in
  (cursor, set_cursors (<[route_key := u64_add cursor 1]> (cursors p)) p).

(** The part all pool selections share: balance over the members, then pick
    an endpoint inside. *)
Definition balance (seed : Z) (route_key : bytes) (client_ip : IpAddr) (lb : HttpLoadBalancing)
  (members : list GroupKey) (p : Pools) : option SelectedTarget * nat * Pools :=
  let '(index, pick, p) :=
    match lb with
    | ClientIpHash =>
        (rendezvous_index hash (λ k, match groups p !! k with Some g => g_requested_target g | None => [] end)
           members client_ip, Sticky client_ip, p)
    | RoundRobin =>
        let '(cursor, p) := next_cursor seed route_key p in
        (Z.to_nat (cursor mod Z.of_nat (length members)), Sequential, p)
    end in
  match members !! index with
  | Some k => let '(s, p) := choose_in pick k p in (s, index, p)
  | None => (None, index, p)
  end.

(** Members by viability of their groups: viable ones, and confirmed-down
    ones; a group without endpoints is in neither. *)
Definition viable_in (p : Pools) (b : bool) (k : GroupKey) : bool :=
  match groups p !! k with
  | Some g => bool_decide (group_is_viable (g_endpoints g) = Some b)
  | None => false
  end.
Definition usable_members (p : Pools) (ks : list GroupKey) : list GroupKey :=
  match List.filter (viable_in p true) ks with
  | [] => List.filter (viable_in p false) ks
  | l => l
  end.

(** The loop of [select_routed_pool] and [select_http_backend]: each member's
    group is ensured, touched and classified at once. *)
Fixpoint gather (now : Z) (rs : list GroupRequest) (p : Pools) : list GroupKey * list GroupKey * Pools :=
  match rs with
  | [] => ([], [], p)
  | r :: rs =>
      let '(g, p) := ensure_group now r p in
      let p := touch_group now (g_key g) p in
      let '(preferred, fallback, p') := gather now rs p in
      match group_is_viable (g_endpoints g) with
      | Some true => (g_key g :: preferred, fallback, p')
      | Some false => (preferred, g_key g :: fallback, p')
      | None => (preferred, fallback, p')
      end
  end.

Definition select_routed_target (now : Z) (sni_host : bytes) (explicit_target : option bytes) (default_port : Z)
  (upstream_tls : bool) (pp : ProxyProtocol.ProxyProtocol) (p : Pools) : result select_error SelectedTarget * Pools :=
  let requested := match explicit_target with
                   | Some target => parse_or_default target default_port
                   | None => MkHostAndPort sni_host default_port
                   end in
  if hp_port requested =? 0 then (Err ZeroRoutePort, p)
  else
    let '(g, p) := ensure_group now
      (MkRequest (hp_to_string requested) (hp_host requested) (hp_port requested) upstream_tls false pp sni_host Runtime) p in
    let p := touch_group now (g_key g) p in
    match choose_in Sequential (g_key g) p with
    | (Some s, p) => (Ok (MkSelected (st_endpoint s) sni_host), p)
    | (None, p) => (Err NoEndpoint, p)
    end.

Definition select_runtime_target (now : Z) (host : bytes) (port : Z) (upstream_tls : bool) (tls_server_name : bytes)
  (p : Pools) : result select_error SelectedTarget * Pools :=
  let '(g, p) := ensure_group now
    (MkRequest (host ++ [COLON] ++ show_dec port) host port upstream_tls false ProxyProtocol.PNone tls_server_name Runtime) p in
  let p := touch_group now (g_key g) p in
  match choose_in Sequential (g_key g) p with
  | (Some s, p) => (Ok (MkSelected (st_endpoint s) tls_server_name), p)
  | (None, p) => (Err NoEndpoint, p)
  end.

(** The targets of a pool up to the first one with port 0, and whether there
    is such a one (the loop has ensured the earlier ones by then). *)
Fixpoint pool_requests (sni_host : bytes) (default_port : Z) (upstream_tls : bool) (pp : ProxyProtocol.ProxyProtocol)
  (targets : list bytes) : list GroupRequest * bool :=
  match targets with
  | [] => ([], true)
  | t :: targets =>
      let requested := parse_or_default t default_port in
      if hp_port requested =? 0 then ([], false)
      else
        let '(rs, ok) := pool_requests sni_host default_port upstream_tls pp targets in
        (MkRequest (hp_to_string requested) (hp_host requested) (hp_port requested) upstream_tls false pp sni_host Runtime
         :: rs, ok)
  end.

Definition select_routed_pool (now seed : Z) (route_key sni_host : bytes) (explicit_targets : option bytes)
  (default_port : Z) (upstream_tls : bool) (pp : ProxyProtocol.ProxyProtocol) (client_ip : IpAddr)
  (lb : HttpLoadBalancing) (p : Pools) : result select_error SelectedTarget * Pools :=
  let targets := match explicit_targets with Some ts => Targets.pieces ts | None => [sni_host] end in
  match targets with
  | [] => (Err EmptyPool, p)
  | _ =>
      let '(rs, ok) := pool_requests sni_host default_port upstream_tls pp targets in
      let '(preferred, fallback, p) := gather now rs p in
      if negb ok then (Err ZeroRoutePort, p)
      else
        let available := match preferred with [] => fallback | _ => preferred end in
        match available with
        | [] => (Err NoBackend, p)
        | _ =>
            let '(s, _, p) := balance seed route_key client_ip lb available p in
            (match s with Some s => Ok (MkSelected (st_endpoint s) sni_host) | None => Err NoEndpoint end, p)
        end
  end.

(** The backends of an HTTP route up to the first address that does not
    parse. *)
Fixpoint backend_requests (pp : ProxyProtocol.ProxyProtocol) (bs : list HttpBackend) : list GroupRequest * bool :=
  match bs with
  | [] => ([], true)
  | b :: bs =>
      match from_str (address b) with
      | Err _ => ([], false)
      | Ok requested =>
          let '(rs, ok) := backend_requests pp bs in
          (MkRequest (hp_to_string requested) (hp_host requested) (hp_port requested)
             (bool_decide (transport b = Tls)) true pp (default (hp_host requested) (tls_server_name b)) Runtime :: rs, ok)
      end
  end.

Definition select_http_backend (now seed : Z) (route_key host : bytes) (client_ip : IpAddr) (action : HttpRouteAction)
  (p : Pools) : result select_error (SelectedTarget * bool) * Pools :=
  match backends action with
  | [] =>
      let tls := bool_decide (ra_upstream action = Tls) in
      let '(r, p) := select_routed_target now host (ra_target action) (ra_target_port action) tls (ra_proxy_protocol action) p in
      ((λ s, (s, tls)) <$> r, p)
  | bs =>
      let '(rs, ok) := backend_requests (ra_proxy_protocol action) bs in
      let '(available, down, p) := gather now rs p in
      if negb ok then (Err InvalidBackend, p)
      else
        let available := match available with [] => down | _ => available end in
        match available with
        | [] => (Err NoBackend, p)
        | _ =>
            let '(s, index, p) := balance seed route_key client_ip (ra_load_balancing action) available p in
            (match s with
             | Some s => Ok (s, match available !! index with Some k => gk_upstream_tls k | None => false end)
             | None => Err NoEndpoint
             end, p)
        end
  end.

Definition choose_online (seed : Z) (listener_name : bytes) (client_ip : IpAddr) (lb : HttpLoadBalancing) (p : Pools)
  : option SelectedTarget * Pools :=
  let keys := default [] (forward_listeners p !! listener_name) in
  let members := usable_members p (List.filter (λ k, bool_decide (is_Some (groups p !! k))) keys) in
  match members with
  | [] => (None, p)
  | _ => let '(s, _, p) := balance seed listener_name client_ip lb members p in (s, p)
  end.

End pools.
