(* ===== verification/ForwardProps.v ===== *)
(** * Backend selection: properties (src/forward/mod.rs)

    Which endpoint is chosen, fairness of the sequential pick, stability of
    the sticky pick, ownership and eviction of groups. *)

From S2P Require Import Prelude RustStd Net ProxyProtocol HostUtil Config RuntimeConfig Forward.
Open Scope Z_scope.

(** ** Candidates *)


Lemma filter_nil_inv {A} (f : A → bool) l x : List.filter f l = [] → x ∈ l → f x = false.
Proof.
  intros Hf Hx. destruct (f x) eqn:E; [|done]. assert (x ∈ List.filter f l) as H by by apply filter_elem.
  rewrite Hf in H. set_solver.
Qed.

(** The preference order among endpoints. *)
Definition preferred_among (es : list EndpointState) (e : EndpointState) : Prop :=
  e ∈ es ∧
  (∀ e', e' ∈ es → ep_online e' = Some true → ep_online e = Some true) ∧
  (ep_online e = Some false → ∀ e', e' ∈ es → ep_online e' = Some false) ∧
  (ep_online e ≠ Some true → endpoint_is_ipv4 (ep_endpoint e) = false →
   ∀ e', e' ∈ es → ep_online e' = ep_online e → endpoint_is_ipv4 (ep_endpoint e') = false).

Lemma candidates_preferred es e : e ∈ candidates es → preferred_among es e.
Proof.
  unfold candidates. destruct (List.filter (λ e, bool_decide (ep_online e = Some true)) es) as [|o os] eqn:Eon.
  2: { rewrite <-Eon, filter_elem. intros [He Ho]. bool_prop. split_and!; [done|done| |]; rewrite Ho; done. }
  pose proof (λ x, filter_nil_inv _ es x Eon) as Hno.
  assert (∀ e', e' ∈ es → ep_online e' ≠ Some true) as Hnt.
  { intros e' He'. specialize (Hno e' He'). cbv beta in Hno. bool_prop. done. }
  destruct (List.filter (λ e, bool_decide (ep_online e = None)) es) as [|u us] eqn:Eun.
  - pose proof (λ x, filter_nil_inv _ es x Eun) as Hnu.
    assert (∀ e', e' ∈ es → ep_online e' = Some false) as Hall.
    { intros e' He'. specialize (Hnu e' He'). specialize (Hnt e' He'). cbv beta in Hnu. bool_prop. by destruct (ep_online e') as [[]|]. }
    destruct (List.filter (λ e, endpoint_is_ipv4 (ep_endpoint e)) es) as [|v vs] eqn:E4.
    + intros He. split_and!; [done|by intros e' He' Ht; destruct (Hnt e' He' Ht)|intros _; exact Hall|]. intros _ _ e' He' _. by apply (filter_nil_inv _ es e' E4).
    + rewrite <-E4, filter_elem. intros [He Hv]. split_and!; [done|by intros e' He' Ht; destruct (Hnt e' He' Ht)|intros _; exact Hall|].
      intros _ Hn. congruence.
  - rewrite <-Eun. assert (∀ x, x ∈ List.filter (λ e, bool_decide (ep_online e = None)) es → x ∈ es ∧ ep_online x = None) as Hu.
    { intros x [? ?]%filter_elem. by bool_prop. }
    destruct (List.filter (λ e, endpoint_is_ipv4 _) _) as [|v vs] eqn:E4.
    + intros He. destruct (Hu e He) as [Hes Hon]. split_and!; [done|by intros e' He' Ht; destruct (Hnt e' He' Ht)|congruence|].
      intros _ _ e' He' Heq. apply (filter_nil_inv _ _ e' E4), filter_elem. split; [done|].
      apply bool_decide_eq_true. congruence.
    + rewrite <-E4, filter_elem. intros [He Hv]. destruct (Hu e He) as [Hes Hon].
      split_and!; [done|by intros e' He' Ht; destruct (Hnt e' He' Ht)|congruence|]. intros _ Hn. congruence.
Qed.

Lemma candidates_nil es : candidates es = [] ↔ es = [].
Proof.
  split; [|by intros ->]. unfold candidates. destruct (List.filter _ es) as [|o os] eqn:Eon; [|done].
  destruct (List.filter (λ e, bool_decide (ep_online e = None)) es) as [|u us] eqn:Eun.
  - by destruct (List.filter (λ e, endpoint_is_ipv4 (ep_endpoint e)) es).
  - rewrite <-Eun. destruct (List.filter (λ e, endpoint_is_ipv4 _) _); [|done]. by rewrite Eun.
Qed.

(** ** The sticky pick *)

Section sticky.
Context {A : Type} (key : A → Z).

Definition combine_max (a b : option A) : option A :=
  match a, b with
  | Some x, Some y => if key x <=? key y then Some y else Some x
  | Some x, None => Some x
  | None, b => b
  end.

Lemma combine_max_assoc a b c : combine_max a (combine_max b c) = combine_max (combine_max a b) c.
Proof.
  destruct a as [x|], b as [y|], c as [z|]; cbn; try done.
  - repeat (match goal with |- context [?a <=? ?b] => destruct (Z.leb_spec a b) end; cbn); try done; lia.
  - by destruct (key x <=? key y).
Qed.

Lemma max_by_key_app l1 l2 : max_by_key key (l1 ++ l2) = combine_max (max_by_key key l1) (max_by_key key l2).
Proof.
  induction l1 as [|x l1 IH]; cbn [app max_by_key]; [by destruct (max_by_key key l2)|].
  assert (∀ r, match r with Some y => if key x <=? key y then Some y else Some x | None => Some x end
    = combine_max (Some x) r) as Hc by by intros [].
  rewrite !Hc, IH. apply combine_max_assoc.
Qed.

End sticky.

Lemma max_by_key_map {A B} (g : A → B) (key : B → Z) l :
  g <$> max_by_key (λ a, key (g a)) l = max_by_key key (map g l).
Proof.
  induction l as [|x l IH]; cbn; [done|]. rewrite <-IH. destruct (max_by_key _ l) as [y|]; cbn; [|done].
  by destruct (key (g x) <=? key (g y)).
Qed.

Lemma map_snd_imap {A} (f : nat → A → nat * A) l : (∀ i x, (f i x).2 = x) → map snd (imap f l) = l.
Proof.
  revert f; induction l as [|x l IH]; intros f Hf; [done|]. rewrite imap_cons. cbn [map].
  rewrite Hf, IH; [done|]. intros i y. apply Hf.
Qed.

Section rendezvous.
Context (hash : IpAddr → bytes → Z) {T : Type} (member_key : T → bytes) (ip : IpAddr).

Definition weight (x : T) : Z := hash ip (member_key x).
Definition indexed_weight (x : nat * T) : Z := weight x.2.

Lemma rendezvous_indexed items :
  rendezvous_index hash member_key items ip =
    match max_by_key indexed_weight (imap pair items) with Some (i, _) => i | None => 0%nat end.
Proof.
  unfold rendezvous_index. assert (∀ l : list (nat * T),
    max_by_key (λ '(_, item), hash ip (member_key item)) l = max_by_key indexed_weight l) as ->; [|done].
  induction l as [|[i x] l IH]; cbn [max_by_key]; [done|]. rewrite IH.
  by destruct (max_by_key indexed_weight l) as [[j y]|].
Qed.

(** The sticky pick as a member: the last one with the greatest weight. *)
Lemma rendezvous_lookup items :
  items !! rendezvous_index hash member_key items ip = max_by_key weight items.
Proof.
  rewrite rendezvous_indexed. rewrite <-(map_snd_imap pair items) at 3 by done. rewrite <-max_by_key_map.
  change (λ a : nat * T, weight a.2) with indexed_weight.
  destruct (max_by_key indexed_weight (imap pair items)) as [[i x]|] eqn:E; cbn.
  - apply max_by_key_spec in E as [Hin _]. apply elem_of_lookup_imap in Hin as (j & y & [= -> ->] & Hl). done.
  - apply max_by_key_None in E. destruct items; [done|]. by rewrite imap_cons in E.
Qed.

Lemma rendezvous_bound items : items ≠ [] → (rendezvous_index hash member_key items ip < length items)%nat.
Proof. intros Hne. apply lookup_lt_is_Some. rewrite rendezvous_lookup. by apply max_by_key_is_Some. Qed.

(** A member that does not win does not matter. *)
Lemma combine_max_drop {A} (key : A → Z) a m b :
  combine_max key a (combine_max key (Some m) b) ≠ Some m →
  combine_max key a (combine_max key (Some m) b) = combine_max key a b.
Proof.
  destruct a as [x|], b as [y|]; cbn; try done;
    repeat (match goal with |- context [?u <=? ?v] => destruct (Z.leb_spec u v) end; cbn); try done; lia.
Qed.

(** Removing one member moves only the clients that were pinned to it: as
    long as the sticky pick is not the removed member, the pick from the
    remaining members is the same one. *)
Theorem sticky_minimal_disruption l1 m l2 :
  rendezvous_index hash member_key (l1 ++ m :: l2) ip ≠ length l1 →
  (l1 ++ l2) !! rendezvous_index hash member_key (l1 ++ l2) ip =
  (l1 ++ m :: l2) !! rendezvous_index hash member_key (l1 ++ m :: l2) ip.
Proof.
  intros Hne. rewrite !rendezvous_lookup. rewrite rendezvous_indexed, imap_app, imap_cons in Hne.
  set (f := (λ n, pair (length l1 + n)%nat) : nat → T → nat * T) in Hne.
  rewrite !(max_by_key_app indexed_weight) in Hne.
  set (A := max_by_key indexed_weight (imap pair l1)) in Hne.
  set (B := max_by_key indexed_weight (imap (f ∘ S) l2)) in Hne.
  change (match combine_max indexed_weight A (combine_max indexed_weight (Some (f 0%nat m)) B) with
          | Some (i, _) => i | None => 0%nat end ≠ length l1) in Hne.
  assert (snd <$> A = max_by_key weight l1) as HA.
  { unfold A. change indexed_weight with (λ a : nat * T, weight a.2). rewrite max_by_key_map. by rewrite map_snd_imap. }
  assert (snd <$> B = max_by_key weight l2) as HB.
  { unfold B. change indexed_weight with (λ a : nat * T, weight a.2). rewrite max_by_key_map. by rewrite map_snd_imap. }
  rewrite !(max_by_key_app weight). change (m :: l2) with ([m] ++ l2). rewrite (max_by_key_app weight). cbn [max_by_key].
  rewrite <-HA, <-HB.
  assert (∀ a b : option (nat * T), combine_max weight (snd <$> a) (snd <$> b) = snd <$> combine_max indexed_weight a b) as Hc.
  { intros [x|] [y|]; cbn; try done. unfold indexed_weight. by destruct (_ <=? _). }
  change (Some m) with (snd <$> Some (f 0%nat m)). rewrite !Hc. f_equal. symmetry. apply combine_max_drop.
  intros Heq. apply Hne. rewrite Heq. unfold f; cbn. lia.
Qed.

End rendezvous.

(** Two members and an address-independent hash (the length of the key) for
    the examples. *)
Definition length_hash (_ : IpAddr) (k : bytes) : Z := Z.of_nat (length k).
Definition example_ip : IpAddr := V4 [10; 0; 0; 1].

Lemma sticky_minimal_disruption_witness :
  rendezvous_index length_hash id [lit "bb"; lit "a"; lit "ccc"] example_ip = 2%nat ∧
  ([lit "bb"] ++ [lit "ccc"]) !! rendezvous_index length_hash id ([lit "bb"] ++ [lit "ccc"]) example_ip = Some (lit "ccc").
Proof.
  split; [reflexivity|].
  rewrite (sticky_minimal_disruption length_hash id example_ip [lit "bb"] (lit "a") [lit "ccc"]); [reflexivity|].
  vm_compute. congruence.
Defined.

(** ** Choosing an endpoint *)

Section choose.
Context (hash : IpAddr → bytes → Z).

Lemma choose_endpoint_candidate pick g :
  candidates (g_endpoints g) ≠ [] →
  ∃ e, e ∈ candidates (g_endpoints g) ∧
    (choose_endpoint hash pick g).1 = Some (MkSelected (ep_endpoint e) (g_tls_server_name g)).
Proof.
  intros Hne. unfold choose_endpoint. destruct (candidates (g_endpoints g)) as [|c cs] eqn:E; [done|].
  destruct pick as [|ip].
  - destruct (lookup_lt_is_Some_2 (c :: cs) (Z.to_nat (g_sequence g mod Z.of_nat (length (c :: cs))))) as [e He].
    { pose proof (Z.mod_pos_bound (g_sequence g) (Z.of_nat (length (c :: cs)))). cbn [length] in *. lia. }
    exists e. split; [by eapply list_elem_of_lookup_2|]. by rewrite He.
  - destruct (lookup_lt_is_Some_2 (c :: cs) (rendezvous_index hash ep_endpoint (c :: cs) ip)) as [e He].
    { by apply rendezvous_bound. }
    exists e. split; [by eapply list_elem_of_lookup_2|]. by rewrite He.
Qed.

(** A group gives an endpoint exactly when it has one, with either way of
    picking; the endpoint is one of the group's, online if any is online,
    confirmed down only if all are, and among endpoints not confirmed up an
    IPv4 one if there is one in the same state. *)
Theorem choose_endpoint_prefers_healthy pick g :
  ((choose_endpoint hash pick g).1 = None ↔ g_endpoints g = []) ∧
  (∀ s, (choose_endpoint hash pick g).1 = Some s →
     st_tls_server_name s = g_tls_server_name g ∧
     ∃ e, preferred_among (g_endpoints g) e ∧ st_endpoint s = ep_endpoint e).
Proof.
  destruct (decide (candidates (g_endpoints g) = [])) as [E|Hne].
  - assert ((choose_endpoint hash pick g).1 = None) as -> by by unfold choose_endpoint; rewrite E.
    split; [|done]. by rewrite <-candidates_nil.
  - destruct (choose_endpoint_candidate pick g Hne) as (e & He & ->). split.
    + split; [done|]. intros Hnil. by apply candidates_nil in Hnil.
    + intros s [= <-]. split; [done|]. exists e. split; [by apply candidates_preferred|done].
Qed.

(** [n] requests in a row. *)
Fixpoint sequential_picks (n : nat) (g : MonitorGroup) : list (option SelectedTarget) * MonitorGroup :=
  match n with
  | O => ([], g)
  | S n => let '(s, g) := choose_endpoint hash Sequential g in
           let '(l, g) := sequential_picks n g in (s :: l, g)
  end.

Definition selected_of (g : MonitorGroup) (e : EndpointState) : option SelectedTarget :=
  Some (MkSelected (ep_endpoint e) (g_tls_server_name g)).

(** The pick number [i] from now. *)
Definition nth_pick (g : MonitorGroup) (i : nat) : option SelectedTarget :=
  let cs := candidates (g_endpoints g) in
  cs !! Z.to_nat ((g_sequence g + Z.of_nat i) mod Z.of_nat (length cs)) ≫= selected_of g.

Lemma sequential_picks_nth n g :
  candidates (g_endpoints g) ≠ [] → 0 ≤ g_sequence g → g_sequence g + Z.of_nat n <= u64_max ->
  (sequential_picks n g).1 = map (nth_pick g) (seq 0 n) ∧
  (sequential_picks n g).2 = with_sequence (g_sequence g + Z.of_nat n) g.
Proof.
  revert g. induction n as [|n IH]; intros g Hne H0 Hb.
  { split; [done|]. cbn. rewrite Z.add_0_r. by destruct g. }
  cbn [sequential_picks]. set (g' := with_sequence (g_sequence g + 1) g).
  assert (choose_endpoint hash Sequential g = (nth_pick g 0, g')) as ->.
  { unfold choose_endpoint, nth_pick, g', u64_add. rewrite (Z.mod_small (_ + 1)) by lia. rewrite Z.add_0_r.
    by destruct (candidates (g_endpoints g)). }
  destruct (sequential_picks n g') as [l g''] eqn:E. specialize (IH g').
  rewrite E in IH. destruct IH as [Hl Hg]; [done|cbn; lia|cbn; lia|]. cbn [fst snd] in *. subst. split.
  - rewrite <-cons_seq. cbn [map]. f_equal. rewrite <-seq_shift, map_map. apply map_ext. intros i.
    unfold nth_pick, g', selected_of. cbn. by replace (g_sequence g + 1 + Z.of_nat i) with (g_sequence g + Z.of_nat (S i)) by lia.
  - unfold g', with_sequence. cbn. f_equal. lia.
Qed.

Lemma nth_pick_round g (start := Z.to_nat (g_sequence g)) :
  0 ≤ g_sequence g →
  map (nth_pick g) (seq 0 (length (candidates (g_endpoints g)))) =
  map (selected_of g) (rotate start (candidates (g_endpoints g))).
Proof.
  intros H0. set (cs := candidates (g_endpoints g)). apply list_eq. intros i. rewrite !list_lookup_fmap.
  destruct (decide (i < length cs)%nat) as [Hi|Hi].
  - rewrite lookup_seq_lt, lookup_rotate_r by done. cbn [fmap option_fmap option_map]. unfold nth_pick, rotate_nat_add.
    fold cs. rewrite Nat.add_0_l. replace (Z.of_nat start) with (g_sequence g) by (unfold start; lia).
    destruct (lookup_lt_is_Some_2 cs (Z.to_nat ((g_sequence g + Z.of_nat i) mod Z.of_nat (length cs)))) as [e ->]; [|done].
    pose proof (Z.mod_pos_bound (g_sequence g + Z.of_nat i) (Z.of_nat (length cs))). lia.
  - rewrite lookup_seq_ge, lookup_ge_None_2 by (rewrite ?length_rotate; lia). done.
Qed.

Lemma nth_pick_periodic g k i :
  candidates (g_endpoints g) ≠ [] → nth_pick g (k * length (candidates (g_endpoints g)) + i) = nth_pick g i.
Proof.
  intros Hne. unfold nth_pick. do 3 f_equal. rewrite Nat2Z.inj_add, Nat2Z.inj_mul, Z.add_assoc, (Z.add_comm (g_sequence g)).
  rewrite <-Z.add_assoc, Z.add_comm, Z_mod_plus_full. done.
Qed.

(** The sequential pick is fair: over [k] rounds of as many requests as
    there are candidates each candidate is picked exactly [k] times, in the
    cyclic order of the list from the group's counter on (while health states
    stay as they are and the 64-bit counter does not wrap). *)
Theorem sequential_picks_fair k g (cs := candidates (g_endpoints g)) :
  cs ≠ [] → 0 ≤ g_sequence g → g_sequence g + Z.of_nat (k * length cs) ≤ u64_max →
  (sequential_picks (k * length cs) g).1 =
    concat (replicate k (map (selected_of g) (rotate (Z.to_nat (g_sequence g)) cs))) ∧
  (sequential_picks (k * length cs) g).1 ≡ₚ concat (replicate k (map (selected_of g) cs)).
Proof.
  intros Hne H0 Hb. destruct (sequential_picks_nth (k * length cs) g) as [-> _]; [done..|].
  assert (map (nth_pick g) (seq 0 (k * length cs)) =
    concat (replicate k (map (selected_of g) (rotate (Z.to_nat (g_sequence g)) cs)))) as ->.
  { clear Hb. induction k as [|k IH]; [done|]. rewrite replicate_S_end, concat_app, <-IH. cbn [concat]. rewrite app_nil_r.
    rewrite <-nth_pick_round by done. fold cs. 
    replace (S k * length cs)%nat with (k * length cs + length cs)%nat by lia. rewrite seq_app, map_app. f_equal.
    rewrite <-(Nat.add_0_r (0 + _)), <-fmap_add_seq. etrans; [apply (map_map (Nat.add _) (nth_pick g))|]. apply map_ext. intros i.
    by apply nth_pick_periodic. }
  split; [done|]. clear Hb. induction k as [|k IH]; [done|]. cbn [replicate concat]. rewrite IH. f_equiv.
  apply Permutation_map. unfold rotate. rewrite (Permutation_app_comm (drop _ _)), take_drop. done.
Qed.

End choose.

(** Two endpoints of which one is down, in a group that has served. *)
Definition example_group : MonitorGroup :=
  MkGroup (MkGroupKey (lit "b:80") false true ProxyProtocol.PNone) (lit "b:80") (lit "b") 80 (lit "b") Runtime
    [MkEndpoint (lit "10.0.0.1:80") (Some true) 0 0; MkEndpoint (lit "10.0.0.2:80") (Some false) 0 0;
     MkEndpoint (lit "10.0.0.3:80") (Some true) 0 0] 0 7.

Lemma sequential_picks_fair_witness :
  (sequential_picks length_hash (2 * length (candidates (g_endpoints example_group))) example_group).1 =
  concat (replicate 2 (map (selected_of example_group)
    (rotate (Z.to_nat (g_sequence example_group)) (candidates (g_endpoints example_group))))).
Proof.
  apply (sequential_picks_fair length_hash 2 example_group); vm_compute; congruence.
Defined.

(** ** The group table *)

Definition pools_wf (p : Pools) : Prop := ∀ k g, groups p !! k = Some g → g_key g = k.

Lemma groups_set gs p : groups (set_groups gs p) = gs.
Proof. done. Qed.

(** The state of an existing group that no registration changes. *)
Definition same_backend (g g' : MonitorGroup) : Prop :=
  g_key g' = g_key g ∧ g_endpoints g' = g_endpoints g ∧ g_tls_server_name g' = g_tls_server_name g ∧
  g_requested_target g' = g_requested_target g ∧ (g_owner g = Configured → g_owner g' = Configured).

#[global] Instance same_backend_preorder : PreOrder same_backend.
Proof.
  split; [by intros g; unfold same_backend|].
  intros g1 g2 g3 (? & ? & ? & ? & ?) (? & ? & ? & ? & ?). unfold same_backend. split_and!; try congruence. auto.
Qed.

(** The table grows, groups that are there keep what they are. *)
Definition pools_grow (p p' : Pools) : Prop :=
  pools_wf p' ∧ ∀ k g, groups p !! k = Some g → ∃ g', groups p' !! k = Some g' ∧ same_backend g g'.

Lemma pools_grow_trans p1 p2 p3 : pools_grow p1 p2 → pools_grow p2 p3 → pools_grow p1 p3.
Proof.
  intros [_ H12] [Hw H23]. split; [done|]. intros k g Hk. destruct (H12 k g Hk) as (g2 & Hk2 & S2).
  destruct (H23 k g2 Hk2) as (g3 & Hk3 & S3). exists g3. split; [done|]. by etrans.
Qed.

(** Replacing the group of a key by one that continues it. *)
Lemma pools_grow_insert p k g' :
  pools_wf p → g_key g' = k → (∀ g, groups p !! k = Some g → same_backend g g') →
  pools_grow p (set_groups (<[k := g']> (groups p)) p).
Proof.
  intros Hw Hk Hs. split.
  - intros k2 g2. rewrite groups_set, lookup_insert_Some. intros [[<- <-]|[? ?]]; [done|]. by apply Hw.
  - intros k2 g2 H2. rewrite groups_set. destruct (decide (k = k2)) as [->|Hne].
    + exists g'. split; [by rewrite lookup_insert_eq|]. by apply Hs.
    + exists g2. split; [by rewrite lookup_insert_ne|]. reflexivity.
Qed.

Section registration.
Context (override : bytes → Z → option bytes) (lookup_host : bytes → option (list SocketAddr)).

Lemma resolve_effective_groups now host port p :
  groups (resolve_effective_endpoints lookup_host now host port p).2 = groups p.
Proof. unfold resolve_effective_endpoints. repeat case_match; done. Qed.

Lemma group_new_spec now r p :
  let '(g, p') := group_new override lookup_host now r p in
  groups p' = groups p ∧ g_key g = request_key override r ∧ g_owner g = rq_owner r ∧
  g_tls_server_name g = rq_tls_server_name r.
Proof.
  unfold group_new, reconcile_endpoints. cbn [g_effective_host g_effective_port].
  destruct (resolve_effective_endpoints _ _ _ _ _) as [resolved p'] eqn:E.
  split_and!; try done. pose proof (resolve_effective_groups now (hp_host (resolve_override_first override (rq_host r) (rq_port r)))
    (hp_port (resolve_override_first override (rq_host r) (rq_port r))) p) as H. by rewrite E in H.
Qed.

(** [ensure_group] leaves a group under the requested key: a group that
    is there keeps its endpoints with their health, its TLS name and a
    [Configured] owner, and becomes [Configured] when a listener asks for it;
    a new one has the requested owner and TLS name; no other group changes. *)
Lemma ensure_group_spec now r p (out := ensure_group override lookup_host now r p) (k := request_key override r) :
  pools_wf p →
  groups out.2 = <[k := out.1]> (groups p) ∧ pools_grow p out.2 ∧ g_key out.1 = k ∧
  (rq_owner r = Configured → g_owner out.1 = Configured) ∧
  (groups p !! k = None → g_owner out.1 = rq_owner r ∧ g_tls_server_name out.1 = rq_tls_server_name r).
Proof.
  intros Hw. unfold out, ensure_group, ensure_lookup, ensure_insert. fold k. destruct (groups p !! k) as [g|] eqn:E.
  - cbn [fst snd]. assert (g_key (reuse_group now (rq_owner r) g) = k) as Hk.
    { rewrite <-(Hw k g E). by destruct (rq_owner r). }
    split_and!; [done| |done| |done].
    + apply pools_grow_insert; [done..|]. intros g0 [= <-]%(eq_trans (eq_sym E)). destruct (rq_owner r); by unfold same_backend.
    + by intros ->.
  - pose proof (group_new_spec now r p) as H. destruct (group_new override lookup_host now r p) as [g p'].
    destruct H as (Hg & Hk & Ho & Ht). cbn [fst snd]. rewrite groups_set, Hg. split_and!; [done| |done|congruence|done].
    assert (pools_wf p') as Hw' by (intros k' g'; rewrite Hg; apply Hw).
    assert (pools_grow p p') as Hg' by (split; [done|]; intros k' g' Hk'; rewrite Hg; by exists g').
    eapply pools_grow_trans; [exact Hg'|]. rewrite <-Hg. apply pools_grow_insert; [done..|]. intros g0. rewrite Hg, E. done.
Qed.

End registration.
