(* ===== verification/ForwardSelect.v ===== *)
(** * Backend selection over pools (src/forward/mod.rs)

    The selection entry points ([select_http_backend], [select_routed_pool],
    [choose_online]) against one specification: the chosen endpoint belongs
    to a member of the pool, and a confirmed-down one is chosen only when the
    whole pool is confirmed down.  Then what the table keeps across any
    sequence of operations, and what eviction may remove. *)

From S2P Require Import Prelude RustStd Net ProxyProtocol HostUtil Config RuntimeConfig Forward ForwardProps.
Open Scope Z_scope.

(** ** Members of a pool *)

Definition endpoints_of (p : Pools) (k : GroupKey) : list EndpointState :=
  match groups p !! k with Some g => g_endpoints g | None => [] end.

(** [e], of the member [k], is an admissible choice from the members [ks]. *)
Definition pool_choice (p : Pools) (ks : list GroupKey) (k : GroupKey) (e : EndpointState) : Prop :=
  k ∈ ks ∧ preferred_among (endpoints_of p k) e ∧
  (ep_online e = Some false → ∀ k' e', k' ∈ ks → e' ∈ endpoints_of p k' → ep_online e' = Some false).

Lemma viable_exists es :
  existsb (λ e, negb (bool_decide (ep_online e = Some false))) es = true ↔ ∃ e, e ∈ es ∧ ep_online e ≠ Some false.
Proof.
  rewrite existsb_exists. setoid_rewrite list_elem_of_In.
  split; intros (x & Hx & Hv); exists x; (split; [done|]).
  - by rewrite negb_true_iff, bool_decide_eq_false in Hv.
  - by rewrite negb_true_iff, bool_decide_eq_false.
Qed.

Lemma group_is_viable_Some es b :
  group_is_viable es = Some b ↔ es ≠ [] ∧ existsb (λ e, negb (bool_decide (ep_online e = Some false))) es = b.
Proof. unfold group_is_viable. destruct es; [by split; [|intros [? _]]|]. split; [by intros [= H]|by intros [_ ->]]. Qed.

Lemma viable_in_spec p b k :
  viable_in p b k = true ↔ endpoints_of p k ≠ [] ∧
    (b = true ↔ ∃ e, e ∈ endpoints_of p k ∧ ep_online e ≠ Some false).
Proof.
  unfold viable_in, endpoints_of. destruct (groups p !! k) as [g|]; [|by split; [|intros [? _]]].
  rewrite bool_decide_eq_true, group_is_viable_Some, <-viable_exists. split; intros [Hne Hb]; (split; [done|]).
  - by rewrite Hb.
  - apply eq_bool_prop_intro. by rewrite !Is_true_true, Hb.
Qed.

Lemma viable_in_false_all p k :
  viable_in p true k = false → ∀ e, e ∈ endpoints_of p k → ep_online e = Some false.
Proof.
  intros Hf e He. destruct (decide (ep_online e = Some false)) as [|Hn]; [done|].
  assert (viable_in p true k = true); [|congruence]. apply viable_in_spec. split; [by intros E; rewrite E in He; set_solver|].
  split; [|done]. intros _. by exists e.
Qed.

Lemma usable_members_alt p ks :
  match List.filter (viable_in p true) ks with
  | [] => List.filter (viable_in p false) ks
  | _ => List.filter (viable_in p true) ks
  end = usable_members p ks.
Proof. unfold usable_members. by destruct (List.filter (viable_in p true) ks). Qed.

Lemma usable_members_spec p ks k : k ∈ usable_members p ks →
  k ∈ ks ∧ endpoints_of p k ≠ [] ∧
  ((∀ e, e ∈ endpoints_of p k → ep_online e = Some false) →
   ∀ k' e, k' ∈ ks → e ∈ endpoints_of p k' → ep_online e = Some false).
Proof.
  unfold usable_members. destruct (List.filter (viable_in p true) ks) as [|x xs] eqn:E.
  - intros [Hin Hv]%filter_elem. split_and!; [done|by apply viable_in_spec in Hv as [? _]|].
    intros _ k' e Hk' He. apply (viable_in_false_all p k'); [|done]. by apply (filter_nil_inv _ _ _ E).
  - rewrite <-E, filter_elem. intros [Hin Hv]. apply viable_in_spec in Hv as [Hne Hv]. split_and!; [done..|].
    intros Hall. destruct (proj1 Hv eq_refl) as (e & He & Hon). destruct (Hon (Hall e He)).
Qed.

Lemma usable_members_nil p ks : usable_members p ks = [] ↔ ∀ k, k ∈ ks → endpoints_of p k = [].
Proof.
  unfold usable_members. split.
  - destruct (List.filter (viable_in p true) ks) as [|x xs] eqn:E; [|done]. intros E2 k Hk.
    pose proof (filter_nil_inv _ _ _ E Hk) as H1. pose proof (filter_nil_inv _ _ _ E2 Hk) as H2.
    destruct (decide (endpoints_of p k = [])) as [|Hne]; [done|]. exfalso.
    assert (viable_in p false k = true); [|congruence]. apply viable_in_spec. split; [done|]. split; [done|].
    intros (e & He & Hon). destruct Hon. by apply (viable_in_false_all p k).
  - intros Hall. assert (∀ b, List.filter (viable_in p b) ks = []) as Hf; [|by rewrite !Hf].
    intros b. destruct (List.filter (viable_in p b) ks) as [|x xs] eqn:E; [done|].
    assert (x ∈ List.filter (viable_in p b) ks) as [Hx Hv]%filter_elem by (rewrite E; left).
    apply viable_in_spec in Hv as [Hne _]. by destruct Hne; apply Hall.
Qed.

(** ** Gathering and balancing *)

Lemma grow_touch now k p : pools_wf p → pools_grow p (touch_group now k p).
Proof.
  intros Hw. unfold touch_group. split.
  - intros k' g'. rewrite groups_set, lookup_alter_Some. intros [(<- & g & Hg & ->)|[? ?]]; [|by apply Hw].
    by apply Hw in Hg.
  - intros k' g' Hk'. rewrite groups_set. destruct (decide (k = k')) as [->|Hne].
    + exists (touch now g'). by rewrite lookup_alter_eq, Hk'.
    + exists g'. rewrite lookup_alter_ne by done. split; [done|]. reflexivity.
Qed.

Lemma pools_grow_refl p : pools_wf p → pools_grow p p.
Proof. intros Hw. split; [done|]. intros k g Hk. exists g. split; [done|reflexivity]. Qed.

Lemma grow_endpoints p p' k g : pools_grow p p' → groups p !! k = Some g → endpoints_of p' k = g_endpoints g.
Proof. intros [_ Hg] Hk. destruct (Hg k g Hk) as (g' & Hk' & _ & He & _). unfold endpoints_of. by rewrite Hk', He. Qed.

Lemma grow_is_Some p p' k : pools_grow p p' → is_Some (groups p !! k) → is_Some (groups p' !! k).
Proof. intros [_ Hg] [g Hk]. destruct (Hg k g Hk) as (g' & Hk' & _). by exists g'. Qed.

Section selection.
Context (override : bytes → Z → option bytes) (lookup_host : bytes → option (list SocketAddr)).
Context (hash : IpAddr → bytes → Z).
Local Abbreviation key_of := (request_key override).

(** After the loop the members' groups are in the table, and the two lists
    are the viable and the confirmed-down members. *)
Lemma gather_spec now rs p :
  pools_wf p →
  let '(preferred, fallback, p') := gather override lookup_host now rs p in
  pools_grow p p' ∧ (∀ r, r ∈ rs → is_Some (groups p' !! key_of r)) ∧
  preferred = List.filter (viable_in p' true) (map key_of rs) ∧
  fallback = List.filter (viable_in p' false) (map key_of rs).
Proof.
  revert p. induction rs as [|r rs IH]; intros p Hw; cbn [gather].
  { split_and!; try done; [|by intros r ?%not_elem_of_nil]. by apply pools_grow_refl. }
  pose proof (ensure_group_spec override lookup_host now r p Hw) as H.
  destruct (ensure_group override lookup_host now r p) as [g p1]. destruct H as (Hgs & G1 & Hk & _). cbn [fst snd] in *.
  pose proof (grow_touch now (g_key g) p1 (proj1 G1)) as G2.
  specialize (IH (touch_group now (g_key g) p1) (proj1 G2)).
  destruct (gather override lookup_host now rs _) as [[pref fall] p']. destruct IH as (G3 & Hin & -> & ->).
  assert (groups p1 !! key_of r = Some g) as Hp1 by by rewrite Hgs, lookup_insert_eq.
  assert (pools_grow p1 p') as G13 by by eapply pools_grow_trans.
  pose proof (grow_endpoints _ _ _ _ G13 Hp1) as He. destruct (grow_is_Some _ _ _ G13 (mk_is_Some _ _ Hp1)) as [g' Hg'].
  assert (∀ b, viable_in p' b (key_of r) = bool_decide (group_is_viable (g_endpoints g) = Some b)) as Hv.
  { intros b. unfold viable_in, endpoints_of in *. rewrite Hg' in *. by rewrite He. }
  assert (pools_grow p p') as G by by eapply pools_grow_trans.
  assert (∀ r', r' ∈ r :: rs → is_Some (groups p' !! key_of r')) as Hin'.
  { intros r' [->|Hr']%elem_of_cons; [by exists g'|by apply Hin]. }
  destruct (group_is_viable (g_endpoints g)) as [[]|]; cbn [map List.filter]; rewrite !Hv, ?Hk; by split_and!.
Qed.

Lemma choose_in_spec pick k p g :
  pools_wf p → groups p !! k = Some g → g_endpoints g ≠ [] →
  let '(s, p') := choose_in hash pick k p in
  pools_grow p p' ∧
  ∃ e, s = Some (MkSelected (ep_endpoint e) (g_tls_server_name g)) ∧ preferred_among (g_endpoints g) e.
Proof.
  intros Hw Hk Hne. unfold choose_in. rewrite Hk.
  destruct (choose_endpoint_candidate hash pick g) as (e & He & Hs); [by rewrite candidates_nil|].
  assert (same_backend g (choose_endpoint hash pick g).2) as Hsame.
  { unfold choose_endpoint. destruct (candidates (g_endpoints g)); [reflexivity|]. destruct pick; [by unfold same_backend|reflexivity]. }
  destruct (choose_endpoint hash pick g) as [s g']. cbn [fst snd] in *. subst s. split.
  - apply pools_grow_insert; [done| |].
    + destruct Hsame as (-> & _). by apply Hw.
    + intros g0. rewrite Hk. by intros [= <-].
  - exists e. split; [done|]. by apply candidates_preferred.
Qed.

(** Balancing over members with endpoints gives an endpoint of one of them,
    which is the member at the returned index. *)
Lemma balance_spec seed route_key ip lb members p :
  pools_wf p → members ≠ [] → (∀ k, k ∈ members → endpoints_of p k ≠ []) →
  let '(s, index, p') := balance hash seed route_key ip lb members p in
  pools_grow p p' ∧ ∃ k g e, members !! index = Some k ∧ groups p !! k = Some g ∧
    s = Some (MkSelected (ep_endpoint e) (g_tls_server_name g)) ∧ preferred_among (endpoints_of p k) e.
Proof.
  intros Hw Hne Hall. unfold balance.
  set (choice := match lb with RoundRobin => _ | ClientIpHash => _ end).
  assert (∃ index pick p1, choice = (index, pick, p1) ∧ (index < length members)%nat ∧ groups p1 = groups p)
    as (index & pick & p1 & -> & Hi & Hg).
  { unfold choice. destruct lb; eexists _, _, _; (split; [reflexivity|]); split; try done.
    - pose proof (Z.mod_pos_bound (next_cursor seed route_key p).1 (Z.of_nat (length members))).
      cbn [next_cursor fst] in *. destruct members; [done|]. cbn [length] in *. lia.
    - by apply rendezvous_bound. }
  destruct (lookup_lt_is_Some_2 members index Hi) as [k Hk]. rewrite Hk.
  pose proof (Hall k (list_elem_of_lookup_2 _ _ _ Hk)) as He. unfold endpoints_of in He.
  destruct (groups p !! k) as [g|] eqn:Eg; [|done].
  assert (pools_wf p1) as Hw1 by (intros k' g'; rewrite Hg; apply Hw).
  pose proof (choose_in_spec pick k p1 g Hw1 ltac:(by rewrite Hg) He) as H.
  destruct (choose_in hash pick k p1) as [s p2]. destruct H as [G (e & -> & Hpref)]. split.
  - split; [apply G|]. intros k' g' Hk'. apply G. by rewrite Hg.
  - exists k, g, e. unfold endpoints_of. by rewrite Eg.
Qed.

Lemma endpoints_of_grow p p' k : pools_grow p p' → is_Some (groups p !! k) → endpoints_of p' k = endpoints_of p k.
Proof. intros G [g Hk]. rewrite (grow_endpoints _ _ _ _ G Hk). unfold endpoints_of. by rewrite Hk. Qed.

(** Picking from the usable members of a pool whose groups are all there. *)
Lemma usable_balance_spec seed route_key ip lb ks p :
  pools_wf p → (∀ k, k ∈ ks → is_Some (groups p !! k)) → usable_members p ks ≠ [] →
  let '(s, index, p') := balance hash seed route_key ip lb (usable_members p ks) p in
  pools_grow p p' ∧ ∃ k g e, usable_members p ks !! index = Some k ∧ groups p' !! k = Some g ∧
    s = Some (MkSelected (ep_endpoint e) (g_tls_server_name g)) ∧ pool_choice p' ks k e.
Proof.
  intros Hw Hin Hne. pose proof (balance_spec seed route_key ip lb (usable_members p ks) p Hw Hne) as H.
  destruct (balance hash seed route_key ip lb (usable_members p ks) p) as [[s index] p'].
  destruct H as (G & k & g & e & Hi & Hg & -> & Hpref).
  { intros k Hk. by apply usable_members_spec in Hk as (_ & ? & _). }
  split; [done|]. destruct (proj2 G k g Hg) as (g' & Hg' & _ & _ & Ht & _). exists k, g', e.
  apply list_elem_of_lookup_2 in Hi as Hk. apply usable_members_spec in Hk as (Hks & _ & Hdown).
  split_and!; [done|done|by rewrite Ht|]. split_and!; [done| |].
  - by rewrite (endpoints_of_grow p) by auto.
  - intros Hon k' e' Hk' He'. rewrite (endpoints_of_grow p) in He' by auto. eapply Hdown; [|done..].
    by apply Hpref.
Qed.

(** Gathering a pool, then balancing over its usable members. *)
Lemma gather_balance_spec now seed route_key ip lb rs p :
  pools_wf p →
  let '(preferred, fallback, p1) := gather override lookup_host now rs p in
  let available := match preferred with [] => fallback | _ => preferred end in
  pools_grow p p1 ∧
  match available with
  | [] => ∀ r, r ∈ rs → endpoints_of p1 (key_of r) = []
  | _ =>
      let '(s, index, p2) := balance hash seed route_key ip lb available p1 in
      pools_grow p p2 ∧ ∃ r g e, r ∈ rs ∧ available !! index = Some (key_of r) ∧ groups p2 !! key_of r = Some g ∧
        s = Some (MkSelected (ep_endpoint e) (g_tls_server_name g)) ∧ pool_choice p2 (map key_of rs) (key_of r) e
  end.
Proof.
  intros Hw. pose proof (gather_spec now rs p Hw) as H. destruct (gather override lookup_host now rs p) as [[pref fall] p1].
  destruct H as (G & Hin & -> & ->). rewrite !usable_members_alt. split; [done|].
  pose proof (usable_balance_spec seed route_key ip lb (map key_of rs) p1 (proj1 G)) as H.
  destruct (usable_members p1 (map key_of rs)) as [|m ms] eqn:Eu.
  { intros r Hr. eapply usable_members_nil; [done|]. by apply list_elem_of_fmap_2. }
  destruct (balance _ _ _ _ _ _ _) as [[s index] p2]. destruct H as (G2 & k & g & e & Hi & Hg & -> & Hc); [|done|].
  { intros k (r & -> & Hr)%list_elem_of_fmap. by apply Hin. }
  split; [by eapply pools_grow_trans|].
  destruct (proj1 (list_elem_of_fmap _ _ _) (proj1 Hc)) as (r & -> & Hr). by exists r, g, e.
Qed.

(** C9: [select_http_backend] on a route with backends always decides: it
    rejects the route if an address does not parse, reports no backend only
    if no backend has an endpoint, and otherwise gives an endpoint of one of
    the route's backends, with that backend's transport; an endpoint confirmed
    down is given only if every endpoint of every backend is, and the groups
    already in the table keep their health. *)
Theorem select_http_backend_healthy now seed route_key host ip action p
  (rs := (backend_requests (ra_proxy_protocol action) (backends action)).1)
  (ok := (backend_requests (ra_proxy_protocol action) (backends action)).2)
  (out := select_http_backend override lookup_host hash now seed route_key host ip action p) :
  pools_wf p → backends action ≠ [] →
  pools_grow p out.2 ∧
  match out.1 with
  | Ok (s, tls) => ok = true ∧ ∃ r g e, r ∈ rs ∧ groups out.2 !! key_of r = Some g ∧ tls = rq_upstream_tls r ∧
      s = MkSelected (ep_endpoint e) (g_tls_server_name g) ∧ pool_choice out.2 (map key_of rs) (key_of r) e
  | Err InvalidBackend => ok = false
  | Err NoBackend => ok = true ∧ ∀ r, r ∈ rs → endpoints_of out.2 (key_of r) = []
  | Err _ => False
  end.
Proof.
  intros Hw Hb. unfold out, select_http_backend. destruct (backends action) as [|b bs] eqn:Eb; [done|].
  unfold rs, ok in *. destruct (backend_requests _ _) as [reqs okb]. cbn [fst snd].
  pose proof (gather_balance_spec now seed route_key ip (ra_load_balancing action) reqs p Hw) as H.
  destruct (gather override lookup_host now reqs p) as [[pref fall] p1]. destruct H as [G H].
  destruct okb; cbn [negb]; [|done]. destruct (match pref with [] => fall | _ => pref end) as [|m ms]; [done|].
  destruct (balance _ _ _ _ _ _ _) as [[s index] p2]. destruct H as (G2 & r & g & e & Hr & Hi & Hg & -> & Hc).
  split; [done|]. split; [done|]. rewrite Hi. by exists r, g, e.
Qed.

(** The targets of a layer-4 route: the explicit list, or the requested name. *)
Definition routed_targets (sni_host : bytes) (explicit_targets : option bytes) : list bytes :=
  match explicit_targets with Some ts => Targets.pieces ts | None => [sni_host] end.

(** The same for the layer-4 pools of [select_routed_pool]: the endpoint
    is one of the pool's, confirmed down only if the whole pool is, and it is
    always announced under the requested server name; the errors are exactly
    an empty target list, a target without port, and a pool without
    endpoints. *)
Theorem select_routed_pool_healthy now seed route_key sni_host targets port tls pp ip lb p
  (ts := routed_targets sni_host targets)
  (rs := (pool_requests sni_host port tls pp ts).1) (ok := (pool_requests sni_host port tls pp ts).2)
  (out := select_routed_pool override lookup_host hash now seed route_key sni_host targets port tls pp ip lb p) :
  pools_wf p →
  pools_grow p out.2 ∧
  match out.1 with
  | Ok s => ok = true ∧ ∃ r e, r ∈ rs ∧ s = MkSelected (ep_endpoint e) sni_host ∧
      pool_choice out.2 (map key_of rs) (key_of r) e
  | Err EmptyPool => ts = []
  | Err ZeroRoutePort => ok = false
  | Err NoBackend => ok = true ∧ ∀ r, r ∈ rs → endpoints_of out.2 (key_of r) = []
  | Err _ => False
  end.
Proof.
  intros Hw. unfold out, select_routed_pool. fold (routed_targets sni_host targets). fold ts.
  unfold rs, ok in *. destruct (pool_requests sni_host port tls pp ts) as [reqs okb]. cbn [fst snd].
  destruct ts as [|t ts']; [split; [|done]; by apply pools_grow_refl|].
  pose proof (gather_balance_spec now seed route_key ip lb reqs p Hw) as H.
  destruct (gather override lookup_host now reqs p) as [[pref fall] p1]. destruct H as [G H].
  destruct okb; cbn [negb]; [|done]. destruct (match pref with [] => fall | _ => pref end) as [|m ms]; [done|].
  destruct (balance _ _ _ _ _ _ _) as [[s index] p2]. destruct H as (G2 & r & g & e & Hr & Hi & Hg & -> & Hc).
  split; [done|]. split; [done|]. by exists r, e.
Qed.

(** A forward listener's connection goes to an endpoint of one of the
    listener's registered groups, confirmed down only if all of them are; the
    listener has no target exactly when none of its groups has an endpoint. *)
Theorem choose_online_healthy seed name ip lb p
  (ks := List.filter (λ k, bool_decide (is_Some (groups p !! k))) (default [] (forward_listeners p !! name)))
  (out := choose_online hash seed name ip lb p) :
  pools_wf p →
  pools_grow p out.2 ∧
  match out.1 with
  | Some s => ∃ k g e, groups out.2 !! k = Some g ∧ s = MkSelected (ep_endpoint e) (g_tls_server_name g) ∧
      pool_choice out.2 ks k e
  | None => ∀ k, k ∈ ks → endpoints_of out.2 k = []
  end.
Proof.
  intros Hw. unfold out, choose_online. fold ks. destruct (usable_members p ks) as [|m ms] eqn:Eu.
  { split; [by apply pools_grow_refl|]. cbn [fst snd]. by apply usable_members_nil. }
  pose proof (usable_balance_spec seed name ip lb ks p Hw) as H. rewrite Eu in H.
  destruct (balance _ _ _ _ _ _ _) as [[s index] p2]. destruct H as (G2 & k & g & e & Hi & Hg & -> & Hc); [|done|].
  { intros k [_ Hk%bool_decide_eq_true]%filter_elem. done. }
  split; [done|]. by exists k, g, e.
Qed.

(** The name a TLS backend is verified against is the one of the route
    that created its group: a route to the same address with another
    [tls_server_name] is served under the first route's name. *)
Theorem http_tls_name_is_first_registrants now seed route_key host ip action b g p
  (out := select_http_backend override lookup_host hash now seed route_key host ip action p) :
  pools_wf p → backends action = [b] →
  (∀ r, r ∈ (backend_requests (ra_proxy_protocol action) [b]).1 → groups p !! key_of r = Some g) →
  ∀ s tls, out.1 = Ok (s, tls) → st_tls_server_name s = g_tls_server_name g.
Proof.
  intros Hw Hb Hr s tls. unfold out, select_http_backend. rewrite Hb.
  destruct (backend_requests _ _) as [reqs okb].
  pose proof (gather_balance_spec now seed route_key ip (ra_load_balancing action) reqs p Hw) as H.
  destruct (gather override lookup_host now reqs p) as [[pref fall] p1]. destruct H as [G H].
  destruct okb; cbn [negb]; [|done]. destruct (match pref with [] => fall | _ => pref end) as [|m ms]; [done|].
  destruct (balance _ _ _ _ _ _ _) as [[s' index] p2]. destruct H as (G2 & r & g2 & e & Hr' & Hi & Hg & -> & Hc).
  intros [= <- _]. destruct (proj2 G2 _ g (Hr r Hr')) as (g' & Hg' & _ & _ & Ht & _). cbn. congruence.
Qed.

(** Two registrations of one target interleaved at the lock-free
    resolution: traffic finds no group and resolves, meanwhile a configured
    route registers the target, then the traffic's insert replaces the
    configured group by a [Runtime] one, which the TTL may evict. *)
Theorem ensure_group_race_demotes now now' r rc p
  (built := group_new override lookup_host now r p)
  (registered := ensure_group override lookup_host now' rc built.2)
  (final := ensure_insert override r built.1 registered.2) :
  pools_wf p → key_of rc = key_of r → rq_owner r = Runtime → rq_owner rc = Configured →
  ensure_lookup override now r p = None →
  (g_owner <$> groups registered.2 !! key_of r) = Some Configured ∧
  (g_owner <$> groups final !! key_of r) = Some Runtime.
Proof.
  intros Hw Hk Hr Hrc Hnone. unfold final, registered. pose proof (group_new_spec override lookup_host now r p) as H.
  fold built in H. destruct built as [g p1]. destruct H as (Hg & _ & Ho & _). cbn [fst snd].
  assert (pools_wf p1) as Hw1 by (intros k' g'; rewrite Hg; apply Hw).
  destruct (ensure_group_spec override lookup_host now' rc p1 Hw1) as (Hgs & _ & _ & Hc & _).
  split.
  - rewrite Hgs, Hk, lookup_insert_eq. cbn. by rewrite Hc.
  - unfold ensure_insert. rewrite groups_set, lookup_insert_eq. cbn. by rewrite Ho, Hr.
Qed.

End selection.

(** ** Examples of the selections *)

Module SelectExamples.
Definition no_override (_ : bytes) (_ : Z) : option bytes := None.
Definition dns (name : bytes) : option (list SocketAddr) :=
  if eqb_bytes name (lit "b:80") then Some [MkSocketAddr (V4 [10; 0; 0; 1]) 80; MkSocketAddr (V4 [10; 0; 0; 2]) 80]
  else None.
Definition backend (name : bytes) : HttpBackend := MkBackend (lit "b:80") Tls (Some name).
Definition action (name : bytes) : HttpRouteAction :=
  MkRouteAction BehaviorReverseProxy 80 None Plaintext [backend name] RoundRobin ProxyProtocol.PNone None [] None.
Definition empty : Pools := MkPools ∅ ∅ ∅ ∅ ∅ [].
Definition select (name : bytes) (p : Pools) :=
  select_http_backend no_override dns length_hash 5 0 (lit "r") (lit "h") example_ip (action name) p.
(** The table after a request of the route with server name [first]. *)
Definition served : Pools := (select (lit "first") empty).2.

Lemma empty_wf : pools_wf empty.
Proof. intros k g H. cbn in H. by rewrite lookup_empty in H. Qed.

Lemma served_wf : pools_wf served.
Proof.
  change (map_Forall (λ k g, g_key g = k) (groups served)). apply (bool_decide_unpack _). vm_compute. exact I.
Qed.

Lemma select_http_backend_healthy_witness :
  backends (action (lit "first")) ≠ [] ∧ (select (lit "first") empty).1 = Ok (MkSelected (lit "10.0.0.2:80") (lit "first"), true) ∧
  pools_grow empty (select (lit "first") empty).2.
Proof.
  split; [done|]. split; [vm_compute; reflexivity|].
  pose proof (select_http_backend_healthy no_override dns length_hash 5 0 (lit "r") (lit "h") example_ip
    (action (lit "first")) empty empty_wf) as H.
  cbv zeta in H. destruct H as [G _]; [done|]. exact G.
Defined.

Definition pool_target : option bytes := Some (lit "b:80, b:443").
Definition select_pool (p : Pools) :=
  select_routed_pool no_override dns length_hash 5 0 (lit "r") (lit "h") pool_target 443 true ProxyProtocol.PNone
    example_ip ClientIpHash p.

Lemma select_routed_pool_healthy_witness :
  (select_pool empty).1 = Ok (MkSelected (lit "10.0.0.2:80") (lit "h")) ∧ pools_grow empty (select_pool empty).2.
Proof.
  split; [vm_compute; reflexivity|].
  pose proof (select_routed_pool_healthy no_override dns length_hash 5 0 (lit "r") (lit "h")
    pool_target 443 true ProxyProtocol.PNone example_ip ClientIpHash empty empty_wf) as H.
  cbv zeta in H. destruct H as [G _]. exact G.
Defined.

Definition listening : Pools :=
  (register_forward_listener no_override dns 5 (lit "l") (lit "b:80;c:81") false ProxyProtocol.PNone empty).2.

Lemma listening_wf : pools_wf listening.
Proof.
  change (map_Forall (λ k g, g_key g = k) (groups listening)). apply (bool_decide_unpack _). vm_compute. exact I.
Qed.

Lemma choose_online_healthy_witness :
  (choose_online length_hash 0 (lit "l") example_ip RoundRobin listening).1 = Some (MkSelected (lit "10.0.0.2:80") (lit "b")) ∧
  pools_grow listening (choose_online length_hash 0 (lit "l") example_ip RoundRobin listening).2.
Proof.
  split; [vm_compute; reflexivity|].
  pose proof (choose_online_healthy length_hash 0 (lit "l") example_ip RoundRobin listening listening_wf) as H.
  cbv zeta in H. destruct H as [G _]. exact G.
Defined.

Definition first_group : option MonitorGroup :=
  groups served !! MkGroupKey (lit "b:80") true true ProxyProtocol.PNone.

Lemma http_tls_name_is_first_registrants_witness :
  (select (lit "second") served).1 = Ok (MkSelected (lit "10.0.0.1:80") (lit "first"), true) ∧
  ∀ g s tls, first_group = Some g → (select (lit "second") served).1 = Ok (s, tls) → st_tls_server_name s = g_tls_server_name g.
Proof.
  split; [vm_compute; reflexivity|]. intros g s tls Hg.
  apply (http_tls_name_is_first_registrants no_override dns length_hash 5 0 (lit "r") (lit "h") example_ip
    (action (lit "second")) (backend (lit "second")) g served served_wf eq_refl).
  intros r ->%list_elem_of_singleton. rewrite <-Hg. vm_compute. reflexivity.
Defined.

Definition traffic : GroupRequest := MkRequest (lit "b:80") (lit "b") 80 true false ProxyProtocol.PNone (lit "b") Runtime.
Definition configured : GroupRequest := MkRequest (lit "b:80") (lit "b") 80 true false ProxyProtocol.PNone (lit "b") Configured.

Lemma ensure_group_race_demotes_witness :
  let built := group_new no_override dns 5 traffic empty in
  let registered := ensure_group no_override dns 6 configured built.2 in
  (g_owner <$> groups registered.2 !! request_key no_override traffic) = Some Configured ∧
  (g_owner <$> groups (ensure_insert no_override traffic built.1 registered.2) !! request_key no_override traffic) = Some Runtime.
Proof.
  intros built registered.
  apply (ensure_group_race_demotes no_override dns 5 6 traffic configured empty empty_wf); vm_compute; reflexivity.
Defined.
End SelectExamples.
