(* ===== verification/ForwardTable.v ===== *)
(** * The group table over time (src/forward/mod.rs)

    What eviction may remove, and what survives any sequence of the
    operations that run while the proxy serves. *)

From S2P Require Import Prelude RustStd Net ProxyProtocol HostUtil Config RuntimeConfig Forward ForwardProps ForwardSelect.
Open Scope Z_scope.

(** ** Eviction by age *)

Lemma expired_keys_elem now p k :
  pools_wf p →
  k ∈ omap (λ '(_, g), if expired now g then Some (g_key g) else None) (map_to_list (groups p)) ↔
  ∃ g, groups p !! k = Some g ∧ expired now g = true.
Proof.
  intros Hw. rewrite list_elem_of_omap. split.
  - intros ([k' g] & Hin%elem_of_map_to_list & Hx). destruct (expired now g) eqn:E; [|done]. injection Hx as <-.
    rewrite (Hw k' g Hin). by exists g.
  - intros (g & Hg & E). exists (k, g). split; [by apply elem_of_map_to_list|]. rewrite E. f_equal. by apply Hw.
Qed.

Lemma evict_expired_lookup now p k :
  pools_wf p →
  groups (evict_expired_runtime_groups now p) !! k =
    match groups p !! k with Some g => if expired now g then None else Some g | None => None end.
Proof.
  intros Hw. unfold evict_expired_runtime_groups, remove_groups. rewrite groups_set, map_lookup_filter.
  destruct (groups p !! k) as [g|] eqn:Hg; [|done]. cbn [mbind option_bind]. pose proof (expired_keys_elem now p k Hw) as H.
  destruct (expired now g) eqn:E.
  - rewrite option_guard_False; [done|]. intros Hn. apply Hn, H. by exists g.
  - rewrite option_guard_True; [done|]. intros (g' & Hg' & E')%H. congruence.
Qed.

(** ** Eviction by number *)

Section evict_excess.

Lemma sorted_take_drop {A} (R : A → A → Prop) l d x y :
  StronglySorted R l → x ∈ take d l → y ∈ drop d l → R x y.
Proof.
  intros Hs. revert d. induction Hs as [|z l Hs IH Hz]; intros [|d] Hx Hy; try by apply not_elem_of_nil in Hx.
  cbn in Hx, Hy. apply elem_of_cons in Hx as [->|Hx]; [|by eapply IH].
  rewrite Forall_forall in Hz. apply Hz. rewrite <-(take_drop d l), elem_of_app; by right.
Qed.

Lemma elem_of_take_inv {A} (l : list A) d x : x ∈ take d l → x ∈ l.
Proof. intros Hx. rewrite <-(take_drop d l), elem_of_app. by left. Qed.

Lemma insert_activity_perm x l : insert_activity x l ≡ₚ x :: l.
Proof. induction l as [|y l IH]; cbn; [done|]. case_match; [done|]. rewrite IH. by rewrite Permutation_swap. Qed.

Lemma sort_activity_perm l : sort_activity l ≡ₚ l.
Proof. induction l as [|x l IH]; cbn; [done|]. by rewrite insert_activity_perm, IH. Qed.

Definition activity_le (x y : GroupKey * Z) : Prop := x.2 <= y.2.

Lemma insert_activity_sorted x l : StronglySorted activity_le l → StronglySorted activity_le (insert_activity x l).
Proof.
  induction 1 as [|y l Hs IH Hy]; cbn; [by repeat constructor|]. destruct (Z.leb_spec x.2 y.2) as [Hle|Hgt].
  - constructor; [by constructor|]. constructor; [done|]. eapply Forall_impl; [done|]. unfold activity_le. intros z Hz. lia.
  - constructor; [done|]. rewrite insert_activity_perm. constructor; [unfold activity_le; lia|done].
Qed.

Lemma sort_activity_sorted l : StronglySorted activity_le (sort_activity l).
Proof. induction l as [|x l IH]; cbn; [constructor|]. by apply insert_activity_sorted. Qed.

Lemma runtime_activity_elem p k t :
  pools_wf p →
  (k, t) ∈ runtime_activity (groups p) ↔
  ∃ g, groups p !! k = Some g ∧ g_owner g = Runtime ∧ t = g_last_activity_ms g.
Proof.
  intros Hw. unfold runtime_activity. rewrite list_elem_of_omap. split.
  - intros ([k' g] & Hin%elem_of_map_to_list & Hx). case_bool_decide; [|done]. injection Hx as <- <-.
    rewrite (Hw k' g Hin). by exists g.
  - intros (g & Hg & Ho & ->). exists (k, g). split; [by apply elem_of_map_to_list|].
    rewrite bool_decide_eq_true_2 by done. by rewrite (Hw k g Hg).
Qed.

Lemma runtime_activity_nodup p : pools_wf p → NoDup (map fst (runtime_activity (groups p))).
Proof.
  intros Hw. eapply (sublist_NoDup _ (map fst (map_to_list (groups p)))); [apply NoDup_fst_map_to_list|].
  unfold runtime_activity. assert (∀ k g, (k, g) ∈ map_to_list (groups p) → g_key g = k) as Hk.
  { intros k g Hin%elem_of_map_to_list. by apply Hw. }
  induction (map_to_list (groups p)) as [|[k g] l IH]; [constructor|]. cbn [omap list_omap].
  assert (∀ k g, (k, g) ∈ l → g_key g = k) as Hk' by (intros; apply Hk; by right). specialize (IH Hk').
  case_bool_decide; cbn [map fst].
  - rewrite (Hk k g) by left. by constructor.
  - by constructor.
Qed.

(** The groups to go: the oldest ones beyond the limit. *)
Definition excess (l : list (GroupKey * Z)) : nat := length l - RUNTIME_GROUP_MAX.

Lemma excess_runtime_groups_alt l :
  excess_runtime_groups_to_evict l = map fst (take (excess l) (sort_activity l)).
Proof.
  unfold excess_runtime_groups_to_evict, excess. case_match; [|done].
  replace (length l - RUNTIME_GROUP_MAX)%nat with 0%nat by (apply Nat.leb_le in H; lia). done.
Qed.

Lemma nodup_keys_split {K V} (l : list (K * V)) d k v :
  NoDup (map fst l) → (k, v) ∈ l ∧ (k ∉ map fst (take d l)) ↔ (k, v) ∈ drop d l.
Proof.
  intros Hn. rewrite <-(take_drop d l) in Hn at 1. rewrite <-(take_drop d l) at 1. rewrite map_app in Hn.
  apply NoDup_app in Hn as (_ & Hd & _). rewrite elem_of_app. split.
  - intros [[Ht|?] Hk]; [|done]. destruct Hk. by apply (list_elem_of_fmap_2 fst) in Ht.
  - intros Hin. split; [by right|]. intros Ht. apply (Hd _ Ht). by apply (list_elem_of_fmap_2 fst) in Hin.
Qed.

Lemma evict_excess_lookup p k g :
  groups (evict_excess_runtime_groups p) !! k = Some g ↔
  groups p !! k = Some g ∧ (k ∉ excess_runtime_groups_to_evict (runtime_activity (groups p))).
Proof. unfold evict_excess_runtime_groups, remove_groups. by rewrite groups_set, map_lookup_filter_Some. Qed.

Lemma evict_excess_wf p : pools_wf p → pools_wf (evict_excess_runtime_groups p).
Proof. intros Hw k g [Hg _]%evict_excess_lookup. by apply Hw. Qed.

(** What is left, as a list: all but the oldest. *)
Lemma evict_excess_activity p (l := runtime_activity (groups p)) :
  pools_wf p →
  runtime_activity (groups (evict_excess_runtime_groups p)) ≡ₚ drop (excess l) (sort_activity l).
Proof.
  intros Hw. pose proof (runtime_activity_nodup p Hw) as Hn.
  assert (NoDup (map fst (sort_activity l))) as Hs by by rewrite sort_activity_perm.
  apply NoDup_Permutation.
  - eapply (NoDup_fmap_1 fst), runtime_activity_nodup, evict_excess_wf, Hw.
  - eapply sublist_NoDup; [apply (NoDup_fmap_1 fst), Hs|]. apply sublist_drop.
  - intros [k t]. rewrite runtime_activity_elem by by apply evict_excess_wf.
    rewrite <-nodup_keys_split by done. rewrite sort_activity_perm at 1. unfold l at 1. rewrite runtime_activity_elem by done.
    rewrite <-excess_runtime_groups_alt. setoid_rewrite evict_excess_lookup. fold l. naive_solver.
Qed.

(** Eviction by number leaves at most [RUNTIME_GROUP_MAX] runtime groups
    (all of them if there were no more), removes the least recently active
    ones, and touches neither a configured group nor a remaining one. *)
Theorem evict_excess_correct p (p' := evict_excess_runtime_groups p) :
  pools_wf p →
  length (runtime_activity (groups p')) = Nat.min (length (runtime_activity (groups p))) RUNTIME_GROUP_MAX ∧
  groups p' ⊆ groups p ∧
  (∀ k g, groups p !! k = Some g → groups p' !! k = None →
     g_owner g = Runtime ∧
     ∀ k' g', groups p' !! k' = Some g' → g_owner g' = Runtime → g_last_activity_ms g <= g_last_activity_ms g').
Proof.
  intros Hw. set (l := runtime_activity (groups p)). split_and!.
  - unfold p'. rewrite evict_excess_activity by done. fold l. rewrite length_drop, sort_activity_perm. unfold excess. lia.
  - apply map_subseteq_spec. intros k g [Hg _]%evict_excess_lookup. done.
  - intros k g Hg Hnone. assert (k ∈ excess_runtime_groups_to_evict l) as Hk.
    { apply dec_stable. intros Hk. assert (groups p' !! k = Some g) by by apply evict_excess_lookup. congruence. }
    rewrite excess_runtime_groups_alt in Hk. apply list_elem_of_fmap in Hk as ([k2 t] & -> & Ht). cbn [fst] in *.
    assert ((k2, t) ∈ l) as Hl. { rewrite <-(sort_activity_perm l). by eapply elem_of_take_inv. }
    apply runtime_activity_elem in Hl as (g2 & Hg2 & Ho & ->); [|done]. replace g2 with g in * by congruence. split; [done|].
    intros k' g' Hg' Ho'. assert ((k', g_last_activity_ms g') ∈ drop (excess l) (sort_activity l)) as Hd.
    { unfold l. rewrite <-evict_excess_activity by done. apply runtime_activity_elem; [by apply evict_excess_wf|]. by exists g'. }
    eapply (sorted_take_drop activity_le (sort_activity l) (excess l) (k2, _) (k', _)); [apply sort_activity_sorted|done..].
Qed.

End evict_excess.

(** A table over the limit: [n] runtime groups and a configured one. *)
Definition numbered_group (o : Owner) (i : Z) : MonitorGroup :=
  MkGroup (MkGroupKey (show_dec i) false false ProxyProtocol.PNone) (show_dec i) (show_dec i) 80 (show_dec i) o [] i 0.
Definition crowded : Pools :=
  MkPools ∅ ∅ (list_to_map (map (λ i, let g := numbered_group (if i =? 0 then Configured else Runtime) i in (g_key g, g))
    (seqZ 0 1003))) ∅ ∅ [].

Lemma crowded_wf : pools_wf crowded.
Proof.
  change (map_Forall (λ k g, g_key g = k) (groups crowded)). apply (bool_decide_unpack _). vm_compute. exact I.
Qed.

Lemma evict_excess_correct_witness :
  length (runtime_activity (groups crowded)) = 1002%nat ∧
  length (runtime_activity (groups (evict_excess_runtime_groups crowded))) =
    Nat.min (length (runtime_activity (groups crowded))) RUNTIME_GROUP_MAX.
Proof.
  split; [vm_compute; reflexivity|]. pose proof (evict_excess_correct crowded crowded_wf) as H. cbv zeta in H.
  destruct H as [H _]. exact H.
Defined.
