(* ===== verification/Health.v ===== *)
(** * Health checks and configured targets (src/forward/health.rs)

    Registration of the backends a configuration names ([bind_*],
    [configure_health_checks]), release of the ones it no longer names, the
    collection of probe results ([check_jobs]) and the probe verdicts.  The
    network is explicit: a probe is what connect, TLS handshake and response
    gave, the results of a round arrive as a list in arrival order that the
    deadline may cut short. *)

From S2P Require Import Prelude RustStd Net ProxyProtocol HostUtil BindAddr Config RuntimeConfig Forward ForwardProps ForwardSelect ForwardTable.
Open Scope Z_scope.

(** ** Operations *)

Definition matcher_label (m : HostMatcher) : bytes :=
  join (lit ", ") (exact m ++ map (λ v, lit "*." ++ trim_start_char DOT v) (suffix m)
                   ++ map (λ v, [SLASH] ++ v ++ [SLASH]) (patterns m)).

(** The text of a binding. *)
Definition transport_label (tls : bool) : bytes := if tls then lit "tls" else lit "plaintext".
Definition load_balancing_label (lb : HttpLoadBalancing) : bytes :=
  match lb with RoundRobin => lit "round_robin" | ClientIpHash => lit "client_ip_hash" end.

Inductive bind_error := BadTargets (e : Targets.target_error) | BadTargetPort.

Section binding.
Context (override : bytes → Z → option bytes) (lookup_host : bytes → option (list SocketAddr)) (now : Z).

(** [ensure_group] for a configured backend, then its binding. *)
Definition bind_group (r : GroupRequest) (listener host path backend : bytes) (lb : HttpLoadBalancing) (p : Pools)
  : GroupKey * Pools :=
  let '(g, p) := ensure_group override lookup_host now r p in
  (g_key g,
   set_bindings (bindings p ++ [MkBinding (g_key g) listener host path backend (transport_label (rq_upstream_tls r))
                                  (load_balancing_label lb)]) p).

Definition http_request (a : HttpRouteAction) (b : HttpBackend) : GroupRequest :=
  let requested := parse_or_default (address b) (ra_target_port a) in
  MkRequest (hp_to_string requested) (hp_host requested) (hp_port requested) (bool_decide (transport b = Tls)) true
    (ra_proxy_protocol a) (default (hp_host requested) (tls_server_name b)) Configured.

(** The action's own backends, then those of its reverse-proxied paths. *)
Fixpoint bind_http_action (listener host path : bytes) (a : HttpRouteAction) (p : Pools) : Pools :=
  let p := foldl (λ p b, (bind_group (http_request a b) listener host path (address b) (ra_load_balancing a) p).2) p (backends a) in
  let '(MkRouteAction _ _ _ _ _ _ _ _ paths _) := a in
  (fix go rs p :=
     match rs with
     | [] => p
     | MkPathRoute prefix _ _ action :: rs =>
         go rs (match action with
                | PathReverseProxy action => bind_http_action listener host prefix action p
                | PathStaticFiles _ _ _ => p
                end)
     end) paths p.

Definition l4_backends (a : TlsRouteAction) : option (bytes * Z * bool * HttpLoadBalancing * ProxyProtocol.ProxyProtocol) :=
  match a with
  | Passthrough port (Some target) lb pp => Some (target, port, true, lb, pp)
  | Terminate port (Some target) upstream lb pp => Some (target, port, bool_decide (upstream = Tls), lb, pp)
  | _ => None
  end.

Definition probe_server_name (m : HostMatcher) (backend_host : bytes) : bytes :=
  match exact m with e :: _ => e | [] => backend_host end.

Definition l4_request (m : HostMatcher) (default_port : Z) (tls : bool) (pp : ProxyProtocol.ProxyProtocol) (target : bytes)
  : GroupRequest :=
  let requested := parse_or_default target default_port in
  MkRequest (hp_to_string requested) (hp_host requested) (hp_port requested) tls false pp
    (probe_server_name m (hp_host requested)) Configured.

(** The loop over the targets stops at the first one with port 0. *)
Fixpoint bind_l4_targets (listener host : bytes) (m : HostMatcher) (default_port : Z) (tls : bool) (lb : HttpLoadBalancing)
  (pp : ProxyProtocol.ProxyProtocol) (ts : list bytes) (p : Pools) : result bind_error () * Pools :=
  match ts with
  | [] => (Ok (), p)
  | t :: ts =>
      let r := l4_request m default_port tls pp t in
      if rq_port r =? 0 then (Err BadTargetPort, p)
      else bind_l4_targets listener host m default_port tls lb pp ts (bind_group r listener host [] t lb p).2
  end.

Definition bind_l4_route (listener : bytes) (m : HostMatcher) (a : TlsRouteAction) (p : Pools) : result bind_error () * Pools :=
  match l4_backends a with
  | None => (Ok (), p)
  | Some (targets, default_port, tls, lb, pp) =>
      match Targets.parse_targets targets with
      | Err e => (Err (BadTargets e), p)
      | Ok ts => bind_l4_targets listener (matcher_label m) m default_port tls lb pp ts p
      end
  end.

(** A configured group that no binding names goes back to the traffic. *)
Definition release_unreferenced_groups (p : Pools) : Pools :=
  set_groups ((λ g, if bool_decide (g_key g ∈ map hb_group (bindings p)) then g
                    else if bool_decide (g_owner g = Configured) then with_owner Runtime g else g) <$> groups p) p.

Fixpoint bind_forward_targets (listener : bytes) (c : RawForwardListenerConfig) (ts : list bytes) (p : Pools)
  : list GroupKey * Pools :=
  match ts with
  | [] => ([], p)
  | t :: ts =>
      let r := listener_request (rf_upstream_tls c) (rf_proxy_protocol c) t in
      let '(key, p) := bind_group r listener [] [] t (rf_load_balancing c) p in
      let '(keys, p) := bind_forward_targets listener c ts p in
      (key :: keys, p)
  end.

Definition bind_forward_listener (listener : bytes) (c : RawForwardListenerConfig) (p : Pools) : result bind_error () * Pools :=
  match Targets.parse_targets (rf_targets c) with
  | Err e => (Err (BadTargets e), p)
  | Ok ts =>
      let '(keys, p) := bind_forward_targets listener c ts p in
      (Ok (), set_forward_listeners (<[listener := keys]> (forward_listeners p)) p)
  end.

(** [for x in l { f(x).await?; }]: the effects up to the first error stay. *)
Fixpoint each {A} (f : A → Pools → result bind_error () * Pools) (l : list A) (p : Pools) : result bind_error () * Pools :=
  match l with
  | [] => (Ok (), p)
  | x :: l =>
      match f x p with
      | (Ok _, p) => each f l p
      | (Err e, p) => (Err e, p)
      end
  end.

Definition bind_tls_route (listener : bytes) (route : TlsHostRoute) (p : Pools) : result bind_error () * Pools :=
  match tls_action route with
  | TlsReverseProxy action => (Ok (), bind_http_action listener (matcher_label (tls_matcher route)) (lit "/") action p)
  | action => bind_l4_route listener (tls_matcher route) action p
  end.

Definition bind_listener (disabled : list bytes) (entry : bytes * AdditionalListenerConfig) (p : Pools)
  : result bind_error () * Pools :=
  let '(listener, configured) := entry in
  if bool_decide (listener ∈ disabled) then (Ok (), p)
  else match configured with
  | TlsListener value => each (bind_tls_route listener) (routes (routing value)) p
  | HttpListener value =>
      each (λ route p, (Ok (), bind_http_action listener (matcher_label (http_matcher route)) (lit "/") (http_action route) p))
        (hl_routes value) p
  | ForwardListener value => bind_forward_listener listener value p
  | RedirectListener _ => (Ok (), p)
  end.

Definition configure_health_checks (c : RuntimeConfig) (p : Pools) : result bind_error () * Pools :=
  let p := set_bindings [] p in
  match each (bind_tls_route DEFAULT_LISTENER_NAME) (routes (ordinary_traffic (default_listener c))) p with
  | (Err e, p) => (Err e, p)
  | (Ok _, p) =>
      match each (bind_listener (disabled_listeners c)) (additional_listeners c) p with
      | (Err e, p) => (Err e, p)
      | (Ok _, p) => (Ok (), release_unreferenced_groups p)
      end
  end.

(** [apply_hot_listener_settings]: re-register the forward listeners, then
    the health checks. *)
Definition apply_hot_listener_settings (c : RuntimeConfig) (p : Pools) : result bind_error () * Pools :=
  match each (λ '(name, l) p,
          if bool_decide (name ∈ disabled_listeners c) then (Ok (), p)
          else match l with
          | ForwardListener l =>
              match register_forward_listener override lookup_host now name (rf_targets l) (rf_upstream_tls l)
                      (rf_proxy_protocol l) p with
              | (Ok _, p) => (Ok (), p)
              | (Err e, p) => (Err (BadTargets e), p)
              end
          | _ => (Ok (), p)
          end) (additional_listeners c) p with
  | (Ok _, p) => configure_health_checks c p
  | (Err e, p) => (Err e, p)
  end.

End binding.

(** ** Configured groups are the bound ones *)

Definition bound (p : Pools) : Prop :=
  ∀ b, b ∈ bindings p → ∃ g, groups p !! hb_group b = Some g ∧ g_owner g = Configured.

(** What every binding operation does to the tables. *)
Definition binds (p p' : Pools) : Prop := pools_wf p → pools_grow p p' ∧ (bound p → bound p').

Lemma binds_refl p : binds p p.
Proof. intros Hw. split; [by apply pools_grow_refl|done]. Qed.

Lemma binds_trans p1 p2 p3 : binds p1 p2 → binds p2 p3 → binds p1 p3.
Proof.
  intros H1 H2 Hw. destruct (H1 Hw) as [G1 B1]. destruct (H2 (proj1 G1)) as [G2 B2].
  split; [by eapply pools_grow_trans|auto].
Qed.

Lemma bound_grow p p' : pools_grow p p' → bound p → bindings p' = bindings p → bound p'.
Proof.
  intros [_ G] B E b. rewrite E. intros Hb. destruct (B b Hb) as (g & Hg & Ho).
  destruct (G _ g Hg) as (g' & Hg' & _ & _ & _ & _ & Hc). exists g'. auto.
Qed.

Section binding_facts.
Context (override : bytes → Z → option bytes) (lookup_host : bytes → option (list SocketAddr)) (now : Z).

Lemma ensure_group_bindings r p : bindings (ensure_group override lookup_host now r p).2 = bindings p.
Proof.
  unfold ensure_group, ensure_lookup, group_new, reconcile_endpoints, resolve_effective_endpoints.
  repeat case_match; simplify_eq; done.
Qed.

Lemma bind_group_binds r listener host path backend lb p :
  rq_owner r = Configured → binds p (bind_group override lookup_host now r listener host path backend lb p).2.
Proof.
  intros Ho Hw. unfold bind_group. pose proof (ensure_group_bindings r p) as Hb.
  destruct (ensure_group_spec override lookup_host now r p Hw) as (Hgs & G & Hk & Hc & _).
  destruct (ensure_group override lookup_host now r p) as [g p1]. cbn [fst snd] in *.
  split; [done|]. intros B b. cbn [bindings set_bindings]. rewrite elem_of_app, list_elem_of_singleton.
  intros [Hin| ->].
  - by apply (bound_grow p p1 G B Hb).
  - exists g. cbn. rewrite Hgs, Hk, lookup_insert_eq. auto.
Qed.

Lemma each_binds {A} (f : A → Pools → result bind_error () * Pools) l p :
  (∀ x p, binds p (f x p).2) → binds p (each f l p).2.
Proof.
  intros Hf. revert p. induction l as [|x l IH]; intros p; cbn; [apply binds_refl|].
  pose proof (Hf x p) as Hx. destruct (f x p) as [[u|e] p1]; [|done]. by eapply binds_trans.
Qed.

Lemma foldl_binds {A} (f : Pools → A → Pools) l p : (∀ p x, binds p (f p x)) → binds p (foldl f p l).
Proof.
  intros Hf. revert p. induction l as [|x l IH]; intros p; cbn; [apply binds_refl|]. by eapply binds_trans.
Qed.

Lemma bind_http_action_binds listener host : ∀ a path p,
  binds p (bind_http_action override lookup_host now listener host path a p).
Proof.
  fix IH 1. intros a path p. destruct a as [behavior port target upstream bs lb pp hh paths redirect].
  cbn [bind_http_action].
  match goal with |- context [foldl ?f p ?l] =>
    assert (binds p (foldl f p l)) as Hq by (apply foldl_binds; intros q b; by apply bind_group_binds);
    generalize dependent (foldl f p l) end.
  intros q Hq. eapply binds_trans; [exact Hq|]. clear Hq. revert q.
  induction paths as [|[prefix strip auth act] rs IHrs]; intros q; [apply binds_refl|].
  eapply binds_trans; [|apply IHrs]. destruct act as [action|]; [apply IH|apply binds_refl].
Qed.

Lemma bind_l4_route_binds listener m a p : binds p (bind_l4_route override lookup_host now listener m a p).2.
Proof.
  unfold bind_l4_route. destruct (l4_backends a) as [[[[[targets port] tls] lb] pp]|]; [|apply binds_refl].
  destruct (Targets.parse_targets targets) as [ts|e]; [|apply binds_refl].
  revert p. induction ts as [|t ts IH]; intros p; cbn [bind_l4_targets]; [apply binds_refl|].
  case_match; [apply binds_refl|]. eapply binds_trans; [|apply IH]. by apply bind_group_binds.
Qed.

Lemma bind_tls_route_binds listener route p : binds p (bind_tls_route override lookup_host now listener route p).2.
Proof.
  unfold bind_tls_route. destruct (tls_action route); try apply bind_l4_route_binds. apply bind_http_action_binds.
Qed.

Lemma bind_forward_listener_binds listener c p :
  binds p (bind_forward_listener override lookup_host now listener c p).2.
Proof.
  unfold bind_forward_listener. destruct (Targets.parse_targets (rf_targets c)) as [ts|e]; [|apply binds_refl].
  assert (binds p (bind_forward_targets override lookup_host now listener c ts p).2) as H.
  { revert p. induction ts as [|t ts IH]; intros p; cbn [bind_forward_targets]; [apply binds_refl|].
    pose proof (bind_group_binds (listener_request (rf_upstream_tls c) (rf_proxy_protocol c) t) listener [] [] t
      (rf_load_balancing c) p eq_refl) as Hb. destruct (bind_group _ _ _ _ _ _ _ _ _ _) as [k p1].
    specialize (IH p1). destruct (bind_forward_targets _ _ _ _ _ _ _) as [ks p2]. by eapply binds_trans. }
  destruct (bind_forward_targets _ _ _ _ _ _ _) as [ks p2]. exact H.
Qed.

Lemma bind_listener_binds disabled entry p : binds p (bind_listener override lookup_host now disabled entry p).2.
Proof.
  unfold bind_listener. destruct entry as [listener [value|value|value|value]]; case_bool_decide; try apply binds_refl.
  - apply each_binds. intros. apply bind_tls_route_binds.
  - apply each_binds. intros. apply bind_http_action_binds.
  - apply bind_forward_listener_binds.
Qed.

(** After a configuration is applied, the configured groups are exactly
    the ones a health binding names: every bound backend is in the table and
    safe from the idle TTL, every group no binding names is left to the
    traffic; no group is lost and the health states survive. *)
Theorem configured_iff_bound c p p' :
  pools_wf p → configure_health_checks override lookup_host now c p = (Ok (), p') →
  pools_wf p' ∧
  (∀ b, b ∈ bindings p' → is_Some (groups p' !! hb_group b)) ∧
  (∀ k g, groups p' !! k = Some g → (g_owner g = Configured ↔ ∃ b, b ∈ bindings p' ∧ hb_group b = k)) ∧
  (∀ k g, groups p !! k = Some g → ∃ g', groups p' !! k = Some g' ∧ g_endpoints g' = g_endpoints g).
Proof.
  intros Hw. unfold configure_health_checks.
  assert (binds (set_bindings [] p) (set_bindings [] p)) as B0 by apply binds_refl.
  pose proof (each_binds (bind_tls_route override lookup_host now DEFAULT_LISTENER_NAME)
    (routes (ordinary_traffic (default_listener c))) (set_bindings [] p) (bind_tls_route_binds _)) as B1.
  destruct (each _ _ (set_bindings [] p)) as [[[]|e] p1]; [|done].
  pose proof (each_binds (bind_listener override lookup_host now (disabled_listeners c)) (additional_listeners c) p1
    (bind_listener_binds _)) as B2.
  destruct (each _ _ p1) as [[[]|e] p2]; [|done]. intros [= <-].
  destruct (binds_trans _ _ _ B1 B2 Hw) as [[Hw2 G] B]. clear B0 B1 B2. cbn [snd] in *.
  specialize (B ltac:(by intros b Hb%not_elem_of_nil)).
  unfold release_unreferenced_groups. set (release := λ g, if bool_decide _ then g else _).
  assert (∀ g, g_key (release g) = g_key g ∧ g_endpoints (release g) = g_endpoints g) as Hrel.
  { intros g. unfold release. by repeat case_bool_decide. }
  split_and!.
  - intros k g. rewrite groups_set, lookup_fmap_Some. intros (g0 & <- & Hg0). rewrite (proj1 (Hrel g0)). by apply Hw2.
  - intros b Hb. cbn in Hb. destruct (B b Hb) as (g & Hg & _). rewrite groups_set, lookup_fmap, Hg. by eexists.
  - intros k g. rewrite groups_set, lookup_fmap_Some. intros (g0 & <- & Hg0). pose proof (Hw2 k g0 Hg0) as Hk.
    unfold release. rewrite Hk. cbn [bindings set_groups]. case_bool_decide as Hin.
    + apply list_elem_of_fmap in Hin as (b & -> & Hb). split; [eauto|]. intros _.
      destruct (B b Hb) as (g1 & Hg1 & Ho). congruence.
    + split; [|intros (b & Hb & <-); destruct Hin; by apply list_elem_of_fmap_2]. case_bool_decide as Ho; [done|]. done.
  - intros k g Hg. destruct (G k g Hg) as (g' & Hg' & _ & He & _). exists (release g'). rewrite groups_set, lookup_fmap, Hg'.
    split; [done|]. by rewrite (proj2 (Hrel g')).
Qed.

End binding_facts.

(** ** The bound groups are the ones traffic uses *)

Section l4_agreement.
Context (override : bytes → Z → option bytes) (lookup_host : bytes → option (list SocketAddr)) (now : Z).

Lemma parse_or_default_Ok s port hp : from_str s = Ok hp → parse_or_default s port = hp.
Proof. unfold parse_or_default. by intros ->. Qed.

(** The keys the probe loop registers for a layer-4 route are the keys
    selection looks its targets up under, in the same order. *)
Lemma l4_keys_agree m sni port tls pp targets ts :
  Forall (λ t, utf8_valid t = true) (Targets.pieces targets) → Targets.parse_targets targets = Ok ts →
  map (λ t, request_key override (l4_request m port tls pp t)) ts =
    map (request_key override) (pool_requests sni port tls pp (Targets.pieces targets)).1 ∧
  (pool_requests sni port tls pp (Targets.pieces targets)).2 = true ∧
  Forall (λ t, rq_port (l4_request m port tls pp t) ≠ 0) ts.
Proof.
  intros Hv H%Targets.parse_targets_spec. destruct H as [_ H]. revert Hv.
  induction H as [|piece t ps ts (_ & _ & hp & Hf & Hp & ->) _ IH]; intros Hv; [done|].
  apply Forall_cons in Hv as [Hv Hvs]. destruct (IH Hvs) as (IH1 & IH2 & IH3).
  destruct (from_str_host_wf _ _ Hv Hf) as [Hh Hu]. pose proof (from_str_to_string hp Hh Hu) as Hrt.
  cbn [pool_requests]. rewrite (parse_or_default_Ok piece port hp Hf), (proj2 (Z.eqb_neq _ _) Hp).
  destruct (pool_requests sni port tls pp ps) as [rs ok]. cbn [fst snd map] in *. subst. split_and!; [|done|].
  - rewrite <-IH1. f_equal. unfold l4_request. by rewrite (parse_or_default_Ok _ port hp Hrt).
  - constructor; [|done]. unfold l4_request. by rewrite (parse_or_default_Ok _ port hp Hrt).
Qed.

(** A layer-4 target given as a bare host (which the data plane completes
    with the route's port, and validation admits) cannot be bound: applying a
    configuration with such a route fails at the health checks. *)
Theorem l4_bare_host_unbindable canonicalize is_dir a targets port tls lb pp t e listener m p :
  l4_backends a = Some (targets, port, tls, lb, pp) → port ≠ 0 →
  Targets.pieces targets = [t] → from_str t = Err e →
  validate_tls_action canonicalize is_dir a = Ok () ∧
  (∀ sni, (pool_requests sni port tls pp (Targets.pieces targets)).2 = true) ∧
  ∃ e', (bind_l4_route override lookup_host now listener m a p).1 = Err (BadTargets e').
Proof.
  intros Ha Hport Hp He. split_and!.
  - unfold l4_backends in Ha. destruct a as [p0 [t0|]|p0 [t0|] u|act|]; simplify_eq; unfold validate_tls_action; cbn;
      by rewrite bool_decide_eq_false_2 by congruence.
  - intros sni. rewrite Hp. cbn. unfold parse_or_default. rewrite He. cbn. by rewrite (proj2 (Z.eqb_neq _ _) Hport).
  - unfold bind_l4_route. rewrite Ha. unfold Targets.parse_targets. rewrite Hp. cbn. unfold Targets.parse_target.
    rewrite He. destruct (contains_whitespace t), (Targets.has_scheme t); cbn; eauto.
Qed.

End l4_agreement.

Lemma l4_bare_host_unbindable_witness :
  validate_tls_action (λ r, Some r) (λ _, true) (Passthrough 443 (Some (lit "origin")) RoundRobin ProxyProtocol.PNone) = Ok ().
Proof.
  apply (l4_bare_host_unbindable (λ _ _, None) (λ _, None) 0 (λ r, Some r) (λ _, true) (Passthrough 443 (Some (lit "origin")) RoundRobin ProxyProtocol.PNone)
    (lit "origin") 443 true RoundRobin ProxyProtocol.PNone (lit "origin") (UnsupportedSpec (lit "origin")) [] (MkMatcher [] [] [])
    SelectExamples.empty); [reflexivity|lia|reflexivity|vm_compute; reflexivity].
Defined.

(** ** Probing *)

(** [probe_http]: what writing the request and the first read gave. *)
Definition probe_http (write_ok : bool) (response : option bytes) : bool :=
  write_ok &&
  match response with
  | Some r =>
      match split_ascii_whitespace (from_utf8_lossy r) !! 1%nat ≫= parse_u16 with
      | Some status => (100 <=? status) && (status <? 500)
      | None => false
      end
  | None => false
  end.

(** [probe]: connect, announcement, TLS handshake (with a usable server
    name), response. *)
Record ProbeOutcome := MkProbe {
  po_connected : bool;
  po_announced : bool;
  po_server_name_ok : bool;
  po_handshake_ok : bool;
  po_write_ok : bool;
  po_response : option bytes;
}.
Definition probe (upstream_tls http_health : bool) (o : ProbeOutcome) : bool :=
  po_connected o && po_announced o &&
  (if upstream_tls then
     po_server_name_ok o && po_handshake_ok o && (negb http_health || probe_http (po_write_ok o) (po_response o))
   else negb http_health || probe_http (po_write_ok o) (po_response o)).

(** [MonitorGroup::set_endpoint_state] of a group of the table. *)
Definition state_changes (endpoint : bytes) (online : bool) (es : list EndpointState) : bool :=
  match List.find (λ e, eqb_bytes (ep_endpoint e) endpoint) es with
  | Some e => negb (bool_decide (ep_online e = Some online))
  | None => false
  end.
Definition set_endpoint_state (now : Z) (k : GroupKey) (endpoint : bytes) (online : bool) (p : Pools) : Pools :=
  match groups p !! k with
  | None => p
  | Some g =>
      let p' := set_groups (<[k := with_endpoints (set_state now endpoint online (g_endpoints g)) g]> (groups p)) p in
      if state_changes endpoint online (g_endpoints g) then publish_configured_statuses now p' else p'
  end.

Definition Job := (GroupKey * bytes)%type.

(** The receive loop: results in arrival order; the list ends where the
    channel closes or the deadline fires. *)
Fixpoint receive (now : Z) (expected : nat) (checked : gset Job) (results : list (Job * bool)) (p : Pools)
  : gset Job * Pools :=
  match results with
  | [] => (checked, p)
  | (job, online) :: results =>
      let checked := {[job]} ∪ checked in
      let p := set_endpoint_state now job.1 job.2 online p in
      if (size checked =? expected)%nat then (checked, p) else receive now expected checked results p
  end.

(** The jobs not heard from are down. *)
Fixpoint mark_silent (now : Z) (checked : gset Job) (jobs : list Job) (p : Pools) : Pools :=
  match jobs with
  | [] => p
  | job :: jobs =>
      mark_silent now checked jobs
        (if bool_decide (job ∈ checked) then p else set_endpoint_state now job.1 job.2 false p)
  end.

Definition check_jobs (now : Z) (jobs : list Job) (results : list (Job * bool)) (p : Pools) : Pools :=
  let '(checked, p) := receive now (length jobs) ∅ results p in
  publish_configured_statuses now (mark_silent now checked jobs p).

(** The probe loop's round: evict, re-resolve each group, probe all. *)
Fixpoint reconcile_all (lookup_host : bytes → option (list SocketAddr)) (now : Z) (ks : list GroupKey) (p : Pools)
  : list Job * Pools :=
  match ks with
  | [] => ([], p)
  | k :: ks =>
      match groups p !! k with
      | None => reconcile_all lookup_host now ks p
      | Some g =>
          let '(g, p) := reconcile_endpoints lookup_host now g p in
          let p := set_groups (<[k := g]> (groups p)) p in
          let '(jobs, p) := reconcile_all lookup_host now ks p in
          (map (λ e, (g_key g, ep_endpoint e)) (g_endpoints g) ++ jobs, p)
      end
  end.
Definition check_all_once (lookup_host : bytes → option (list SocketAddr)) (now : Z) (results : list (Job * bool))
  (p : Pools) : Pools :=
  let p := evict_excess_runtime_groups (evict_expired_runtime_groups now p) in
  let '(jobs, p) := reconcile_all lookup_host now (map fst (map_to_list (groups p))) p in
  check_jobs now jobs results p.

(** The control plane's view: one row per endpoint of each binding. *)
Record HealthCheckTarget := MkTarget { ht_binding : HealthBinding; ht_state : EndpointState }.
Definition target_key (t : HealthCheckTarget) : list bytes :=
  [hb_listener (ht_binding t); hb_host (ht_binding t); hb_backend (ht_binding t); ep_endpoint (ht_state t)].
Definition target_rows (p : Pools) : list HealthCheckTarget :=
  bindings p ≫= λ b, match groups p !! hb_group b with
                     | Some g => map (MkTarget b) (g_endpoints g)
                     | None => []
                     end.

(** Tuples compare component by component. *)
Fixpoint keys_le (a b : list bytes) : bool :=
  match a, b with
  | x :: a, y :: b => if eqb_bytes x y then keys_le a b else bytes_le x y
  | [], _ => true
  | _, [] => false
  end.
Fixpoint insert_target (t : HealthCheckTarget) (l : list HealthCheckTarget) : list HealthCheckTarget :=
  match l with
  | [] => [t]
  | u :: l' => if keys_le (target_key t) (target_key u) then t :: l else u :: insert_target t l'
  end.
Definition health_check_targets (p : Pools) : list HealthCheckTarget := foldr insert_target [] (target_rows p).

(** *** The verdicts of a round *)

(** The state a group holds for an endpoint name. *)
Definition state_in (p : Pools) (job : Job) : option (option bool) :=
  g ← groups p !! job.1; e ← List.find (λ e, eqb_bytes (ep_endpoint e) job.2) (g_endpoints g); Some (ep_online e).

Lemma find_set_state now e' b es e :
  ep_online <$> List.find (λ x, eqb_bytes (ep_endpoint x) e) (set_state now e' b es) =
  if decide (e = e') then (λ _, Some b) <$> List.find (λ x, eqb_bytes (ep_endpoint x) e) es
  else ep_online <$> List.find (λ x, eqb_bytes (ep_endpoint x) e) es.
Proof.
  induction es as [|x es IH]; cbn; [by case_decide|]. unfold eqb_bytes in *.
  repeat (case_bool_decide || case_decide); subst; cbn in *; repeat (case_bool_decide || case_decide); cbn; try congruence; done.
Qed.

Lemma state_in_set now k e b p job :
  state_in (set_endpoint_state now k e b p) job =
  if decide (job = (k, e)) then (λ _, Some b) <$> state_in p job else state_in p job.
Proof.
  destruct job as [k' e']. unfold state_in, set_endpoint_state. cbn [fst snd].
  destruct (groups p !! k) as [g|] eqn:Hg.
  2: { case_decide; simplify_eq; [|done]. by rewrite Hg. }
  set (p' := set_groups _ p). assert (∀ c : bool, groups (if c then publish_configured_statuses now p' else p') = groups p') as -> by by intros [].
  unfold p'. rewrite groups_set. destruct (decide (k' = k)) as [->|Hk].
  - rewrite lookup_insert_eq, Hg. cbn. pose proof (find_set_state now e b (g_endpoints g) e') as H.
    destruct (List.find _ (set_state _ _ _ _)), (List.find _ (g_endpoints g)); repeat case_decide; simplify_eq/=; try done; congruence.
  - rewrite lookup_insert_ne by done. by rewrite decide_False by congruence.
Qed.

(** With reports for distinct jobs the loop stops early only when every job
    has reported, so all of them are processed. *)
Lemma receive_spec now jobs checked results p :
  NoDup jobs → NoDup (elements checked ++ map fst results) → (∀ j, j ∈ elements checked ++ map fst results → j ∈ jobs) →
  let '(checked', p') := receive now (length jobs) checked results p in
  (∀ j, j ∈ checked' ↔ j ∈ checked ∨ j ∈ map fst results) ∧
  (∀ j, state_in p' j = match assoc j results with Some b => (λ _, Some b) <$> state_in p j | None => state_in p j end).
Proof.
  intros Hj. revert checked p. induction results as [|[j b] rs IH]; intros checked p Hn Hin; cbn [receive].
  { split; [|done]. intros j. cbn. set_solver. }
  assert (j ∉ checked) as Hnew.
  { apply NoDup_app in Hn as (_ & Hd & _). intros Hc%elem_of_elements. apply (Hd j Hc). left. }
  assert (elements ({[j]} ∪ checked) ≡ₚ j :: elements checked) as Hel by by apply elements_union_singleton.
  assert (NoDup (elements ({[j]} ∪ checked) ++ map fst rs)) as Hn'.
  { rewrite Hel. cbn in Hn |- *. by rewrite <-Permutation_middle in Hn. }
  assert (∀ x, x ∈ elements ({[j]} ∪ checked) ++ map fst rs → x ∈ jobs) as Hin'.
  { intros x. rewrite Hel. intros Hx. apply Hin. cbn. rewrite <-Permutation_middle. done. }
  set (p1 := set_endpoint_state now j.1 j.2 b p).
  assert (∀ x, state_in p1 x = if decide (x = j) then (λ _, Some b) <$> state_in p x else state_in p x) as Hp1.
  { intros x. unfold p1. rewrite state_in_set. by destruct j. }
  assert (assoc j rs = None) as Hjr.
  { apply NoDup_app in Hn as (_ & _ & Hn). cbn in Hn. apply NoDup_cons in Hn as [Hni _].
    destruct (assoc j rs) as [v|] eqn:E; [|done]. apply assoc_elem_of in E. destruct Hni. by apply (list_elem_of_fmap_2 fst) in E. }
  destruct (Nat.eqb_spec (size ({[j]} ∪ checked)) (length jobs)) as [Hsz|Hsz].
  - assert (map fst rs = []) as Hrs.
    { apply (NoDup_submseteq _ jobs) in Hn' as Hsub; [|done]. apply submseteq_length in Hsub. rewrite length_app in Hsub.
      unfold size, set_size in Hsz. cbn in Hsz. destruct (map fst rs); [done|]. cbn in Hsub. lia. }
    destruct rs; [|done]. split; [intros x; cbn; set_solver|]. intros x. rewrite Hp1. cbn. by case_decide.
  - specialize (IH _ p1 Hn' Hin'). destruct (receive now (length jobs) _ rs p1) as [checked' p']. destruct IH as [IH1 IH2]. split.
    + intros x. rewrite IH1. cbn. set_solver.
    + intros x. rewrite IH2, Hp1. cbn [assoc]. destruct (decide (x = j)) as [->|Hne]; [by rewrite Hjr|]. done.
Qed.

Lemma mark_silent_spec now checked jobs p j :
  state_in (mark_silent now checked jobs p) j =
  if decide (j ∈ jobs ∧ j ∉ checked) then (λ _, Some false) <$> state_in p j else state_in p j.
Proof.
  revert p. induction jobs as [|x jobs IH]; intros p; cbn [mark_silent]; [by rewrite decide_False by set_solver|].
  rewrite IH. case_bool_decide as Hx.
  - destruct (decide (j ∈ jobs ∧ j ∉ checked)) as [?|Hn]; [by rewrite decide_True by set_solver|].
    rewrite decide_False; [done|]. intros [[->|?]%elem_of_cons ?]; [done|]. by destruct Hn.
  - rewrite state_in_set. destruct x as [k e]. cbn [fst snd]. destruct (decide (j = (k, e))) as [->|Hne].
    + rewrite (decide_True (P := (k, e) ∈ (k, e) :: jobs ∧ _)) by set_solver. case_decide; [|done]. by destruct (state_in p (k, e)).
    + destruct (decide (j ∈ jobs ∧ j ∉ checked)) as [?|Hn]; [by rewrite decide_True by set_solver|].
      rewrite decide_False; [done|]. intros [[->|?]%elem_of_cons ?]; [done|]. by destruct Hn.
Qed.

Lemma state_in_publish now p j : state_in (publish_configured_statuses now p) j = state_in p j.
Proof. done. Qed.

(** After a probe round every probed endpoint has a verdict: the one its
    probe reported before the deadline, down if it reported none; endpoints
    that were not probed keep theirs. *)
Theorem check_jobs_verdict now jobs results p j :
  NoDup jobs → NoDup (map fst results) → (∀ x, x ∈ map fst results → x ∈ jobs) →
  state_in (check_jobs now jobs results p) j =
  if decide (j ∈ jobs) then (λ _, Some (default false (assoc j results))) <$> state_in p j else state_in p j.
Proof.
  intros Hj Hn Hin. unfold check_jobs. pose proof (receive_spec now jobs ∅ results p Hj) as H.
  destruct (receive now (length jobs) ∅ results p) as [checked p1].
  destruct H as [Hc Hs]; [by rewrite elements_empty..|]. rewrite state_in_publish, mark_silent_spec, Hs.
  assert (j ∈ checked ↔ is_Some (assoc j results)) as Hch.
  { rewrite Hc, <-assoc_is_Some. set_solver. }
  destruct (assoc j results) as [b|] eqn:E; cbn [default].
  - apply assoc_elem_of, (list_elem_of_fmap_2 fst), Hin in E as Hjj. rewrite (decide_True (P := j ∈ jobs)) by done.
    rewrite decide_False; [done|]. intros [_ Hn']. apply Hn', Hch. done.
  - assert (j ∉ checked) as Hnc by (intros H%Hch; by destruct H).
    destruct (decide (j ∈ jobs)); [by rewrite decide_True|]. by rewrite decide_False by set_solver.
Qed.

(** A probed pair of endpoints of which one answers. *)
Definition probed : Pools := MkPools ∅ ∅ {[g_key example_group := example_group]} ∅ ∅ [].
Definition probe_jobs : list Job := map (λ e, (g_key example_group, ep_endpoint e)) (g_endpoints example_group).

Lemma check_jobs_verdict_witness :
  state_in (check_jobs 9 probe_jobs [((g_key example_group, lit "10.0.0.2:80"), true)] probed) (g_key example_group, lit "10.0.0.1:80")
  = Some (Some false).
Proof.
  rewrite check_jobs_verdict; [vm_compute; reflexivity|..].
  - apply (bool_decide_unpack _). vm_compute. exact I.
  - apply (bool_decide_unpack _). vm_compute. exact I.
  - intros x ->%list_elem_of_singleton. apply (bool_decide_unpack _). vm_compute. exact I.
Defined.

(** A configuration with one layer-4 route. *)
Definition l4_config : RuntimeConfig :=
  MkRuntimeConfig (MkDefaultListener default_https_bind (MkTlsConfig
      [MkTlsRoute (lit "r") (MkMatcher [lit "a.example"] [] []) (Passthrough 443 (Some (lit "b:80")) RoundRobin ProxyProtocol.PNone)]
      ALLOW empty_rules default_tls_action None None))
    [] [] (MkDns [] [] []) None default_control_plane default_acme_settings LocalCa.

Lemma configured_iff_bound_witness :
  let out := configure_health_checks SelectExamples.no_override SelectExamples.dns 5 l4_config SelectExamples.listening in
  out.1 = Ok () ∧ pools_wf out.2.
Proof.
  intros out. assert (out.1 = Ok ()) as Hok by (vm_compute; reflexivity). split; [exact Hok|].
  assert (out = (Ok (), out.2)) as E by (rewrite <-Hok; by destruct out).
  apply (configured_iff_bound _ _ _ _ _ _ SelectExamples.listening_wf E).
Defined.

(** ** What survives while the proxy serves *)

Definition survives (g g' : MonitorGroup) : Prop :=
  g_key g' = g_key g ∧ g_owner g' = Configured ∧ g_tls_server_name g' = g_tls_server_name g ∧
  g_requested_target g' = g_requested_target g.

Definition keeps (p p' : Pools) : Prop :=
  pools_wf p → pools_wf p' ∧
  ∀ k g, groups p !! k = Some g → g_owner g = Configured → ∃ g', groups p' !! k = Some g' ∧ survives g g'.

Lemma keeps_refl p : keeps p p.
Proof. intros Hw. split; [done|]. intros k g Hg Ho. exists g. by unfold survives. Qed.

Lemma keeps_trans p1 p2 p3 : keeps p1 p2 → keeps p2 p3 → keeps p1 p3.
Proof.
  intros H1 H2 Hw. destruct (H1 Hw) as [W1 K1]. destruct (H2 W1) as [W2 K2]. split; [done|]. intros k g Hg Ho.
  destruct (K1 k g Hg Ho) as (g1 & Hg1 & S1 & O1 & T1 & R1). destruct (K2 k g1 Hg1 O1) as (g2 & Hg2 & S2 & O2 & T2 & R2).
  exists g2. split; [done|]. unfold survives. split_and!; congruence.
Qed.

Lemma grow_keeps p p' : (pools_wf p → pools_grow p p') → keeps p p'.
Proof.
  intros G Hw. destruct (G Hw) as [W Hg]. split; [done|]. intros k g Hk Ho.
  destruct (Hg k g Hk) as (g' & Hg' & ? & ? & ? & ? & ?). exists g'. split; [done|]. unfold survives. auto.
Qed.

(** Changing endpoints of a group. *)
Lemma keeps_endpoints k g es p p' :
  groups p !! k = Some g → groups p' = <[k := with_endpoints es g]> (groups p) → keeps p p'.
Proof.
  intros Hg Hp Hw. split.
  - intros k' g'. rewrite Hp, lookup_insert_Some. intros [[<- <-]|[_ H]]; [by apply Hw in Hg|by apply Hw].
  - intros k' g' Hg' Ho. rewrite Hp. destruct (decide (k = k')) as [<-|Hne].
    + rewrite lookup_insert_eq. simplify_eq. by eexists.
    + rewrite lookup_insert_ne by done. exists g'. by unfold survives.
Qed.

Lemma keeps_set_endpoint_state now k e b p : keeps p (set_endpoint_state now k e b p).
Proof.
  unfold set_endpoint_state. destruct (groups p !! k) as [g|] eqn:Hg; [|apply keeps_refl].
  eapply (keeps_endpoints k g); [done|]. by case_match.
Qed.

Lemma keeps_receive now n checked results p : keeps p (receive now n checked results p).2.
Proof.
  revert checked p. induction results as [|[j b] rs IH]; intros checked p; cbn [receive]; [apply keeps_refl|].
  case_match; [apply keeps_set_endpoint_state|]. eapply keeps_trans; [apply keeps_set_endpoint_state|apply IH].
Qed.

Lemma keeps_mark_silent now checked jobs p : keeps p (mark_silent now checked jobs p).
Proof.
  revert p. induction jobs as [|j jobs IH]; intros p; cbn [mark_silent]; [apply keeps_refl|].
  eapply keeps_trans; [|apply IH]. case_bool_decide; [apply keeps_refl|apply keeps_set_endpoint_state].
Qed.

Lemma keeps_reconcile_all lookup_host now ks p : keeps p (reconcile_all lookup_host now ks p).2.
Proof.
  revert p. induction ks as [|k ks IH]; intros p; cbn [reconcile_all]; [apply keeps_refl|].
  destruct (groups p !! k) as [g|] eqn:Hg; [|apply IH]. unfold reconcile_endpoints.
  pose proof (resolve_effective_groups lookup_host now (g_effective_host g) (g_effective_port g) p) as Hr.
  destruct (resolve_effective_endpoints _ _ _ _ _) as [resolved p1]. cbn [snd] in Hr.
  set (p2 := set_groups _ p1). specialize (IH p2). destruct (reconcile_all lookup_host now ks p2) as [jobs p3].
  eapply keeps_trans; [|exact IH]. eapply (keeps_endpoints k g); [done|]. unfold p2. by rewrite groups_set, Hr.
Qed.

Lemma keeps_evict_expired now p : keeps p (evict_expired_runtime_groups now p).
Proof.
  intros Hw. split.
  - intros k g. rewrite evict_expired_lookup by done. destruct (groups p !! k) as [g0|] eqn:E; [|done].
    destruct (expired now g0); [done|]. intros [= <-]. by apply Hw.
  - intros k g Hg Ho. exists g. rewrite evict_expired_lookup, Hg by done. unfold expired. rewrite Ho. cbn. by unfold survives.
Qed.

Lemma keeps_evict_excess p : keeps p (evict_excess_runtime_groups p).
Proof.
  intros Hw. split; [by apply evict_excess_wf|]. intros k g Hg Ho. exists g. split; [|by unfold survives].
  apply evict_excess_lookup. split; [done|]. rewrite excess_runtime_groups_alt.
  intros ([k2 t] & -> & Ht%elem_of_take_inv)%list_elem_of_fmap. rewrite sort_activity_perm, runtime_activity_elem in Ht by done.
  destruct Ht as (g2 & Hg2 & Hr & _). cbn in Hg. congruence.
Qed.

Lemma keeps_check_all_once lookup_host now results p : keeps p (check_all_once lookup_host now results p).
Proof.
  unfold check_all_once. eapply keeps_trans; [apply (keeps_evict_expired now)|]. eapply keeps_trans; [apply keeps_evict_excess|].
  set (q := evict_excess_runtime_groups _). pose proof (keeps_reconcile_all lookup_host now (map fst (map_to_list (groups q))) q) as K.
  destruct (reconcile_all _ _ _ q) as [jobs p1]. eapply keeps_trans; [exact K|]. cbn [snd]. unfold check_jobs.
  pose proof (keeps_receive now (length jobs) ∅ results p1) as K2. destruct (receive _ _ _ _ p1) as [checked p2].
  eapply keeps_trans; [exact K2|]. exact (keeps_mark_silent now checked jobs p2).
Qed.

Section serving.
Context (override : bytes → Z → option bytes) (lookup_host : bytes → option (list SocketAddr)).
Context (hash : IpAddr → bytes → Z).

(** The operations that run on the tables between two configurations, each
    as if nothing came in between. *)
Inductive pools_step : Pools → Pools → Prop :=
| step_probe_round now results p : pools_step p (check_all_once lookup_host now results p)
| step_http now seed key host ip action p :
    pools_step p (select_http_backend override lookup_host hash now seed key host ip action p).2
| step_pool now seed key sni targets port tls pp ip lb p :
    pools_step p (select_routed_pool override lookup_host hash now seed key sni targets port tls pp ip lb p).2
| step_runtime now host port tls name p :
    pools_step p (select_runtime_target override lookup_host hash now host port tls name p).2
| step_forward seed name ip lb p : pools_step p (choose_online hash seed name ip lb p).2
| step_register now name targets tls pp p :
    pools_step p (register_forward_listener override lookup_host now name targets tls pp p).2.

Lemma choose_in_grow pick k p : pools_wf p → pools_grow p (choose_in hash pick k p).2.
Proof.
  intros Hw. destruct (groups p !! k) as [g|] eqn:Hg; [|unfold choose_in; rewrite Hg; by apply pools_grow_refl].
  destruct (decide (g_endpoints g = [])) as [E|Hne].
  - unfold choose_in, choose_endpoint. rewrite Hg, E. cbn [candidates List.filter snd fst]. apply pools_grow_insert; [done|by apply Hw|].
    intros g0. rewrite Hg. intros [= <-]. reflexivity.
  - pose proof (choose_in_spec hash pick k p g Hw Hg Hne) as H. destruct (choose_in hash pick k p). by destruct H.
Qed.

(** Ensure, touch, pick: the sequence of every single-target selection. *)
Lemma ensure_choose_grow now r pick p :
  pools_wf p →
  let '(g, p1) := ensure_group override lookup_host now r p in
  pools_grow p (choose_in hash pick (g_key g) (touch_group now (g_key g) p1)).2.
Proof.
  intros Hw. destruct (ensure_group_spec override lookup_host now r p Hw) as (_ & G & _).
  destruct (ensure_group override lookup_host now r p) as [g p1]. cbn [fst snd] in G.
  pose proof (grow_touch now (g_key g) p1 (proj1 G)) as G2. eapply pools_grow_trans; [exact G|].
  eapply pools_grow_trans; [exact G2|]. apply choose_in_grow, G2.
Qed.

Lemma select_runtime_grow now host port tls name p :
  pools_wf p → pools_grow p (select_runtime_target override lookup_host hash now host port tls name p).2.
Proof.
  intros Hw. unfold select_runtime_target. set (r := MkRequest _ _ _ _ _ _ _ _).
  pose proof (ensure_choose_grow now r Sequential p Hw) as G. destruct (ensure_group override lookup_host now r p) as [g p1].
  destruct (choose_in _ _ _ _) as [[s|] p2]; exact G.
Qed.

Lemma select_routed_target_grow now sni target port tls pp p :
  pools_wf p → pools_grow p (select_routed_target override lookup_host hash now sni target port tls pp p).2.
Proof.
  intros Hw. unfold select_routed_target. case_match; [by apply pools_grow_refl|]. set (r := MkRequest _ _ _ _ _ _ _ _).
  pose proof (ensure_choose_grow now r Sequential p Hw) as G. destruct (ensure_group override lookup_host now r p) as [g p1].
  destruct (choose_in _ _ _ _) as [[s|] p2]; exact G.
Qed.

Lemma pool_select_grow now seed key ip lb rs p :
  pools_wf p →
  let '(preferred, fallback, p1) := gather override lookup_host now rs p in
  let available := match preferred with [] => fallback | _ => preferred end in
  pools_grow p p1 ∧ (available ≠ [] → pools_grow p (balance hash seed key ip lb available p1).2).
Proof.
  intros Hw. pose proof (gather_balance_spec override lookup_host hash now seed key ip lb rs p Hw) as H.
  destruct (gather _ _ _ _ _) as [[pref fall] p1]. destruct H as [G H]. split; [done|]. intros Hne.
  destruct (match pref with [] => fall | _ => pref end) as [|m ms]; [done|]. destruct (balance _ _ _ _ _ _ _) as [[s i] p2]. by destruct H.
Qed.

Lemma select_http_grow now seed key host ip action p :
  pools_wf p → pools_grow p (select_http_backend override lookup_host hash now seed key host ip action p).2.
Proof.
  intros Hw. unfold select_http_backend. destruct (backends action) as [|b bs].
  { pose proof (select_routed_target_grow now host (ra_target action) (ra_target_port action)
      (bool_decide (ra_upstream action = Tls)) (ra_proxy_protocol action) p Hw) as G.
    destruct (select_routed_target _ _ _ _ _ _ _ _ _ p) as [r p1]. exact G. }
  destruct (backend_requests _ _) as [rs ok]. pose proof (pool_select_grow now seed key ip (ra_load_balancing action) rs p Hw) as H.
  destruct (gather _ _ _ _ _) as [[pref fall] p1]. destruct H as [G H]. destruct ok; [|exact G]. cbn [negb].
  destruct (match pref with [] => fall | _ => pref end) as [|m ms]; [exact G|]. specialize (H ltac:(done)).
  destruct (balance _ _ _ _ _ _ _) as [[s i] p2]. exact H.
Qed.

Lemma select_pool_grow now seed key sni targets port tls pp ip lb p :
  pools_wf p → pools_grow p (select_routed_pool override lookup_host hash now seed key sni targets port tls pp ip lb p).2.
Proof.
  intros Hw. unfold select_routed_pool. fold (routed_targets sni targets).
  destruct (routed_targets sni targets) as [|t ts]; [by apply pools_grow_refl|].
  destruct (pool_requests _ _ _ _ _) as [rs ok]. pose proof (pool_select_grow now seed key ip lb rs p Hw) as H.
  destruct (gather _ _ _ _ _) as [[pref fall] p1]. destruct H as [G H]. destruct ok; [|exact G]. cbn [negb].
  destruct (match pref with [] => fall | _ => pref end) as [|m ms]; [exact G|]. specialize (H ltac:(done)).
  destruct (balance _ _ _ _ _ _ _) as [[s i] p2]. exact H.
Qed.

Lemma choose_online_grow seed name ip lb p : pools_wf p → pools_grow p (choose_online hash seed name ip lb p).2.
Proof.
  intros Hw. unfold choose_online. set (ks := List.filter _ _). destruct (usable_members p ks) as [|m ms] eqn:Eu.
  { by apply pools_grow_refl. }
  pose proof (usable_balance_spec hash seed name ip lb ks p Hw) as H. rewrite Eu in H.
  destruct (balance _ _ _ _ _ _ _) as [[s i] p2]. apply H; [|done]. intros k [_ Hk%bool_decide_eq_true]%filter_elem. done.
Qed.

Lemma register_grow now name targets tls pp p :
  pools_wf p → pools_grow p (register_forward_listener override lookup_host now name targets tls pp p).2.
Proof.
  intros Hw. unfold register_forward_listener. destruct (Targets.parse_targets targets) as [ts|e]; [|by apply pools_grow_refl].
  generalize (map (listener_request tls pp) ts) as rs. intros rs.
  assert (pools_grow p (ensure_all override lookup_host now rs p).2) as G.
  { revert p Hw. induction rs as [|r rs IH]; intros p Hw; cbn [ensure_all]; [by apply pools_grow_refl|].
    destruct (ensure_group_spec override lookup_host now r p Hw) as (_ & G & _).
    destruct (ensure_group override lookup_host now r p) as [g p1]. specialize (IH p1 (proj1 G)).
    destruct (ensure_all override lookup_host now rs p1) as [ks p2]. by eapply pools_grow_trans. }
  destruct (ensure_all _ _ _ _ _) as [ks p1]. exact G.
Qed.

Lemma step_keeps p p' : pools_step p p' → keeps p p'.
Proof.
  destruct 1; [apply keeps_check_all_once|apply grow_keeps..]; intros Hw.
  - by apply select_http_grow.
  - by apply select_pool_grow.
  - by apply select_runtime_grow.
  - by apply choose_online_grow.
  - by apply register_grow.
Qed.

Lemma balance_grow seed key ip lb members p : pools_wf p → pools_grow p (balance hash seed key ip lb members p).2.
Proof.
  intros Hw. unfold balance. destruct lb.
  - assert (pools_grow p (next_cursor seed key p).2) as G by exact (pools_grow_refl p Hw).
    destruct (next_cursor seed key p) as [cursor p1]. cbn [snd] in G.
    destruct (members !! _) as [k|]; [|exact G]. pose proof (choose_in_grow Sequential k p1 (proj1 G)) as G2.
    destruct (choose_in _ _ _ _) as [s p2]. by eapply pools_grow_trans.
  - destruct (members !! _) as [k|]; [|by apply pools_grow_refl]. pose proof (choose_in_grow (Sticky ip) k p Hw) as G2.
    by destruct (choose_in _ _ _ _) as [s p2].
Qed.

(** *** Operations interleaved where they hold no lock *)

(** The tables, the registrations that found no group and are resolving
    their target, with the group each will insert, and the evictions that
    have read the table and not yet removed what they found. *)
Record Serving := MkServing {
  sv_pools : Pools;
  sv_registering : list (GroupRequest * MonitorGroup);
  sv_evicting : list (list GroupKey);
}.

Inductive serving_step : Serving → Serving → Prop :=
| sv_whole p p' rs es : pools_step p p' → serving_step (MkServing p rs es) (MkServing p' rs es)
| sv_found now r g p p' rs es : ensure_lookup override now r p = Some (g, p') → serving_step (MkServing p rs es) (MkServing p' rs es)
| sv_resolve now r p rs es (built := group_new override lookup_host now r p) :
    ensure_lookup override now r p = None → serving_step (MkServing p rs es) (MkServing built.2 ((r, built.1) :: rs) es)
| sv_insert r g p rs1 rs2 es :
    serving_step (MkServing p (rs1 ++ (r, g) :: rs2) es) (MkServing (ensure_insert override r g p) (rs1 ++ rs2) es)
| sv_touch now k p rs es : serving_step (MkServing p rs es) (MkServing (touch_group now k p) rs es)
| sv_choose pick k p rs es : serving_step (MkServing p rs es) (MkServing (choose_in hash pick k p).2 rs es)
| sv_balance seed key ip lb members p rs es :
    serving_step (MkServing p rs es) (MkServing (balance hash seed key ip lb members p).2 rs es)
| sv_find_expired now p rs es : serving_step (MkServing p rs es) (MkServing p rs (expired_keys now p :: es))
| sv_find_excess p rs es :
    serving_step (MkServing p rs es) (MkServing p rs (excess_runtime_groups_to_evict (runtime_activity (groups p)) :: es))
| sv_remove ks p rs es1 es2 : serving_step (MkServing p rs (es1 ++ ks :: es2)) (MkServing (remove_groups ks p) rs (es1 ++ es2))
| sv_reconcile now ks p rs es : serving_step (MkServing p rs es) (MkServing (reconcile_all lookup_host now ks p).2 rs es)
| sv_verdict now k e b p rs es : serving_step (MkServing p rs es) (MkServing (set_endpoint_state now k e b p) rs es).

(** No registration of the key and no removal of it is under way. *)
Definition undisturbed (k : GroupKey) (s : Serving) : Prop :=
  (∀ r g, (r, g) ∈ sv_registering s → request_key override r ≠ k) ∧ ∀ ks, ks ∈ sv_evicting s → k ∉ ks.
Definition serving_wf (s : Serving) : Prop :=
  pools_wf (sv_pools s) ∧ ∀ r g, (r, g) ∈ sv_registering s → g_key g = request_key override r.
(** What holds of a configured group [g] of key [k] from now on. *)
Record standing (k : GroupKey) (g : MonitorGroup) (s : Serving) : Prop := {
  sd_wf : serving_wf s;
  sd_undisturbed : undisturbed k s;
  sd_group : ∃ g', groups (sv_pools s) !! k = Some g' ∧ survives g g';
}.

Lemma standing_keeps k g p p' rs es : keeps p p' → standing k g (MkServing p rs es) → standing k g (MkServing p' rs es).
Proof.
  intros K [[Hw Hrs] Hu (g1 & Hg1 & Hk1 & Ho1 & Ht1 & Hr1)]. destruct (K Hw) as [Hw' Hk]. split; [done|done|].
  destruct (Hk k g1 Hg1 Ho1) as (g2 & Hg2 & ? & ? & ? & ?). exists g2. split; [done|]. unfold survives. split_and!; congruence.
Qed.

Lemma serving_step_standing k g s s' : serving_step s s' → standing k g s → standing k g s'.
Proof.
  destruct 1 as [p p' rs es Hs|now r g1 p p' rs es Hl|now r p rs es built Hl|r g1 p rs1 rs2 es|now k1 p rs es|pick k1 p rs es
    |seed key ip lb members p rs es|now p rs es|p rs es|ks p rs es1 es2|now ks p rs es|now k1 e b p rs es].
  - apply standing_keeps. by apply step_keeps.
  - apply standing_keeps, grow_keeps. intros Hw. destruct (ensure_group_spec override lookup_host now r p Hw) as (_ & G & _).
    unfold ensure_group in G. by rewrite Hl in G.
  - intros [[Hw Hrs] [Hu Hv] (g1 & Hg1 & Hs1)]. pose proof (group_new_spec override lookup_host now r p) as Hn. fold built in Hn.
    destruct built as [g2 p2]. destruct Hn as (Hgs & Hk & _). cbn [fst snd sv_pools sv_registering sv_evicting] in *.
    split; cbn [sv_pools sv_registering sv_evicting].
    + split; cbn; [intros k' g'; rewrite Hgs; apply Hw|]. intros r' g' [[= -> ->]|?]%elem_of_cons; [done|by apply Hrs].
    + split; cbn; [|done]. intros r' g' [[= -> ->]|?]%elem_of_cons; [|by eapply Hu].
      intros <-. unfold ensure_lookup in Hl. by rewrite Hg1 in Hl.
    + rewrite Hgs. by exists g1.
  - intros [[Hw Hrs] [Hu Hv] (g2 & Hg2 & Hs2)]. cbn [sv_pools sv_registering sv_evicting] in *.
    assert ((r, g1) ∈ rs1 ++ (r, g1) :: rs2) as Hin by set_solver.
    assert (∀ x, x ∈ rs1 ++ rs2 → x ∈ rs1 ++ (r, g1) :: rs2) as Hsub by set_solver.
    split; [split; cbn| |].
    + intros k' g'. unfold ensure_insert. rewrite groups_set, lookup_insert_Some. intros [[<- <-]|[_ ?]]; [by apply Hrs|by apply Hw].
    + intros r' g' Hi. apply Hrs. auto.
    + split; cbn; [|done]. intros r' g' Hi. apply (Hu r' g'). auto.
    + cbn [sv_pools]. unfold ensure_insert. rewrite groups_set, lookup_insert_ne by (by eapply Hu). by exists g2.
  - apply standing_keeps, grow_keeps. intros Hw. by apply grow_touch.
  - apply standing_keeps, grow_keeps, choose_in_grow.
  - apply standing_keeps, grow_keeps, balance_grow.
  - intros [Hwf [Hu Hv] Hg]. split; [done| |done]. split; [done|]. cbn. intros ks [->|?]%elem_of_cons; [|by apply Hv].
    destruct Hg as (g1 & Hg1 & _ & Ho & _). cbn in Hg1. intros Hin. apply expired_keys_elem in Hin as (g2 & Hg2 & Hx); [|apply Hwf].
    rewrite Hg1 in Hg2. injection Hg2 as <-. unfold expired in Hx. by rewrite Ho in Hx.
  - intros [Hwf [Hu Hv] Hg]. split; [done| |done]. split; [done|]. cbn. intros ks [->|?]%elem_of_cons; [|by apply Hv].
    destruct Hg as (g1 & Hg1 & _ & Ho & _). cbn in Hg1. rewrite excess_runtime_groups_alt.
    intros ([k2 t] & -> & Ht%elem_of_take_inv)%list_elem_of_fmap. rewrite sort_activity_perm, runtime_activity_elem in Ht by apply Hwf.
    destruct Ht as (g2 & Hg2 & Hr & _). cbn in Hg1. congruence.
  - intros [[Hw Hrs] [Hu Hv] (g1 & Hg1 & Hs1)]. cbn [sv_pools sv_registering sv_evicting] in *.
    assert (k ∉ ks) as Hk by (apply Hv; set_solver).
    split; [split; [|done]| |]; cbn [sv_pools sv_registering sv_evicting].
    + intros k' g'. unfold remove_groups. rewrite groups_set, map_lookup_filter_Some. intros [? _]. by apply Hw.
    + split; cbn; [done|]. intros ks' Hi. apply Hv. set_solver.
    + exists g1. split; [|done]. unfold remove_groups. by rewrite groups_set, map_lookup_filter_Some.
  - apply standing_keeps, keeps_reconcile_all.
  - apply standing_keeps, keeps_set_endpoint_state.
Qed.

(** C27: between two configurations no traffic, probe round or eviction loses
    a configured group or takes it from its owner, provided that no
    registration or eviction of its key was already under way when it became
    configured.  Through any interleaving of operations, also at the points
    where a registration resolves its target or an eviction has read the
    table without holding a lock, the group stays in the table under its key,
    configured, with the TLS name and target it was registered with; keys
    stay consistent, and no such registration or eviction of the key begins
    any more. *)
Theorem configured_group_survives s s' k g :
  rtc serving_step s s' → serving_wf s → groups (sv_pools s) !! k = Some g → g_owner g = Configured → undisturbed k s →
  serving_wf s' ∧ undisturbed k s' ∧ ∃ g', groups (sv_pools s') !! k = Some g' ∧ survives g g'.
Proof.
  intros Hs Hw Hg Ho Hu. assert (standing k g s) as Hst by (split; [done|done|exists g; by unfold survives]). clear Hw Hg Ho Hu.
  induction Hs as [s|x y z Hxy _ IH]; [by destruct Hst|]. apply IH. by eapply serving_step_standing.
Qed.

End serving.

(** A configured group while traffic registers another target and an eviction
    an hour later, which read the table before, removes what it found. *)
Lemma configured_group_survives_witness :
  let p := check_all_once SelectExamples.dns 3600000 [] crowded in
  let r := SelectExamples.traffic in
  let built := group_new SelectExamples.no_override SelectExamples.dns 5 r p in
  let p' := remove_groups (expired_keys 3600000 p) (ensure_insert SelectExamples.no_override r built.1 built.2) in
  ∃ g', groups p' !! g_key (numbered_group Configured 0) = Some g' ∧ survives (numbered_group Configured 0) g'.
Proof.
  intros p r built p'.
  apply (configured_group_survives SelectExamples.no_override SelectExamples.dns length_hash (MkServing crowded [] []) (MkServing p' [] [])).
  - eapply rtc_l; [apply sv_whole, (step_probe_round _ _ _ 3600000 [])|].
    eapply rtc_l; [apply (sv_find_expired _ _ _ 3600000)|].
    eapply rtc_l; [apply (sv_resolve _ _ _ 5 r); vm_compute; reflexivity|].
    eapply rtc_l; [apply (sv_insert _ _ _ r built.1 built.2 [] [])|]. apply rtc_once.
    exact (sv_remove SelectExamples.no_override SelectExamples.dns length_hash (expired_keys 3600000 p)
      (ensure_insert SelectExamples.no_override r built.1 built.2) [] [] []).
  - split; [apply crowded_wf|]. intros r' g' H%elem_of_nil. done.
  - vm_compute. reflexivity.
  - reflexivity.
  - split; [intros r' g' H%elem_of_nil; done|intros ks H%elem_of_nil; done].
Defined.
