(* ===== verification/HealthLog.v ===== *)
(** * The log of health checks (forward/health.rs, store/mod.rs)

    What the probe loop stores after each round, and what the retention of
    samples leaves: the keys begin with the time as a number of fixed width,
    so that their order is the order of time. *)

From S2P Require Import Prelude RustStd Net ProxyProtocol AcmeDns Config RuntimeConfig Store StoreProps Forward Health.
Open Scope Z_scope.

(** ** A round and its samples *)

Definition sample_of (checked_at : Z) (t : HealthCheckTarget) : option HealthCheckSample :=
  let b := ht_binding t in
  online ← ep_online (ht_state t);
  Some (MkSample (hb_listener b) (hb_host b) (hb_path b) (hb_backend b) (ep_endpoint (ht_state t)) (hb_transport b) (hb_load_balancing b) online checked_at).
Definition samples (checked_at : Z) (p : Pools) : list HealthCheckSample := omap (sample_of checked_at) (health_check_targets p).

(** What the environment gives one round: the resolver, the clock at the
    probes, as the samples are stamped and as they are saved, the probes'
    results, and whether the write succeeds (a failure is only logged). *)
Record Round := MkRound {
  rd_lookup : bytes → option (list SocketAddr);
  rd_now : Z;
  rd_results : list (Job * bool);
  rd_checked_at : Z;
  rd_save_now : Z;
  rd_saved : bool;
}.
Definition check_and_record (r : Round) (st : Pools * Db) : Pools * Db :=
  let p := check_all_once (rd_lookup r) (rd_now r) (rd_results r) st.1 in
  (p, if rd_saved r then save_health_check_samples (rd_save_now r) (samples (rd_checked_at r) p) st.2 else st.2).
(** [run_global_health_checks], round by round. *)
Definition run_global_health_checks (rounds : list Round) (st : Pools * Db) : Pools * Db := foldl (λ st r, check_and_record r st) st rounds.

(** ** Numbers of fixed width *)

Definition digits_val (s : bytes) : Z := foldl (λ a c, a * 10 + (c - 48)) 0 s.
Lemma digits_val_acc s a : foldl (λ a c, a * 10 + (c - 48)) a s = a * 10 ^ Z.of_nat (length s) + digits_val s.
Proof.
  unfold digits_val. revert a. induction s as [|c s IH]; intros a; cbn [foldl length]; [lia|]. rewrite IH, (IH (0 * 10 + (c - 48))).
  rewrite Nat2Z.inj_succ, Z.pow_succ_r by lia. lia.
Qed.
Lemma digits_val_cons c s : digits_val (c :: s) = (c - 48) * 10 ^ Z.of_nat (length s) + digits_val s.
Proof. unfold digits_val at 1. cbn [foldl]. rewrite digits_val_acc. lia. Qed.
Lemma digits_val_bound s : Forall (λ c, is_digit c = true) s → 0 ≤ digits_val s < 10 ^ Z.of_nat (length s).
Proof.
  induction 1 as [|c s Hc Hs IH]; [done|]. rewrite digits_val_cons. cbn [length]. rewrite Nat2Z.inj_succ, Z.pow_succ_r by lia.
  unfold is_digit in Hc. bool_prop. nia.
Qed.
(** Among digit strings of one length, byte order is the order of numbers. *)
Lemma digits_order s t x y : length s = length t → Forall (λ c, is_digit c = true) s → Forall (λ c, is_digit c = true) t →
  bytes_le (s ++ x) (t ++ y) = true → digits_val s ≤ digits_val t.
Proof.
  revert t. induction s as [|c s IH]; intros [|d t] Hl Hs Ht; try done. apply Forall_cons in Hs as [Hc Hs]. apply Forall_cons in Ht as [Hd Ht].
  cbn [app bytes_le]. rewrite !digits_val_cons. injection Hl as Hl. rewrite Hl.
  pose proof (digits_val_bound s Hs) as Hbs. pose proof (digits_val_bound t Ht) as Hbt. rewrite Hl in Hbs.
  destruct (Z.ltb_spec c d); [intros _; nia|]. destruct (Z.ltb_spec d c); [done|]. intros Hle. assert (c = d) as -> by lia. specialize (IH t Hl Hs Ht Hle). lia.
Qed.
Lemma parse_zeros max k s : 0 ≤ max → parse_digits 10 max 0 (repeat 48 k ++ s) = parse_digits 10 max 0 s.
Proof. intros Hm. induction k as [|k IH]; [done|]. cbn [repeat app parse_digits]. rewrite digit_value_dec by done. cbv zeta. change (0 * 10 + (48 - 48)) with 0. replace (0 <=? max) with true by lia. exact IH. Qed.
Lemma digits_val_parse max s n : parse_digits 10 max 0 s = Some n → Forall (λ c, is_digit c = true) s → digits_val s = n.
Proof.
  unfold digits_val. generalize 0. induction s as [|c s IH]; intros a; cbn [parse_digits foldl]; [by intros [= ->]|].
  intros Hp [Hc Hs]%Forall_cons. rewrite digit_value_dec in Hp by done. destruct (_ <=? max); [|done]. by apply IH.
Qed.

Definition time_ok (n : Z) : Prop := 0 ≤ n < 2 ^ 127.
Lemma pad39_digits n : time_ok n → Forall (λ c, is_digit c = true) (pad39 n).
Proof.
  intros [? ?]. unfold pad39. apply Forall_app. split; [|by apply show_dec_digits]. apply Forall_forall. intros c Hc.
  apply list_elem_of_In, repeat_spec in Hc as ->. done.
Qed.
Lemma pad39_length n : time_ok n → length (pad39 n) = 39%nat.
Proof.
  intros [H1 H2]. unfold pad39. rewrite length_app, repeat_length. pose proof (length_dec_digits (S (Z.to_nat (Z.log2 n))) n [] 39) as Hl.
  assert (2 ^ 127 < 10 ^ Z.of_nat 39) as Hp by (vm_compute; reflexivity). cbn [length] in Hl. fold (show_dec n) in Hl. lia.
Qed.
Lemma pad39_parse n : time_ok n → parse_i128 (pad39 n) = Some n.
Proof.
  intros Hn. pose proof (pad39_digits n Hn) as Hd. pose proof (pad39_length n Hn) as Hl.
  assert (parse_digits 10 (2 ^ 127 - 1) 0 (pad39 n) = Some n) as Hp.
  { unfold pad39. destruct Hn. rewrite parse_zeros by done. apply parse_show_dec. lia. }
  unfold parse_i128, from_str_radix. destruct (pad39 n) as [|c s]; [done|]. apply Forall_cons in Hd as [Hc _]. unfold is_digit in Hc. bool_prop.
  replace (c =? 43) with false by lia. destruct (decide (c = 45)) as [->|]; [lia|]. repeat (case_match; try done; try lia).
Qed.
Lemma pad39_order a b x y : time_ok a → time_ok b → bytes_le (pad39 a ++ x) (pad39 b ++ y) = true → a ≤ b.
Proof.
  intros Ha Hb Hle. apply digits_order in Hle; [|by rewrite !pad39_length|by apply pad39_digits..].
  assert (∀ n, time_ok n → digits_val (pad39 n) = n) as Hv; [|by rewrite !Hv in Hle].
  intros n Hn. eapply (digits_val_parse (2 ^ 127 - 1)); [|by apply pad39_digits]. unfold pad39. destruct Hn. rewrite parse_zeros by done. apply parse_show_dec. lia.
Qed.

(** ** Retention *)

Definition DAY_OF_SAMPLES : Z := 24 * HOUR_NS.
Definition health_wf (m : gmap bytes HealthCheckSample) : Prop := ∀ k s, m !! k = Some s → k = sample_key s ∧ time_ok (hs_checked_at s).

Lemma sample_key_time s : time_ok (hs_checked_at s) → parse_i128 (take 39 (sample_key s)) = Some (hs_checked_at s) ∧ (39 <=? length (sample_key s))%nat = true.
Proof.
  intros Hs. pose proof (pad39_length _ Hs) as Hl. unfold sample_key. rewrite <- Hl at 1. rewrite take_app_length, length_app. split; [by apply pad39_parse|].
  apply Nat.leb_le. lia.
Qed.
Lemma sample_key_same_time s s' : time_ok (hs_checked_at s) → time_ok (hs_checked_at s') → sample_key s = sample_key s' → hs_checked_at s = hs_checked_at s'.
Proof. intros [Hs _]%sample_key_time [Hs' _]%sample_key_time Heq. rewrite Heq in Hs. congruence. Qed.

(** The leading stale keys are all the stale keys. *)
Lemma stale_exact cutoff (l : list (bytes * HealthCheckSample)) :
  StronglySorted entry_le l → Forall (λ kv, kv.1 = sample_key kv.2 ∧ time_ok (hs_checked_at kv.2)) l →
  stale_prefix cutoff (map fst l) = map fst (List.filter (λ kv, hs_checked_at kv.2 <? cutoff) l).
Proof.
  induction 1 as [|[k s] l Hs IH Hle]; [done|]. intros [[Hk Ht] Hl]%Forall_cons. cbn [fst snd] in *. cbn [map stale_prefix List.filter fst snd]. subst k.
  destruct (sample_key_time s Ht) as [-> ->]. cbn [andb]. destruct (Z.ltb_spec (hs_checked_at s) cutoff) as [Hlt|Hge]; [cbn [map fst]; by rewrite IH|].
  replace (List.filter _ l) with (@nil (bytes * HealthCheckSample)); [done|]. symmetry. clear IH Hs. induction Hl as [|[k' s'] l [Hk' Ht'] Hl IH]; [done|].
  apply Forall_cons in Hle as [Hle Hles]. cbn [List.filter snd]. destruct (Z.ltb_spec (hs_checked_at s') cutoff); [|by apply IH].
  unfold entry_le in Hle. cbn [fst snd] in *. subst k'. apply pad39_order in Hle; [lia|done..].
Qed.

Lemma stale_keys m cutoff k : health_wf m → k ∈ stale_prefix cutoff (map fst (iter m)) ↔ ∃ s, m !! k = Some s ∧ hs_checked_at s < cutoff.
Proof.
  intros Hwf. rewrite stale_exact.
  - rewrite list_elem_of_fmap. split.
    + intros ([k' s]&->&Hin). apply list_elem_of_In, filter_In in Hin as [Hin Hlt]. apply list_elem_of_In, elem_of_iter in Hin. exists s. cbn in *. split; [done|lia].
    + intros (s&Hk&Hlt). exists (k, s). split; [done|]. apply list_elem_of_In, filter_In. split; [by apply list_elem_of_In, elem_of_iter|]. cbn. lia.
  - unfold iter. apply StronglySorted_merge_sort; apply _.
  - apply Forall_forall. intros [k' s] Hin. apply elem_of_iter in Hin. by apply Hwf.
Qed.

Lemma put_samples values : ∀ (m : gmap bytes HealthCheckSample) k,
  foldl (λ m s, <[sample_key s := s]> m) m values !! k = m !! k ∧ k ∉ map sample_key values
  ∨ ∃ s, foldl (λ m s, <[sample_key s := s]> m) m values !! k = Some s ∧ s ∈ values ∧ k = sample_key s.
Proof.
  induction values as [|v values IH]; intros m k; cbn [foldl map]; [left; split; [done|apply not_elem_of_nil]|].
  destruct (IH (<[sample_key v := v]> m) k) as [[Heq Hn]|(s&Hs&Hin&Hk)]; [|right; exists s; split_and!; [done|by right|done]].
  destruct (decide (sample_key v = k)) as [<-|Hne].
  - right. exists v. rewrite lookup_insert_eq in Heq. split_and!; [done|left|done].
  - left. rewrite lookup_insert_ne in Heq by done. split; [done|]. rewrite not_elem_of_cons. done.
Qed.

(** One save: what is there afterwards, and what stays. *)
Lemma save_entries now values db k s : health_wf (db_health db) →
  db_health (save_health_check_samples now values db) !! k = Some s →
  (s ∈ values ∧ k = sample_key s) ∨ (db_health db !! k = Some s ∧ now - DAY_OF_SAMPLES ≤ hs_checked_at s).
Proof.
  intros Hwf. unfold save_health_check_samples. cbn [db_health set_health]. fold DAY_OF_SAMPLES.
  destruct (decide (k ∈ stale_prefix (now - DAY_OF_SAMPLES) (map fst (iter (db_health db))))) as [Hin|Hn]; [by rewrite delete_all_in|].
  rewrite delete_all_notin by done. destruct (put_samples values (db_health db) k) as [[-> _]|(s'&->&Hin&Hk)]; [|intros [= ->]; by left].
  intros Hs. right. split; [done|]. destruct (Z.le_gt_cases (now - DAY_OF_SAMPLES) (hs_checked_at s)); [done|]. destruct Hn. apply stale_keys; [done|]. exists s. split; [done|lia].
Qed.
Lemma save_keeps now values db s : health_wf (db_health db) → time_ok (hs_checked_at s) → now - DAY_OF_SAMPLES ≤ hs_checked_at s →
  s ∈ values ∨ is_Some (db_health db !! sample_key s) → is_Some (db_health (save_health_check_samples now values db) !! sample_key s).
Proof.
  intros Hwf Ht Hge Hin. unfold save_health_check_samples. cbn [db_health set_health]. fold DAY_OF_SAMPLES. rewrite delete_all_notin.
  - destruct (put_samples values (db_health db) (sample_key s)) as [[-> Hn]|(s'&->&_)]; [|by eexists]. destruct Hin as [Hin|?]; [|done]. destruct Hn.
    apply list_elem_of_fmap. by exists s.
  - intros (s0&Hs0&Hlt)%stale_keys; [|done]. destruct (Hwf _ _ Hs0) as [Hk Ht0]. apply sample_key_same_time in Hk; [|done..]. lia.
Qed.

Lemma samples_time checked_at p s : s ∈ samples checked_at p → hs_checked_at s = checked_at.
Proof.
  unfold samples. rewrite list_elem_of_omap. intros (t&_&Hs). unfold sample_of in Hs. destruct (ep_online (ht_state t)); [|done]. by injection Hs as <-.
Qed.
Lemma round_wf r st : time_ok (rd_checked_at r) → health_wf (db_health st.2) → health_wf (db_health (check_and_record r st).2).
Proof.
  intros Ht Hwf. unfold check_and_record. cbn [snd]. destruct (rd_saved r); [|done]. intros k s Hs. apply save_entries in Hs as [[Hin Hk]|[Hs _]]; [|by apply Hwf|done].
  apply samples_time in Hin. rewrite Hin. done.
Qed.
Lemma rounds_wf rounds : ∀ st, Forall (λ r, time_ok (rd_checked_at r)) rounds → health_wf (db_health st.2) → health_wf (db_health (run_global_health_checks rounds st).2).
Proof. induction rounds as [|r rounds IH]; intros st; [done|]. intros [Hr Hrs]%Forall_cons Hwf. cbn. apply IH; [done|]. by apply round_wf. Qed.
Lemma rounds_keep rounds s : ∀ st, Forall (λ r, time_ok (rd_checked_at r)) rounds → health_wf (db_health st.2) → time_ok (hs_checked_at s) →
  Forall (λ r, rd_save_now r - DAY_OF_SAMPLES ≤ hs_checked_at s) rounds → is_Some (db_health st.2 !! sample_key s) →
  is_Some (db_health (run_global_health_checks rounds st).2 !! sample_key s).
Proof.
  induction rounds as [|r rounds IH]; intros st; [done|]. intros [Hr Hrs]%Forall_cons Hwf Ht [Hn Hns]%Forall_cons Hk. cbn.
  apply IH; [done|by apply round_wf|done|done|]. unfold check_and_record. cbn [snd]. destruct (rd_saved r); [|done]. apply save_keeps; auto.
Qed.

(** The log of health checks is the last day's, whole: after any number
    of rounds that end with a saved one, no stored sample is older than 24
    hours before that save, and every verdict of a round that was saved and
    is not older than that can be read back: for each endpoint of each
    binding that had a verdict after the round, the history holds a sample
    under the same key.  The clock does not run backwards and gives
    non-negative times of 127 bits. *)
Theorem health_log_exact before r after last st :
  let rounds := before ++ r :: after ++ [last] in
  let out := run_global_health_checks rounds st in
  let oldest := rd_save_now last - DAY_OF_SAMPLES in
  health_wf (db_health st.2) → Forall (λ r, time_ok (rd_checked_at r)) rounds → Forall (λ r, rd_save_now r ≤ rd_save_now last) rounds →
  rd_saved last = true → oldest ≤ rd_checked_at last →
  (∀ k s, db_health out.2 !! k = Some s → oldest ≤ hs_checked_at s)
  ∧ (rd_saved r = true → oldest ≤ rd_checked_at r →
     ∀ t s, t ∈ health_check_targets (run_global_health_checks (before ++ [r]) st).1 → sample_of (rd_checked_at r) t = Some s →
       ∃ s', s' ∈ health_check_history (rd_save_now last) out.2 ∧ sample_key s' = sample_key s).
Proof.
  cbv zeta. intros Hwf Ht Hn Hlast Hold.
  assert (∀ k s, db_health (run_global_health_checks (before ++ r :: after ++ [last]) st).2 !! k = Some s → rd_save_now last - DAY_OF_SAMPLES ≤ hs_checked_at s) as Hall.
  { intros k s. unfold run_global_health_checks. rewrite app_comm_cons, app_assoc, foldl_app. cbn [foldl]. unfold check_and_record at 1. cbn [snd]. rewrite Hlast. intros Hs.
    apply save_entries in Hs as [[Hin _]|[_ ?]]; [|done|].
    - apply samples_time in Hin. by rewrite Hin.
    - apply rounds_wf; [|done]. rewrite app_comm_cons, app_assoc in Ht. by apply Forall_app in Ht as [? _]. }
  split; [exact Hall|]. intros Hsaved Hge t s Htin Hs.
  apply Forall_app in Ht as [Htb [Htr Hta]%Forall_cons]. apply Forall_app in Hn as [_ [Hnr Hna]%Forall_cons].
  assert (hs_checked_at s = rd_checked_at r) as Hts by (unfold sample_of in Hs; destruct (ep_online (ht_state t)); [by injection Hs as <-|done]).
  assert (is_Some (db_health (run_global_health_checks (before ++ r :: after ++ [last]) st).2 !! sample_key s)) as [s' Hs'].
  { replace (before ++ r :: after ++ [last]) with ((before ++ [r]) ++ after ++ [last]) by (by rewrite <- app_assoc). unfold run_global_health_checks at 1.
    rewrite foldl_app. apply rounds_keep; rewrite ?Hts; [done| |done|eapply Forall_impl; [exact Hna|]; cbn; lia|].
    - apply rounds_wf; [|done]. apply Forall_app. split; [done|by constructor].
    - unfold run_global_health_checks in Htin |- *. rewrite foldl_app in Htin |- *. cbn [foldl] in *. unfold check_and_record in Htin at 1 |- * at 1. cbn [fst snd] in *. rewrite Hsaved.
      apply save_keeps; rewrite ?Hts; [by apply rounds_wf|done|lia|]. left. apply list_elem_of_omap. eauto. }
  exists s'. assert (health_wf (db_health (run_global_health_checks (before ++ r :: after ++ [last]) st).2)) as Hwf'.
  { apply rounds_wf; [|done]. apply Forall_app. split; [done|by constructor]. }
  destruct (Hwf' _ _ Hs') as [Hk _]. split; [|done]. apply list_elem_of_In, filter_In. split.
  - apply list_elem_of_In, elem_of_iter_value. eauto.
  - pose proof (Hall _ _ Hs'). fold DAY_OF_SAMPLES. lia.
Qed.

Module HealthLogExample.
Definition key : GroupKey := MkGroupKey (lit "10.0.0.1:80") false false ProxyProtocol.PNone.
Definition group : MonitorGroup :=
  MkGroup key (lit "10.0.0.1:80") (lit "10.0.0.1") 80 [] Configured [MkEndpoint (lit "10.0.0.1:80") None 0 0] 0 0.
Definition binding : HealthBinding := MkBinding key (lit "web") (lit "a.example") (lit "/") (lit "10.0.0.1:80") (lit "tcp") (lit "round_robin").
Definition pools : Pools := MkPools ∅ ∅ {[key := group]} ∅ ∅ [binding].
Definition round (at_ : Z) (up : bool) : Round := MkRound (λ _, None) at_ [((key, lit "10.0.0.1:80"), up)] (at_ + 1) (at_ + 2) true.
Definition sample : HealthCheckSample :=
  MkSample (lit "web") (lit "a.example") (lit "/") (lit "10.0.0.1:80") (lit "10.0.0.1:80") (lit "tcp") (lit "round_robin") true 101.
End HealthLogExample.

Lemma health_log_exact_witness :
  ∃ s', s' ∈ health_check_history 202 (run_global_health_checks [HealthLogExample.round 100 true; HealthLogExample.round 200 false] (HealthLogExample.pools, db_empty)).2
    ∧ sample_key s' = sample_key HealthLogExample.sample.
Proof.
  eapply (proj2 (health_log_exact [] (HealthLogExample.round 100 true) [] (HealthLogExample.round 200 false) (HealthLogExample.pools, db_empty)
    ltac:(intros k s Hs; exfalso; revert Hs; cbn; rewrite lookup_empty; discriminate) ltac:(repeat constructor; cbn; lia) ltac:(repeat constructor; cbn; lia) eq_refl
    ltac:(vm_compute; discriminate)) eq_refl ltac:(vm_compute; discriminate) (MkTarget HealthLogExample.binding (MkEndpoint (lit "10.0.0.1:80") (Some true) 100 100))
    HealthLogExample.sample).
  - vm_compute. left.
  - reflexivity.
Defined.
