(* ===== verification/Relay.v ===== *)
(** * The byte relay (src/relay.rs, src/idle_tracker.rs, src/upstream_tls.rs)

    One direction of a relay as a task ([pipe]) over any reader of the
    [AsyncRead] interface and a buffering writer; the relay as the
    interleaving of its two tasks and the teardown monitor with the idle
    tracker; the self-connection check; the observer that registers the
    ClientHello of our own TLS connections. *)

From S2P Require Import Prelude RustStd Net Stream TlsHeader HelloCache BindAddr.
Open Scope Z_scope.

(** ** A buffering writer *)

(** Bytes accepted and not yet sent, bytes sent, how many more operations
    succeed ([None]: all), and whether the direction was shut down. *)
Record Writer := MkWriter { queued : bytes; wire : bytes; budget : option nat; closed : bool }.

Definition spend (b : option nat) : option (option nat) :=
  match b with
  | None => Some None
  | Some O => None
  | Some (S n) => Some (Some n)
  end.
Definition write_all (d : bytes) (w : Writer) : bool * Writer :=
  match spend (budget w) with
  | Some b => (true, MkWriter (queued w ++ d) (wire w) b (closed w))
  | None => (false, w)
  end.
Definition flush (w : Writer) : bool * Writer :=
  match spend (budget w) with
  | Some b => (true, MkWriter [] (wire w ++ queued w) b (closed w))
  | None => (false, w)
  end.
(** [shutdown] flushes first. *)
Definition shutdown (w : Writer) : Writer :=
  match flush w with
  | (true, w) => MkWriter (queued w) (wire w) (budget w) true
  | (false, w) => w
  end.

(** [shutdown] of a [KeepWriteOpen] (src/dataplane/http/mod.rs): a flush. *)
Definition keep_write_open (w : Writer) : Writer := (flush w).2.

(** ** Idle tracking *)

Record IdleTracker := MkIdle { last_active : Z; max_idle : Z }.

(** Milliseconds; a limit of 0 means none. *)
Definition idle_new (max_idle_ms now : Z) : IdleTracker :=
  MkIdle now (if max_idle_ms =? 0 then u64_max else max_idle_ms).
Definition mark (now : Z) (t : IdleTracker) : Z * IdleTracker := (last_active t, MkIdle now (max_idle t)).
Definition idled_for (now : Z) (t : IdleTracker) : Z := now - last_active t.
Definition is_expired (now : Z) (t : IdleTracker) : bool := max_idle t <? idled_for now t.

(** ** [pipe]: the task of one direction *)

Definition PIPE_BUFFER : nat := 4096.

(** Where the task is: before its next read; parked on a read that was not
    ready; with bytes it read and has not written; past its loop; returned;
    or aborted by the monitor. *)
Inductive task_phase := TaskReading | TaskParked | TaskWriting (rest : bytes) | TaskClosing | TaskFinished | TaskAborted.
(** What a task meets when it runs: a poll of its next read that is or is not
    ready (any other phase goes on to its next await), or a writer that takes
    only part of what it was offered. *)
Inductive task_event := Wake (pending : bool) | Accept (k : nat).

Section pipe.
Context {S : Type} `{AsyncReadOk S}.

Record Task := MkTask { t_reader : S; t_writer : Writer; t_counter : Z; t_unflushed : bool; t_phase : task_phase }.
Definition pipe_start (reader : S) (writer : Writer) (counter : Z) : Task := MkTask reader writer counter false TaskReading.

(** The read completes: its bytes are counted before they are written. *)
Definition task_read (t : Task) : Task :=
  match poll_read PIPE_BUFFER (t_reader t) with
  | (RData d, reader) =>
      MkTask reader (t_writer t) ((t_counter t + Z.of_nat (length d)) mod (u64_max + 1)) (t_unflushed t) (TaskWriting d)
  | (_, reader) => MkTask reader (t_writer t) (t_counter t) (t_unflushed t) TaskClosing
  end.

(** One step; [finish] is what [shutdown] does to this writer.  The boolean
    says that the idle tracker is marked. *)
Definition task_step (finish : Writer → Writer) (e : task_event) (t : Task) : Task * bool :=
  match t_phase t, e with
  | TaskReading, Wake pending =>
      if pending then
        if t_unflushed t then
          match flush (t_writer t) with
          | (true, w) => (MkTask (t_reader t) w (t_counter t) true TaskParked, false)
          | (false, w) => (MkTask (t_reader t) w (t_counter t) true TaskClosing, false)
          end
        else (MkTask (t_reader t) (t_writer t) (t_counter t) false TaskParked, false)
      else (task_read t, false)
  | TaskParked, Wake _ => (task_read t, false)
  | TaskWriting rest, Wake _ =>
      match write_all rest (t_writer t) with
      | (true, w) => (MkTask (t_reader t) w (t_counter t) true TaskReading, true)
      | (false, w) => (MkTask (t_reader t) w (t_counter t) (t_unflushed t) TaskClosing, false)
      end
  | TaskWriting rest, Accept k =>
      match write_all (take k rest) (t_writer t) with
      | (true, w) => (MkTask (t_reader t) w (t_counter t) (t_unflushed t) (TaskWriting (drop k rest)), false)
      | (false, _) => (t, false)
      end
  | TaskClosing, Wake _ => (MkTask (t_reader t) (finish (t_writer t)) (t_counter t) (t_unflushed t) TaskFinished, false)
  | _, _ => (t, false)
  end.

(** Undisturbed, the task runs to its end. *)
Definition task_fuel (t : Task) : nat := (3 * rmeasure (t_reader t) + 5)%nat.
Definition task_run (finish : Writer → Writer) (t : Task) : Task :=
  Nat.iter (task_fuel t) (λ t, (task_step finish (Wake true) t).1) t.

Definition is_finished (t : Task) : bool := match t_phase t with TaskFinished => true | _ => false end.
(** [JoinHandle::abort]: the task is dropped where it is. *)
Definition task_abort (t : Task) : Task := MkTask (t_reader t) (t_writer t) (t_counter t) (t_unflushed t) TaskAborted.

(** All bytes the writer accepted. *)
Definition accepted (w : Writer) : bytes := wire w ++ queued w.

Lemma flush_accepted w : accepted (flush w).2 = accepted w.
Proof. unfold flush, accepted. destruct (spend (budget w)); [|done]. cbn. by rewrite app_nil_r. Qed.
Lemma flush_closed w : closed (flush w).2 = closed w.
Proof. unfold flush. by destruct (spend (budget w)). Qed.
Lemma flush_unbounded w : budget w = None → flush w = (true, MkWriter [] (accepted w) None (closed w)).
Proof. intros Hb. unfold flush. by rewrite Hb. Qed.

Lemma write_all_accepted d w : accepted (write_all d w).2 = accepted w ++ (if (write_all d w).1 then d else []).
Proof. unfold write_all, accepted. destruct (spend (budget w)); cbn; [by rewrite app_assoc|by rewrite app_nil_r]. Qed.
Lemma write_all_closed d w : closed (write_all d w).2 = closed w.
Proof. unfold write_all. by destruct (spend (budget w)). Qed.
Lemma write_all_unbounded d w : budget w = None → (write_all d w).1 = true ∧ budget (write_all d w).2 = None.
Proof. intros Hb. unfold write_all. by rewrite Hb. Qed.

(** *** What a task has done with the bytes of its reader *)

Section task_ok.
(** The bytes, the writer and the counter it started with; what [finish]
    does. *)
Context (C : bytes) (w0 : Writer) (c0 : Z) (finish : Writer → Writer) (shut : bool → bool).

Definition counted (n : nat) : Z := (c0 + Z.of_nat n) mod (u64_max + 1).
(** [D]: what was read so far. *)
Definition phase_ok (D : bytes) (t : Task) : Prop :=
  let w := t_writer t in
  match t_phase t with
  | TaskReading => C = D ++ contents (t_reader t) ∧ accepted w = wire w0 ++ D ∧ closed w = closed w0 ∧ (t_unflushed t = false → queued w = [])
  | TaskParked => C = D ++ contents (t_reader t) ∧ accepted w = wire w0 ++ D ∧ closed w = closed w0 ∧ queued w = []
  | TaskWriting rest => C = D ++ contents (t_reader t) ∧ accepted w ++ rest = wire w0 ++ D ∧ closed w = closed w0
  | TaskClosing => closed w = closed w0 ∧ (budget w0 = None → D = C ∧ accepted w = wire w0 ++ C)
  | TaskFinished => budget w0 = None → D = C ∧ w = MkWriter [] (wire w0 ++ C) None (shut (closed w0))
  | TaskAborted => closed w = closed w0
  end.
Record task_ok (t : Task) : Prop := {
  tk_sent : ∃ D, D `prefix_of` C ∧ accepted (t_writer t) = wire w0 ++ D;
  tk_budget : budget w0 = None → budget (t_writer t) = None;
  tk_phase : ∃ D, t_counter t = counted (length D) ∧ phase_ok D t;
}.

Context (finish_accepted : ∀ w, accepted (finish w) = accepted w).
Context (finish_unbounded : ∀ w, budget w = None → finish w = MkWriter [] (accepted w) None (shut (closed w))).

Lemma prefix_of_C D rest : C = D ++ rest → D `prefix_of` C.
Proof. intros ->. by exists rest. Qed.

Lemma task_read_ok t D :
  C = D ++ contents (t_reader t) → t_counter t = counted (length D) → (budget w0 = None → budget (t_writer t) = None) →
  accepted (t_writer t) = wire w0 ++ D → closed (t_writer t) = closed w0 → task_ok (task_read t).
Proof.
  intros HC Hn Hb Ha Hc. unfold task_read. pose proof (prefix_of_C _ _ HC) as HD.
  destruct (poll_read PIPE_BUFFER (t_reader t)) as [o reader] eqn:E.
  assert ((∀ d, o ≠ RData d) → D = C) as Hstop.
  { intros Ho. by rewrite HC, (read_stop PIPE_BUFFER _ _ _ ltac:(unfold PIPE_BUFFER; lia) E Ho), app_nil_r. }
  destruct o as [d| | |].
  2-4: split; cbn [t_writer t_counter]; [eauto|done|]; exists D; (split; [done|]); cbn; (split; [done|]); intros _; rewrite <-Hstop by done; done.
  destruct (read_data PIPE_BUFFER _ d reader ltac:(unfold PIPE_BUFFER; lia) E) as (_ & _ & Hd & _).
  split; cbn [t_writer t_counter t_reader]; [eauto|done|]. exists (D ++ d). split.
  - rewrite Hn. unfold counted. rewrite Zplus_mod_idemp_l, length_app. f_equal. lia.
  - cbn. split_and!; [by rewrite HC, Hd, app_assoc|by rewrite Ha, app_assoc|done].
Qed.

Lemma task_step_ok e t : task_ok t → task_ok (task_step finish e t).1.
Proof.
  intros Hok. pose proof Hok as [Hs Hb (D & Hn & Hph)]. unfold phase_ok in Hph.
  unfold task_step. destruct (t_phase t) as [| |rest| | |] eqn:Ep, e as [pend|k]; cbn [fst]; try done.
  - destruct Hph as (HC & Ha & Hc & Hq). destruct pend; [|by apply (task_read_ok t D)]. destruct (t_unflushed t).
    + pose proof (flush_accepted (t_writer t)) as Hfa. pose proof (flush_closed (t_writer t)) as Hfc.
      destruct (flush (t_writer t)) as [[] w] eqn:Ef; cbn [fst snd] in *.
      * split; cbn [t_writer t_counter t_reader]; [rewrite Hfa; done| |].
        { intros Hu. rewrite (flush_unbounded _ (Hb Hu)) in Ef. by injection Ef as <-. }
        exists D. split; [done|]. cbn. split_and!; [done|congruence|congruence|].
        unfold flush in Ef. destruct (spend _); [|done]. by injection Ef as <-.
      * assert (w = t_writer t) as -> by (unfold flush in Ef; destruct (spend _); [done|by injection Ef as <-]).
        split; cbn [t_writer t_counter t_reader]; [done|done|]. exists D. split; [done|]. cbn. split; [done|].
        intros Hu. by rewrite (flush_unbounded _ (Hb Hu)) in Ef.
    + split; cbn [t_writer t_counter t_reader]; [done|done|]. exists D. split; [done|]. cbn. auto.
  - destruct Hph as (HC & Ha & Hc & Hq). apply (task_read_ok t D); auto.
  - destruct Hph as (HC & Ha & Hc). pose proof (write_all_accepted rest (t_writer t)) as Hwa. pose proof (write_all_closed rest (t_writer t)) as Hwc.
    pose proof (write_all_unbounded rest (t_writer t)) as Hwu. destruct (write_all rest (t_writer t)) as [[] w]; cbn [fst snd] in *.
    + split; cbn [t_writer t_counter t_reader]; [|naive_solver|].
      * exists D. split; [by eapply prefix_of_C|]. by rewrite Hwa, Ha.
      * exists D. split; [done|]. cbn. split_and!; [done|by rewrite Hwa, Ha|congruence|done].
    + rewrite app_nil_r in Hwa. split; cbn [t_writer t_counter t_reader]; [by rewrite Hwa|naive_solver|].
      exists D. split; [done|]. cbn. split; [congruence|]. intros Hu. by destruct (Hwu (Hb Hu)).
  - destruct Hph as (HC & Ha & Hc). pose proof (write_all_accepted (take k rest) (t_writer t)) as Hwa.
    pose proof (write_all_closed (take k rest) (t_writer t)) as Hwc. pose proof (write_all_unbounded (take k rest) (t_writer t)) as Hwu.
    destruct (write_all (take k rest) (t_writer t)) as [[] w]; cbn [fst snd] in *; [|done].
    assert (accepted w ++ drop k rest = wire w0 ++ D) as Hsum by (by rewrite Hwa, <-app_assoc, take_drop, Ha).
    split; cbn [t_writer t_counter t_reader]; [|naive_solver|].
    + destruct Hs as (D' & _ & HD'). assert (accepted w = wire w0 ++ (D' ++ take k rest)) as Hw by (by rewrite Hwa, HD', app_assoc).
      exists (D' ++ take k rest). split; [|done]. rewrite Hw, <-!app_assoc in Hsum. apply app_inv_head in Hsum.
      exists (drop k rest ++ contents (t_reader t)). rewrite HC, <-Hsum, <-!app_assoc. done.
    + exists D. split; [done|]. cbn. split_and!; [done|done|congruence].
  - destruct Hph as [Hc Hu]. split; cbn [t_writer t_counter t_reader]; [by rewrite finish_accepted| |].
    + intros Hu'. by rewrite (finish_unbounded _ (Hb Hu')).
    + exists D. split; [done|]. cbn. intros Hu'. destruct (Hu Hu') as [-> Ha]. split; [done|].
      by rewrite (finish_unbounded _ (Hb Hu')), Ha, Hc.
Qed.

Lemma task_abort_ok t : task_ok t → is_finished t = false → task_ok (task_abort t).
Proof.
  intros [Hs Hb (D & Hn & Hph)] Hf. split; cbn [t_writer task_abort]; [done|done|]. exists D. split; [done|].
  unfold phase_ok, is_finished in *. cbn. by destruct (t_phase t); naive_solver.
Qed.
Lemma task_iter_ok n t : task_ok t → task_ok (Nat.iter n (λ t, (task_step finish (Wake true) t).1) t).
Proof. intros Ht. induction n as [|n IH]; [done|]. by apply task_step_ok. Qed.
End task_ok.

(** *** Left alone, a task ends *)

Definition task_left (t : Task) : nat :=
  match t_phase t with
  | TaskReading => 3 * rmeasure (t_reader t) + 4
  | TaskParked => 3 * rmeasure (t_reader t) + 3
  | TaskWriting _ => 3 * rmeasure (t_reader t) + 5
  | TaskClosing => 1
  | TaskFinished | TaskAborted => 0
  end.
Lemma task_read_left t : (task_left (task_read t) < 3 * rmeasure (t_reader t) + 3)%nat.
Proof.
  unfold task_read. destruct (poll_read PIPE_BUFFER (t_reader t)) as [[d| | |] reader] eqn:E; cbn [task_left t_phase t_reader]; [|lia..].
  destruct (read_data PIPE_BUFFER _ d reader ltac:(unfold PIPE_BUFFER; lia) E) as (_ & _ & _ & Hm). lia.
Qed.
Lemma task_step_left finish t : (0 < task_left t)%nat → (task_left (task_step finish (Wake true) t).1 < task_left t)%nat.
Proof.
  intros Hl. pose proof (task_read_left t) as Hr. unfold task_left in Hl |- * at 2. unfold task_step.
  destruct (t_phase t); cbn [fst]; try lia.
  - destruct (t_unflushed t); [destruct (flush (t_writer t)) as [[] w]|]; cbn [fst task_left t_phase t_reader]; lia.
  - destruct (write_all rest (t_writer t)) as [[] w]; cbn [fst task_left t_phase t_reader]; lia.
  - cbn [task_left t_phase]. lia.
Qed.
Lemma task_run_ends finish t : t_phase t ≠ TaskAborted → t_phase (task_run finish t) = TaskFinished.
Proof.
  intros Ha. assert (∀ n t, t_phase t ≠ TaskAborted → t_phase (Nat.iter n (λ t, (task_step finish (Wake true) t).1) t) ≠ TaskAborted ∧
    (task_left (Nat.iter n (λ t, (task_step finish (Wake true) t).1) t) ≤ task_left t - n)%nat) as Hn.
  { clear t Ha. intros n t Ha. induction n as [|n [IH1 IH2]]; [cbn; split; [done|lia]|]. rewrite !Nat.iter_succ.
    set (u := Nat.iter n _ t) in *. split.
    - unfold task_step. destruct (t_phase u) eqn:Eu; cbn [fst]; [| | | |by rewrite Eu|done].
      + destruct (t_unflushed u); [destruct (flush (t_writer u)) as [[] ?]|]; done.
      + unfold task_read. by destruct (poll_read _ _) as [[] ?].
      + by destruct (write_all rest (t_writer u)) as [[] ?].
      + done.
    - destruct (decide (task_left u = 0)%nat) as [E|E]; [|pose proof (task_step_left finish u ltac:(lia)); lia].
      assert (task_left (task_step finish (Wake true) u).1 = 0)%nat; [|lia]. unfold task_left, task_step in E |- *.
      destruct (t_phase u) eqn:Eu; cbn [fst]; rewrite ?Eu; lia. }
  destruct (Hn (task_fuel t) t Ha) as [Hna Hle]. unfold task_run. set (u := Nat.iter _ _ t) in *.
  assert (task_left t ≤ task_fuel t)%nat as Hf by (unfold task_left, task_fuel; destruct (t_phase t); lia).
  assert (task_left u = 0)%nat as Hu by lia. unfold task_left in Hu. destruct (t_phase u); try done; lia.
Qed.
End pipe.
Arguments Task : clear implicits.

Lemma shutdown_accepted w : accepted (shutdown w) = accepted w.
Proof. pose proof (flush_accepted w) as Hf. unfold shutdown. by destruct (flush w) as [[] w']. Qed.
Lemma shutdown_unbounded w : budget w = None → shutdown w = MkWriter [] (accepted w) None true.
Proof. intros Hb. unfold shutdown. by rewrite (flush_unbounded _ Hb). Qed.
Lemma keep_write_open_unbounded w : budget w = None → keep_write_open w = MkWriter [] (accepted w) None (closed w).
Proof. intros Hb. unfold keep_write_open. by rewrite (flush_unbounded _ Hb). Qed.

(** ** [relay]: the two tasks and the teardown monitor *)

Definition HALF_CLOSED_DRAIN_LIMIT : Z := 30000.

(** One round of the monitor: [None] to sleep on, or the directions to abort. *)
Definition monitor_tick (now : Z) (upload_done download_done : bool) (t : IdleTracker) : option (bool * bool) :=
  let half_closed_stall := (upload_done || download_done) && (HALF_CLOSED_DRAIN_LIMIT <? idled_for now t) in
  if (upload_done && download_done) || is_expired now t || half_closed_stall
  then Some (negb upload_done, negb download_done)
  else None.

(** What happens, in order: a step of a direction's task or a round of the
    monitor, each at its time in milliseconds. *)
Inductive relay_action := UpAt (time : Z) (e : task_event) | DownAt (time : Z) (e : task_event) | Tick (time : Z).
Definition action_time (a : relay_action) : Z := match a with UpAt time _ | DownAt time _ | Tick time => time end.
(** The listener's idle limit, the time of the start, and what happens until
    the directions, if the monitor has not ended them, run undisturbed. *)
Record RelayEnv := MkRelayEnv { re_idle_timeout_ms : Z; re_start : Z; re_actions : list relay_action }.

Section relay.
Context {CR UR : Type} `{AsyncReadOk CR} `{AsyncReadOk UR}.

Record RelayState := MkRelay { r_up : Task CR; r_down : Task UR; r_idle : IdleTracker; r_ended : bool }.
Definition marked (moved : bool) (time : Z) (t : IdleTracker) : IdleTracker := if moved then (mark time t).2 else t.

(** [finish_up]: what [shutdown] does to the upstream's writer. *)
Context (finish_up : Writer → Writer).
Definition relay_step (r : RelayState) (a : relay_action) : RelayState :=
  if r_ended r then r
  else
    match a with
    | UpAt time e => let '(t, moved) := task_step finish_up e (r_up r) in MkRelay t (r_down r) (marked moved time (r_idle r)) false
    | DownAt time e => let '(t, moved) := task_step shutdown e (r_down r) in MkRelay (r_up r) t (marked moved time (r_idle r)) false
    | Tick now =>
        match monitor_tick now (is_finished (r_up r)) (is_finished (r_down r)) (r_idle r) with
        | None => r
        | Some (abort_up, abort_down) =>
            MkRelay (if abort_up then task_abort (r_up r) else r_up r) (if abort_down then task_abort (r_down r) else r_down r) (r_idle r) true
        end
    end.
Definition relay_rest (r : RelayState) : RelayState :=
  if r_ended r then r else MkRelay (task_run finish_up (r_up r)) (task_run shutdown (r_down r)) (r_idle r) true.

Section run.
Context (env : RelayEnv) (initial_uploaded : Z) (client_read : CR) (client_write : Writer) (upstream_read : UR) (upstream_write : Writer).
Definition relay_start : RelayState :=
  MkRelay (pipe_start client_read upstream_write initial_uploaded) (pipe_start upstream_read client_write 0)
    (idle_new (re_idle_timeout_ms env) (re_start env)) false.
(** The state after the actions [pre]. *)
Definition relay_after (pre : list relay_action) : RelayState := foldl relay_step relay_start pre.
Definition relay_to : RelayState := relay_rest (relay_after (re_actions env)).

(** The action completes a write. *)
Definition moves (r : RelayState) (a : relay_action) : bool :=
  negb (r_ended r) &&
  match a with UpAt _ e => (task_step finish_up e (r_up r)).2 | DownAt _ e => (task_step shutdown e (r_down r)).2 | Tick _ => false end.
(** At [now], after [pre], no write completed for longer than [limit]. *)
Definition silent_for (limit now : Z) (pre : list relay_action) : Prop :=
  limit < now - re_start env ∧ ∀ pre1 a pre2, pre = pre1 ++ a :: pre2 → moves (relay_after pre1) a = true → limit < now - action_time a.
(** Time does not go back. *)
Definition clock_ok : Prop := StronglySorted Z.le (re_start env :: map action_time (re_actions env)).

Lemma relay_after_snoc pre a : relay_after (pre ++ [a]) = relay_step (relay_after pre) a.
Proof. unfold relay_after. by rewrite foldl_app. Qed.
Lemma relay_after_ended pre post : r_ended (relay_after pre) = true → relay_after (pre ++ post) = relay_after pre.
Proof.
  intros He. unfold relay_after in *. rewrite foldl_app. set (r := foldl relay_step relay_start pre) in *.
  induction post as [|a post IH]; [done|]. cbn [foldl]. unfold relay_step at 2. by rewrite He.
Qed.

(** The tracker holds the last completed write. *)
Lemma relay_idle pre a : r_idle (relay_step (relay_after pre) a) = marked (moves (relay_after pre) a) (action_time a) (r_idle (relay_after pre)).
Proof.
  unfold relay_step, moves. set (r := relay_after pre). destruct (r_ended r); [done|]. cbn [negb andb].
  destruct a as [time e|time e|now]; cbn [action_time].
  - by destruct (task_step finish_up e (r_up r)).
  - by destruct (task_step shutdown e (r_down r)).
  - by destruct (monitor_tick _ _ _ _) as [[au ad]|].
Qed.
Lemma relay_max_idle pre : max_idle (r_idle (relay_after pre)) = max_idle (idle_new (re_idle_timeout_ms env) (re_start env)).
Proof.
  induction pre as [|a pre IH] using rev_ind; [done|]. rewrite relay_after_snoc, relay_idle. unfold marked. by destruct (moves _ _).
Qed.
Lemma silent_spec limit now pre :
  StronglySorted Z.le (re_start env :: map action_time pre) → silent_for limit now pre ↔ limit < idled_for now (r_idle (relay_after pre)).
Proof.
  unfold silent_for, idled_for. set (L := last_active (r_idle (relay_after pre))). intros Hs.
  assert (re_start env ≤ L ∧ (∀ pre1 a pre2, pre = pre1 ++ a :: pre2 → moves (relay_after pre1) a = true → action_time a ≤ L) ∧
    (L = re_start env ∨ ∃ pre1 a pre2, pre = pre1 ++ a :: pre2 ∧ moves (relay_after pre1) a = true ∧ action_time a = L)) as (J1 & J2 & J3).
  { unfold L. clear L. induction pre as [|a pre IH] using rev_ind.
    { cbn. split_and!; [lia|intros pre1 a pre2 E; by destruct pre1|by left]. }
    rewrite map_app, app_comm_cons in Hs. apply StronglySorted_app in Hs as (Hord & Hs & _).
    destruct (IH Hs) as (I1 & I2 & I3). rewrite relay_after_snoc, relay_idle. unfold marked.
    assert (re_start env ≤ action_time a) as Hstart by (apply Hord; left).
    assert (∀ b, b ∈ pre → action_time b ≤ action_time a) as Hle.
    { intros b Hb. apply Hord; [|by left]. right. apply list_elem_of_fmap. by exists b. }
    destruct (moves (relay_after pre) a) eqn:Em; cbn [mark snd last_active].
    - split_and!; [done| |right; by exists pre, a, []]. intros pre1 b pre2 E Hb.
      destruct pre2 as [|c pre2 _] using rev_ind; [apply app_inj_tail in E as [_ ->]; lia|].
      rewrite app_comm_cons, app_assoc in E. apply app_inj_tail in E as [-> _]. apply Hle. apply elem_of_app. right. left.
    - split_and!; [done| |].
      + intros pre1 b pre2 E Hb. destruct pre2 as [|c pre2 _] using rev_ind; [apply app_inj_tail in E as [-> ->]; congruence|].
        rewrite app_comm_cons, app_assoc in E. apply app_inj_tail in E as [-> _]. by eapply I2.
      + destruct I3 as [?|(pre1 & b & pre2 & -> & Hb & Ht)]; [by left|]. right. exists pre1, b, (pre2 ++ [a]). split_and!; [|done|done].
        by rewrite <-app_assoc. }
  split.
  - intros [Ha Hb]. destruct J3 as [->|(pre1 & a & pre2 & E & Hm & <-)]; [done|]. by eapply Hb.
  - intros Hlt. split; [lia|]. intros pre1 a pre2 E Hm. specialize (J2 _ _ _ E Hm). lia.
Qed.

(** *** Both tasks keep their account *)

Context (shut_up : bool → bool).
Context (finish_accepted : ∀ w, accepted (finish_up w) = accepted w).
Context (finish_unbounded : ∀ w, budget w = None → finish_up w = MkWriter [] (accepted w) None (shut_up (closed w))).
Context (Hqc : queued client_write = []) (Hqu : queued upstream_write = []) (Hi : 0 ≤ initial_uploaded ≤ u64_max).

Record relay_ok (r : RelayState) : Prop := {
  ro_up : task_ok (contents client_read) upstream_write initial_uploaded shut_up (r_up r);
  ro_down : task_ok (contents upstream_read) client_write 0 (λ _, true) (r_down r);
  ro_live : r_ended r = false → t_phase (r_up r) ≠ TaskAborted ∧ t_phase (r_down r) ≠ TaskAborted;
  ro_ended : r_ended r = true → (t_phase (r_up r) = TaskFinished ∨ t_phase (r_up r) = TaskAborted) ∧
    (t_phase (r_down r) = TaskFinished ∨ t_phase (r_down r) = TaskAborted);
}.

Lemma pipe_start_ok {S : Type} `{AsyncReadOk S} (reader : S) w c shut :
  queued w = [] → 0 ≤ c ≤ u64_max → task_ok (contents reader) w c shut (pipe_start reader w c).
Proof.
  intros Hq Hc. assert (accepted w = wire w) as Ha by (unfold accepted; by rewrite Hq, app_nil_r).
  split; cbn [pipe_start t_writer]; [exists []; rewrite Ha, app_nil_r; split; [apply prefix_nil|done]|done|].
  exists []. unfold counted. rewrite Z.add_0_r, Z.mod_small by lia. split; [done|]. cbn. by rewrite Ha, app_nil_r.
Qed.
Lemma relay_start_ok : relay_ok relay_start.
Proof. split; cbn; [by apply pipe_start_ok|apply pipe_start_ok; [done|unfold u64_max; lia]|done|done]. Qed.

Lemma task_step_live {S : Type} `{AsyncReadOk S} finish e (t : Task S) : t_phase t ≠ TaskAborted → t_phase (task_step finish e t).1 ≠ TaskAborted.
Proof.
  intros Ht. unfold task_step, task_read. destruct (t_phase t) as [| |rest| | |] eqn:Ep, e as [pend|k]; cbn [fst]; rewrite ?Ep; try done.
  - destruct pend; [destruct (t_unflushed t); [destruct (flush _) as [[] ?]|]; done|by destruct (poll_read _ _) as [[] ?]].
  - by destruct (poll_read _ _) as [[] ?].
  - by destruct (write_all _ _) as [[] ?].
  - destruct (write_all _ _) as [[] ?]; cbn [fst]; by rewrite ?Ep.
Qed.
Lemma is_finished_spec {S : Type} `{AsyncReadOk S} (t : Task S) : is_finished t = true ↔ t_phase t = TaskFinished.
Proof. unfold is_finished. by destruct (t_phase t). Qed.

Lemma relay_step_ok r a : relay_ok r → relay_ok (relay_step r a).
Proof.
  intros [Hu Hd Hl He]. unfold relay_step. destruct (r_ended r) eqn:Ee; [by split; rewrite ?Ee|]. destruct (Hl eq_refl) as [Hlu Hld].
  destruct a as [time e|time e|now].
  - pose proof (task_step_ok _ _ _ finish_up shut_up finish_accepted finish_unbounded e _ Hu) as H'. pose proof (task_step_live finish_up e _ Hlu).
    destruct (task_step finish_up e (r_up r)) as [t moved]. by split.
  - pose proof (task_step_ok _ _ _ shutdown (λ _, true) shutdown_accepted shutdown_unbounded e _ Hd) as H'. pose proof (task_step_live shutdown e _ Hld).
    destruct (task_step shutdown e (r_down r)) as [t moved]. by split.
  - unfold monitor_tick. destruct (_ || _ || _); [|by split; rewrite ?Ee].
    destruct (is_finished (r_up r)) eqn:Eu, (is_finished (r_down r)) eqn:Ed; cbn [negb];
      (split; cbn [r_up r_down r_ended]; [..|done|intros _; rewrite ?is_finished_spec in *; split; auto]); auto using task_abort_ok.
Qed.
Lemma relay_after_ok pre : relay_ok (relay_after pre).
Proof. induction pre as [|a pre IH] using rev_ind; [apply relay_start_ok|]. rewrite relay_after_snoc. by apply relay_step_ok. Qed.
Lemma relay_to_ok : relay_ok relay_to ∧ r_ended relay_to = true.
Proof.
  pose proof (relay_after_ok (re_actions env)) as Hok. unfold relay_to, relay_rest. destruct (r_ended _) eqn:Ee; [done|].
  destruct Hok as [Hu Hd Hl _]. destruct (Hl Ee) as [Hlu Hld]. split; [|done]. split; cbn [r_up r_down r_ended]; [..|done|].
  - by apply task_iter_ok.
  - apply task_iter_ok; auto using shutdown_accepted, shutdown_unbounded.
  - intros _. split; left; by apply task_run_ends.
Qed.

(** *** Why a direction is cut *)

Lemma relay_cut_at pre : r_ended (relay_after pre) = true →
  ∃ pre1 now post, pre = pre1 ++ Tick now :: post ∧ r_ended (relay_after pre1) = false ∧
    relay_after pre = relay_step (relay_after pre1) (Tick now) ∧ r_ended (relay_step (relay_after pre1) (Tick now)) = true.
Proof.
  induction pre as [|a pre IH] using rev_ind; [done|]. intros He. destruct (r_ended (relay_after pre)) eqn:Ee.
  - destruct (IH eq_refl) as (pre1 & now & post & -> & ? & Heq & ?). exists pre1, now, (post ++ [a]). split_and!; [by rewrite <-app_assoc|done| |done].
    by rewrite relay_after_ended.
  - rewrite relay_after_snoc in *. destruct a as [time e|time e|now]; [exfalso; revert He; unfold relay_step; rewrite Ee; by destruct (task_step _ _ _)..|].
    exists pre, now, []. done.
Qed.
End run.
End relay.
Arguments RelayState : clear implicits.

(** [relay]; with a [KeepWriteOpen] around the upstream writer. *)
Definition relay {CR UR : Type} `{AsyncReadOk CR} `{AsyncReadOk UR} : RelayEnv → Z → CR → Writer → UR → Writer → RelayState CR UR :=
  relay_to shutdown.
Definition relay_keep_open {CR UR : Type} `{AsyncReadOk CR} `{AsyncReadOk UR} : RelayEnv → Z → CR → Writer → UR → Writer → RelayState CR UR :=
  relay_to keep_write_open.

(** What became of a direction that had the bytes [C] to carry to [w0]. *)
Record carried {S : Type} `{AsyncReadOk S} (C : bytes) (w0 : Writer) (c0 : Z) (shut : bool → bool) (t : Task S) : Prop := {
  ca_prefix : ∃ D, D `prefix_of` C ∧ accepted (t_writer t) = wire w0 ++ D;
  ca_whole : is_finished t = true → budget w0 = None →
    t_writer t = MkWriter [] (wire w0 ++ C) None (shut (closed w0)) ∧ t_counter t = counted c0 (length C);
  ca_cut : is_finished t = false → closed (t_writer t) = closed w0;
}.

Lemma task_carried {S : Type} `{AsyncReadOk S} C w0 c0 shut (t : Task S) :
  task_ok C w0 c0 shut t → t_phase t = TaskFinished ∨ t_phase t = TaskAborted → carried C w0 c0 shut t.
Proof.
  intros [Hs Hb (D & Hn & Hph)] Hend. unfold phase_ok in Hph. split; [done|..]; unfold is_finished; destruct Hend as [E|E]; rewrite E in *; try done.
  intros _ Hu. destruct (Hph Hu) as [-> ->]. done.
Qed.

Section spec.
Context {CR UR : Type} `{AsyncReadOk CR} `{AsyncReadOk UR}.
Context (finish : Writer → Writer) (shut : bool → bool).
Context (finish_accepted : ∀ w, accepted (finish w) = accepted w).
Context (finish_unbounded : ∀ w, budget w = None → finish w = MkWriter [] (accepted w) None (shut (closed w))).

Lemma relay_to_carried env initial (cr : CR) cw (ur : UR) uw :
  queued cw = [] → queued uw = [] → 0 ≤ initial ≤ u64_max →
  carried (contents cr) uw initial shut (r_up (relay_to finish env initial cr cw ur uw)) ∧
  carried (contents ur) cw 0 (λ _, true) (r_down (relay_to finish env initial cr cw ur uw)).
Proof.
  intros Hc Hu Hi. destruct (relay_to_ok finish env initial cr cw ur uw shut finish_accepted finish_unbounded Hc Hu Hi) as [[Hup Hdown _ Hend] He].
  destruct (Hend He). split; by apply task_carried.
Qed.

(** A direction that was not let finish was aborted at a round of the monitor. *)
Lemma relay_cut env initial (cr : CR) cw (ur : UR) uw :
  queued cw = [] → queued uw = [] → 0 ≤ initial ≤ u64_max → clock_ok env →
  is_finished (r_up (relay_to finish env initial cr cw ur uw)) && is_finished (r_down (relay_to finish env initial cr cw ur uw)) = false →
  ∃ pre now post, re_actions env = pre ++ Tick now :: post ∧
    let r := relay_after finish env initial cr cw ur uw pre in
    silent_for finish env initial cr cw ur uw (max_idle (idle_new (re_idle_timeout_ms env) 0)) now pre ∨
    is_finished (r_up r) || is_finished (r_down r) = true ∧ silent_for finish env initial cr cw ur uw HALF_CLOSED_DRAIN_LIMIT now pre.
Proof.
  intros Hc Hu Hi Hclock Hcut. pose proof (relay_after_ok finish env initial cr cw ur uw shut finish_accepted finish_unbounded Hc Hu Hi) as Hok.
  unfold relay_to, relay_rest in Hcut. destruct (r_ended (relay_after finish env initial cr cw ur uw (re_actions env))) eqn:Ee.
  2: { destruct (ro_live _ _ _ _ _ _ _ (Hok (re_actions env)) Ee) as [Hlu Hld]. cbn [r_up r_down] in Hcut.
       by rewrite (proj2 (is_finished_spec _) (task_run_ends finish _ Hlu)), (proj2 (is_finished_spec _) (task_run_ends shutdown _ Hld)) in Hcut. }
  destruct (relay_cut_at finish env initial cr cw ur uw (re_actions env) Ee) as (pre & now & post & Hacts & He & Hlast & Htick).
  exists pre, now, post. split; [done|]. rewrite Hlast in Hcut. revert Hcut Htick. unfold relay_step. rewrite He. unfold monitor_tick, is_expired.
  set (r := relay_after finish env initial cr cw ur uw pre).
  assert (StronglySorted Z.le (re_start env :: map action_time pre)) as Hs.
  { unfold clock_ok in Hclock. rewrite Hacts, map_app, app_comm_cons in Hclock. by apply StronglySorted_app in Hclock as (_ & ? & _). }
  cbn zeta. rewrite !silent_spec by done. fold r. replace (max_idle (idle_new (re_idle_timeout_ms env) 0)) with (max_idle (r_idle r))
    by (unfold r; by rewrite relay_max_idle). rewrite <-!Z.ltb_lt.
  destruct (is_finished (r_up r)) eqn:Eu, (is_finished (r_down r)) eqn:Ed; cbn [andb orb negb];
    destruct (max_idle (r_idle r) <? _), (HALF_CLOSED_DRAIN_LIMIT <? _); cbn [andb orb negb r_up r_down r_ended]; rewrite ?Eu, ?Ed, ?He;
    cbn [andb]; try done; try (intros _ Hr; unfold r in Hr; congruence); auto.
Qed.
End spec.


(** A connection on which nothing moves is reclaimed: at the first round of
    the monitor past the idle limit, or past the half-closed limit once one
    direction is done, every direction still running is aborted where it is
    and the relay returns. *)
Theorem stalled_relay_reclaimed {CR UR : Type} `{AsyncReadOk CR} `{AsyncReadOk UR} env initial
  (cr : CR) cw (ur : UR) uw pre now post (r := relay_after shutdown env initial cr cw ur uw pre) :
  clock_ok env → re_actions env = pre ++ Tick now :: post → r_ended r = false →
  silent_for shutdown env initial cr cw ur uw (if re_idle_timeout_ms env =? 0 then u64_max else re_idle_timeout_ms env) now pre ∨
  is_finished (r_up r) || is_finished (r_down r) = true ∧ silent_for shutdown env initial cr cw ur uw 30000 now pre →
  relay env initial cr cw ur uw =
    MkRelay (if is_finished (r_up r) then r_up r else task_abort (r_up r)) (if is_finished (r_down r) then r_down r else task_abort (r_down r))
      (r_idle r) true.
Proof.
  intros Hclock Hacts He Hsil.
  assert (StronglySorted Z.le (re_start env :: map action_time pre)) as Hs.
  { unfold clock_ok in Hclock. rewrite Hacts, map_app, app_comm_cons in Hclock. by apply StronglySorted_app in Hclock as (_ & ? & _). }
  rewrite !silent_spec in Hsil by done. fold r in Hsil.
  pose proof (relay_max_idle shutdown env initial cr cw ur uw pre) as Hmax. fold r in Hmax. cbn [idle_new max_idle] in Hmax. rewrite <-Hmax, <-!Z.ltb_lt in Hsil.
  assert (relay_after shutdown env initial cr cw ur uw (pre ++ [Tick now]) =
    MkRelay (if is_finished (r_up r) then r_up r else task_abort (r_up r)) (if is_finished (r_down r) then r_down r else task_abort (r_down r))
      (r_idle r) true) as Hend.
  { rewrite relay_after_snoc. fold r. unfold relay_step. rewrite He. unfold monitor_tick, is_expired, HALF_CLOSED_DRAIN_LIMIT.
    assert ((is_finished (r_up r) && is_finished (r_down r)) || (max_idle (r_idle r) <? idled_for now (r_idle r)) ||
      ((is_finished (r_up r) || is_finished (r_down r)) && (30000 <? idled_for now (r_idle r))) = true) as ->.
    { destruct Hsil as [->|[-> ->]]; by rewrite ?orb_true_r. }
    by destruct (is_finished (r_up r)), (is_finished (r_down r)). }
  unfold relay, relay_to. rewrite Hacts. replace (pre ++ Tick now :: post) with ((pre ++ [Tick now]) ++ post) by by rewrite <-app_assoc.
  rewrite relay_after_ended, Hend; [done|by rewrite Hend].
Qed.

(** The client sends two segments and closes; the upstream answers once and
    then goes silent. *)
Module RelayExample.
Definition client : Source := [Seg (lit "abc"); Seg (lit "de")].
Definition upstream : Source := [Seg (lit "xy"); Seg (lit "z")].
Definition client_write : Writer := MkWriter [] [] None false.
Definition upstream_write : Writer := MkWriter [] (lit ">") None false.
Definition up (time : Z) : list relay_action := [UpAt time (Wake true); UpAt time (Wake false); UpAt time (Accept 1); UpAt time (Wake false)].
Definition down (time : Z) : list relay_action := [DownAt time (Wake false); DownAt time (Wake false)].
Definition env : RelayEnv :=
  MkRelayEnv 0 0 (up 10 ++ down 20 ++ up 30 ++ up 40 ++ [Tick 500; DownAt 501 (Wake true); Tick 30030; Tick 30040; DownAt 30041 (Wake true)]).
End RelayExample.


(** ** Self-connection *)

Definition upstream_lands_on (upstream bound : SocketAddr) (local_ips self_ips : list IpAddr) : bool :=
  if negb (sa_port upstream =? sa_port bound) then false
  else if is_unspecified (sa_ip bound) then
    is_loopback (sa_ip upstream) || bool_decide (sa_ip upstream ∈ local_ips) || bool_decide (sa_ip upstream ∈ self_ips)
  else bool_decide (sa_ip upstream = sa_ip bound)
       || (negb (is_loopback (sa_ip bound)) && bool_decide (sa_ip upstream ∈ self_ips)).

(** [runtime_live::SelfEndpoints] *)
Record SelfEndpoints := MkSelf { bound_sockets : list SocketAddr; local_ips : list IpAddr; self_ips : list IpAddr }.

(** [false]: rejected as a loop. [lookup_host] is the system resolver. *)
Definition reject_obvious_self_connect (get_if_addrs : option (list IfAddr)) (lookup_host : bytes → option (list SocketAddr))
  (endpoints : SelfEndpoints) (bind resolved : bytes) : bool :=
  let own_bind := match resolve_bind_addr get_if_addrs bind with Ok a => parse_sockaddr a | Err _ => None end in
  match lookup_host resolved with
  | None => true
  | Some addrs =>
      negb (existsb (λ upstream,
        match own_bind with
        | Some b => upstream_lands_on upstream b (local_ips endpoints) (self_ips endpoints)
        | None => false
        end
        || existsb (λ b, upstream_lands_on upstream b (local_ips endpoints) (self_ips endpoints)) (bound_sockets endpoints)) addrs)
  end.

(** An upstream the check lets through cannot land on a socket of this
    proxy as far as its address tells: none of its addresses is the bound
    address of a listener, or on the port of a wildcard listener a loopback,
    local or public address of the host. *)
Theorem self_connect_check_sound ifs lookup_host endpoints bind resolved addrs u b :
  reject_obvious_self_connect ifs lookup_host endpoints bind resolved = true →
  lookup_host resolved = Some addrs → u ∈ addrs → b ∈ bound_sockets endpoints → sa_port u = sa_port b →
  sa_ip u ≠ sa_ip b ∨ is_unspecified (sa_ip b) = true ∧ is_loopback (sa_ip u) = false ∧
    (sa_ip u ∉ local_ips endpoints) ∧ (sa_ip u ∉ self_ips endpoints).
Proof.
  unfold reject_obvious_self_connect. intros Hr Hl Hu Hb Hp. rewrite Hl in Hr. apply negb_true_iff in Hr.
  rewrite <-not_true_iff_false, existsb_exists in Hr.
  assert (upstream_lands_on u b (local_ips endpoints) (self_ips endpoints) = false) as Hnot.
  { apply not_true_iff_false. intros Ht. apply Hr. exists u. split; [by apply list_elem_of_In|]. apply orb_true_iff. right.
    apply existsb_exists. exists b. split; [by apply list_elem_of_In|done]. }
  unfold upstream_lands_on in Hnot. rewrite Hp, Z.eqb_refl in Hnot. cbn [negb] in Hnot.
  destruct (is_unspecified (sa_ip b)).
  - apply orb_false_iff in Hnot as [[? ?]%orb_false_iff ?]. bool_prop. by right.
  - apply orb_false_iff in Hnot as [? _]. bool_prop. by left.
Qed.

Definition own_endpoints : SelfEndpoints := MkSelf [MkSocketAddr (V4 [0; 0; 0; 0]) 443] [V4 [192; 168; 0; 5]] [].
Lemma self_connect_check_sound_witness :
  reject_obvious_self_connect None (λ _, Some [MkSocketAddr (V4 [192; 168; 0; 9]) 443]) own_endpoints (lit "0.0.0.0:443") (lit "b:443") = true ∧
  (V4 [192; 168; 0; 9] ≠ V4 [0; 0; 0; 0] ∨ true = true ∧ false = false ∧
    (V4 [192; 168; 0; 9] ∉ local_ips own_endpoints) ∧ (V4 [192; 168; 0; 9] ∉ self_ips own_endpoints)).
Proof.
  split; [vm_compute; reflexivity|].
  apply (self_connect_check_sound None (λ _, Some [MkSocketAddr (V4 [192; 168; 0; 9]) 443]) own_endpoints (lit "0.0.0.0:443") (lit "b:443")
    [MkSocketAddr (V4 [192; 168; 0; 9]) 443] (MkSocketAddr (V4 [192; 168; 0; 9]) 443) (MkSocketAddr (V4 [0; 0; 0; 0]) 443));
    [vm_compute; reflexivity|reflexivity|left|left|reflexivity].
Defined.

(** The check compares addresses as written: an IPv4-mapped spelling of a
    loopback address is not recognised on the port of an IPv4 wildcard
    listener, while the plain spelling is. *)
Theorem mapped_loopback_evades_check a b c port bound locals selves :
  is_byte a ∧ is_byte b ∧ is_byte c →
  sa_ip bound = V4 [0; 0; 0; 0] → sa_port bound = port →
  (V6 (to_ipv6_mapped [127; a; b; c]) ∉ locals) → (V6 (to_ipv6_mapped [127; a; b; c]) ∉ selves) →
  to_canonical (V6 (to_ipv6_mapped [127; a; b; c])) = V4 [127; a; b; c] ∧
  upstream_lands_on (MkSocketAddr (V4 [127; a; b; c]) port) bound locals selves = true ∧
  upstream_lands_on (MkSocketAddr (V6 (to_ipv6_mapped [127; a; b; c])) port) bound locals selves = false.
Proof.
  intros (Ha & Hb & Hc) Hip Hp Hl Hs. unfold is_byte in *. split_and!.
  - unfold to_canonical. rewrite to_ipv4_mapped_v6_mapped; [done|done|].
    unfold is_byte. repeat constructor; lia.
  - unfold upstream_lands_on. cbn [sa_port sa_ip]. by rewrite Hp, Z.eqb_refl, Hip.
  - unfold upstream_lands_on. cbn [sa_port sa_ip]. rewrite Hp, Z.eqb_refl, Hip. cbn [negb is_unspecified].
    rewrite (bool_decide_eq_true_2 ([0; 0; 0; 0] = _)) by done. rewrite (bool_decide_eq_false_2 _ Hl), (bool_decide_eq_false_2 _ Hs).
    cbn [is_loopback to_ipv6_mapped]. by rewrite bool_decide_eq_false_2.
Qed.

Lemma mapped_loopback_evades_check_witness :
  upstream_lands_on (MkSocketAddr (V6 (to_ipv6_mapped [127; 0; 0; 1])) 443) (MkSocketAddr (V4 [0; 0; 0; 0]) 443) [] [] = false.
Proof.
  apply (mapped_loopback_evades_check 0 0 1 443 (MkSocketAddr (V4 [0; 0; 0; 0]) 443) [] []);
    [unfold is_byte; lia|reflexivity|reflexivity|apply not_elem_of_nil|apply not_elem_of_nil].
Defined.

(** ** Registering our own ClientHello (src/upstream_tls.rs) *)

Record ClientHelloTrackingStream := MkTracking { t_buffered : bytes; t_registered : bool }.
Definition tracking_new : ClientHelloTrackingStream := MkTracking [] false.

(** [observe]: the new state and the random registered, if any. *)
Definition observe (b : bytes) (t : ClientHelloTrackingStream) : ClientHelloTrackingStream * option bytes :=
  if t_registered t || (DEFAULT_MAX_CLIENT_HELLO_SIZE <=? Z.of_nat (length (t_buffered t))) then (t, None)
  else
    let remaining := Z.to_nat (DEFAULT_MAX_CLIENT_HELLO_SIZE - Z.of_nat (length (t_buffered t))) in
    let buffered := t_buffered t ++ take (length b `min` remaining) b in
    match extract_client_random buffered with
    | Some random => (MkTracking buffered true, Some random)
    | None => (MkTracking buffered false, None)
    end.

(** The writes of a connection: the randoms it registered. *)
Fixpoint observe_all (chunks : list bytes) (t : ClientHelloTrackingStream) : list bytes :=
  match chunks with
  | [] => []
  | b :: chunks => let '(t, r) := observe b t in match r with Some r => [r] | None => [] end ++ observe_all chunks t
  end.

(** One [poll_write]: what the socket answered, and the bytes it accepted. *)
Inductive poll_write_outcome := WritePending | WriteError | WriteReady (count : nat).
Definition accepted_part (outcome : poll_write_outcome) (b : bytes) : bytes :=
  match outcome with WriteReady count => take count b | _ => [] end.
Definition tracking_poll_write (outcome : poll_write_outcome) (b : bytes) (t : ClientHelloTrackingStream) : ClientHelloTrackingStream * option bytes :=
  match outcome with
  | WriteReady count => observe (take count b) t
  | _ => (t, None)
  end.
Fixpoint poll_writes (polls : list (poll_write_outcome * bytes)) (t : ClientHelloTrackingStream) : list bytes :=
  match polls with
  | [] => []
  | (outcome, b) :: polls =>
      let '(t, r) := tracking_poll_write outcome b t in match r with Some r => [r] | None => [] end ++ poll_writes polls t
  end.

Lemma reassemble_mono fuel fuel' hs rest x h :
  (fuel ≤ fuel')%nat → reassemble fuel hs rest = Some h → ∃ y, reassemble fuel' hs (rest ++ x) = Some (h ++ y).
Proof.
  revert fuel' hs rest. induction fuel as [|fuel IH]; intros fuel' hs rest Hf H.
  - cbn [reassemble] in H. case_decide as Hn; [|done]. injection H as <-. exists []. rewrite app_nil_r.
    destruct fuel'; cbn [reassemble]; by rewrite decide_True.
  - destruct fuel' as [|fuel']; [lia|]. cbn [reassemble] in H |- *. case_decide as Hn.
    { injection H as <-. exists []. by rewrite app_nil_r. }
    destruct rest as [|ty [|v1 [|v0 [|l1 [|l0 payload]]]]]; try done. cbn [app].
    destruct (negb (ty =? 22)); [done|]. set (n := Z.to_nat (l1 * 256 + l0)) in *.
    destruct (decide (n ≤ length payload)%nat) as [Hle|Hgt].
    + rewrite take_app_le, drop_app_le by lia. apply IH; [lia|done].
    + rewrite (drop_ge payload), (take_ge payload) in H by lia.
      assert (h = hs ++ payload ∧ (NEEDED ≤ length (hs ++ payload))%nat) as [-> Hlen].
      { destruct fuel; cbn [reassemble] in H; case_decide; try done; by injection H as <-. }
      rewrite take_app_ge by lia. exists (take (n - length payload) x). rewrite <-app_assoc.
      destruct fuel'; cbn [reassemble]; rewrite decide_True; try done; rewrite !length_app in *; lia.
Qed.

Lemma reassemble_length fuel hs rest h : reassemble fuel hs rest = Some h → (NEEDED ≤ length h)%nat.
Proof.
  revert hs rest. induction fuel as [|fuel IH]; intros hs rest; cbn [reassemble]; case_decide; try done.
  - by intros [= <-].
  - by intros [= <-].
  - repeat case_match; try done. apply IH.
Qed.

(** More bytes do not change the random. *)
Lemma extract_client_random_mono b x r :
  extract_client_random b = Some r → extract_client_random (b ++ x) = Some r.
Proof.
  unfold extract_client_random. destruct (reassemble (S (length b)) [] b) as [h|] eqn:E; [|done]. cbn [mbind option_bind].
  apply reassemble_length in E as Hlen.
  apply (reassemble_mono _ (S (length (b ++ x))) _ _ x) in E as [y ->]; [|rewrite length_app; lia].
  cbn [mbind option_bind]. unfold NEEDED, HANDSHAKE_PREFIX in *. destruct h as [|c h]; [cbn in Hlen; lia|].
  cbn [app]. destruct (c =? 1); [|done]. intros [= <-]. f_equal. change (c :: h ++ y) with ((c :: h) ++ y).
  rewrite drop_app_le, take_app_le by (rewrite ?length_drop; lia). done.
Qed.

Definition HELLO_LIMIT : nat := Z.to_nat DEFAULT_MAX_CLIENT_HELLO_SIZE.

Lemma observe_all_registered chunks b : observe_all chunks (MkTracking b true) = [].
Proof. induction chunks as [|c chunks IH]; [done|]. cbn [observe_all]. unfold observe. cbn [t_registered orb]. exact IH. Qed.

Lemma observe_all_spec chunks t :
  t_registered t = false → (length (t_buffered t) ≤ HELLO_LIMIT)%nat → extract_client_random (t_buffered t) = None →
  observe_all chunks t =
    match extract_client_random (take HELLO_LIMIT (t_buffered t ++ concat chunks)) with Some r => [r] | None => [] end.
Proof.
  revert t. induction chunks as [|c chunks IH]; intros [b reg] Hr Hl Hn; cbn [t_buffered t_registered] in *; subst.
  { cbn [concat observe_all]. rewrite app_nil_r, take_ge by lia. by rewrite Hn. }
  cbn [observe_all concat]. unfold observe. cbn [t_buffered t_registered orb].
  change DEFAULT_MAX_CLIENT_HELLO_SIZE with (Z.of_nat HELLO_LIMIT).
  destruct (Z.leb_spec (Z.of_nat HELLO_LIMIT) (Z.of_nat (length b))) as [Hfull|Hroom].
  { rewrite IH by done. cbn [t_buffered]. rewrite !take_app_le by lia. done. }
  replace (Z.to_nat (Z.of_nat HELLO_LIMIT - Z.of_nat (length b))) with (HELLO_LIMIT - length b)%nat by lia.
  set (b' := b ++ take _ c).
  assert (b' = take HELLO_LIMIT (b ++ c)) as Hb'.
  { unfold b'. rewrite take_app_ge by lia. f_equal. destruct (decide (length c ≤ HELLO_LIMIT - length b)%nat).
    - rewrite Nat.min_l, !take_ge by lia. done.
    - by rewrite Nat.min_r by lia. }
  assert (∃ x, take HELLO_LIMIT (b ++ c ++ concat chunks) = b' ++ x) as [x Hx].
  { rewrite Hb', app_assoc, take_app. by eexists. }
  destruct (extract_client_random b') as [r|] eqn:E.
  - rewrite observe_all_registered, Hx, (extract_client_random_mono _ _ _ E). done.
  - cbn [app]. rewrite IH; [|done|cbn; rewrite Hb', length_take; lia|done]. cbn [t_buffered]. do 2 f_equal.
    rewrite Hb'. rewrite (app_assoc b c). destruct (decide (length (b ++ c) ≤ HELLO_LIMIT)%nat).
    + by rewrite (take_ge (b ++ c)) by lia.
    + rewrite (take_app_le (b ++ c)), (take_app_le (take _ _)) by (rewrite ?length_take; lia). by rewrite take_take, Nat.min_id.
Qed.

(** However the TLS library cuts its handshake into writes, a connection
    registers exactly the random of the ClientHello it sent, once; nothing is
    registered if the first 64 KiB hold no complete one. *)
Theorem own_hello_registered_once chunks :
  observe_all chunks tracking_new =
    match extract_client_random (take HELLO_LIMIT (concat chunks)) with Some r => [r] | None => [] end.
Proof. rewrite observe_all_spec; [done|done|cbn; lia|reflexivity]. Qed.

(** A refused or pending write leaves no trace: what the polls register is
    what the accepted parts register. *)
Lemma poll_writes_observed polls t :
  poll_writes polls t = observe_all (omap (λ '(o, b), match o with WriteReady n => Some (take n b) | _ => None end) polls) t.
Proof.
  revert t. induction polls as [|[[| |n] b] polls IH]; intros t; cbn [poll_writes tracking_poll_write omap list_omap observe_all app]; [done|apply IH..|].
  destruct (observe (take n b) t) as [t' r]. by rewrite IH.
Qed.

(** Registration follows what reached the wire: over any sequence of polls
    the connection registers the random in the bytes the socket accepted, once,
    and nothing of what it was only offered. *)
Theorem accepted_hello_registered polls :
  poll_writes polls tracking_new =
    match extract_client_random (take HELLO_LIMIT (concat (map (λ '(o, b), accepted_part o b) polls))) with Some r => [r] | None => [] end.
Proof.
  rewrite poll_writes_observed, observe_all_spec; [|done|cbn; lia|reflexivity]. cbn [t_buffered tracking_new app].
  replace (concat (map _ polls)) with (concat (omap (λ '(o, b), match o with WriteReady n => Some (take n b) | _ => None end) polls)); [done|].
  induction polls as [|[[| |n] b] polls IH]; [done|exact IH..|]. cbn. by f_equal.
Qed.
