(* ===== verification/Dataplane.v ===== *)
(** * What the data-plane handlers share (src/dataplane/policy.rs,
      src/dataplane/mod.rs, src/upstream_tls.rs)

    The relay policy of a listener, the upstream leg (a socket, the PROXY
    header announced on it, the TLS session on top of it), and the state a
    handler works on, with the monad its early returns need.  Connecting and
    the TLS handshake with the upstream are parameters. *)

From S2P Require Import Prelude RustStd Net ProxyProtocol Stream TlsHeader HelloCache BindAddr Config Accounting ActiveTracker RuntimeConfig Forward Relay.
Open Scope Z_scope.

(** ** Relay policy *)

Record RelayPolicy := MkPolicy {
  rp_bind : bytes;
  rp_target : option bytes;
  rp_target_port : Z;
  rp_speed_limit : option f64;
  rp_upstream_tls : bool;
}.

(** [RelayPolicy::speed_limit]; [None] is infinity. *)
Definition policy_speed_limit (p : RelayPolicy) : option f64 :=
  match rp_speed_limit p with
  | Some limit => if limit =? 0 then None else Some limit
  | None => None
  end.

Definition for_tls_route (c : DefaultListenerConfig) (a : TlsRouteAction) : RelayPolicy :=
  MkPolicy (dl_bind c) None (default 443 (tls_target_port a)) (speed_limit (ordinary_traffic c))
    match a with
    | Passthrough _ _ _ _ => true
    | Terminate _ _ upstream _ _ => bool_decide (upstream = Tls)
    | TlsReverseProxy _ | Reject => false
    end.

(** ** The upstream leg *)

(** A write to a socket leaves at once. *)
Definition tcp_write (d : bytes) (w : Writer) : bool * Writer :=
  match spend (budget w) with
  | Some b => (true, MkWriter (queued w) (wire w ++ d) b (closed w))
  | None => (false, w)
  end.
(** [ProxyProtocol::announce] on the fresh upstream socket. *)
Definition tcp_announce (pp : ProxyProtocol.ProxyProtocol) (client loc : SocketAddr) (w : Writer) : bool * Writer :=
  if ProxyProtocol.is_none pp then (true, w) else tcp_write (ProxyProtocol.header pp client loc) w.
Definition fresh_socket (b : option nat) : Writer := MkWriter [] [] b false.

(** What a TLS handshake with the upstream does: the chunks the client side
    writes, and the session it gives (its write budget and what the peer
    sends), if any. *)
Record Handshake := MkHandshake { hs_written : list bytes; hs_session : option (option nat * Source) }.
(** What connecting to an endpoint gives: the socket's write budget, what the
    peer sends on it in the clear, and a handshake for a server name. *)
Record Upstream := MkUpstream { up_budget : option nat; up_replies : Source; up_handshake : bytes → Handshake }.
(** The connection to the upstream as the peer sees it: the socket, and the
    name and the plaintext of the TLS session on it. *)
Record Leg := MkLeg { leg_endpoint : bytes; leg_socket : Writer; leg_session : option (bytes * Writer) }.
Definition leg_writer (l : Leg) : Writer := match leg_session l with Some (_, w) => w | None => leg_socket l end.
Definition set_leg_writer (w : Writer) (l : Leg) : Leg :=
  match leg_session l with
  | Some (name, _) => MkLeg (leg_endpoint l) (leg_socket l) (Some (name, w))
  | None => MkLeg (leg_endpoint l) w None
  end.

(** How a relay ended: which directions were not cut by its monitor. *)
Record RelayOutcome := MkOutcome { upload_whole : bool; download_whole : bool }.

(** ** The state of a handler *)

Section plane.
Context {S : Type}.

(** The process's loop caches and group table, the reports about the
    connection, the listener's counters, the client's two directions and the
    upstream leg. *)
Record Plane := MkPlane {
  pl_hellos : Cache bytes;
  pl_tokens : Cache bytes;
  pl_pools : Pools;
  pl_tracks : list track;
  pl_stats : ListenerStats;
  pl_client : ConnStream S;
  pl_out : Writer;
  pl_leg : option Leg;
}.
Definition set_caches (hellos tokens : Cache bytes) (p : Plane) : Plane :=
  MkPlane hellos tokens (pl_pools p) (pl_tracks p) (pl_stats p) (pl_client p) (pl_out p) (pl_leg p).
Definition set_pools (pools : Pools) (p : Plane) : Plane :=
  MkPlane (pl_hellos p) (pl_tokens p) pools (pl_tracks p) (pl_stats p) (pl_client p) (pl_out p) (pl_leg p).
Definition set_reports (tracks : list track) (stats : ListenerStats) (p : Plane) : Plane :=
  MkPlane (pl_hellos p) (pl_tokens p) (pl_pools p) tracks stats (pl_client p) (pl_out p) (pl_leg p).
Definition set_client (c : ConnStream S) (p : Plane) : Plane :=
  MkPlane (pl_hellos p) (pl_tokens p) (pl_pools p) (pl_tracks p) (pl_stats p) c (pl_out p) (pl_leg p).
Definition set_out (w : Writer) (p : Plane) : Plane :=
  MkPlane (pl_hellos p) (pl_tokens p) (pl_pools p) (pl_tracks p) (pl_stats p) (pl_client p) w (pl_leg p).
Definition set_leg (l : option Leg) (p : Plane) : Plane :=
  MkPlane (pl_hellos p) (pl_tokens p) (pl_pools p) (pl_tracks p) (pl_stats p) (pl_client p) (pl_out p) l.

Context {E : Type}.
Definition plane (A : Type) : Type := Plane → result E A * Plane.
#[global] Instance plane_ret : MRet plane := λ A a p, (Ok a, p).
#[global] Instance plane_bind : MBind plane := λ A B f m p,
  match m p with (Ok a, p) => f a p | (Err e, p) => (Err e, p) end.

Definition plane_fail {A} (e : E) : plane A := λ p, (Err e, p).
(** [active_tracker] calls, and the ones that go with the listener's
    counters. *)
Definition report (u : track) : plane () := λ p, (Ok (), set_reports (pl_tracks p ++ [u]) (pl_stats p) p).
Definition count_uploaded (n : Z) : plane () := λ p,
  (Ok (), set_reports (pl_tracks p ++ [TrackUploaded n]) (increase_uploaded_bytes n (pl_stats p)) p).
Definition count_downloaded (n : Z) : plane () := λ p,
  (Ok (), set_reports (pl_tracks p ++ [TrackDownloaded n]) (increase_downloaded_bytes n (pl_stats p)) p).
(** A write to the upstream, failing with [e]. *)
Definition upstream_op (op : Writer → bool * Writer) (e : E) : plane () := λ p,
  match pl_leg p with
  | None => (Err e, p)
  | Some l => let '(ok, w) := op (leg_writer l) in
              ((if ok then Ok () else Err e), set_leg (Some (set_leg_writer w l)) p)
  end.
Definition client_op (op : Writer → bool * Writer) (e : E) : plane () := λ p,
  let '(ok, w) := op (pl_out p) in ((if ok then Ok () else Err e), set_out w p).

(** [connect_trust_all_tls]: the handshake's writes pass the observer, which
    registers our own ClientHello in the loop cache. *)
Definition connect_trust_all_tls (now : Z) (u : Upstream) (server_name : bytes) (e : E) : plane Source := λ p,
  match pl_leg p with
  | None => (Err e, p)
  | Some l =>
      let hs := up_handshake u server_name in
      let hellos := foldl (λ c random, cache_insert now DEFAULT_TTL random c) (pl_hellos p) (observe_all (hs_written hs) tracking_new) in
      let w := leg_socket l in
      let socket := MkWriter (queued w) (wire w ++ concat (hs_written hs)) (budget w) (closed w) in
      let p := set_caches hellos (pl_tokens p) p in
      match hs_session hs with
      | None => (Err e, set_leg (Some (MkLeg (leg_endpoint l) socket None)) p)
      | Some (b, replies) =>
          (Ok replies, set_leg (Some (MkLeg (leg_endpoint l) socket (Some (server_name, fresh_socket b)))) p)
      end
  end.

(** The bytes a pipe counted, reported like its calls do one by one. *)
Definition relayed (initial counter : Z) : Z := (counter - initial) mod (u64_max + 1).
(** [relay::relay] on the halves of the client and the upstream: [run] is
    [Relay.relay] or [Relay.relay_keep_open].  The result says which
    directions ended by themselves. *)
Definition plane_relay {CR UR : Type} `{AsyncReadOk CR} `{AsyncReadOk UR} (initial : Z) (e : E)
  (run : Writer → Writer → RelayState CR UR) : plane RelayOutcome := λ p,
  match pl_leg p with
  | None => (Err e, p)
  | Some l =>
      let r := run (pl_out p) (leg_writer l) in
      (_ ← count_uploaded (relayed initial (t_counter (r_up r)));
       _ ← count_downloaded (relayed 0 (t_counter (r_down r)));
       mret (MkOutcome (is_finished (r_up r)) (is_finished (r_down r))))
        (set_out (t_writer (r_down r)) (set_leg (Some (set_leg_writer (t_writer (r_up r)) l)) p))
  end.

Lemma plane_bind_inv {A B} (m : plane A) (k : A → plane B) p r p' :
  (m ≫= k) p = (r, p') → (∃ e, m p = (Err e, p') ∧ r = Err e) ∨ ∃ a p1, m p = (Ok a, p1) ∧ k a p1 = (r, p').
Proof.
  unfold mbind, plane_bind. destruct (m p) as [[a|e] p1]; [|intros [= <- <-]; left; by exists e].
  intros Hk. right. by exists a, p1.
Qed.
Lemma plane_bind_ok {A B} (m : plane A) (k : A → plane B) p a p1 : m p = (Ok a, p1) → (m ≫= k) p = k a p1.
Proof. unfold mbind, plane_bind. by intros ->. Qed.
End plane.
Arguments Plane : clear implicits.
Arguments plane : clear implicits.

(** A bind that ran: either it failed there, or it went on. *)
Ltac plane_step H := let e := fresh "e" in let E := fresh "E" in
  let He := fresh "He" in
  apply plane_bind_inv in H as [(e & E & He)|(? & ? & E & H)];
  [first [discriminate He|let r := match type of He with ?r = _ => r end in subst r]|].

Lemma leg_writer_set w l : leg_writer (set_leg_writer w l) = w.
Proof. unfold leg_writer, set_leg_writer. by destruct (leg_session l) as [[name ?]|]. Qed.
Lemma set_leg_writer_twice w w' l : set_leg_writer w (set_leg_writer w' l) = set_leg_writer w l.
Proof. unfold set_leg_writer. by destruct (leg_session l) as [[name ?]|] eqn:E; cbn. Qed.
Lemma set_leg_writer_same l : set_leg_writer (leg_writer l) l = l.
Proof. destruct l as [e s [[name w]|]]; done. Qed.

Lemma upstream_op_inv {S E} op (e : E) (p : Plane S) l r p' :
  pl_leg p = Some l → upstream_op op e p = (r, p') →
  p' = set_leg (Some (set_leg_writer (op (leg_writer l)).2 l)) p ∧ r = if (op (leg_writer l)).1 then Ok () else Err e.
Proof. unfold upstream_op. intros ->. destruct (op (leg_writer l)). by intros [= <- <-]. Qed.

Lemma plane_relay_inv {S E CR UR : Type} `{AsyncReadOk CR} `{AsyncReadOk UR} initial (e : E) (run : Writer → Writer → RelayState CR UR) (p : Plane S) l r p' :
  pl_leg p = Some l → plane_relay initial e run p = (r, p') →
  let out := run (pl_out p) (leg_writer l) in
  r = Ok (MkOutcome (is_finished (r_up out)) (is_finished (r_down out))) ∧
  pl_out p' = t_writer (r_down out) ∧ pl_leg p' = Some (set_leg_writer (t_writer (r_up out)) l) ∧
  pl_client p' = pl_client p ∧ pl_hellos p' = pl_hellos p ∧ pl_pools p' = pl_pools p ∧
  pl_tracks p' = pl_tracks p ++ [TrackUploaded (relayed initial (t_counter (r_up out))); TrackDownloaded (relayed 0 (t_counter (r_down out)))].
Proof. unfold plane_relay. intros -> [= <- <-]. cbn. by rewrite <-app_assoc. Qed.

Lemma announce_inv pp remote loc b :
  let '(ok, w) := tcp_announce pp remote loc (fresh_socket b) in
  closed w = false ∧ queued w = [] ∧ if ok then accepted w = ProxyProtocol.header pp remote loc ∧ (b = None → budget w = None) else accepted w = [].
Proof.
  unfold tcp_announce, tcp_write, fresh_socket, accepted. destruct pp; cbn [ProxyProtocol.is_none].
  { split_and!; [done|done| |done]. cbn. unfold ProxyProtocol.header. by destruct (ProxyProtocol.same_family remote loc). }
  all: destruct b as [[|b]|]; cbn [spend budget queued wire closed]; split_and!; try done; cbn; by rewrite app_nil_r.
Qed.
