(* ===== verification/ErrorPages.v ===== *)
(** * Locally generated responses (src/dataplane/http/error_pages.rs and the
      response helpers of src/dataplane/http/static_files.rs)

    A response is written to a [Writer] through a small error monad: the
    handlers stop at the first failed operation ([?]).  The pages are the
    program's templates, with [~] standing for the double quote. *)

From S2P Require Import Prelude RustStd Stream TlsHeader HelloCache BindAddr Relay FilePath.
Open Scope Z_scope.

(** ** Writing a response *)

Inductive serve_error := WriteFailed | ReadFailed | FileTruncated | CompressorFailed | ListingFailed | MetadataFailed.

Definition io (A : Type) : Type := Writer → result serve_error A * Writer.
#[global] Instance io_ret : MRet io := λ A a w, (Ok a, w).
#[global] Instance io_bind : MBind io := λ A B f m w,
  match m w with (Ok a, w) => f a w | (Err e, w) => (Err e, w) end.

(** [stream.write_all(..).await?] and [stream.shutdown().await?] *)
Definition put (d : bytes) : io () := λ w,
  match write_all d w with (true, w) => (Ok (), w) | (false, w) => (Err WriteFailed, w) end.
Definition close : io () := λ w,
  match flush w with (true, w) => (Ok (), MkWriter (queued w) (wire w) (budget w) true) | (false, w) => (Err WriteFailed, w) end.
Definition io_fail {A} (e : serve_error) : io A := λ w, (Err e, w).

(** ** Pages *)

Definition default_detail (status : Z) : bytes :=
  if status =? 400 then lit "The request could not be understood."
  else if status =? 401 then lit "Authentication is required to access this resource."
  else if status =? 403 then lit "You don't have permission to access this resource."
  else if status =? 404 then lit "The requested resource was not found on this server."
  else if status =? 405 then lit "This method is not allowed for the requested resource."
  else if status =? 416 then lit "The requested range cannot be satisfied."
  else if status =? 500 then lit "The server encountered an unexpected condition."
  else if status =? 502 then lit "The upstream server could not be reached."
  else lit "The request could not be completed.".

Definition reason (status : Z) : bytes :=
  if status =? 200 then lit "OK"
  else if status =? 204 then lit "No Content"
  else if status =? 400 then lit "Bad Request"
  else if status =? 401 then lit "Unauthorized"
  else if status =? 403 then lit "Forbidden"
  else if status =? 404 then lit "Not Found"
  else if status =? 405 then lit "Method Not Allowed"
  else if status =? 416 then lit "Range Not Satisfiable"
  else if status =? 500 then lit "Internal Server Error"
  else if status =? 502 then lit "Bad Gateway"
  else lit "Error".

Definition render (status : Z) (reason detail : bytes) : bytes :=
  html "<!doctype html><html lang=en><meta charset=utf-8><meta name=viewport content=~width=device-width,initial-scale=1~><title>"
  ++ show_dec status
  ++ html " "
  ++ reason
  ++ html "</title><style>
:root{--bg:#fafbfd;--panel:#fff;--text:#1c2433;--muted:#6b7686;--line:#e5e9f1;--accent:#2563c9}
@media(prefers-color-scheme:dark){:root{--bg:#12161e;--panel:#1a202b;--text:#e6eaf2;--muted:#8b95a7;--line:#2a3240;--accent:#6ba3f5}}
*{box-sizing:border-box}body{margin:0;min-height:100vh;display:flex;align-items:center;justify-content:center;background:var(--bg);color:var(--text);font:16px/1.6 system-ui,-apple-system,~Segoe UI~,sans-serif}
main{text-align:center;padding:3rem 1.5rem;max-width:36rem}
.mark{width:64px;height:64px;margin:0 auto 1.2rem;display:block;color:var(--accent)}
h1{font-size:4rem;margin:0;font-weight:700;letter-spacing:-.02em}
h2{font-size:1.25rem;margin:.2rem 0 1rem;font-weight:600}
p{color:var(--muted);margin:0 0 1.6rem}
footer{color:var(--muted);font-size:.8rem;border-top:1px solid var(--line);padding-top:1rem;letter-spacing:.04em}
</style><body><main>
<svg class=mark viewBox=~0 0 48 48~ fill=~none~ stroke=~currentColor~ stroke-width=~2.5~ stroke-linecap=~round~ stroke-linejoin=~round~ aria-hidden=~true~><path d=~M24 4 6 11v11c0 10.5 7.7 18.9 18 22 10.3-3.1 18-11.5 18-22V11L24 4z~/><path d=~M16 24h12m0 0-4-4m4 4-4 4~/><path d=~M32 30H20m0 0 4 4m-4-4 4-4~ opacity=~.55~/></svg>
<h1>"
  ++ show_dec status
  ++ html "</h1><h2>"
  ++ reason
  ++ html "</h2><p>"
  ++ html_escape detail
  ++ html "</p>
<footer>tlsproxy</footer>
</main></body></html>".

(** A response head: the lines, each ended by CRLF, and the blank line. *)
Definition head_of (lines : list bytes) : bytes := (lines ≫= λ l, l ++ crlf) ++ crlf.
Definition content_length_line (n : Z) : bytes := lit "Content-Length: " ++ show_dec n.
Definition connection_close : bytes := lit "Connection: close".
Definition nosniff : bytes := lit "X-Content-Type-Options: nosniff".

(** [error_response] *)
Definition error_head (status : Z) (body : bytes) : bytes :=
  head_of [lit "HTTP/1.1 " ++ show_dec status ++ lit " " ++ reason status; lit "Content-Type: text/html; charset=utf-8";
           content_length_line (Z.of_nat (length body)); connection_close; nosniff].
Definition error_response (status : Z) (head_only : bool) : io () :=
  let body := render status (reason status) (default_detail status) in
  _ ← put (error_head status body);
  _ ← (if head_only then mret () else put body);
  close.
Definition not_found (head_only : bool) : io () := error_response 404 head_only.

(** [redirect] of the static file server *)
Definition redirect_head (location : bytes) : bytes :=
  head_of [lit "HTTP/1.1 301 Moved Permanently"; lit "Location: " ++ location; content_length_line 0; connection_close].
Definition redirect (location : bytes) : io () := _ ← put (redirect_head location); close.

(** ** Lemmas *)

(** With a peer that takes everything, [emits m r out]: [m] ends with [r]
    after handing over [out]; [answers m out]: [m] sends [out] and closes. *)
Definition emits {A} (m : io A) (r : result serve_error A) (out : bytes) : Prop :=
  ∀ w, budget w = None → m w = (r, MkWriter (queued w ++ out) (wire w) None (closed w)).
Definition answers (m : io ()) (out : bytes) : Prop :=
  ∀ w, budget w = None → m w = (Ok (), MkWriter [] (accepted w ++ out) None true).

Lemma emits_put d : emits (put d) (Ok ()) d.
Proof. intros w Hw. unfold put, write_all. by rewrite Hw. Qed.
Lemma emits_ret {A} (a : A) : emits (mret a) (Ok a) [].
Proof. intros [q wr b c] Hw. cbn in *. subst. by rewrite app_nil_r. Qed.
Lemma emits_fail {A} e : emits (A := A) (io_fail e) (Err e) [].
Proof. intros [q wr b c] Hw. cbn in *. subst. unfold io_fail. by rewrite app_nil_r. Qed.
Lemma emits_bind {A B} (m : io A) (k : A → io B) a r o1 o2 :
  emits m (Ok a) o1 → emits (k a) r o2 → emits (m ≫= k) r (o1 ++ o2).
Proof.
  intros H1 H2 w Hw. unfold mbind, io_bind. rewrite H1 by done. rewrite H2 by done. cbn. by rewrite app_assoc.
Qed.
Lemma emits_bind_err {A B} (m : io A) (k : A → io B) e o : emits m (Err e) o → emits (m ≫= k) (Err e) o.
Proof. intros H1 w Hw. unfold mbind, io_bind. by rewrite H1. Qed.
Lemma answers_close : answers close [].
Proof. intros w Hw. unfold close, flush, accepted. rewrite Hw. cbn. by rewrite app_nil_r. Qed.
Lemma answers_bind {A} (m : io A) (k : A → io ()) a o1 o2 : emits m (Ok a) o1 → answers (k a) o2 → answers (m ≫= k) (o1 ++ o2).
Proof.
  intros H1 H2 w Hw. unfold mbind, io_bind. rewrite H1 by done. rewrite H2 by done. unfold accepted. cbn. by rewrite !app_assoc.
Qed.
#[export] Hint Resolve emits_put emits_ret emits_fail answers_close : tlsproxy.

(** A response of one head and nothing else. *)
Lemma answers_head d : answers (_ ← put d; close) d.
Proof. rewrite <-(app_nil_r d) at 2. eapply answers_bind; auto with tlsproxy. Qed.
#[export] Hint Resolve answers_head : tlsproxy.

Definition error_page (status : Z) (head_only : bool) : bytes :=
  let body := render status (reason status) (default_detail status) in
  error_head status body ++ (if head_only then [] else body).
Lemma error_response_answers status head_only : answers (error_response status head_only) (error_page status head_only).
Proof.
  unfold error_response, error_page. rewrite <-(app_nil_r (if head_only then _ else _)).
  eapply answers_bind; [auto with tlsproxy|]. eapply answers_bind; [|auto with tlsproxy]. destruct head_only; auto with tlsproxy.
Qed.
#[export] Hint Resolve error_response_answers : tlsproxy.
