(* ===== verification/StaticFiles.v ===== *)
(** * The static file server (src/dataplane/http/static_files.rs)

    Conditional and range requests, content negotiation, confinement to the
    document root and the streaming of a file's bytes.  The file system is a
    record of the operations the server calls, each a function of the path
    (one request sees one state of it); the calendar of the [time] crate and
    the compressors are parameters. *)

From S2P Require Import Prelude RustStd Net Stream TlsHeader HelloCache BindAddr HttpHead Relay FilePath ErrorPages.
Open Scope Z_scope.

(** ** The file system *)

Inductive io_kind := NotFound | PermissionDenied | OtherIo.
Inductive file_kind := KFile | KDir | KOther.
(** [modified]: nanoseconds since the Unix epoch, if the platform tells. *)
Record Metadata := MkMetadata { md_kind : file_kind; md_len : Z; md_modified : option Z }.
Definition is_dir (m : Metadata) : bool := match md_kind m with KDir => true | _ => false end.
Definition is_file (m : Metadata) : bool := match md_kind m with KFile => true | _ => false end.

(** One item of [read_dir]: its name and what [file_type] says of it. *)
Inductive entry_type := ESymlink | EDir | EOther | EUnknown.
Record DirEntry := MkEntry { de_name : bytes; de_type : entry_type }.

(** [open_file p off] is the open file positioned at [off]. *)
Record Fs := MkFs {
  canonicalize : bytes → result io_kind bytes;
  metadata : bytes → result io_kind Metadata;
  open_file : bytes → result io_kind (Z → Source);
  read_dir : bytes → result io_kind (list (option DirEntry));
  read_link : bytes → option bytes;
}.

(** ** Dates *)

Record DateTime := MkDateTime {
  dt_year : Z; dt_month : Z; dt_day : Z; dt_hour : Z; dt_minute : Z; dt_second : Z; dt_weekday : Z }.

(** [{:0n}] of a non-negative number *)
Definition pad (n : nat) (v : Z) : bytes :=
  let d := show_dec v in repeat 48 (n - length d)%nat ++ d.
Definition DAYS : list bytes := [lit "Mon"; lit "Tue"; lit "Wed"; lit "Thu"; lit "Fri"; lit "Sat"; lit "Sun"].
Definition MONTHS : list bytes :=
  [lit "Jan"; lit "Feb"; lit "Mar"; lit "Apr"; lit "May"; lit "Jun"; lit "Jul"; lit "Aug"; lit "Sep"; lit "Oct"; lit "Nov"; lit "Dec"].
Definition show_int (n : Z) : bytes := if n <? 0 then 45 :: show_dec (- n) else show_dec n.

(** ** Encodings *)

Inductive Encoding := Identity | Gzip | Zstd.
#[global] Instance encoding_eq_dec : EqDecision Encoding.
Proof. solve_decision. Defined.

Definition encoding_token (e : Encoding) : bytes :=
  match e with Identity => lit "identity" | Gzip => lit "gzip" | Zstd => lit "zstd" end.
Definition etag_suffix (e : Encoding) : bytes :=
  match e with Identity => [] | Gzip => lit "-gz" | Zstd => lit "-zst" end.

(** [replace(' ', "")] *)
Definition drop_spaces (s : bytes) : bytes := filter (λ c, c ≠ SP) s.

Definition accepts_encoding (header tok : bytes) : bool :=
  existsb (λ entry,
    let parts := split_char SEMI (trim entry) in
    let name := trim (default [] (head parts)) in
    if negb (eq_ignore_ascii_case name tok) then false
    else negb (existsb (λ param, eq_ignore_ascii_case (drop_spaces (trim param)) (lit "q=0")) (tail parts)))
  (split_char COMMA header).

Definition MIN_COMPRESS_BYTES : Z := 256.
Definition compressible_types : list bytes :=
  [lit "application/json"; lit "application/xml"; lit "application/yaml"; lit "application/wasm"; lit "application/rss+xml";
   lit "application/atom+xml"; lit "application/xhtml+xml"; lit "application/manifest+json"; lit "image/svg+xml"].
Definition compressible (content_type : bytes) : bool :=
  starts_with (lit "text/") content_type || bool_decide (default [] (head (split_char SEMI content_type)) ∈ compressible_types).

Definition negotiate_encoding (h : HttpHead) (content_type : bytes) (len : Z) : Encoding :=
  if (len <? MIN_COMPRESS_BYTES) || negb (compressible content_type) then Identity
  else match header_value h (lit "accept-encoding") with
       | None => Identity
       | Some accept =>
           if accepts_encoding accept (lit "zstd") then Zstd
           else if accepts_encoding accept (lit "gzip") then Gzip else Identity
       end.

(** The compressor libraries: a writer over an in-memory buffer. *)
Class Compressor (T : Type) := {
  c_new : option T;
  c_write : bytes → T → option T;
  c_take : T → bytes * T;
  c_finish : T → option bytes;
}.

Inductive BodyEncoder (G Z : Type) := EncGzip (g : G) | EncZstd (z : Z).
Arguments EncGzip {_ _} _.
Arguments EncZstd {_ _} _.

Section encoder.
Context {G Z' : Type} `{Compressor G} `{Compressor Z'}.

Definition encoder_new (e : Encoding) : option (BodyEncoder G Z') :=
  match e with
  | Identity => None
  | Gzip => EncGzip <$> c_new
  | Zstd => EncZstd <$> c_new
  end.
Definition encoder_write (d : bytes) (e : BodyEncoder G Z') : option (BodyEncoder G Z') :=
  match e with EncGzip g => EncGzip <$> c_write d g | EncZstd z => EncZstd <$> c_write d z end.
Definition take_output (e : BodyEncoder G Z') : bytes * BodyEncoder G Z' :=
  match e with
  | EncGzip g => let '(out, g) := c_take g in (out, EncGzip g)
  | EncZstd z => let '(out, z) := c_take z in (out, EncZstd z)
  end.
Definition encoder_finish (e : BodyEncoder G Z') : option bytes :=
  match e with EncGzip g => c_finish g | EncZstd z => c_finish z end.
End encoder.

(** ** Media types *)

Definition media_types : list (list String.string * String.string) := [
  (["html"; "htm"], "text/html; charset=utf-8");
  (["css"], "text/css; charset=utf-8");
  (["js"; "mjs"], "text/javascript; charset=utf-8");
  (["json"], "application/json");
  (["jsonl"; "ndjson"], "application/x-ndjson");
  (["xml"], "application/xml");
  (["rss"], "application/rss+xml");
  (["atom"], "application/atom+xml");
  (["xhtml"], "application/xhtml+xml");
  (["yaml"; "yml"], "application/yaml");
  (["toml"], "text/plain; charset=utf-8");
  (["wasm"], "application/wasm");
  (["svg"], "image/svg+xml");
  (["png"], "image/png");
  (["jpg"; "jpeg"], "image/jpeg");
  (["gif"], "image/gif");
  (["webp"], "image/webp");
  (["avif"], "image/avif");
  (["ico"], "image/x-icon");
  (["bmp"], "image/bmp");
  (["tif"; "tiff"], "image/tiff");
  (["woff"], "font/woff");
  (["woff2"], "font/woff2");
  (["ttf"], "font/ttf");
  (["otf"], "font/otf");
  (["mp4"; "m4v"], "video/mp4");
  (["webm"], "video/webm");
  (["mkv"], "video/x-matroska");
  (["avi"], "video/x-msvideo");
  (["mov"], "video/quicktime");
  (["mp3"], "audio/mpeg");
  (["m4a"], "audio/mp4");
  (["aac"], "audio/aac");
  (["ogg"; "oga"], "audio/ogg");
  (["opus"], "audio/opus");
  (["flac"], "audio/flac");
  (["wav"], "audio/wav");
  (["txt"; "md"; "text"; "log"], "text/plain; charset=utf-8");
  (["csv"], "text/csv; charset=utf-8");
  (["pdf"], "application/pdf");
  (["zip"], "application/zip");
  (["gz"], "application/gzip");
  (["zst"], "application/zstd");
  (["tar"], "application/x-tar");
  (["7z"], "application/x-7z-compressed");
  (["rar"], "application/vnd.rar");
  (["bz2"], "application/x-bzip2");
  (["xz"], "application/x-xz");
  (["apk"], "application/vnd.android.package-archive");
  (["iso"], "application/x-iso9660-image");
  (["deb"], "application/vnd.debian.binary-package");
  (["rpm"], "application/x-rpm");
  (["sh"], "text/x-shellscript; charset=utf-8");
  (["py"], "text/x-python; charset=utf-8");
  (["rs"; "c"; "h"; "cpp"; "hpp"; "go"; "java"; "ts"], "text/plain; charset=utf-8");
  (["eot"], "application/vnd.ms-fontobject");
  (["manifest"; "webmanifest"], "application/manifest+json")
].

Definition content_type (path : bytes) : bytes :=
  let ext := match extension path with Some e => if utf8_valid e then e else [] | None => [] end in
  let ext := to_ascii_lowercase ext in
  match List.find (λ row, bool_decide (ext ∈ map lit row.1)) media_types with
  | Some row => lit row.2
  | None => lit "application/octet-stream"
  end.

(** ** Ranges *)

Inductive RangeSpec := Bounded (start stop : Z) | Unsatisfiable.

Definition parse_range (value : bytes) (len : Z) : option RangeSpec :=
  spec ← strip_prefix (lit "bytes=") (trim value);
  let spec := trim spec in
  if contains COMMA spec then None
  else
    '(start, stop) ← split_once 45 spec;
    let start := trim start in
    let stop := trim stop in
    if eqb_bytes start [] then
      suffix ← parse_u64 stop;
      if (suffix =? 0) || (len =? 0) then Some Unsatisfiable
      else Some (Bounded (Z.max 0 (len - suffix)) (len - 1))
    else
      start ← parse_u64 start;
      if len <=? start then Some Unsatisfiable
      else
        stop ← (if eqb_bytes stop [] then Some (len - 1) else parse_u64 stop);
        if stop <? start then None else Some (Bounded start (Z.min stop (len - 1))).

(** ** Validators *)

Definition NANOS : Z := 1000000000.
Definition stamp (modified : option Z) : Z * Z :=
  match modified with
  | Some t => if t <? 0 then (0, 0) else (t / NANOS, t mod NANOS)
  | None => (0, 0)
  end.
Definition entity_tag (len : Z) (modified : option Z) (e : Encoding) : bytes :=
  let '(secs, nanos) := stamp modified in
  [34] ++ show_hex len ++ lit "-" ++ show_hex secs ++ lit "." ++ show_hex nanos ++ etag_suffix e ++ [34].

(** ** Serving one file *)

Section serve_file.
Context (civil : Z → DateTime).
Context {G Z' : Type} `{Compressor G} `{Compressor Z'}.
Context (fs : Fs).

Definition http_date (t : Z) : bytes :=
  let d := civil t in
  default [] (DAYS !! Z.to_nat (dt_weekday d)) ++ lit ", " ++ pad 2 (dt_day d) ++ lit " " ++
  default [] (MONTHS !! (Z.to_nat (dt_month d) - 1)%nat) ++ lit " " ++ show_int (dt_year d) ++ lit " " ++
  pad 2 (dt_hour d) ++ lit ":" ++ pad 2 (dt_minute d) ++ lit ":" ++ pad 2 (dt_second d) ++ lit " GMT".

(** Chunks of 4096 bytes; every read that delivers shrinks the measure of
    the file, which is therefore enough fuel. *)
Definition CHUNK : Z := 4096.
Fixpoint stream_body (fuel : nat) (file : Source) (remaining : Z) : io () :=
  if remaining <=? 0 then mret ()
  else match fuel with
       | O => io_fail ReadFailed
       | S fuel =>
           let want := Z.min remaining CHUNK in
           match poll_read (Z.to_nat want) file with
           | (RData d, file) => _ ← put d; stream_body fuel file (remaining - Z.of_nat (length d))
           | (REof, _) => io_fail FileTruncated
           | (_, _) => io_fail ReadFailed
           end
       end.

Definition put_nonempty (d : bytes) : io () := if eqb_bytes d [] then mret () else put d.
Definition from_option {A} (o : option A) (e : serve_error) : io A :=
  match o with Some a => mret a | None => io_fail e end.

Fixpoint compress_loop (fuel : nat) (file : Source) (remaining : Z) (encoder : BodyEncoder G Z') : io (BodyEncoder G Z') :=
  if remaining <=? 0 then mret encoder
  else match fuel with
       | O => io_fail ReadFailed
       | S fuel =>
           let want := Z.min remaining CHUNK in
           match poll_read (Z.to_nat want) file with
           | (RData d, file) =>
               encoder ← from_option (encoder_write d encoder) CompressorFailed;
               let '(output, encoder) := take_output encoder in
               _ ← put_nonempty output;
               compress_loop fuel file (remaining - Z.of_nat (length d)) encoder
           | (REof, _) => io_fail FileTruncated
           | (_, _) => io_fail ReadFailed
           end
       end.
Definition stream_compressed (file : Source) (len : Z) (e : Encoding) : io () :=
  encoder ← from_option (encoder_new e) CompressorFailed;
  encoder ← compress_loop (S (rmeasure file)) file len encoder;
  trailer ← from_option (encoder_finish encoder) CompressorFailed;
  put_nonempty trailer.

(** The decisions of [serve_file], from the request and the metadata. *)
Definition range_applicable (h : HttpHead) (identity_etag : bytes) (last_modified : option bytes) : bool :=
  match header_value h (lit "if-range") with
  | Some validator => eqb_bytes validator identity_etag || bool_decide (last_modified = Some validator)
  | None => true
  end.
Definition requested_range (h : HttpHead) (head_only : bool) (md : Metadata) : option RangeSpec :=
  let identity_etag := entity_tag (md_len md) (md_modified md) Identity in
  if head_only || negb (range_applicable h identity_etag (http_date <$> md_modified md)) then None
  else header_value h (lit "range") ≫= λ value, parse_range value (md_len md).
Definition chosen_encoding (h : HttpHead) (range : option RangeSpec) (ctype : bytes) (md : Metadata) : Encoding :=
  if bool_decide (is_Some range) then Identity else negotiate_encoding h ctype (md_len md).

Definition is_revalidated (h : HttpHead) (etag identity_etag : bytes) (last_modified : option bytes) : bool :=
  match header_value h (lit "if-none-match") with
  | Some value => existsb (λ tag, let tag := trim tag in
      eqb_bytes tag (lit "*") || eqb_bytes tag etag || eqb_bytes tag identity_etag) (split_char COMMA value)
  | None =>
      match header_value h (lit "if-modified-since"), last_modified with
      | Some since, Some current => eqb_bytes since current
      | _, _ => false
      end
  end.

(** Optional header lines *)
Definition last_modified_line (last_modified : option bytes) : list bytes :=
  match last_modified with Some v => [lit "Last-Modified: " ++ v] | None => [] end.
Definition validators (etag : bytes) (last_modified : option bytes) : list bytes :=
  (lit "ETag: " ++ etag) :: last_modified_line last_modified ++
  [lit "Accept-Ranges: bytes"; lit "Cache-Control: public, no-cache"; lit "Vary: Accept-Encoding"; nosniff].

Definition not_modified_head (etag : bytes) (last_modified : option bytes) : bytes :=
  head_of (lit "HTTP/1.1 304 Not Modified" :: (lit "ETag: " ++ etag) :: last_modified_line last_modified ++
           [lit "Vary: Accept-Encoding"; connection_close]).
Definition unsatisfiable_head (len : Z) : bytes :=
  head_of [lit "HTTP/1.1 416 Range Not Satisfiable"; lit "Content-Range: bytes */" ++ show_dec len; content_length_line 0;
           connection_close].
Definition compressed_head (ctype : bytes) (e : Encoding) (lines : list bytes) : bytes :=
  head_of ([lit "HTTP/1.1 200 OK"; lit "Content-Type: " ++ ctype; lit "Content-Encoding: " ++ encoding_token e] ++ lines ++
           [connection_close]).
Definition content_range_line (start stop len : Z) : bytes :=
  lit "Content-Range: bytes " ++ show_dec start ++ lit "-" ++ show_dec stop ++ lit "/" ++ show_dec len.
Definition identity_head (range : option RangeSpec) (ctype : bytes) (len : Z) (lines : list bytes) : bytes * Z * Z :=
  let '(status_line, offset, body_length, content_range) :=
    match range with
    | Some (Bounded start stop) =>
        (lit "HTTP/1.1 206 Partial Content", start, stop - start + 1, [content_range_line start stop len])
    | _ => (lit "HTTP/1.1 200 OK", 0, len, [])
    end in
  (head_of ([status_line; lit "Content-Type: " ++ ctype; content_length_line body_length] ++ content_range ++ lines ++ [connection_close]),
   offset, body_length).

Definition serve_file (h : HttpHead) (physical : bytes) (md : Metadata) (head_only : bool) : io () :=
  let len := md_len md in
  let last_modified := http_date <$> md_modified md in
  let ctype := content_type physical in
  let identity_etag := entity_tag len (md_modified md) Identity in
  let range := requested_range h head_only md in
  let encoding := chosen_encoding h range ctype md in
  let etag := entity_tag len (md_modified md) encoding in
  if is_revalidated h etag identity_etag last_modified then
    _ ← put (not_modified_head etag last_modified); close
  else match range with
  | Some Unsatisfiable => _ ← put (unsatisfiable_head len); close
  | _ =>
      match open_file fs physical with
      | Err PermissionDenied => error_response 403 head_only
      | Err _ => error_response 404 head_only
      | Ok file =>
          if bool_decide (encoding ≠ Identity) then
            _ ← put (compressed_head ctype encoding (validators etag last_modified));
            _ ← (if head_only then mret () else stream_compressed (file 0) len encoding);
            close
          else
            let '(header, offset, body_length) := identity_head range ctype len (validators etag last_modified) in
            _ ← put header;
            _ ← (if head_only then mret ()
                 else let reader := file (if 0 <? offset then offset else 0) in
                      stream_body (S (rmeasure reader)) reader body_length);
            close
      end
  end.

End serve_file.

(** ** Ranges *)

(** A range the server honours lies inside the file. *)
Lemma parse_range_bounds value len start stop :
  0 ≤ len → parse_range value len = Some (Bounded start stop) → 0 ≤ start ≤ stop ∧ stop < len.
Proof.
  intros Hlen. unfold parse_range, parse_u64.
  destruct (strip_prefix _ _) as [spec|]; cbn [mbind option_bind]; [|done]. destruct (contains COMMA _); [done|].
  destruct (split_once 45 _) as [[a b]|]; cbn [mbind option_bind]; [|done].
  assert (∀ t v, from_str_radix 10 u64_max t = Some v → 0 ≤ v) as Hnn.
  { intros t v Ht. eapply from_str_radix_bound in Ht; [lia|lia|unfold u64_max; lia]. }
  destruct (eqb_bytes (trim a) []).
  - destruct (from_str_radix 10 u64_max (trim b)) as [n|] eqn:En; cbn [mbind option_bind]; [|done]. apply Hnn in En.
    destruct ((n =? 0) || (len =? 0)) eqn:Ez; [done|]. intros [= <- <-]. lia.
  - destruct (from_str_radix 10 u64_max (trim a)) as [n|] eqn:En; cbn [mbind option_bind]; [|done]. apply Hnn in En.
    destruct (len <=? n) eqn:El; [done|].
    destruct (if eqb_bytes (trim b) [] then _ else _) as [m|]; cbn [mbind option_bind]; [|done].
    destruct (m <? n) eqn:Em; [done|]. intros [= <- <-]. lia.
Qed.

(** ** Entity tags *)

Lemma cut_unique (c : byte) a b a' b' : c ∉ a → c ∉ a' → a ++ c :: b = a' ++ c :: b' → a = a' ∧ b = b'.
Proof.
  intros Ha Ha' E. assert (split_once c (a ++ c :: b) = Some (a, b)) as E1 by by apply split_once_Some.
  assert (split_once c (a' ++ c :: b') = Some (a', b')) as E2 by by apply split_once_Some. rewrite E in E1. by simplify_eq.
Qed.
Lemma show_hex_inj n m : 0 ≤ n → 0 ≤ m → show_hex n = show_hex m → n = m.
Proof.
  intros Hn Hm E. pose proof (from_str_show_hex (Z.max n m) n ltac:(lia)) as E1.
  pose proof (from_str_show_hex (Z.max n m) m ltac:(lia)) as E2. rewrite E in E1. by simplify_eq.
Qed.
Lemma show_hex_not_elem c n : is_hex c = false → 0 ≤ n → c ∉ show_hex n.
Proof.
  intros Hc Hn Hin. destruct (show_hex_facts n Hn) as [_ Hf]. rewrite Forall_forall in Hf. by rewrite (Hf c Hin) in Hc.
Qed.
Lemma stamp_nonneg m : 0 ≤ (stamp m).1 ∧ 0 ≤ (stamp m).2.
Proof.
  unfold stamp. destruct m as [t|]; [|done]. destruct (Z.ltb_spec t 0); [done|]. unfold NANOS. cbn [fst snd].
  split; [apply Z.div_pos; lia|apply Z.mod_pos_bound; lia].
Qed.

(** The end of a tag: a number, the encoding and the quote. *)
Lemma tag_end_inj n m e e' : 0 ≤ n → 0 ≤ m → show_hex n ++ etag_suffix e ++ [34] = show_hex m ++ etag_suffix e' ++ [34] → n = m ∧ e = e'.
Proof.
  intros Hn Hm E. assert (∀ k, 0 ≤ k → 34 ∉ show_hex k ∧ 45 ∉ show_hex k) as Hno by (intros k Hk; split; by apply show_hex_not_elem).
  destruct (Hno n Hn) as [Hn1 Hn2], (Hno m Hm) as [Hm1 Hm2].
  assert (∀ x y, 0 ≤ x → 0 ≤ y → show_hex x ++ [34] = show_hex y ++ [34] → x = y) as Hid.
  { intros x y Hx Hy Exy. apply app_inj_tail in Exy as [Exy _]. by apply show_hex_inj. }
  assert (∀ x y (t : bytes), 45 ∉ show_hex y → show_hex x ++ 45 :: t = show_hex y ++ [34] → False) as Hdash.
  { intros x y t Hy Exy. assert (45 ∈ show_hex y ++ [34]) as Hin by (rewrite <-Exy; set_solver).
    apply elem_of_app in Hin as [?|?%list_elem_of_singleton]; done. }
  destruct e, e'; cbn [etag_suffix lit app] in E.
  1: split; [by apply Hid|done].
  1-2: symmetry in E; by apply Hdash in E.
  1,4: by apply Hdash in E.
  all: cbn in E; apply cut_unique in E as [E Et]; [|done|done]; first [discriminate Et|split; [by apply show_hex_inj|done]].
Qed.

(** Entity tags identify representations.  Two tags are equal exactly if
    the length, the modification time (to the nanosecond, times before the
    epoch counting as the epoch) and the encoding are: a cached body is
    revalidated only for the same version in the same encoding. *)
Theorem entity_tag_injective len len' m m' e e' :
  0 ≤ len → 0 ≤ len' → entity_tag len m e = entity_tag len' m' e' ↔ len = len' ∧ stamp m = stamp m' ∧ e = e'.
Proof.
  intros Hl Hl'. split; [|intros (-> & Hs & ->); unfold entity_tag; by rewrite Hs].
  unfold entity_tag. pose proof (stamp_nonneg m) as [Hs Hn]. pose proof (stamp_nonneg m') as [Hs' Hn'].
  destruct (stamp m) as [s n], (stamp m') as [s' n']. cbn [fst snd] in *. intros E. injection E as E.
  cbn in E. apply cut_unique in E as [E1 E]; [|by apply show_hex_not_elem..].
  apply cut_unique in E as [E2 E]; [|by apply show_hex_not_elem..].
  apply tag_end_inj in E as [-> ->]; [|done..]. apply show_hex_inj in E1, E2; [|done..]. by subst.
Qed.

Lemma entity_tag_injective_witness :
  entity_tag 10 (Some 1500000000) Gzip = [34] ++ lit "a-1.1dcd6500-gz" ++ [34] ∧
  entity_tag 10 (Some 1500000000) Gzip ≠ entity_tag 10 (Some 1500000001) Gzip.
Proof.
  split; [vm_compute; reflexivity|]. intros E.
  apply (entity_tag_injective 10 10 (Some 1500000000) (Some 1500000001) Gzip Gzip) in E as (_ & E & _); [|lia|lia].
  vm_compute in E. discriminate E.
Defined.

(** ** Streaming a file *)

(** One read of a file, as both loops use it. *)
Lemma chunk_read (file file' : Source) (remaining : Z) d :
  0 < remaining → poll_read (Z.to_nat (Z.min remaining CHUNK)) file = (RData d, file') →
  contents file = d ++ contents file' ∧ (rmeasure file' < rmeasure file)%nat ∧ Z.of_nat (length d) ≤ remaining.
Proof.
  intros Hr E. assert (0 < Z.to_nat (Z.min remaining CHUNK))%nat as Hw by (unfold CHUNK; lia).
  destruct (read_data _ _ _ _ Hw E) as (_ & Hl & Hc & Hm). split_and!; [done|done|lia].
Qed.
Lemma chunk_stop (file file' : Source) (remaining : Z) o :
  0 < remaining → poll_read (Z.to_nat (Z.min remaining CHUNK)) file = (o, file') → (∀ d, o ≠ RData d) → contents file = [].
Proof. intros Hr E Ho. eapply read_stop; [|exact E|exact Ho]. unfold CHUNK. lia. Qed.
Lemma take_chunk (d rest : bytes) (remaining : Z) : Z.of_nat (length d) ≤ remaining →
  take (Z.to_nat remaining) (d ++ rest) = d ++ take (Z.to_nat (remaining - Z.of_nat (length d))) rest.
Proof. intros H. rewrite take_app_ge by lia. do 2 f_equal. lia. Qed.

(** The body streamed is the file's next [remaining] bytes; the loop fails
    exactly if there are fewer. *)
Lemma stream_body_spec fuel (file : Source) remaining :
  (rmeasure file < fuel)%nat → 0 ≤ remaining →
  ∃ r, emits (stream_body fuel file remaining) r (take (Z.to_nat remaining) (contents file)) ∧
    (r = Ok () ↔ remaining ≤ Z.of_nat (length (contents file))).
Proof.
  revert file remaining. induction fuel as [|fuel IH]; intros file remaining Hf Hr; [lia|]. cbn [stream_body].
  destruct (Z.leb_spec remaining 0) as [Hz|Hz].
  { exists (Ok ()). replace remaining with 0 by lia. split; [apply emits_ret|]. split; [lia|done]. }
  destruct (poll_read _ file) as [o file'] eqn:E. destruct o as [d| | |].
  - destruct (chunk_read _ _ _ _ Hz E) as (Hc & Hm & Hl).
    destruct (IH file' (remaining - Z.of_nat (length d)) ltac:(lia) ltac:(lia)) as (r & Hr1 & Hr2). exists r.
    rewrite Hc, take_chunk by done. split; [eapply emits_bind; [apply emits_put|exact Hr1]|].
    rewrite Hr2, length_app. lia.
  - rewrite (chunk_stop _ _ _ _ Hz E) by done. exists (Err FileTruncated). rewrite take_nil. split; [apply emits_fail|]. split; [done|cbn; lia].
  - rewrite (chunk_stop _ _ _ _ Hz E) by done. exists (Err ReadFailed). rewrite take_nil. split; [apply emits_fail|]. split; [done|cbn; lia].
  - rewrite (chunk_stop _ _ _ _ Hz E) by done. exists (Err ReadFailed). rewrite take_nil. split; [apply emits_fail|]. split; [done|cbn; lia].
Qed.

(** What the server relies on of a compressor: it takes any data, and all it
    has put out by the end decompresses to all it was given. *)
Class CompressorOk (T : Type) `{Compressor T} := {
  c_fed : T → bytes;
  c_drained : T → bytes;
  c_decompress : bytes → option bytes;
  c_new_ok t : c_new = Some t → c_fed t = [] ∧ c_drained t = [];
  c_write_ok d t : ∃ t', c_write d t = Some t' ∧ c_fed t' = c_fed t ++ d ∧ c_drained t' = c_drained t;
  c_take_ok t out t' : c_take t = (out, t') → c_fed t' = c_fed t ∧ c_drained t' = c_drained t ++ out;
  c_finish_ok t : ∃ out, c_finish t = Some out ∧ c_decompress (c_drained t ++ out) = Some (c_fed t);
}.

Section compressed.
Context {G Z' : Type} `{CompressorOk G} `{CompressorOk Z'}.
Abbreviation Enc := (BodyEncoder G Z').

Definition fed (e : Enc) : bytes := match e with EncGzip g => c_fed g | EncZstd z => c_fed z end.
Definition drained (e : Enc) : bytes := match e with EncGzip g => c_drained g | EncZstd z => c_drained z end.
Definition of_encoding (e : Enc) (c : Encoding) : Prop :=
  match e, c with EncGzip _, Gzip | EncZstd _, Zstd => True | _, _ => False end.
Definition decompress (c : Encoding) (b : bytes) : option bytes :=
  match c with Identity => Some b | Gzip => c_decompress (T := G) b | Zstd => c_decompress (T := Z') b end.

Lemma encoder_write_ok d (e : Enc) c : of_encoding e c →
  ∃ e', encoder_write d e = Some e' ∧ fed e' = fed e ++ d ∧ drained e' = drained e ∧ of_encoding e' c.
Proof.
  intros Hc. destruct e as [t|t]; cbn [encoder_write]; destruct (c_write_ok d t) as (t' & -> & ? & ?); cbn.
  - by exists (EncGzip t').
  - by exists (EncZstd t').
Qed.
Lemma take_output_ok (e : Enc) c out e' : of_encoding e c → take_output e = (out, e') →
  fed e' = fed e ∧ drained e' = drained e ++ out ∧ of_encoding e' c.
Proof.
  intros Hc. destruct e as [t|t]; cbn [take_output]; destruct (c_take t) as [o t'] eqn:E; intros [= -> <-];
    destruct (c_take_ok _ _ _ E) as [? ?]; done.
Qed.
Lemma encoder_finish_ok (e : Enc) c : of_encoding e c →
  ∃ out, encoder_finish e = Some out ∧ decompress c (drained e ++ out) = Some (fed e).
Proof. intros Hc. destruct e as [t|t], c; try done; apply c_finish_ok. Qed.
Lemma encoder_new_ok c (e : Enc) : encoder_new c = Some e → of_encoding e c ∧ fed e = [] ∧ drained e = [].
Proof.
  destruct c; cbn [encoder_new]; [done|..]; destruct c_new as [t|] eqn:E; cbn; try done; intros [= <-];
    by destruct (c_new_ok _ E).
Qed.

Lemma emits_put_nonempty d : emits (put_nonempty d) (Ok ()) d.
Proof.
  unfold put_nonempty. destruct (eqb_bytes d []) eqn:E; [|apply emits_put]. apply eqb_bytes_spec in E as ->. apply emits_ret.
Qed.

Lemma compress_loop_spec fuel (file : Source) remaining (e : Enc) c :
  (rmeasure file < fuel)%nat → 0 ≤ remaining ≤ Z.of_nat (length (contents file)) → of_encoding e c →
  ∃ e' out, emits (compress_loop fuel file remaining e) (Ok e') out ∧ of_encoding e' c ∧
    drained e' = drained e ++ out ∧ fed e' = fed e ++ take (Z.to_nat remaining) (contents file).
Proof.
  revert file remaining e. induction fuel as [|fuel IH]; intros file remaining e Hf Hr Hc; [lia|]. cbn [compress_loop].
  destruct (Z.leb_spec remaining 0) as [Hz|Hz].
  { exists e, []. replace remaining with 0 by lia. rewrite !app_nil_r. split_and!; [apply emits_ret|done..]. }
  destruct (poll_read _ file) as [o file'] eqn:E. destruct o as [d| | |].
  2-4: pose proof (chunk_stop _ _ _ _ Hz E) as Hs; rewrite Hs in Hr by done; cbn in Hr; lia.
  destruct (chunk_read _ _ _ _ Hz E) as (Hd & Hm & Hl).
  destruct (encoder_write_ok d e c Hc) as (e1 & Hw & Hf1 & Hd1 & Hc1).
  destruct (take_output e1) as [o e2] eqn:Et. destruct (take_output_ok _ _ _ _ Hc1 Et) as (Hf2 & Hd2 & Hc2).
  rewrite Hd, length_app in Hr.
  destruct (IH file' (remaining - Z.of_nat (length d)) e2 ltac:(lia) ltac:(lia) Hc2) as (e' & out & He & Hc' & Hdr & Hfd).
  exists e', (o ++ out). rewrite Hw. cbn [from_option]. split_and!; [|done| |].
  - change (o ++ out) with ([] ++ (o ++ out)). eapply emits_bind; [apply emits_ret|]. rewrite Et.
    eapply emits_bind; [apply emits_put_nonempty|exact He].
  - by rewrite Hdr, Hd2, Hd1, app_assoc.
  - by rewrite Hfd, Hf2, Hf1, Hd, take_chunk, app_assoc.
Qed.

Lemma stream_compressed_spec (file : Source) len c :
  0 ≤ len ≤ Z.of_nat (length (contents file)) → is_Some (encoder_new (G := G) (Z' := Z') c) →
  ∃ out, emits (stream_compressed (G := G) (Z' := Z') file len c) (Ok ()) out ∧
    decompress c out = Some (take (Z.to_nat len) (contents file)).
Proof.
  intros Hlen [e He]. destruct (encoder_new_ok c e He) as (Hc & Hf & Hd).
  destruct (compress_loop_spec (S (rmeasure file)) file len e c ltac:(lia) Hlen Hc) as (e' & o & Hl & Hc' & Hdr & Hfd).
  destruct (encoder_finish_ok e' c Hc') as (trailer & Ht & Hdec). exists (o ++ trailer). split.
  - unfold stream_compressed. rewrite He. cbn [from_option]. change (o ++ trailer) with ([] ++ (o ++ trailer)).
    eapply emits_bind; [apply emits_ret|]. eapply emits_bind; [exact Hl|]. rewrite Ht. cbn [from_option].
    change trailer with ([] ++ trailer). eapply emits_bind; [apply emits_ret|apply emits_put_nonempty].
  - rewrite Hdr, Hd, Hfd, Hf in Hdec. exact Hdec.
Qed.
End compressed.

(** ** The reply to a request for a file *)

Section reply.
Context (civil : Z → DateTime).
Context {G Z' : Type} `{CompressorOk G} `{CompressorOk Z'}.
Context (fs : Fs).

(** What a reply must be: its head and, for a GET, a body that stands for
    the requested part of the file. *)
Definition right_reply (h : HttpHead) (physical : bytes) (md : Metadata) (head_only : bool) (data head body : bytes) : Prop :=
  let last_modified := http_date civil <$> md_modified md in
  let range := requested_range civil h head_only md in
  let enc := chosen_encoding h range (content_type physical) md in
  let etag := entity_tag (md_len md) (md_modified md) enc in
  let lines := validators etag last_modified in
  if is_revalidated h etag (entity_tag (md_len md) (md_modified md) Identity) last_modified then
    head = not_modified_head etag last_modified ∧ body = []
  else match range with
  | Some Unsatisfiable => head = unsatisfiable_head (md_len md) ∧ body = []
  | Some (Bounded start stop) =>
      0 ≤ start ≤ stop ∧ stop < Z.of_nat (length data) ∧
      body = take (Z.to_nat (stop - start + 1)) (drop (Z.to_nat start) data) ∧
      head = head_of ([lit "HTTP/1.1 206 Partial Content"; lit "Content-Type: " ++ content_type physical;
                       content_length_line (Z.of_nat (length body)); content_range_line start stop (md_len md)] ++ lines ++
                      [connection_close])
  | None =>
      (if head_only then body = [] else decompress (G := G) (Z' := Z') enc body = Some data) ∧
      head = if decide (enc = Identity) then
               head_of ([lit "HTTP/1.1 200 OK"; lit "Content-Type: " ++ content_type physical;
                         content_length_line (Z.of_nat (length data))] ++ lines ++ [connection_close])
             else compressed_head (content_type physical) enc lines
  end.

Lemma requested_range_head_only h head_only md : head_only = true → requested_range civil h head_only md = None.
Proof. intros ->. done. Qed.
Lemma chosen_encoding_range h r ctype md : chosen_encoding h (Some r) ctype md = Identity.
Proof. unfold chosen_encoding. by rewrite bool_decide_eq_true_2. Qed.

Lemma stream_slice (file : Source) (data : bytes) (offset n : Z) :
  contents file = drop (Z.to_nat offset) data → 0 ≤ offset → 0 ≤ n → offset + n ≤ Z.of_nat (length data) →
  emits (stream_body (S (rmeasure file)) file n) (Ok ()) (take (Z.to_nat n) (drop (Z.to_nat offset) data)).
Proof.
  intros Hc Ho Hn Hle. destruct (stream_body_spec (S (rmeasure file)) file n ltac:(lia) Hn) as (r & Hr & Hok).
  rewrite Hc in *. rewrite length_drop in Hok. replace r with (Ok (E := serve_error) ()) in Hr; [done|]. symmetry. apply Hok. lia.
Qed.

Lemma answers_body (header body : bytes) (m : io ()) (head_only : bool) :
  emits m (Ok ()) body →
  answers (_ ← put header; _ ← (if head_only then mret () else m); close) (header ++ if head_only then [] else body).
Proof.
  intros Hm. rewrite <-(app_nil_r (if head_only then [] else body)). eapply answers_bind; [apply emits_put|].
  eapply answers_bind; [|apply answers_close]. by destruct head_only; [apply emits_ret|].
Qed.

Lemma requested_range_bounds h head_only md start stop : 0 ≤ md_len md →
  requested_range civil h head_only md = Some (Bounded start stop) → head_only = false ∧ 0 ≤ start ≤ stop ∧ stop < md_len md.
Proof.
  unfold requested_range. intros Hlen. destruct head_only; [done|]. cbn [orb]. destruct (negb _); [done|].
  destruct (header_value h (lit "range")) as [v|]; [|done]. cbn [mbind option_bind]. intros Er. split; [done|].
  by apply (parse_range_bounds v).
Qed.

(** A file is served exactly.  With the file as long as its metadata says,
    the reply is: 304 for a fresh validator, 416 for a range beyond the end,
    206 with exactly the bytes of the range and their number as
    Content-Length, or 200 with the whole file, as it is with its length or
    in an encoding that decompresses to it; a HEAD request gets the head
    alone.  The connection is then closed. *)
Theorem serve_file_exact h physical md head_only file data :
  open_file fs physical = Ok file → (∀ off, 0 ≤ off → contents (file off) = drop (Z.to_nat off) data) →
  md_len md = Z.of_nat (length data) → is_Some (encoder_new (G := G) (Z' := Z') Gzip) → is_Some (encoder_new (G := G) (Z' := Z') Zstd) →
  ∃ head body, answers (serve_file civil (G := G) (Z' := Z') fs h physical md head_only) (head ++ body) ∧
    right_reply h physical md head_only data head body.
Proof.
  intros Hopen Hfile Hlen Hg Hz. unfold serve_file, right_reply. cbv zeta.
  set (range := requested_range civil h head_only md). set (enc := chosen_encoding h range _ md).
  destruct (is_revalidated _ _ _ _).
  { eexists _, []. rewrite app_nil_r. split; [apply answers_head|done]. }
  destruct range as [[start stop|]|] eqn:Er.
  2: { eexists _, []. rewrite app_nil_r. split; [apply answers_head|done]. }
  - destruct (requested_range_bounds h head_only md start stop) as (-> & Hb1 & Hb2); [lia|done|].
    rewrite Hopen. assert (enc = Identity) as -> by apply chosen_encoding_range. rewrite bool_decide_eq_false_2 by by intros [].
    set (body := take (Z.to_nat (stop - start + 1)) (drop (Z.to_nat start) data)).
    assert (Z.of_nat (length body) = stop - start + 1) as Hbl by (unfold body; rewrite length_take, length_drop; lia).
    eexists _, body. split; [|split_and!; [lia|lia|lia|done|by rewrite Hbl]].
    apply (answers_body _ body _ false). replace (if 0 <? start then start else 0) with start by (destruct (Z.ltb_spec 0 start); lia).
    apply stream_slice; [apply Hfile; lia|lia..].
  - rewrite Hopen. destruct (decide (enc = Identity)) as [He|He].
    + rewrite He, bool_decide_eq_false_2 by by intros []. eexists _, (if head_only then [] else data).
      split; [apply answers_body|split; [by destruct head_only|by rewrite Hlen]].
      pose proof (stream_slice (file 0) data 0 (md_len md) (Hfile 0 ltac:(lia)) ltac:(lia) ltac:(lia) ltac:(lia)) as Hs.
      rewrite drop_0, take_ge in Hs by lia. exact Hs.
    + rewrite bool_decide_eq_true_2 by done.
      assert (is_Some (encoder_new (G := G) (Z' := Z') enc)) as Hnew by by destruct enc.
      destruct (stream_compressed_spec (G := G) (Z' := Z') (file 0) (md_len md) enc) as (out & Hout & Hdec); [|done|].
      { rewrite (Hfile 0), drop_0 by lia. lia. }
      rewrite (Hfile 0), drop_0, take_ge in Hdec by lia. eexists _, (if head_only then [] else out).
      split; [by apply answers_body|split; [by destruct head_only|done]].
Qed.

End reply.

(** A file system with one small site, a calendar that knows one day and a
    compressor that stores. *)
Module StaticExample.
Record store := MkStore { st_buffer : bytes; st_fed : bytes; st_drained : bytes }.
(** The states the store goes through: what it holds is what it was given. *)
Definition good_store := { t : store | st_drained t ++ st_buffer t = st_fed t }.
#[global] Program Instance good_compressor : Compressor good_store := {|
  c_new := Some (MkStore [] [] [] ↾ eq_refl);
  c_write := λ d t, Some (MkStore (st_buffer (`t) ++ d) (st_fed (`t) ++ d) (st_drained (`t)) ↾ _);
  c_take := λ t, (st_buffer (`t), MkStore [] (st_fed (`t)) (st_drained (`t) ++ st_buffer (`t)) ↾ _);
  c_finish := λ t, Some (st_buffer (`t));
|}.
Next Obligation. intros d [t Ht]. cbn. by rewrite app_assoc, Ht. Qed.
Next Obligation. intros [t Ht]. cbn. by rewrite app_nil_r. Qed.
#[global] Program Instance good_compressor_ok : CompressorOk good_store := {|
  c_fed := λ t, st_fed (`t);
  c_drained := λ t, st_drained (`t);
  c_decompress := Some;
|}.
Next Obligation. intros t [= <-]. done. Qed.
Next Obligation. intros d t. eexists. split; [reflexivity|]. done. Qed.
Next Obligation. intros t out t' [= <- <-]. done. Qed.
Next Obligation. intros [t Ht]. eexists. split; [reflexivity|]. cbn. by rewrite Ht. Qed.

Definition civil (_ : Z) : DateTime := MkDateTime 2026 1 5 12 30 0 0.
Definition page : bytes := lit "0123456789".
Definition page_md : Metadata := MkMetadata KFile 10 (Some 1500000000).
Definition open_page (off : Z) : Source := [Seg (drop (Z.to_nat off) page)].
Definition site (p : bytes) : bool := bool_decide (p = lit "/srv/www" ∨ p = lit "/srv/www/a.txt").
Definition fs : Fs := {|
  canonicalize := λ p, if bool_decide (p = lit "/srv/www/link") then Ok (lit "/etc/passwd")
                       else if site p then Ok p else Err NotFound;
  metadata := λ p, if bool_decide (p = lit "/srv/www") then Ok (MkMetadata KDir 0 None)
                   else if site p then Ok page_md else Err NotFound;
  open_file := λ p, if bool_decide (p = lit "/srv/www/a.txt") then Ok open_page else Err PermissionDenied;
  read_dir := λ _, Ok [];
  read_link := λ _, None;
|}.
Definition request (line : bytes) (fields : list bytes) : HttpHead :=
  let text := head_of (line :: lit "Host: a" :: fields) in
  match parse_head text (length text) with
  | Ok h => h
  | Err _ => MkHttpHead [] [] [] None [] None [] false [] 0
  end.
Definition range_request : HttpHead := request (lit "GET /a.txt HTTP/1.1") [lit "Range: bytes=2-5"].

Lemma serve_file_exact_witness :
  ∃ head, answers (serve_file civil (G := good_store) (Z' := good_store) fs range_request (lit "/srv/www/a.txt") page_md false)
    (head ++ lit "2345").
Proof.
  destruct (serve_file_exact civil (G := good_store) (Z' := good_store) fs range_request (lit "/srv/www/a.txt") page_md false open_page page)
    as (head & body & Ha & Hr).
  - vm_compute. reflexivity.
  - intros off Hoff. unfold open_page. cbn. destruct (drop (Z.to_nat off) page); [reflexivity|]. by rewrite app_nil_r.
  - reflexivity.
  - eexists. reflexivity.
  - eexists. reflexivity.
  - exists head. unfold right_reply in Hr. cbv zeta in Hr.
    assert (is_revalidated range_request (entity_tag (md_len page_md) (md_modified page_md)
      (chosen_encoding range_request (requested_range civil range_request false page_md) (content_type (lit "/srv/www/a.txt")) page_md))
      (entity_tag (md_len page_md) (md_modified page_md) Identity) (http_date civil <$> md_modified page_md) = false) as E1 by (vm_compute; reflexivity).
    assert (requested_range civil range_request false page_md = Some (Bounded 2 5)) as E2 by (vm_compute; reflexivity).
    rewrite E1, E2 in Hr. destruct Hr as (_ & _ & Hb & _). rewrite Hb in Ha. exact Ha.
Defined.
End StaticExample.
