(* ===== verification/Listing.v ===== *)
(** * Directory listings (src/dataplane/http/static_files.rs)

    The scan of a directory into one page of entries with the cursor of the
    next, and the HTML page that shows it. *)

From stdpp Require Import sorting.
From S2P Require Import Prelude RustStd Net Stream TlsHeader HelloCache BindAddr HttpHead Relay FilePath ErrorPages StaticFiles.
Open Scope Z_scope.

(** ** Names in byte order *)

(** A scanned name: the name, whether it is a directory, whether it is a
    symbolic link. *)
Record Scanned := MkScanned { sc_name : bytes; sc_is_dir : bool; sc_is_symlink : bool }.
Definition scanned_le (a b : Scanned) : Prop := bytes_le (sc_name a) (sc_name b) = true.
#[global] Instance scanned_le_dec : RelDecision scanned_le.
Proof. intros a b. unfold scanned_le. apply _. Defined.

(** [partition_point]: how many elements satisfy a predicate that holds of a
    prefix. *)
Fixpoint partition_point {A} (p : A → bool) (l : list A) : nat :=
  match l with
  | x :: l => if p x then S (partition_point p l) else O
  | [] => O
  end.

(** ** Scanning *)

Record ListedEntry := MkListed {
  le_name : bytes; le_is_dir : bool; le_size : Z; le_modified : option Z; le_link_target : option bytes }.
Record Listing := MkListing {
  ls_directories : nat; ls_files : nat; ls_start_ordinal : nat; ls_entries : list ListedEntry; ls_next_after : option bytes }.

Definition PAGE_SIZE : nat := Z.to_nat 100000.

Section scan.
Context (fs : Fs).

Definition scan_entry (path : bytes) (e : DirEntry) : Scanned :=
  let '(is_dir, is_symlink) :=
    match de_type e with
    | ESymlink => (match metadata fs (path_join path (de_name e)) with Ok m => is_dir m | Err _ => false end, true)
    | EDir => (true, false)
    | EOther | EUnknown => (false, false)
    end in
  MkScanned (from_utf8_lossy (de_name e)) is_dir is_symlink.

(** All names of the directory, unreadable items skipped, in byte order. *)
Definition scan_names (path : bytes) : result io_kind (list Scanned) :=
  items ← read_dir fs path;
  Ok (merge_sort scanned_le (scan_entry path <$> omap id items)).

Definition list_entry (path : bytes) (s : Scanned) : ListedEntry :=
  let full := path_join path (sc_name s) in
  let md := match metadata fs full with Ok m => Some m | Err _ => None end in
  MkListed (sc_name s) (sc_is_dir s) (match md with Some m => md_len m | None => 0 end) (md ≫= md_modified)
    (if sc_is_symlink s then from_utf8_lossy <$> read_link fs full else None).

(** The part of [scan_directory] after the sort. *)
Definition page_start (after : option bytes) (names : list Scanned) : nat :=
  match after with
  | Some cursor => partition_point (λ s, bytes_le (sc_name s) cursor) names
  | None => O
  end.
Definition page_end (after : option bytes) (page_size : nat) (names : list Scanned) : nat :=
  ((page_start after names + page_size) `min` length names)%nat.
Definition page_names (after : option bytes) (page_size : nat) (names : list Scanned) : list Scanned :=
  let start := page_start after names in
  take (page_end after page_size names - start) (drop start names).
Definition page_next (after : option bytes) (page_size : nat) (names : list Scanned) : option bytes :=
  let stop := page_end after page_size names in
  if (stop <? length names)%nat then sc_name <$> names !! (stop - 1)%nat else None.

Definition scan_directory (path : bytes) (after : option bytes) (page_size : nat) : result io_kind Listing :=
  names ← scan_names path;
  let directories := length (filter (λ s, sc_is_dir s = true) names) in
  Ok (MkListing directories (length names - directories) (page_start after names + 1)
        (list_entry path <$> page_names after page_size names) (page_next after page_size names)).

End scan.

(** ** The page *)

Definition icons : list (list String.string * String.string) := [
  (["png"; "jpg"; "jpeg"; "gif"; "webp"; "avif"; "svg"; "ico"; "bmp"; "tif"; "tiff"], "image");
  (["mp4"; "m4v"; "webm"; "mkv"; "avi"; "mov"], "video");
  (["mp3"; "m4a"; "aac"; "ogg"; "oga"; "opus"; "flac"; "wav"], "audio");
  (["zip"; "gz"; "zst"; "tar"; "7z"; "rar"; "bz2"; "xz"; "deb"; "rpm"; "apk"; "iso"], "archive");
  (["rs"; "c"; "h"; "cpp"; "hpp"; "go"; "java"; "ts"; "js"; "mjs"; "py"; "sh"; "css"; "json"; "yaml"; "yml"; "toml"; "xml"; "html"; "htm"], "code");
  (["txt"; "md"; "log"; "csv"; "pdf"; "doc"; "docx"; "xls"; "xlsx"; "ppt"; "pptx"], "doc");
  (["woff"; "woff2"; "ttf"; "otf"; "eot"], "font")
].
Definition icon_for (name : bytes) (is_dir : bool) : bytes :=
  if is_dir then lit "folder"
  else
    let ext := to_ascii_lowercase (match rsplit_once DOT name with Some (_, e) => e | None => name end) in
    match List.find (λ row, bool_decide (ext ∈ map lit row.1)) icons with
    | Some row => lit row.2
    | None => lit "file"
    end.

(** [bytes as f64]: 53 significant bits, ties to even. *)
Definition round_half_even (n d : Z) : Z :=
  let q := n / d in let r := n mod d in
  if 2 * r <? d then q else if d <? 2 * r then q + 1 else if Z.even q then q else q + 1.
Definition u64_to_f64 (n : Z) : Z :=
  let e := Z.log2 n - 52 in
  if e <=? 0 then n else round_half_even n (2 ^ e) * 2 ^ e.

Definition UNITS : list bytes := [lit "B"; lit "KiB"; lit "MiB"; lit "GiB"; lit "TiB"; lit "PiB"].
(** The value is [num / 1024^unit], exact in binary floating point. *)
Fixpoint size_unit (fuel : nat) (num : Z) (unit : nat) : nat :=
  match fuel with
  | O => unit
  | S fuel => if (1024 * 1024 ^ Z.of_nat unit <=? num) && (unit <? 5)%nat then size_unit fuel num (S unit) else unit
  end.
Definition human_size (n : Z) : bytes :=
  if n <? 1024 then show_dec n ++ lit " B"
  else
    let num := u64_to_f64 n in
    let unit := size_unit 5 num 0 in
    let tenths := round_half_even (10 * num) (1024 ^ Z.of_nat unit) in
    show_dec (tenths / 10) ++ lit "." ++ show_dec (tenths mod 10) ++ lit " " ++ default [] (UNITS !! unit).

(** [request_path.trim_matches('/').split('/').filter(non-empty)] *)
Definition segments (request_path : bytes) : list bytes :=
  filter (λ s, s ≠ []) (split_char SLASH (trim_end_char SLASH (trim_start_char SLASH request_path))).
Fixpoint crumbs_go (href : bytes) (segs : list bytes) : bytes :=
  match segs with
  | [] => []
  | [s] => lit "<span>" ++ html_escape s ++ lit "</span>"
  | s :: segs =>
      let href := href ++ s ++ [SLASH] in
      html "<a href=~" ++ html_escape href ++ html "~>" ++ html_escape s ++ lit "</a><i>/</i>" ++ crumbs_go href segs
  end.
Definition breadcrumbs (request_path : bytes) : bytes :=
  html "<a href=~/~>/</a>" ++ crumbs_go [SLASH] (segments request_path).

(** The fixed parts of the page, in order. *)
Definition page_doctype : bytes :=
  html "<!doctype html><html lang=en><meta charset=utf-8><meta name=viewport content=~width=device-width,initial-scale=1~><title>Index of ".
Definition page_style : bytes :=
  html "</title><style>
:root{--bg:#f4f6fa;--panel:#fff;--text:#1c2433;--muted:#6b7686;--line:#e5e9f1;--accent:#2563c9;--accent-soft:#e8f0fd;--hover:#f4f7fc;--shadow:0 1px 3px rgba(16,24,40,.08),0 1px 2px rgba(16,24,40,.04)}
@media(prefers-color-scheme:dark){:root{--bg:#0f131a;--panel:#181e29;--text:#e6eaf2;--muted:#8b95a7;--line:#293142;--accent:#6ba3f5;--accent-soft:#1d2b45;--hover:#1f2734;--shadow:0 1px 3px rgba(0,0,0,.4)}}
*{box-sizing:border-box}body{margin:0;background:var(--bg);color:var(--text);font:14.5px/1.55 system-ui,-apple-system,~Segoe UI~,sans-serif}
header.top{background:var(--panel);border-bottom:1px solid var(--line);padding:.8rem 1.25rem;display:flex;align-items:center;gap:.7rem}
header.top svg{width:26px;height:26px;color:var(--accent);flex:none}
nav.crumbs{font-size:1.02rem;font-weight:600;word-break:break-all;min-width:0}nav.crumbs a{color:var(--accent);text-decoration:none}nav.crumbs a:hover{text-decoration:underline}nav.crumbs i{font-style:normal;color:var(--muted);margin:0 .12em}nav.crumbs span{color:var(--text)}
main{max-width:68rem;margin:1.5rem auto 4rem;padding:0 1.25rem}
.card{background:var(--panel);border:1px solid var(--line);border-radius:12px;box-shadow:var(--shadow);overflow:hidden}
.toolbar{display:flex;align-items:center;gap:.8rem;padding:.75rem 1rem;border-bottom:1px solid var(--line);flex-wrap:wrap}
.toolbar input{flex:1;min-width:10rem;background:var(--bg);color:var(--text);border:1px solid var(--line);border-radius:8px;padding:.45rem .75rem;font:inherit;outline:none}
.toolbar input:focus{border-color:var(--accent);box-shadow:0 0 0 3px var(--accent-soft)}
.badge{background:var(--accent-soft);color:var(--accent);font-size:.78rem;font-weight:600;border-radius:999px;padding:.2rem .65rem;white-space:nowrap}
table{width:100%;border-collapse:collapse}
thead th{position:sticky;top:0;background:var(--panel);text-align:left;font-size:.72rem;letter-spacing:.07em;text-transform:uppercase;color:var(--muted);font-weight:600;padding:.6rem 1rem;border-bottom:1px solid var(--line)}
tbody td{padding:0;border-bottom:1px solid var(--line)}tbody tr:last-child td{border-bottom:0}tbody tr:hover{background:var(--hover)}
td a{display:inline-block;padding:.5rem 0 .5rem 1rem;color:var(--text);text-decoration:none;word-break:break-all}
td a:hover{color:var(--accent)}
tr.d td a{font-weight:600}svg.ic{width:18px;height:18px;vertical-align:-3.5px;margin-right:.55em;color:var(--muted);flex:none}tr.d svg.ic{color:var(--accent)}
span.lt{color:var(--muted);font-size:.85em;margin-left:.5em;word-break:break-all}span.lt svg{width:12px;height:12px;vertical-align:-1.5px;margin-right:.25em}
td.s,td.m{padding:.5rem 1rem;color:var(--muted);white-space:nowrap;font-variant-numeric:tabular-nums}td.s{text-align:right}
th.s{text-align:right}th.s,td.s{width:7.5rem}th.m,td.m{width:10rem}
footer{display:flex;justify-content:space-between;align-items:center;color:var(--muted);font-size:.83rem;margin-top:1rem;padding:0 .25rem}
a.btn{color:var(--accent);text-decoration:none;font-weight:600;border:1px solid var(--line);background:var(--panel);border-radius:8px;padding:.4rem .9rem;box-shadow:var(--shadow)}a.btn:hover{border-color:var(--accent)}
@media(max-width:640px){th.m,td.m{display:none}}
</style><body>
<svg style=display:none xmlns=~http://www.w3.org/2000/svg~><defs>
<symbol id=i-up viewBox=~0 0 24 24~ fill=none stroke=currentColor stroke-width=1.8 stroke-linecap=round stroke-linejoin=round><path d=~M3 8V6a2 2 0 0 1 2-2h4l2 2h8a2 2 0 0 1 2 2v10a2 2 0 0 1-2 2H5a2 2 0 0 1-2-2V8z~/><path d=~M12 16v-5m0 0-2.5 2.5M12 11l2.5 2.5~/></symbol>
<symbol id=i-folder viewBox=~0 0 24 24~ fill=none stroke=currentColor stroke-width=1.8 stroke-linecap=round stroke-linejoin=round><path d=~M3 8V6a2 2 0 0 1 2-2h4l2 2h8a2 2 0 0 1 2 2v10a2 2 0 0 1-2 2H5a2 2 0 0 1-2-2V8z~/></symbol>
<symbol id=i-file viewBox=~0 0 24 24~ fill=none stroke=currentColor stroke-width=1.8 stroke-linecap=round stroke-linejoin=round><path d=~M14 3H7a2 2 0 0 0-2 2v14a2 2 0 0 0 2 2h10a2 2 0 0 0 2-2V8l-5-5z~/><path d=~M14 3v5h5~/></symbol>
<symbol id=i-doc viewBox=~0 0 24 24~ fill=none stroke=currentColor stroke-width=1.8 stroke-linecap=round stroke-linejoin=round><path d=~M14 3H7a2 2 0 0 0-2 2v14a2 2 0 0 0 2 2h10a2 2 0 0 0 2-2V8l-5-5z~/><path d=~M14 3v5h5M9 13h6M9 17h6~/></symbol>
<symbol id=i-image viewBox=~0 0 24 24~ fill=none stroke=currentColor stroke-width=1.8 stroke-linecap=round stroke-linejoin=round><rect x=4 y=4 width=16 height=16 rx=2/><circle cx=9.5 cy=9.5 r=1.6/><path d=~m5 18 5-5 3 3 2.5-2.5L20 18~/></symbol>
<symbol id=i-video viewBox=~0 0 24 24~ fill=none stroke=currentColor stroke-width=1.8 stroke-linecap=round stroke-linejoin=round><rect x=3.5 y=5 width=17 height=14 rx=2.5/><path d=~m10.5 9.5 4.5 2.5-4.5 2.5v-5z~/></symbol>
<symbol id=i-audio viewBox=~0 0 24 24~ fill=none stroke=currentColor stroke-width=1.8 stroke-linecap=round stroke-linejoin=round><path d=~M9 18V6l10-2v12~/><circle cx=6.6 cy=18 r=2.4/><circle cx=16.6 cy=16 r=2.4/></symbol>
<symbol id=i-archive viewBox=~0 0 24 24~ fill=none stroke=currentColor stroke-width=1.8 stroke-linecap=round stroke-linejoin=round><path d=~M4 8V6a1.5 1.5 0 0 1 1.5-1.5h13A1.5 1.5 0 0 1 20 6v2M4 8h16v10a2 2 0 0 1-2 2H6a2 2 0 0 1-2-2V8z~/><path d=~M10 12h4~/></symbol>
<symbol id=i-code viewBox=~0 0 24 24~ fill=none stroke=currentColor stroke-width=1.8 stroke-linecap=round stroke-linejoin=round><path d=~m9 8-5 4 5 4M15 8l5 4-5 4~/></symbol>
<symbol id=i-font viewBox=~0 0 24 24~ fill=none stroke=currentColor stroke-width=1.8 stroke-linecap=round stroke-linejoin=round><path d=~M6 19 12 5l6 14M8.4 14h7.2~/></symbol>
</defs></svg>
<header class=top><svg viewBox=~0 0 48 48~ fill=~none~ stroke=~currentColor~ stroke-width=~2.5~ stroke-linecap=~round~ stroke-linejoin=~round~ aria-hidden=~true~><path d=~M24 4 6 11v11c0 10.5 7.7 18.9 18 22 10.3-3.1 18-11.5 18-22V11L24 4z~/><path d=~M16 24h12m0 0-4-4m4 4-4 4~/></svg><nav class=crumbs>".
Definition page_toolbar : bytes :=
  html "</nav></header>
<main><div class=card>
<div class=toolbar><input id=q type=search placeholder=~Filter this page&#8230;~ autocomplete=off><span class=badge>".
Definition page_folders_badge : bytes :=
  html " folders</span><span class=badge>".
Definition page_table : bytes :=
  html " files</span></div>
<table><thead><tr><th>Name</th><th class=s>Size</th><th class=m>Modified</th></tr></thead><tbody id=rows>".
Definition page_footer : bytes :=
  html "</tbody></table>
</div><footer><span>".
Definition page_note_end : bytes :=
  html "</span>".
Definition page_script : bytes :=
  html "</footer></main>
<script>const q=document.getElementById('q');q.addEventListener('input',()=>{const v=q.value.toLowerCase();for(const r of document.querySelectorAll('#rows tr'))r.style.display=(r.dataset.n===undefined||r.dataset.n.includes(v))?'':'none'});</script>
</body></html>".

Section page.
Context (civil : Z → DateTime) (to_lowercase : bytes → bytes).

(** [{:0n}] of a signed number *)
Definition pad_signed (n : nat) (v : Z) : bytes := if v <? 0 then 45 :: pad (n - 1) (- v) else pad n v.
Definition listing_date (modified : option Z) : bytes :=
  match modified with
  | Some t =>
      let d := civil t in
      pad_signed 4 (dt_year d) ++ lit "-" ++ pad 2 (dt_month d) ++ lit "-" ++ pad 2 (dt_day d) ++ lit " " ++
      pad 2 (dt_hour d) ++ lit ":" ++ pad 2 (dt_minute d)
  | None => lit "—"
  end.

Definition link_note (link_target : option bytes) : bytes :=
  match link_target with
  | Some target => html "<span class=lt><svg viewBox=~0 0 24 24~ fill=~none~ stroke=~currentColor~ stroke-width=~2~><path d=~M10 13a5 5 0 0 0 7.5.5l3-3a5 5 0 0 0-7-7l-1.7 1.7M14 11a5 5 0 0 0-7.5-.5l-3 3a5 5 0 0 0 7 7l1.7-1.7~/></svg>" ++ html_escape target ++ html "</span>"
  | None => []
  end.
Definition entry_row (e : ListedEntry) : bytes :=
  let suffix := if le_is_dir e then lit "/" else [] in
  let size := if le_is_dir e then lit "—" else human_size (le_size e) in
  let link_note := link_note (le_link_target e) in
  html "<tr class="
  ++ (if le_is_dir e then lit "d" else lit "f")
  ++ html " data-n=~"
  ++ html_escape (to_lowercase (le_name e))
  ++ html "~><td><a href=~"
  ++ url_escape (le_name e)
  ++ suffix
  ++ html "~><svg class=ic><use href=~#i-"
  ++ icon_for (le_name e) (le_is_dir e)
  ++ html "~/></svg>"
  ++ html_escape (le_name e)
  ++ suffix
  ++ html "</a>"
  ++ link_note
  ++ html "</td><td class=s>"
  ++ size
  ++ html "</td><td class=m>"
  ++ listing_date (le_modified e)
  ++ html "</td></tr>".
Definition range_note (l : Listing) : bytes :=
  let total := (ls_directories l + ls_files l)%nat in
  let shown := length (ls_entries l) in
  if (shown <? total)%nat then
    lit "Showing " ++ show_dec (Z.of_nat (ls_start_ordinal l)) ++ lit "&#8202;–&#8202;" ++
    show_dec (Z.of_nat (ls_start_ordinal l + (shown - 1))) ++ lit " of " ++ show_dec (Z.of_nat total)
  else [].
Definition next_link (next_after : option bytes) : bytes :=
  match next_after with
  | Some cursor => html "<a class=~btn next~ href=~?after=" ++ url_escape cursor ++ html "~>Next page &rarr;</a>"
  | None => []
  end.
Definition parent_row : bytes :=
  html "<tr class=d><td><a href=~../~><svg class=ic><use href=~#i-up~/></svg>..</a></td><td class=s>—</td><td class=m>—</td></tr>".

Definition directory_page (l : Listing) (request_path : bytes) : bytes :=
  let rows := (if eqb_bytes request_path (lit "/") then [] else parent_row) ++ (ls_entries l ≫= entry_row) in
  let range_note := range_note l in
  let next := next_link (ls_next_after l) in
  page_doctype
  ++ html_escape request_path
  ++ page_style
  ++ breadcrumbs request_path
  ++ page_toolbar
  ++ show_dec (Z.of_nat (ls_directories l))
  ++ page_folders_badge
  ++ show_dec (Z.of_nat (ls_files l))
  ++ page_table
  ++ rows
  ++ page_footer
  ++ range_note
  ++ page_note_end
  ++ next
  ++ page_script.

End page.

Definition listing_head (body : bytes) : bytes :=
  head_of [lit "HTTP/1.1 200 OK"; lit "Content-Type: text/html; charset=utf-8"; content_length_line (Z.of_nat (length body));
           lit "Cache-Control: no-cache"; connection_close; nosniff].
Definition listing_response (body : bytes) (head_only : bool) : io () :=
  _ ← put (listing_head body);
  _ ← (if head_only then mret () else put body);
  close.

(** ** Byte order of names *)

#[global] Instance scanned_le_total : Total scanned_le.
Proof. intros a b. apply bytes_le_total. Qed.
#[global] Instance scanned_le_trans : Transitive scanned_le.
Proof. intros a b c. apply bytes_le_trans. Qed.

(** ** Following the pages *)

(** The cursor with which page position [k] is reached. *)
Definition cursor_at (k : nat) (names : list Scanned) : option bytes :=
  match k with O => None | S j => sc_name <$> names !! j end.

Lemma partition_point_ge p (a b : list Scanned) :
  Forall (λ s, p s = true) a → match b with x :: _ => p x = false | [] => True end → partition_point p (a ++ b) = length a.
Proof. induction 1 as [|x a Hx Ha IH]; intros Hb; cbn; [destruct b as [|y b]; [done|cbn]; by rewrite Hb|]. by rewrite Hx, IH. Qed.

Lemma page_start_cursor k names :
  StronglySorted scanned_le names → NoDup (sc_name <$> names) → (k ≤ length names)%nat → page_start (cursor_at k names) names = k.
Proof.
  intros Hs Hn Hk. destruct k as [|j]; [done|]. cbn [cursor_at].
  destruct (lookup_lt_is_Some_2 names j) as [s Hj]; [lia|]. rewrite Hj. cbn [fmap option_fmap option_map page_start].
  assert (names = take (S j) names ++ drop (S j) names) as Hsplit by by rewrite take_drop.
  rewrite Hsplit at 1. rewrite partition_point_ge; [rewrite length_take; lia| |].
  - rewrite (take_S_r _ _ _ Hj). apply Forall_app. split; [|by repeat constructor; apply bytes_le_refl].
    assert (names = take j names ++ s :: drop (S j) names) as E by by rewrite take_drop_middle.
    rewrite E in Hs. apply StronglySorted_app in Hs as [Hs _]. apply Forall_forall. intros x Hx. apply (Hs x s); set_solver.
  - destruct (drop (S j) names) as [|x r] eqn:Ed; [done|].
    assert (names = take j names ++ s :: x :: r) as E by (rewrite <-Ed; by rewrite take_drop_middle).
    destruct (bytes_le (sc_name x) (sc_name s)) eqn:Ele; [|done]. exfalso.
    rewrite E in Hs, Hn. apply StronglySorted_app in Hs as (_ & _ & Hs). inversion Hs as [|? ? _ Hfa]; subst.
    apply Forall_cons in Hfa as [Hsx _]. rewrite fmap_app in Hn. cbn [fmap list_fmap] in Hn.
    apply NoDup_app in Hn as (_ & _ & Hn). apply NoDup_cons in Hn as [Hn _]. apply Hn.
    rewrite (bytes_le_antisym _ _ Hsx Ele). set_solver.
Qed.

Lemma length_omap_le {A} (l : list (option A)) : (length (omap id l) ≤ length l)%nat.
Proof. induction l as [|[x|] l IH]; cbn; lia. Qed.

Lemma page_at k page_size names :
  StronglySorted scanned_le names → NoDup (sc_name <$> names) → (k ≤ length names)%nat → (0 < page_size)%nat →
  page_names (cursor_at k names) page_size names = take page_size (drop k names) ∧
  page_next (cursor_at k names) page_size names =
    if (k + page_size <? length names)%nat then cursor_at (k + page_size) names else None.
Proof.
  intros Hs Hn Hk Hp. unfold page_names, page_next, page_end. rewrite page_start_cursor by done. split.
  - destruct (Nat.le_gt_cases (k + page_size) (length names)); [f_equal; lia|].
    rewrite !take_ge by (rewrite length_drop; lia). done.
  - destruct (Nat.ltb_spec (k + page_size) (length names)) as [Hlt|Hge].
    + rewrite Nat.min_l by lia. rewrite (proj2 (Nat.ltb_lt _ _) Hlt). unfold cursor_at.
      replace (k + page_size)%nat with (S (k + page_size - 1)) by lia. do 2 f_equal. lia.
    + rewrite Nat.min_r by lia. by rewrite Nat.ltb_irrefl.
Qed.

Lemma scan_entry_name fs path e : sc_name (scan_entry fs path e) = from_utf8_lossy (de_name e).
Proof. unfold scan_entry. by destruct (de_type e). Qed.

(** A visitor who opens the directory and keeps following the link to the
    next page, as the page spells it and the server reads it back. *)
Fixpoint follow_links (fs : Fs) (path : bytes) (page_size fuel : nat) (after : option bytes) : result io_kind (list ListedEntry) :=
  match fuel with
  | O => Ok []
  | S fuel =>
      l ← scan_directory fs path after page_size;
      match ls_next_after l with
      | None => Ok (ls_entries l)
      | Some cursor =>
          rest ← follow_links fs path page_size fuel (query_after (lit "after=" ++ url_escape cursor));
          Ok (ls_entries l ++ rest)
      end
  end.

(** What a directory entry's name is on a file system with UTF-8 names. *)
Definition name_ok (n : bytes) : Prop := Forall is_byte n ∧ 0 ∉ n ∧ utf8_valid n = true.

Lemma follow_links_from fs path page_size names fuel k :
  scan_names fs path = Ok names → StronglySorted scanned_le names → NoDup (sc_name <$> names) → Forall name_ok (sc_name <$> names) →
  (0 < page_size)%nat → (k ≤ length names)%nat → (length names - k < fuel)%nat →
  follow_links fs path page_size fuel (cursor_at k names) = Ok (list_entry fs path <$> drop k names).
Proof.
  intros Hscan Hs Hn Hok Hp. revert k. induction fuel as [|fuel IH]; intros k Hk Hf; [lia|].
  cbn [follow_links]. unfold scan_directory. rewrite Hscan. cbn [mbind result_bind ls_next_after ls_entries].
  destruct (page_at k page_size names Hs Hn Hk Hp) as [-> ->].
  destruct (Nat.ltb_spec (k + page_size) (length names)) as [Hlt|Hge].
  2: { rewrite take_ge by (rewrite length_drop; lia). done. }
  destruct (cursor_at (k + page_size) names) as [c|] eqn:Ec.
  - assert (name_ok c) as (Hb & H0 & Hv).
    { destruct (k + page_size)%nat as [|j] eqn:Ek; [done|]. cbn [cursor_at] in Ec.
      apply fmap_Some in Ec as (s & Hj & ->). rewrite Forall_forall in Hok. apply Hok. apply list_elem_of_fmap. exists s.
      split; [done|]. by eapply list_elem_of_lookup_2. }
    rewrite query_after_link by done. rewrite <-Ec, IH by lia. cbn [mbind result_bind]. do 2 f_equal.
    rewrite <-fmap_app, <-drop_drop. by rewrite take_drop.
  - destruct (k + page_size)%nat as [|j] eqn:Ek; [lia|]. cbn [cursor_at] in Ec.
    destruct (lookup_lt_is_Some_2 names j) as [s Hj]; [lia|]. by rewrite Hj in Ec.
Qed.

(** The pages of a listing enumerate the directory.  Starting at the first
    page and following the "next" links, as written into the page and decoded
    from the query, a visitor sees every entry exactly once, in byte order,
    whatever the page size; the walk ends within one page per entry. *)
Theorem listing_pages_enumerate fs path items page_size :
  read_dir fs path = Ok items → NoDup (de_name <$> omap id items) → Forall name_ok (de_name <$> omap id items) → (0 < page_size)%nat →
  ∃ entries, follow_links fs path page_size (S (length items)) None = Ok entries ∧
    le_name <$> entries ≡ₚ de_name <$> omap id items ∧
    StronglySorted (λ a b, bytes_le (le_name a) (le_name b) = true ∧ le_name a ≠ le_name b) entries.
Proof.
  intros Hdir Hn Hok Hp. set (es := omap id items). set (names := merge_sort scanned_le (scan_entry fs path <$> es)).
  assert (scan_names fs path = Ok names) as Hscan by (unfold scan_names; by rewrite Hdir).
  assert (sc_name <$> names ≡ₚ de_name <$> es) as Hperm.
  { unfold names. rewrite merge_sort_Permutation. rewrite <-list_fmap_compose.
    replace (sc_name ∘ scan_entry fs path <$> es) with (de_name <$> es); [done|]. symmetry. apply list_fmap_ext. intros i e He. cbn [compose]. rewrite scan_entry_name. apply utf8_lossy_valid. rewrite Forall_forall in Hok. apply (Hok (de_name e)). apply list_elem_of_fmap. exists e.
    split; [done|]. by eapply list_elem_of_lookup_2. }
  assert (StronglySorted scanned_le names) as Hs by (apply StronglySorted_merge_sort; apply _).
  fold es in Hn, Hok. rewrite <-Hperm in Hn, Hok. exists (list_entry fs path <$> names). split_and!.
  - pose proof (follow_links_from fs path page_size names (S (length items)) 0 Hscan Hs Hn Hok Hp ltac:(lia)) as Hf.
    cbn [cursor_at] in Hf. rewrite drop_0 in Hf. apply Hf.
    assert (length names = length es) as Hl. { rewrite <-(length_fmap sc_name), Hperm. apply length_fmap. }
    pose proof (length_omap_le items). unfold es in *. lia.
  - rewrite <-list_fmap_compose. exact Hperm.
  - clear -Hs Hn. induction Hs as [|s names Hs IH Hall]; [constructor|]. cbn in Hn. apply NoDup_cons in Hn as [Hnot Hn].
    cbn. constructor; [by apply IH|]. apply Forall_fmap, Forall_forall. intros x Hx. cbn.
    rewrite Forall_forall in Hall. split; [by apply Hall|]. intros E. apply Hnot. rewrite E. by apply list_elem_of_fmap_2.
Qed.

Module ListingExample.
Definition items : list (option DirEntry) :=
  [Some (MkEntry (lit "b&c") EOther); None; Some (MkEntry (lit "a") EDir); Some (MkEntry (lit "d e") ESymlink)].
Definition fs : Fs := {|
  canonicalize := Ok; metadata := λ _, Ok (MkMetadata KFile 5 None); open_file := λ _, Err NotFound;
  read_dir := λ _, Ok items; read_link := λ _, Some (lit "/x") |}.
Lemma listing_pages_enumerate_witness :
  ∃ entries, follow_links fs (lit "/srv") 2 5 None = Ok entries ∧ le_name <$> entries ≡ₚ [lit "b&c"; lit "a"; lit "d e"].
Proof.
  destruct (listing_pages_enumerate fs (lit "/srv") items 2) as (entries & He & Hp & _).
  - reflexivity.
  - apply (bool_decide_unpack _). vm_compute. exact I.
  - repeat (apply Forall_cons; split; [|]); [..|constructor];
      (split_and!; [repeat constructor; unfold is_byte; lia|apply (bool_decide_unpack _); vm_compute; exact I|reflexivity]).
  - lia.
  - exists entries. split; [exact He|exact Hp].
Defined.
End ListingExample.

(** ** Names cannot inject markup *)

Definition markup (s : bytes) : bytes := filter (λ c, is_markup c = true) s.
Definition plain (s : bytes) : Prop := Forall (λ c, is_markup c = false) s.

Lemma markup_app a b : markup (a ++ b) = markup a ++ markup b.
Proof. apply filter_app. Qed.
Lemma markup_plain s : plain s → markup s = [].
Proof.
  unfold markup. induction 1 as [|c s Hc Hs IH]; [done|]. rewrite filter_cons_False by by rewrite Hc. done.
Qed.

Lemma plain_app a b : plain a → plain b → plain (a ++ b).
Proof. intros. by apply Forall_app. Qed.
Lemma plain_dec n : plain (show_dec n).
Proof.
  assert (∀ fuel n acc, plain acc → plain (dec_digits fuel n acc)) as Hgo.
  { induction fuel as [|fuel IH]; intros m acc Hacc; cbn; [done|].
    assert (plain ((48 + m mod 10) :: acc)) as H'.
    { constructor; [|done]. unfold is_markup. pose proof (Z.mod_pos_bound m 10). lia. }
    case_match; [done|by apply IH]. }
  apply Hgo. constructor.
Qed.
Lemma plain_pad n v : plain (pad n v).
Proof. unfold pad. apply plain_app; [|apply plain_dec]. apply Forall_forall. intros x Hx%list_elem_of_In%repeat_spec. by subst. Qed.
Lemma plain_table (t : list (list String.string * String.string)) (f : list String.string * String.string → bool) d :
  Forall (λ row, plain (lit row.2)) t → plain (lit d) → plain (match List.find f t with Some row => lit row.2 | None => lit d end).
Proof.
  intros Ht Hd. destruct (List.find f t) as [row|] eqn:E; [|done]. apply find_some in E as [E _].
  rewrite Forall_forall in Ht. apply Ht. by apply list_elem_of_In.
Qed.
Ltac plain_literal := apply (bool_decide_unpack _); vm_compute; exact I.

Lemma plain_icon name d : plain (icon_for name d).
Proof. unfold icon_for. destruct d; [plain_literal|]. apply plain_table; plain_literal. Qed.
Lemma plain_url_escape s : Forall is_byte s → plain (url_escape s).
Proof.
  unfold url_escape, is_byte. induction 1 as [|b s Hb Hs IH]; [constructor|]. cbn. apply plain_app; [|done].
  unfold url_escape_byte. destruct (unreserved b) eqn:E.
  - constructor; [|constructor]. unfold is_markup. destruct (Z.eqb_spec b 60), (Z.eqb_spec b 62), (Z.eqb_spec b 34); subst; done.
  - pose proof (Z.mod_pos_bound b 16). assert (0 ≤ b / 16) by (apply Z.div_pos; lia).
    repeat constructor; unfold is_markup, upper_hex_digit; case_match; lia.
Qed.
Lemma plain_unit u : plain (default [] (UNITS !! u)).
Proof. do 6 (destruct u as [|u]; [plain_literal|]). plain_literal. Qed.
Lemma plain_size n : plain (human_size n).
Proof.
  unfold human_size. case_match; repeat apply plain_app; first [apply plain_dec|apply plain_unit|plain_literal].
Qed.
Lemma plain_date civil m : plain (listing_date civil m).
Proof.
  unfold listing_date, pad_signed. destruct m as [t|]; [|plain_literal].
  repeat match goal with |- plain (_ ++ _) => apply plain_app end; try apply plain_pad; try plain_literal.
  case_match; [constructor; [done|]|]; apply plain_pad.
Qed.
Lemma plain_html_escape s : plain (html_escape s).
Proof. apply html_escape_no_markup. Qed.
#[export] Hint Resolve plain_html_escape plain_dec plain_icon plain_url_escape plain_size plain_date : tlsproxy.

Section injection.
Context (civil : Z → DateTime) (to_lowercase : bytes → bytes).

(** What of a listing the markup of its page may depend on. *)
Definition entry_shape (e : ListedEntry) : bool * bool := (le_is_dir e, bool_decide (is_Some (le_link_target e))).
Record same_shape (l l' : Listing) (p p' : bytes) : Prop := {
  sh_entries : entry_shape <$> ls_entries l = entry_shape <$> ls_entries l';
  sh_next : is_Some (ls_next_after l) ↔ is_Some (ls_next_after l');
  sh_segments : length (segments p) = length (segments p');
  sh_root : p = lit "/" ↔ p' = lit "/";
}.
Record listing_bytes (l : Listing) : Prop := {
  lb_names : Forall (λ e, Forall is_byte (le_name e)) (ls_entries l);
  lb_next c : ls_next_after l = Some c → Forall is_byte c;
}.

Ltac markup_step := rewrite !markup_app; repeat (rewrite (markup_plain (html_escape _)) by auto with tlsproxy).

Lemma markup_row e e' : Forall is_byte (le_name e) → Forall is_byte (le_name e') → entry_shape e = entry_shape e' →
  markup (entry_row civil to_lowercase e) = markup (entry_row civil to_lowercase e').
Proof.
  destruct e as [n d sz m lt], e' as [n' d' sz' m' lt']. unfold entry_shape. cbn [le_name le_is_dir le_link_target]. intros Hn Hn' [= -> Hlt].
  unfold entry_row. cbn [le_name le_is_dir le_size le_modified le_link_target]. markup_step.
  rewrite !(markup_plain (url_escape _)), !(markup_plain (icon_for _ _)), !(markup_plain (listing_date _ _)) by auto with tlsproxy.
  assert (markup (link_note lt) = markup (link_note lt')) as ->.
  { unfold link_note. destruct lt as [t|], lt' as [t'|]; [by markup_step|discriminate Hlt|discriminate Hlt|done]. }
  replace (markup (if d' then lit "—" else human_size sz)) with (markup (if d' then lit "—" else human_size sz')); [done|].
  destruct d'; [done|]. by rewrite !markup_plain by auto with tlsproxy.
Qed.

Lemma markup_rows es es' : Forall (λ e, Forall is_byte (le_name e)) es → Forall (λ e, Forall is_byte (le_name e)) es' →
  entry_shape <$> es = entry_shape <$> es' →
  markup (es ≫= entry_row civil to_lowercase) = markup (es' ≫= entry_row civil to_lowercase).
Proof.
  intros Hes. revert es'. induction Hes as [|e es He Hes IH]; intros [|e' es'] Hes' E; try done.
  apply Forall_cons in Hes' as [He' Hes']. cbn [fmap list_fmap] in E. injection E as E1 E2 E.
  rewrite !bind_cons, !markup_app. f_equal; [apply markup_row; [done..|]; unfold entry_shape; by rewrite E1, E2|by apply IH].
Qed.

Lemma markup_crumbs href href' s s' : length s = length s' → markup (crumbs_go href s) = markup (crumbs_go href' s').
Proof.
  revert href href' s'. induction s as [|x s IH]; intros href href' [|x' s'] E; try done. injection E as E.
  destruct s as [|y s], s' as [|y' s']; try done; cbn [crumbs_go].
  - by markup_step.
  - markup_step. do 5 f_equal. exact (IH (href ++ x ++ [SLASH]) (href' ++ x' ++ [SLASH]) (y' :: s') E).
Qed.

Lemma markup_range_note l : markup (range_note l) = [].
Proof. apply markup_plain. unfold range_note. case_match; [|constructor]. repeat apply plain_app; first [apply plain_dec|plain_literal]. Qed.
Lemma markup_next n n' : (is_Some n ↔ is_Some n') → (∀ c, n = Some c → Forall is_byte c) → (∀ c, n' = Some c → Forall is_byte c) →
  markup (next_link n) = markup (next_link n').
Proof.
  intros Hn Hb Hb'. unfold next_link. destruct n as [c|], n' as [c'|]; [| | |done].
  - rewrite !markup_app, !(markup_plain (url_escape _)); auto with tlsproxy.
  - destruct (proj1 Hn) as [? ?]; [by eexists|done].
  - destruct (proj2 Hn) as [? ?]; [by eexists|done].
Qed.

(** File names cannot inject markup into a listing.  The tag and quote
    characters of the page are determined by its shape (how many entries,
    which are directories or links, how deep the path is): two listings of
    the same shape have the same markup whatever their names, link targets,
    cursors and request paths contain. *)
Theorem listing_no_injection l l' p p' :
  same_shape l l' p p' → listing_bytes l → listing_bytes l' →
  markup (directory_page civil to_lowercase l p) = markup (directory_page civil to_lowercase l' p').
Proof.
  intros [He Hn Hs Hr] [Hb Hbn] [Hb' Hbn']. unfold directory_page. cbv zeta. rewrite !markup_app.
  rewrite !(markup_plain (html_escape _)), !(markup_plain (show_dec _)), !markup_range_note by auto with tlsproxy.
  rewrite (markup_next _ _ Hn Hbn Hbn'), (markup_rows _ _ Hb Hb' He).
  assert (markup (breadcrumbs p) = markup (breadcrumbs p')) as ->.
  { unfold breadcrumbs. rewrite !markup_app. f_equal. by apply markup_crumbs. }
  replace (eqb_bytes p (lit "/")) with (eqb_bytes p' (lit "/")); [done|]. unfold eqb_bytes. by apply bool_decide_ext.
Qed.

End injection.

Module InjectionExample.
Definition hostile : Listing := MkListing 0 1 1 [MkListed (html "~><script>") false 3 None (Some (lit "<b>"))] (Some (html "~<")).
Definition harmless : Listing := MkListing 0 1 1 [MkListed (lit "a.txt") false 9000 None (Some (lit "b"))] (Some (lit "a.txt")).
Lemma listing_no_injection_witness :
  markup (directory_page StaticExample.civil id hostile (lit "/<x>/")) = markup (directory_page StaticExample.civil id harmless (lit "/y/")).
Proof.
  apply listing_no_injection.
  - split; [vm_compute; reflexivity|split; intros _; by eexists|vm_compute; reflexivity|split; discriminate].
  - split; [|intros c [= <-]]; unfold is_byte; apply (bool_decide_unpack _); vm_compute; exact I.
  - split; [|intros c [= <-]]; unfold is_byte; apply (bool_decide_unpack _); vm_compute; exact I.
Defined.
End InjectionExample.
