(* ===== verification/StaticServe.v ===== *)
(** * Requests to a static document root ([serve] of
      src/dataplane/http/static_files.rs)

    From the request line to a file, an index, a listing, a redirect or an
    error page, and what keeps it inside the document root. *)

From S2P Require Import Prelude RustStd Net Stream TlsHeader HelloCache BindAddr HttpHead Relay FilePath ErrorPages StaticFiles Listing.
Open Scope Z_scope.

Inductive beneath_error := Escapes | CanonicalizeFailed (k : io_kind).

Section serve.
Context (civil : Z → DateTime) (to_lowercase : bytes → bytes).
Context {G Z' : Type} `{Compressor G} `{Compressor Z'}.
Context (fs : Fs).

Definition canonical_beneath (root candidate : bytes) : result beneath_error (option bytes) :=
  match canonicalize fs candidate with
  | Err NotFound => Ok None
  | Err k => Err (CanonicalizeFailed k)
  | Ok physical => guard! path_starts_with root physical else Escapes; Ok (Some physical)
  end.

Definition options_head : bytes :=
  head_of [lit "HTTP/1.1 204 No Content"; lit "Allow: GET, HEAD, OPTIONS"; content_length_line 0; connection_close].

(** The index of a directory, if it is a file beneath the root. *)
Definition index_of (root physical : bytes) (index : option bytes) : option bytes :=
  index ≫= λ index,
  match canonicalize fs (path_join physical index) with
  | Ok canonical =>
      if path_starts_with root canonical && match metadata fs canonical with Ok m => is_file m | Err _ => false end
      then Some canonical else None
  | Err _ => None
  end.

(** The tail of [serve], once the physical path and its metadata are known. *)
Definition serve_entry (h : HttpHead) (head_only : bool) (physical : bytes) (md : Metadata) : io () :=
  if negb (is_file md) then error_response 404 head_only
  else serve_file civil (G := G) (Z' := Z') fs h physical md head_only.

Definition serve_directory (h : HttpHead) (head_only directory_listing : bool) (request_path : bytes) (query : option bytes)
  (physical : bytes) (md : Metadata) : io () :=
  if is_dir md then
    if negb directory_listing then error_response 403 head_only
    else match scan_directory fs physical (query ≫= query_after) PAGE_SIZE with
         | Err _ => io_fail ListingFailed
         | Ok listing => listing_response (directory_page civil to_lowercase listing request_path) head_only
         end
  else serve_entry h head_only physical md.

Definition serve_physical (h : HttpHead) (head_only directory_listing : bool) (root request_path : bytes) (query index : option bytes)
  (physical : bytes) : io () :=
  match metadata fs physical with
  | Err PermissionDenied => error_response 403 head_only
  | Err _ => error_response 404 head_only
  | Ok md =>
      if is_dir md then
        if negb (ends_with [SLASH] request_path) then redirect (request_path ++ [SLASH])
        else match index_of root physical index with
             | Some canonical =>
                 match metadata fs canonical with
                 | Ok md => serve_directory h head_only directory_listing request_path query canonical md
                 | Err _ => io_fail MetadataFailed
                 end
             | None => serve_directory h head_only directory_listing request_path query physical md
             end
      else serve_entry h head_only physical md
  end.

(** The decoded path below the route's prefix. *)
Definition relative_path (prefix request_path : bytes) : bytes :=
  trim_start_char SLASH (default request_path (strip_prefix (trim_end_char SLASH prefix) request_path)).

Definition serve (h : HttpHead) (prefix document_root : bytes) (index : option bytes) (directory_listing : bool) : io () :=
  let head_only := eqb_bytes (method h) (lit "HEAD") in
  if eqb_bytes (method h) (lit "OPTIONS") then _ ← put options_head; close
  else if negb (eqb_bytes (method h) (lit "GET")) && negb head_only then error_response 405 false
  else match canonicalize fs document_root with
  | Err _ => error_response 500 head_only
  | Ok root =>
      if negb match metadata fs root with Ok m => is_dir m | Err _ => false end then error_response 500 head_only
      else
        let '(request_path, query) := match split_once 63 (target h) with
                                      | Some (path, query) => (path, Some query)
                                      | None => (target h, None)
                                      end in
        match decode_path (relative_path prefix request_path) with
        | Err _ => error_response 400 head_only
        | Ok decoded =>
            match canonical_beneath root (path_join root decoded) with
            | Ok (Some physical) => serve_physical h head_only directory_listing root request_path query index physical
            | Ok None => error_response 404 head_only
            | Err _ => error_response 403 head_only
            end
        end
  end.

(** The path of a request, without the query. *)
Definition path_of (h : HttpHead) : bytes := match split_once 63 (target h) with Some (path, _) => path | None => target h end.

(** A request for a file beneath the root gets it. *)
Lemma serve_is_file h prefix document_root index directory_listing root decoded physical md :
  method h = lit "GET" → canonicalize fs document_root = Ok root → is_dir <$> metadata fs root = Ok true →
  decode_path (relative_path prefix (path_of h)) = Ok decoded → canonicalize fs (path_join root decoded) = Ok physical →
  path_starts_with root physical = true → metadata fs physical = Ok md → is_file md = true →
  serve h prefix document_root index directory_listing = serve_file civil (G := G) (Z' := Z') fs h physical md false.
Proof.
  intros Hget Hroot Hdir Hdec Hcan Hst Hmd Hfile. unfold serve. rewrite Hget, Hroot. cbn.
  destruct (metadata fs root) as [m|]; cbn in Hdir; [|done]. injection Hdir as ->. cbn [negb].
  unfold path_of in Hdec. set (split := match split_once 63 (target h) with Some _ => _ | None => _ end).
  assert (split.1 = match split_once 63 (target h) with Some (path, _) => path | None => target h end) as Hs
    by (unfold split; by destruct (split_once 63 (target h)) as [[]|]).
  rewrite <-Hs in Hdec. destruct split as [rp q]. cbn [fst] in Hdec. rewrite Hdec. unfold canonical_beneath. rewrite Hcan, Hst. cbn.
  unfold serve_physical. rewrite Hmd. assert (is_dir md = false) as -> by (unfold is_dir, is_file in *; by destruct (md_kind md)).
  unfold serve_entry. by rewrite Hfile.
Qed.

(** Below a route of everything, one more slash makes no difference. *)
Lemma relative_path_doubled prefix h h' :
  trim_end_char SLASH prefix = [] → target h' = SLASH :: target h →
  relative_path prefix (path_of h') = relative_path prefix (path_of h).
Proof.
  intros Hp Ht. unfold relative_path, path_of. rewrite Hp, Ht. cbn [split_once]. change (SLASH =? 63) with false. cbn iota.
  by destruct (split_once 63 (target h)) as [[]|].
Qed.

End serve.

(** ** Confinement *)

(** A physical path - one without links - beneath the canonical document
    root. *)
Definition stored_beneath (fs : Fs) (document_root p : bytes) : Prop :=
  ∃ root, canonicalize fs document_root = Ok root ∧ canonicalize fs p = Ok p ∧ path_starts_with root p = true.
(** Two file systems with the same names and links, and the same state of
    everything stored beneath the document root. *)
Record same_beneath (fs fs' : Fs) (document_root : bytes) : Prop := {
  sb_canonicalize p : canonicalize fs p = canonicalize fs' p;
  sb_metadata p : stored_beneath fs document_root p → metadata fs p = metadata fs' p;
  sb_open p : stored_beneath fs document_root p → open_file fs p = open_file fs' p;
  sb_read_dir p : stored_beneath fs document_root p → read_dir fs p = read_dir fs' p;
  sb_read_link p n : stored_beneath fs document_root p → SLASH ∉ n → read_link fs (path_join p n) = read_link fs' (path_join p n);
}.
(** The kind, size and time of what the links beneath the root lead to
    outside of it. *)
Definition link_targets_agree (fs fs' : Fs) (document_root : bytes) : Prop :=
  ∀ p n q, stored_beneath fs document_root p → SLASH ∉ n → canonicalize fs (path_join p n) = Ok q → ¬ stored_beneath fs document_root q →
  metadata fs (path_join p n) = metadata fs' (path_join p n).
(** A canonical path is absolute and canonical, [metadata] is that of the
    canonical path, and a directory entry's name has no separator. *)
Record fs_ok (fs : Fs) : Prop := {
  fo_absolute p q : canonicalize fs p = Ok q → q ≠ [];
  fo_canonical p q : canonicalize fs p = Ok q → canonicalize fs q = Ok q;
  fo_follows p q : canonicalize fs p = Ok q → metadata fs p = metadata fs q;
  fo_broken p e : canonicalize fs p = Err e → ∃ e', metadata fs p = Err e';
  fo_names p items e : read_dir fs p = Ok items → Some e ∈ items → SLASH ∉ de_name e;
}.

Lemma path_starts_with_refl p : path_starts_with p p = true.
Proof. unfold path_starts_with. apply bool_decide_eq_true_2. by rewrite take_ge. Qed.

(** A lossy conversion introduces no separator. *)
Lemma lossy_no_slash s : SLASH ∉ s → SLASH ∉ from_utf8_lossy s.
Proof.
  unfold from_utf8_lossy. generalize (length s) as fuel. intros fuel. revert s.
  induction fuel as [|fuel IH]; intros [|a s] Hs; cbn [from_utf8_lossy_go]; try by apply not_elem_of_nil.
  destruct (utf8_step (a :: s)) as [[] n]; rewrite elem_of_app; intros [Hin|Hin].
  - apply Hs. rewrite <-(take_drop n (a :: s)). set_solver.
  - revert Hin. apply IH. intros Hd. apply Hs. rewrite <-(take_drop n (a :: s)). set_solver.
  - revert Hin. apply (bool_decide_unpack _). vm_compute. exact I.
  - revert Hin. apply IH. intros Hd. apply Hs. rewrite <-(take_drop n (a :: s)). set_solver.
Qed.
Lemma no_slash_relative s : SLASH ∉ s → has_root s = false.
Proof.
  intros Hs. unfold has_root. destruct (starts_with [SLASH] s) eqn:E; [|done]. apply starts_with_spec in E as [r ->]. set_solver.
Qed.

Section confined.
Context (civil : Z → DateTime) (to_lowercase : bytes → bytes).
Context {G Z' : Type} `{Compressor G} `{Compressor Z'}.
Context (fs fs' : Fs) (document_root root : bytes).
Hypothesis (same : same_beneath fs fs' document_root) (good : fs_ok fs) (good' : fs_ok fs') (Hroot : canonicalize fs document_root = Ok root).
Local Abbreviation stored := (stored_beneath fs document_root).

Lemma stored_intro p q : canonicalize fs p = Ok q → path_starts_with root q = true → stored q.
Proof. intros Hc Hs. exists root. split_and!; [done|exact (fo_canonical _ good _ _ Hc)|done]. Qed.
Lemma stored_absolute p : stored p → p ≠ [].
Proof. intros (r & _ & Hc & _). exact (fo_absolute _ good _ _ Hc). Qed.

(** What the metadata of an entry can be told apart by. *)
Lemma entry_metadata p n : link_targets_agree fs fs' document_root → stored p → SLASH ∉ n →
  match metadata fs (path_join p n) with Ok m => Some m | Err _ => None end = match metadata fs' (path_join p n) with Ok m => Some m | Err _ => None end.
Proof.
  intros Hlinks Hp Hn. destruct (canonicalize fs (path_join p n)) as [q|e] eqn:Ec.
  - destruct (path_starts_with root q) eqn:Es.
    + rewrite (fo_follows _ good _ _ Ec), (sb_metadata _ _ _ same q) by by eapply stored_intro.
      rewrite (sb_canonicalize _ _ _ same) in Ec. by rewrite <-(fo_follows _ good' _ _ Ec).
    + rewrite (Hlinks p n q); [done|done|done|done|]. intros (r & Hr & _ & Hs). congruence.
  - destruct (fo_broken _ good _ _ Ec) as [e1 ->]. rewrite (sb_canonicalize _ _ _ same) in Ec. by destruct (fo_broken _ good' _ _ Ec) as [e2 ->].
Qed.

Lemma scan_same p after size : link_targets_agree fs fs' document_root → stored p → scan_directory fs p after size = scan_directory fs' p after size.
Proof.
  intros Hlinks Hp. unfold scan_directory, scan_names. rewrite <-(sb_read_dir _ _ _ same p Hp).
  destruct (read_dir fs p) as [items|e] eqn:Ed; [|done]. cbn [mbind result_bind].
  assert (∀ e, Some e ∈ items → SLASH ∉ de_name e) as Hnames by (intros e; by apply (fo_names _ good p items)).
  assert (scan_entry fs p <$> omap id items = scan_entry fs' p <$> omap id items) as <-.
  { apply list_fmap_ext. intros i e He. apply list_elem_of_lookup_2, list_elem_of_omap in He as (o & Ho & [= ->]).
    unfold scan_entry. pose proof (entry_metadata p _ Hlinks Hp (Hnames e Ho)) as Hm.
    by destruct (metadata fs _), (metadata fs' _), (de_type e); simplify_eq. }
  set (names := merge_sort scanned_le _). do 2 f_equal. apply list_fmap_ext. intros i s Hs.
  assert (SLASH ∉ sc_name s) as Hsl.
  { assert (s ∈ names) as Hin.
    { unfold page_names in Hs. apply list_elem_of_lookup_2, elem_of_take in Hs as (k & Hs & _).
      rewrite lookup_drop in Hs. by eapply list_elem_of_lookup_2. }
    unfold names in Hin. rewrite sorting.merge_sort_Permutation in Hin. apply list_elem_of_fmap in Hin as (e & -> & He).
    apply list_elem_of_omap in He as (o & Ho & [= ->]). rewrite scan_entry_name. apply lossy_no_slash. by apply Hnames. }
  unfold list_entry. by rewrite (entry_metadata p _ Hlinks Hp Hsl), <-(sb_read_link _ _ _ same p _ Hp Hsl).
Qed.

Lemma serve_file_same h p md head_only : stored p →
  serve_file civil (G := G) (Z' := Z') fs h p md head_only = serve_file civil (G := G) (Z' := Z') fs' h p md head_only.
Proof. intros Hp. unfold serve_file. by rewrite <-(sb_open _ _ _ same p Hp). Qed.

Section listing.
Context (directory_listing : bool) (Hlinks : directory_listing = true → link_targets_agree fs fs' document_root).

Lemma serve_directory_same h head_only rp q p md : stored p →
  serve_directory civil to_lowercase (G := G) (Z' := Z') fs h head_only directory_listing rp q p md =
  serve_directory civil to_lowercase (G := G) (Z' := Z') fs' h head_only directory_listing rp q p md.
Proof.
  intros Hp. unfold serve_directory, serve_entry. destruct directory_listing; cbn [negb];
    [rewrite <-(scan_same p _ _ (Hlinks eq_refl) Hp)|]; by rewrite (serve_file_same h p md head_only Hp).
Qed.

Lemma serve_physical_same h head_only rp q index p : stored p →
  serve_physical civil to_lowercase (G := G) (Z' := Z') fs h head_only directory_listing root rp q index p =
  serve_physical civil to_lowercase (G := G) (Z' := Z') fs' h head_only directory_listing root rp q index p.
Proof.
  intros Hp. unfold serve_physical. rewrite <-(sb_metadata _ _ _ same p Hp).
  destruct (metadata fs p) as [md|[]]; try done. destruct (is_dir md); [|unfold serve_entry; by rewrite (serve_file_same h p md head_only Hp)].
  destruct (negb _); [done|].
  assert (index_of fs root p index = index_of fs' root p index ∧ ∀ c, index_of fs root p index = Some c → stored c) as [<- Hc].
  { unfold index_of. destruct index as [i|]; cbn [mbind option_bind]; [|done]. rewrite <-(sb_canonicalize _ _ _ same).
    destruct (canonicalize fs (path_join p i)) as [c|e] eqn:Ec; [|done]. destruct (path_starts_with root c) eqn:Es; [|done]. cbn [andb].
    pose proof (stored_intro _ _ Ec Es) as Hsc. rewrite <-(sb_metadata _ _ _ same c Hsc). split; [done|]. intros c'. destruct (metadata fs c) as [m|]; [|done].
    destruct (is_file m); [|done]. by intros [= <-]. }
  destruct (index_of fs root p index) as [c|]; [|by apply serve_directory_same].
  specialize (Hc c eq_refl). rewrite <-(sb_metadata _ _ _ same c Hc). destruct (metadata fs c); [|done].
  by apply serve_directory_same.
Qed.
End listing.
End confined.

(** C8: the document root confines the server.  Two file systems with the
    same names and links that agree on everything stored beneath the
    canonical document root answer every request of a site without listings
    identically, byte for byte, and of a site with listings too if the links
    beneath the root lead outside to things of the same kind, size and time:
    beyond which paths exist and resolve to where, these three are all that a
    response can tell of anything outside the root.  No contents, directory
    list or link text out there influences one, nor the metadata of anything
    no listed link leads to, whatever the request path, its encoding, the
    index name and the symbolic links are. *)
Theorem serve_confined (civil : Z → DateTime) (to_lowercase : bytes → bytes) {G Z' : Type} `{Compressor G} `{Compressor Z'}
  (fs fs' : Fs) (h : HttpHead) (prefix document_root : bytes) (index : option bytes) (directory_listing : bool) :
  same_beneath fs fs' document_root → fs_ok fs → fs_ok fs' →
  (directory_listing = true → link_targets_agree fs fs' document_root) →
  serve civil to_lowercase (G := G) (Z' := Z') fs h prefix document_root index directory_listing =
  serve civil to_lowercase (G := G) (Z' := Z') fs' h prefix document_root index directory_listing.
Proof.
  intros same good good' Hlinks. unfold serve. destruct (eqb_bytes (method h) _); [done|]. destruct (negb _ && _); [done|].
  rewrite <-(sb_canonicalize _ _ _ same). destruct (canonicalize fs document_root) as [root|e] eqn:Hroot; [|done].
  assert (stored_beneath fs document_root root) as Hst.
  { exists root. split_and!; [done|exact (fo_canonical _ good _ _ Hroot)|apply path_starts_with_refl]. }
  rewrite <-(sb_metadata _ _ _ same root Hst).
  destruct (negb (match metadata fs root with Ok m => is_dir m | Err _ => false end)); [done|].
  set (split := match split_once 63 (target h) with Some _ => _ | None => _ end). destruct split as [rp q].
  destruct (decode_path _) as [decoded|e]; [|done]. unfold canonical_beneath. rewrite <-(sb_canonicalize _ _ _ same).
  destruct (canonicalize fs (path_join root decoded)) as [p|[]] eqn:Hp; try done.
  destruct (path_starts_with root p) eqn:Hs; [|done]. apply serve_physical_same with document_root; try done.
  by eapply stored_intro.
Qed.

(** A site with a file and a link to a file outside the root, whose size and
    contents vary. *)
Module ConfinedExample.
Definition www : bytes := lit "/srv/www".
Definition page_path : bytes := lit "/srv/www/a.txt".
Definition link_path : bytes := lit "/srv/www/link".
Definition www_slash : bytes := lit "/srv/www/".
Definition outside : bytes := lit "/etc/passwd".
Definition fs (size : Z) (secret : bytes) : Fs := {|
  canonicalize := λ p, if bool_decide (p = link_path) then Ok outside
                       else if bool_decide (p = www_slash) then Ok www
                       else if bool_decide (p ∈ [www; page_path; outside]) then Ok p else Err NotFound;
  metadata := λ p, if bool_decide (p ∈ [www; www_slash]) then Ok (MkMetadata KDir 0 None)
                   else if bool_decide (p = page_path) then Ok StaticExample.page_md
                   else if bool_decide (p ∈ [link_path; outside]) then Ok (MkMetadata KFile size None) else Err NotFound;
  open_file := λ p, if bool_decide (p = page_path) then Ok StaticExample.open_page
                    else if bool_decide (p = outside) then Ok (λ _, [Seg secret]) else Err NotFound;
  read_dir := λ p, if bool_decide (p = www) then Ok [Some (MkEntry (lit "a.txt") EOther); Some (MkEntry (lit "link") ESymlink)] else Err NotFound;
  read_link := λ p, if bool_decide (p = link_path) then Some outside else None;
|}.
Abbreviation run fs target listing := (serve StaticExample.civil id (G := StaticExample.good_store) (Z' := StaticExample.good_store) fs
  (StaticExample.request (lit "GET " ++ target ++ lit " HTTP/1.1") []) (lit "/") www None listing).

Lemma fs_laws size secret : fs_ok (fs size secret).
Proof.
  split.
  - intros p q. cbn. repeat case_bool_decide; intros [= <-]; try done. intros ->. apply (not_elem_of_nil ([] : bytes)). set_solver.
  - intros p q. cbn. case_bool_decide as Hl; [intros [= <-]; reflexivity|]. case_bool_decide as Hw; [intros [= <-]; reflexivity|].
    case_bool_decide as Hi; intros [= <-]. by rewrite (bool_decide_eq_false_2 _ Hl), (bool_decide_eq_false_2 _ Hw), (bool_decide_eq_true_2 _ Hi).
  - intros p q. cbn. case_bool_decide as Hl; [by subst; intros [= <-]|].
    case_bool_decide as Hw; [by subst; intros [= <-]|]. by case_bool_decide; intros [= <-].
  - intros p e. cbn. case_bool_decide as Hl; [done|]. case_bool_decide as Hw; [done|]. case_bool_decide as Hi; [done|]. intros _.
    rewrite !bool_decide_eq_false_2; [by eexists|set_solver..].
  - intros p items e. cbn. case_bool_decide; [|done]. intros [= <-] He. rewrite !elem_of_cons, elem_of_nil in He.
    destruct He as [[= ->]|[[= ->]|[]]]; apply (bool_decide_unpack _); vm_compute; exact I.
Qed.

Lemma serve_confined_witness :
  run (fs 5 (lit "one")) (lit "/link") false = run (fs 9 (lit "another")) (lit "/link") false ∧
  answers (run (fs 5 (lit "one")) (lit "/link") false) (error_page 403 false).
Proof.
  split; [|exact (error_response_answers 403 false)]. apply serve_confined; [|apply fs_laws|apply fs_laws|discriminate].
  assert (∀ p, stored_beneath (fs 5 (lit "one")) www p → p ≠ outside ∧ p ≠ link_path) as Hin.
  { intros p (root & Hr & Hc & Hs). assert (root = www) as -> by (vm_compute in Hr; by simplify_eq). split; intros ->; [discriminate Hs|injection Hc; intros He]. apply (bool_decide_eq_true_2 _) in He. vm_compute in He. discriminate He. }
  split; [done| | |done|done]; intros p [Ho Hl]%Hin; cbn [metadata open_file fs].
  - by rewrite (bool_decide_eq_false_2 (p ∈ [link_path; outside])) by set_solver.
  - by rewrite (bool_decide_eq_false_2 (p = outside)).
Defined.

(** The exception is real: a listing shows the size of a link's target. *)
Example listing_shows_target_size : wire (run (fs 5 []) (lit "/") true (MkWriter [] [] None false)).2 ≠ wire (run (fs 9 []) (lit "/") true (MkWriter [] [] None false)).2.
Proof. intros H. apply (f_equal (λ l, bool_decide (l = wire (run (fs 9 []) (lit "/") true (MkWriter [] [] None false)).2))) in H. vm_compute in H. discriminate H. Qed.
End ConfinedExample.
