(* ===== verification/HttpPlane.v ===== *)
(** * The HTTP handler (src/dataplane/http/mod.rs)

    One request per connection: its head is admitted, routed by path
    (credentials, static files, a per-path backend pool), and otherwise
    forwarded to a backend, rewritten, with exactly the body its framing
    delimits, or as a tunnel once the upstream has switched protocols. *)

From S2P Require Import Prelude RustStd Net ProxyProtocol Stream TlsHeader HelloCache BindAddr HttpHead HttpPath HttpRewrite ChunkedBody BodyReader Config Accounting ActiveTracker RuntimeConfig Forward Relay Dataplane FilePath ErrorPages StaticFiles Listing StaticServe.
Open Scope Z_scope.

Inductive plane_error :=
| HeadError (e : http_error)
| LoopToken
| SniMismatch
| ClientIo (e : serve_error)
| SelfConnect
| UpstreamTls
| UpstreamWrite
| ClientWrite.

(** How a handled connection ended. *)
Inductive Ending := Answered | Tunnelled (o : RelayOutcome) | Relayed (o : RelayOutcome).

(** ** Redirects *)

Definition redirect_https_head (h : HttpHead) (config : option HttpRedirectConfig) (default_port : Z) : bytes :=
  let status := match config with Some c => redirect_status c | None => 308 end in
  let hostname := default (host h) (config ≫= redirect_hostname) in
  let port := default default_port (config ≫= redirect_port) in
  let authority := if contains COLON hostname then lit "[" ++ hostname ++ lit "]" else hostname in
  let port := if port =? 443 then [] else [COLON] ++ show_dec port in
  let location := lit "https://" ++ authority ++ port ++ target h in
  let reason := if status =? 301 then lit "Moved Permanently" else lit "Permanent Redirect" in
  head_of [lit "HTTP/1.1 " ++ show_dec status ++ lit " " ++ reason; lit "Location: " ++ location;
           content_length_line 0; connection_close].
Definition redirect_https (h : HttpHead) (config : option HttpRedirectConfig) (default_port : Z) : io () :=
  _ ← put (redirect_https_head h config default_port); close.

(** ** Upgrade responses *)

Definition MAX_RESPONSE_HEAD : Z := 64 * 1024.
Inductive response_error := ResponseTimedOut | ResponseReadFailed | ResponseClosed | ResponseTooLarge | ResponseOutOfFuel.

(** [windows(4).any(..)] *)
Fixpoint has_blank_line (s : bytes) : bool :=
  match s with
  | [] => false
  | _ :: r => starts_with (crlf ++ crlf) s || has_blank_line r
  end.

Section response.
Context {R : Type} `{AsyncReadOk R}.
Fixpoint read_response_head_loop (fuel : nat) (buffer : bytes) (upstream : R) : result response_error bytes * R :=
  match fuel with
  | O => (Err ResponseOutOfFuel, upstream)
  | Datatypes.S fuel =>
      match poll_read 4096 upstream with
      | (RDeadline, upstream) => (Err ResponseTimedOut, upstream)
      | (RErr, upstream) => (Err ResponseReadFailed, upstream)
      | (REof, upstream) => (Err ResponseClosed, upstream)
      | (RData d, upstream) =>
          let buffer := buffer ++ d in
          if has_blank_line buffer then (Ok buffer, upstream)
          else if MAX_RESPONSE_HEAD <? Z.of_nat (length buffer) then (Err ResponseTooLarge, upstream)
          else read_response_head_loop fuel buffer upstream
      end
  end.
Definition read_response_head (upstream : R) : result response_error bytes * R :=
  read_response_head_loop (Datatypes.S (rmeasure upstream)) [] upstream.
End response.

Definition response_status (head : bytes) : option Z :=
  first_line ← split_char LF head !! 0%nat;
  if negb (utf8_valid first_line) then None
  else if negb (starts_with (lit "HTTP/1.") first_line) then None
  else split_ascii_whitespace first_line !! 1%nat ≫= parse_u16.

(** ** The handler *)

Definition unauthorized_head (body : bytes) : bytes :=
  head_of [lit "HTTP/1.1 401 Unauthorized"; html "WWW-Authenticate: Basic realm=~tlsproxy~, charset=~UTF-8~";
           lit "Content-Type: text/html; charset=utf-8"; content_length_line (Z.of_nat (length body)); connection_close].

(** Everything decided about a request before its bytes start moving. *)
Record ForwardPlan := MkPlan {
  plan_head : HttpHead;
  plan_framing : BodyFraming;
  plan_scheme : bytes;
  plan_client_ip : IpAddr;
  plan_host_header : option bytes;
  plan_upstream_tls : bool;
  plan_tls_server_name : bytes;
}.

(** What path routing decided. *)
Inductive Routed := Finished | Proceed (route : option (bytes * HttpRouteAction)) (h : HttpHead).

Section http.
(** Name resolution and hashing, as in [Forward]. *)
Context (override : bytes → Z → option bytes) (lookup_host : bytes → option (list SocketAddr)) (hash : IpAddr → bytes → Z).
(** Static files: calendar, Unicode case mapping, compressors, file system. *)
Context (civil : Z → DateTime) (to_lowercase : bytes → bytes) {G Z' : Type} `{Compressor G} `{Compressor Z'} (fs : Fs).
(** The base64 and subtle crates; the interfaces and the process's own
    sockets; connecting. *)
Context (b64_decode : bytes → option bytes) (ct_eq : bytes → bytes → bool).
Context (get_if_addrs : option (list IfAddr)) (endpoints : SelfEndpoints).
Context (connect : bytes → option Upstream).
Context {S : Type} `{AsyncReadOk S}.
Local Abbreviation plane := (plane S plane_error).

Definition to_client {A} (m : io A) : plane A := λ p,
  match m (pl_out p) with
  | (Ok a, w) => (Ok a, set_out w p)
  | (Err e, w) => (Err (ClientIo e), set_out w p)
  end.

Definition supplied_credentials (h : HttpHead) : option bytes :=
  value ← authorization h;
  value ← match strip_prefix (lit "Basic ") value with Some v => Some v | None => strip_prefix (lit "basic ") value end;
  b64_decode (trim value).
Definition credentials_match (auth : HttpBasicAuth) (candidate : bytes) : bool :=
  existsb (λ user, let expected := username user ++ [COLON] ++ password user in
                   (length candidate =? length expected)%nat && ct_eq candidate expected) (users auth).
(** [Some]: the head to go on with. *)
Definition require_basic_auth (h : HttpHead) (auth : HttpBasicAuth) : plane (option HttpHead) :=
  if negb (auth_enabled auth) then mret (Some h)
  else if match supplied_credentials h with Some c => credentials_match auth c | None => false end
  then mret (Some (consume_authorization h))
  else
    let body := render 401 (lit "Unauthorized") (default_detail 401) in
    _ ← to_client (_ ← put (unauthorized_head body); _ ← put body; close);
    mret None.

Definition bad_gateway : plane Ending := _ ← to_client (error_response 502 false); mret Answered.
Definition bad_request : plane Ending := _ ← to_client (error_response 400 false); mret Answered.

(** [any] stops at the first token that is looped. *)
Fixpoint any_looped (now : Z) (tokens : list bytes) (c : Cache bytes) : bool * Cache bytes :=
  match tokens with
  | [] => (false, c)
  | t :: tokens =>
      let '(looped, c) := request_token_is_looped now t c in
      if looped then (true, c) else any_looped now tokens c
  end.
Definition same_host (sni host : bytes) : bool := eq_ignore_ascii_case (trim_end_char DOT sni) (trim_end_char DOT host).

Definition admit_request (now : Z) (h : HttpHead) (expected_sni : option bytes) : plane Z := λ p,
  let '(looped, tokens) := any_looped now (loop_tokens h) (pl_tokens p) in
  let p := set_caches (pl_hellos p) tokens p in
  if looped then (Err LoopToken, p)
  else if match expected_sni with Some sni => negb (same_host sni (host h)) | None => false end then (Err SniMismatch, p)
  else (_ ← report (TrackSni (host h)); mret (Z.of_nat (length (buffered h) - length (body_prefix h)))) p.

Definition route_request (route : option (bytes * HttpRouteAction)) (h : HttpHead) : plane Routed :=
  match route with
  | None => mret (Proceed None h)
  | Some (key, host_action) =>
      match select_path host_action (target h) with
      | Some path_route =>
          allowed ← require_basic_auth h (basic_auth path_route);
          match allowed with
          | None => mret Finished
          | Some h =>
              match path_action path_route with
              | PathStaticFiles document_root index directory_listing =>
                  _ ← to_client (serve civil to_lowercase (G := G) (Z' := Z') fs h (prefix path_route) document_root index directory_listing);
                  mret Finished
              | PathReverseProxy action =>
                  mret (Proceed (Some (key ++ [COLON] ++ prefix path_route, action))
                    (if strip_prefix_flag path_route then strip_path_prefix (prefix path_route) h else h))
              end
          end
      | None =>
          if negb (bool_decide (paths host_action = [])) && bool_decide (backends host_action = [])
             && bool_decide (ra_target host_action = None)
          then _ ← to_client (not_found (eqb_bytes (method h) (lit "HEAD"))); mret Finished
          else mret (Proceed (Some (key, host_action)) h)
      end
  end.

Definition select_backend (now seed : Z) (route : option (bytes * HttpRouteAction)) (h : HttpHead) (client_ip : IpAddr)
  (listener_name : bytes) (policy : RelayPolicy) : plane (result select_error (SelectedTarget * bool * option bytes)) := λ p,
  match route with
  | Some (route_key, action) =>
      let '(r, pools) := select_http_backend override lookup_host hash now seed route_key (host h) client_ip action (pl_pools p) in
      (Ok ((λ s, (s.1, s.2, host_header action)) <$> r), set_pools pools p)
  | None =>
      match http_listener_targets (rp_target policy) with
      | Some _ =>
          let '(r, pools) := choose_online hash seed listener_name client_ip RoundRobin (pl_pools p) in
          (Ok (s ← ok_or r NoBackend; Ok (s, rp_upstream_tls policy, None)), set_pools pools p)
      | None =>
          let '(r, pools) := select_runtime_target override lookup_host hash now (host h) (default (rp_target_port policy) (port h))
                               false (host h) (pl_pools p) in
          (Ok (s ← r; Ok (s, false, None)), set_pools pools p)
      end
  end.

Definition mint (now random : Z) : plane bytes := λ p,
  let '(token, tokens) := mint_request_token random now (pl_tokens p) in (Ok token, set_caches (pl_hellos p) tokens p).
Definition unread_client (b : bytes) : plane () := λ p, (Ok (), set_client (unread b (pl_client p)) p).

(** The head that is sent: the rewritten one without the body bytes. *)
Definition request_head (plan : ForwardPlan) (token : bytes) : bytes :=
  let rewritten := rewrite_for_proxy (plan_head plan) (plan_client_ip plan) (plan_scheme plan) (plan_host_header plan) token in
  take (length rewritten - length (body_prefix (plan_head plan))) rewritten.

(** An upgrade request waits for the response head, [Some] when the upstream
    gave one; it goes to the client as it is. *)
Definition upgrade_response (upstream_read : Source) : plane (option bytes * Source) :=
  match read_response_head upstream_read with
  | (Err _, upstream_read) => _ ← to_client (error_response 502 false); mret (None, upstream_read)
  | (Ok response_head, upstream_read) =>
      _ ← count_downloaded (Z.of_nat (length response_head));
      _ ← client_op (write_all response_head) ClientWrite;
      _ ← client_op flush ClientWrite;
      mret (Some response_head, upstream_read)
  end.

Definition framed_relay (env : RelayEnv) (initial : Z) (framing : BodyFraming) (upstream_read : Source) : plane Ending := λ p,
  (o ← plane_relay initial UpstreamWrite (λ cw uw,
         relay_keep_open env initial (body_reader framing (pl_client p)) cw upstream_read uw);
   mret (Relayed o)) p.
Definition tunnel_relay (env : RelayEnv) (initial : Z) (upstream_read : Source) : plane Ending := λ p,
  (o ← plane_relay initial UpstreamWrite (λ cw uw, relay env initial (pl_client p) cw upstream_read uw);
   mret (Tunnelled o)) p.

(** The head is written and flushed: a TLS session would keep it queued. *)
Definition send_head (head : bytes) : plane () :=
  _ ← upstream_op (write_all head) UpstreamWrite;
  upstream_op flush UpstreamWrite.
(** The second half of [exchange]: the request is written and answered. *)
Definition deliver (env : RelayEnv) (initial_uploaded : Z) (plan : ForwardPlan) (token : bytes)
  (upstream_read : Source) : plane Ending :=
  _ ← send_head (request_head plan token);
  if upgrade_requested (plan_head plan) then
    r ← upgrade_response upstream_read;
    match r with
    | (None, _) => mret Answered
    | (Some response_head, upstream_read) =>
        if bool_decide (response_status response_head = Some 101)
        then tunnel_relay env initial_uploaded upstream_read
        else framed_relay env initial_uploaded (plan_framing plan) upstream_read
    end
  else framed_relay env initial_uploaded (plan_framing plan) upstream_read.

Definition exchange (now random : Z) (env : RelayEnv) (initial_uploaded : Z) (upstream : Upstream)
  (plan : ForwardPlan) : plane Ending :=
  token ← mint now random;
  _ ← unread_client (body_prefix (plan_head plan));
  upstream_read ← (if plan_upstream_tls plan then connect_trust_all_tls now upstream (plan_tls_server_name plan) UpstreamTls
                   else mret (up_replies upstream));
  deliver env initial_uploaded plan token upstream_read.

(** [connect_backend] and the announcement, on a fresh socket. *)
Definition open_leg (endpoint : bytes) (pp : ProxyProtocol.ProxyProtocol) (remote loc : SocketAddr) : plane (option Upstream) := λ p,
  match connect endpoint with
  | None => (Ok None, p)
  | Some u =>
      let '(ok, w) := tcp_announce pp remote loc (fresh_socket (up_budget u)) in
      (Ok (if ok then Some u else None), set_leg (Some (MkLeg endpoint w None)) p)
  end.

(** From the framing to the end: the request is forwarded. *)
Definition forward_request (now seed random : Z) (env : RelayEnv) (name : bytes) (remote loc : SocketAddr)
  (policy : RelayPolicy) (client_tls : bool) (header_len : Z) (route : option (bytes * HttpRouteAction)) (h : HttpHead) : plane Ending :=
  match body_framing h with
  | Err _ => bad_request
  | Ok framing =>
      selected ← select_backend now seed route h (sa_ip remote) name policy;
      match selected with
      | Err _ => bad_gateway
      | Ok (selected, upstream_tls, host_header) =>
          _ ← report (TrackTarget (st_tls_server_name selected) (st_endpoint selected));
          if negb (reject_obvious_self_connect get_if_addrs lookup_host endpoints (rp_bind policy) (st_endpoint selected))
          then plane_fail SelfConnect
          else
            let pp := match route with Some (_, action) => ra_proxy_protocol action | None => ProxyProtocol.PNone end in
            upstream ← open_leg (st_endpoint selected) pp remote loc;
            match upstream with
            | None => bad_gateway
            | Some upstream =>
                _ ← report (TrackStatus StatusOk);
                exchange now random env header_len upstream
                  (MkPlan h framing (if client_tls then lit "https" else lit "http") (sa_ip remote) host_header upstream_tls
                     (st_tls_server_name selected))
            end
      end
  end.

Definition read_head : plane HttpHead := λ p,
  match read_http_head (pl_client p) DEFAULT_MAX_HTTP_HEADER_SIZE with
  | (Ok h, c) => (Ok h, set_client c p)
  | (Err e, c) => (Err (HeadError e), set_client c p)
  end.

Definition http_run (now seed random : Z) (env : RelayEnv) (name : bytes) (remote loc : SocketAddr)
  (policy : RelayPolicy) (inspected : option HttpHead) (route : option (bytes * HttpRouteAction)) (client_tls : bool)
  (expected_sni : option bytes) : plane Ending :=
  h ← match inspected with Some h => mret h | None => read_head end;
  header_len ← admit_request now h expected_sni;
  _ ← count_uploaded header_len;
  routed ← route_request route h;
  match routed with
  | Finished => mret Answered
  | Proceed route h => forward_request now seed random env name remote loc policy client_tls header_len route h
  end.

End http.
