(* ===== verification/HttpSafety.v ===== *)
(** * What the HTTP handler guarantees (src/dataplane/http/mod.rs)

    The upstream sees one request: the PROXY header of the route, the
    rewritten head of the first request, and the body its framing delimits;
    only an upstream that switched protocols gets more.  A protected path, as
    it is spelled, gives nothing without its credentials; a doubled slash
    can spell it otherwise. *)

From S2P Require Import Prelude RustStd Net ProxyProtocol Stream TlsHeader HelloCache BindAddr HttpHead HttpPath HttpRewrite ChunkedBody BodyReader Config Accounting ActiveTracker RuntimeConfig Forward ForwardProps ForwardSelect Relay Dataplane FilePath ErrorPages StaticFiles Listing StaticServe HttpPlane.
Open Scope Z_scope.

(** ** The head that is forwarded *)

(** An edited head can be rewritten and has the fields and the body bytes of
    the original. *)
Record edited (h h' : HttpHead) : Prop := {
  ed_ok : head_ok h';
  ed_body : body_prefix h' = body_prefix h;
  ed_fields : header_fields (head_bytes h') = header_fields (head_bytes h);
}.

Lemma selected_target_utf8 prefix t :
  path_prefix_matches prefix (nth 0 (split_chars [63; 35] t) t) = true → t ≠ [] → utf8_valid t = true →
  utf8_valid (new_target prefix t) = true.
Proof.
  intros Hm%path_prefix_matches_spec Hne Hu.
  assert (trim_end_char SLASH prefix = [] ∨ t = trim_end_char SLASH prefix ∨
    ∃ c rest, c < 128 ∧ t = trim_end_char SLASH prefix ++ c :: rest) as Hcases.
  { destruct (split_by_cases (λ x, existsb (Z.eqb x) [63; 35]) t) as [[_ E]|(a & c & b & Ht & _ & Hc & E)];
      unfold split_chars in Hm; rewrite E in Hm; cbn [nth] in Hm.
    - destruct Hm as [?|[?|[rest ?]]]; [by left|by right; left|]. right; right. by exists SLASH, rest.
    - assert (c < 128) by (cbn in Hc; rewrite !orb_true_iff, !Z.eqb_eq in Hc; destruct Hc as [?|[?|?]]; [lia|lia|done]).
      destruct Hm as [?|[<-|[rest ->]]]; [by left|right; right; by exists c, b|].
      right; right. exists SLASH, (rest ++ c :: b). split; [done|]. by rewrite Ht, <-app_assoc. }
  unfold new_target. destruct Hcases as [->|[<-|(c & rest & Hc & ->)]].
  - cbn. by destruct t.
  - pose proof (strip_prefix_app t []) as E. rewrite app_nil_r in E. by rewrite E.
  - rewrite strip_prefix_app. cbn. apply utf8_valid_ascii_split in Hu as [_ Hr]; [|done]. by rewrite utf8_valid_ascii_cons.
Qed.

Lemma parse_head_valid buf n r : parse_head buf n = r → r ≠ Err HttpHead.NotUtf8 → utf8_valid (take n buf) = true.
Proof. intros <-. unfold parse_head. by destruct (utf8_valid (take n buf)). Qed.

Section parsed.
Context (buf : bytes) (n : nat) (h : HttpHead).
Hypothesis Hend : find_head_end buf = Some n.
Hypothesis Hparse : parse_head buf n = Ok h.

Lemma edited_same : edited h h.
Proof. split; [by eapply parse_head_ok|done|done]. Qed.

Lemma edited_strip prefix :
  path_prefix_matches prefix (nth 0 (split_chars [63; 35] (target h)) (target h)) = true → edited h (strip_path_prefix prefix h).
Proof.
  intros Hm. destruct (parse_head_target buf n h Hparse Hend) as [Htt Htu].
  destruct (strip_path_prefix_reparse prefix buf n h Hend Hparse) as (H1 & H2 & H3 & H4).
  - apply selected_target_utf8; [done|by destruct Htt|done].
  - by apply new_target_token.
  - split; [|done|done]. split_and!; [done| |].
    + eapply parse_head_valid; [exact H4|]. by destruct (starts_with _ _).
    + destruct (edited_same) as [(_ & _ & Hlf) _ _]. revert Hlf. unfold strip_path_prefix. by repeat case_match.
Qed.
End parsed.

Lemma strip_consume prefix h : strip_path_prefix prefix (consume_authorization h) = consume_authorization (strip_path_prefix prefix h).
Proof.
  unfold strip_path_prefix, head_bytes. cbn [consume_authorization buffered head_len target method host port host_raw authorization loop_tokens].
  destruct (find_char LF _); [|done]. by destruct (_ <? _)%nat.
Qed.
Lemma edited_consume h h' : edited h h' → edited h (consume_authorization h').
Proof. intros [? ? ?]. by split. Qed.

(** ** What reaches the upstream *)

Section sent.
Context {S : Type} `{AsyncReadOk S}.
Local Abbreviation plane := (plane S plane_error).
Implicit Types p : Plane S.

Lemma to_client_inv {A} (m : io A) p r p' : to_client m p = (r, p') → p' = set_out (m (pl_out p)).2 p.
Proof. unfold to_client. destruct (m (pl_out p)) as [[a|e] w]; by intros [= _ <-]. Qed.

Lemma framed_relay_sent env initial f u p l r p' :
  pl_leg p = Some l → queued (leg_writer l) = [] → queued (pl_out p) = [] → 0 ≤ initial ≤ u64_max →
  framed_relay env initial f u p = (r, p') →
  ∃ o w, r = Ok (Relayed o) ∧ pl_leg p' = Some (set_leg_writer w l) ∧
    accepted w `prefix_of` accepted (leg_writer l) ++ framed f (contents (pl_client p)) ∧
    (upload_whole o = true → budget (leg_writer l) = None →
       w = MkWriter [] (accepted (leg_writer l) ++ framed f (contents (pl_client p))) None (closed (leg_writer l))).
Proof.
  intros Hl Hq Hqo Hi Hr. unfold framed_relay in Hr. set (run := λ cw uw, _) in Hr.
  plane_step Hr; [by destruct (plane_relay_inv _ _ _ _ _ _ _ Hl E)|].
  destruct (plane_relay_inv _ _ _ _ _ _ _ Hl E) as ([= ->] & _ & Hleg & _). injection Hr as <- <-.
  destruct (relay_to_carried keep_write_open id flush_accepted keep_write_open_unbounded env initial (body_reader f (pl_client p)) (pl_out p) u
    (leg_writer l) Hqo Hq Hi) as [[[D [HD Ha]] Hw _] _]. rewrite body_reader_contents in *.
  assert (accepted (leg_writer l) = wire (leg_writer l)) as -> by (unfold accepted; by rewrite Hq, app_nil_r).
  eexists _, _. split_and!; [reflexivity|exact Hleg| |].
  - unfold run, relay_keep_open. rewrite Ha. by apply prefix_app.
  - cbn [upload_whole]. intros Hf Hb. by destruct (Hw Hf Hb).
Qed.

Lemma upgrade_response_leg u p r p' : upgrade_response u p = (r, p') → pl_leg p' = pl_leg p ∧ pl_client p' = pl_client p.
Proof.
  unfold upgrade_response. destruct (read_response_head u) as [[resp|e] u'].
  - unfold mbind, plane_bind, count_downloaded, client_op.
    destruct (write_all _ _) as [[] w]; [|by intros [= _ <-]]. destruct (flush _) as [[] w']; by intros [= _ <-].
  - intros Hr. plane_step Hr; [apply to_client_inv in E as ->; done|]. injection Hr as _ <-. by apply to_client_inv in E as ->.
Qed.
Lemma upgrade_response_head u p resp u' p' :
  upgrade_response u p = (Ok (Some resp, u'), p') → read_response_head u = (Ok resp, u').
Proof.
  unfold upgrade_response. destruct (read_response_head u) as [[resp0|e] u0].
  - unfold mbind, plane_bind, count_downloaded, client_op.
    destruct (write_all _ _) as [[] w]; [|done]. destruct (flush _) as [[] w']; by intros [= <- <- _].
  - intros Hr. by plane_step Hr.
Qed.

Lemma send_head_sent req p l r p' :
  pl_leg p = Some l → send_head req p = (r, p') →
  ∃ w, p' = set_leg (Some (set_leg_writer w l)) p ∧ accepted w `prefix_of` accepted (leg_writer l) ++ req ∧
    (is_ok r = true → accepted w = accepted (leg_writer l) ++ req ∧ queued w = [] ∧ closed w = closed (leg_writer l) ∧
       (budget (leg_writer l) = None → budget w = None)).
Proof.
  intros Hl Hr. unfold send_head in Hr. pose proof (write_all_accepted req (leg_writer l)) as Ha1.
  plane_step Hr.
  { apply (upstream_op_inv _ _ _ _ _ _ Hl) in E as [-> He]. eexists. split_and!; [reflexivity| |done].
    rewrite Ha1. destruct (write_all req (leg_writer l)).1; [done|]. rewrite app_nil_r. by apply prefix_app_r. }
  apply (upstream_op_inv _ _ _ _ _ _ Hl) in E as [-> He1]. pose proof (write_all_closed req (leg_writer l)) as Hc1.
  assert (budget (leg_writer l) = None → budget (write_all req (leg_writer l)).2 = None) as Hb1 by (unfold write_all; by intros ->).
  destruct (write_all req (leg_writer l)) as [[] w1]; [|done]. cbn [fst snd] in *.
  eapply upstream_op_inv in Hr as [-> ->]; [|done]. rewrite leg_writer_set, set_leg_writer_twice.
  pose proof (flush_accepted w1) as Ha2. exists (flush w1).2. split_and!; [done|by rewrite Ha2, Ha1|].
  intros Hok. rewrite Ha2, Ha1. unfold flush in *. destruct (spend (budget w1)) as [b|] eqn:Eb; [|done].
  split_and!; [done|done|done|]. intros Hn. rewrite (Hb1 Hn) in Eb. by injection Eb as <-.
Qed.

Lemma tunnel_relay_sent env initial u p l r p' :
  pl_leg p = Some l → queued (leg_writer l) = [] → queued (pl_out p) = [] → 0 ≤ initial ≤ u64_max →
  tunnel_relay env initial u p = (r, p') →
  ∃ o w, r = Ok (Tunnelled o) ∧ pl_leg p' = Some (set_leg_writer w l) ∧
    accepted w `prefix_of` accepted (leg_writer l) ++ contents (pl_client p) ∧
    (upload_whole o = true → budget (leg_writer l) = None → w = MkWriter [] (accepted (leg_writer l) ++ contents (pl_client p)) None true).
Proof.
  intros Hl Hq Hqo Hi Hr. unfold tunnel_relay in Hr. set (run := λ cw uw, _) in Hr.
  plane_step Hr; [by destruct (plane_relay_inv _ _ _ _ _ _ _ Hl E)|].
  destruct (plane_relay_inv _ _ _ _ _ _ _ Hl E) as ([= ->] & _ & Hleg & _). injection Hr as <- <-.
  destruct (relay_to_carried shutdown (λ _, true) shutdown_accepted shutdown_unbounded env initial (pl_client p) (pl_out p) u
    (leg_writer l) Hqo Hq Hi) as [[[D [HD Ha]] Hw _] _].
  assert (accepted (leg_writer l) = wire (leg_writer l)) as -> by (unfold accepted; by rewrite Hq, app_nil_r).
  eexists _, _. split_and!; [reflexivity|exact Hleg| |].
  - unfold run, relay. rewrite Ha. by apply prefix_app.
  - cbn [upload_whole]. intros Hf Hb. by destruct (Hw Hf Hb).
Qed.

(** What of the client's bytes after the head goes upstream: the body the
    framing delimits, or everything once the protocols were switched. *)
Definition onward (r : result plane_error Ending) (framing : BodyFraming) (client : bytes) : bytes :=
  match r with Ok (Tunnelled _) => client | _ => framed framing client end.
(** The relay ran and its upload ended by itself. *)
Definition uploaded_whole (r : result plane_error Ending) : bool :=
  match r with Ok (Tunnelled o) | Ok (Relayed o) => upload_whole o | _ => false end.
Definition is_tunnel (r : result plane_error Ending) : bool := match r with Ok (Tunnelled _) => true | _ => false end.

(** [deliver] on a connection [l]: what it has accepted afterwards. *)
Record delivered (plan : ForwardPlan) (token : bytes) (u : Source) (client : bytes) (l : Leg) (r : result plane_error Ending) (w : Writer) : Prop := {
  dl_prefix : accepted w `prefix_of` accepted (leg_writer l) ++ request_head plan token ++ onward r (plan_framing plan) client;
  dl_all : uploaded_whole r = true → budget (leg_writer l) = None →
    w = MkWriter [] (accepted (leg_writer l) ++ request_head plan token ++ onward r (plan_framing plan) client) None (is_tunnel r || closed (leg_writer l));
  dl_tunnel : is_tunnel r = true → upgrade_requested (plan_head plan) = true ∧
    ∃ resp u', read_response_head u = (Ok resp, u') ∧ response_status resp = Some 101;
}.

Lemma upgrade_response_out u p resp u' p' :
  upgrade_response u p = (Ok (Some resp, u'), p') → queued (pl_out p') = [].
Proof.
  unfold upgrade_response. destruct (read_response_head u) as [[resp0|e] u0].
  - unfold mbind, plane_bind, count_downloaded, client_op.
    destruct (write_all _ _) as [[] w]; [|done]. destruct (flush w) as [[] w'] eqn:Ef; [|cbn; rewrite Ef; done]. cbn. rewrite Ef. intros [= _ _ <-]. cbn.
    unfold flush in Ef. destruct (spend _); [|done]. by injection Ef as <-.
  - intros Hr. by plane_step Hr.
Qed.

Lemma deliver_sent env initial plan token u p l r p' :
  pl_leg p = Some l → queued (pl_out p) = [] → 0 ≤ initial ≤ u64_max →
  deliver env initial plan token u p = (r, p') →
  ∃ w, pl_leg p' = Some (set_leg_writer w l) ∧ delivered plan token u (contents (pl_client p)) l r w.
Proof.
  intros Hl Hqo Hi Hr. unfold deliver in Hr. set (req := request_head plan token) in *. set (client := contents (pl_client p)).
  assert (∀ r3 w, is_tunnel r3 = false → uploaded_whole r3 = false → accepted w `prefix_of` accepted (leg_writer l) ++ req →
    delivered plan token u client l r3 w) as Hheld.
  { intros r3 w Ht Hre Hp. split; [|congruence|congruence]. fold req. rewrite app_assoc. by apply prefix_app_r. }
  plane_step Hr.
  { destruct (send_head_sent _ _ _ _ _ Hl E) as (w & -> & Hp & _). exists w. split; [done|]. by apply Hheld. }
  destruct (send_head_sent _ _ _ _ _ Hl E) as (w & -> & _ & Ha & Hq & Hc & Hb); [done|]. clear E.
  set (p2 := set_leg (Some (set_leg_writer w l)) p) in *.
  assert (∀ p3 u3 r3 p4, pl_leg p3 = pl_leg p2 → pl_client p3 = pl_client p → queued (pl_out p3) = [] →
    framed_relay env initial (plan_framing plan) u3 p3 = (r3, p4) →
    ∃ w, pl_leg p4 = Some (set_leg_writer w l) ∧ delivered plan token u client l r3 w) as Hframed.
  { intros p3 u3 r3 p4 Hl3 Hcl3 Hq3 Hr3.
    destruct (framed_relay_sent env initial (plan_framing plan) u3 p3 (set_leg_writer w l) r3 p4) as (o & w' & -> & Hw & Hp & Hn);
      [done|by rewrite leg_writer_set|done|done|done|]. rewrite leg_writer_set, set_leg_writer_twice, Ha, Hcl3, <-app_assoc in *.
    exists w'. split; [done|]. split; [done| |done]. cbn [uploaded_whole is_tunnel orb]. intros Ho Hbl. rewrite <-Hc. auto. }
  destruct (upgrade_requested (plan_head plan)) eqn:Eup; [|by apply (Hframed p2 u r p')].
  plane_step Hr; destruct (upgrade_response_leg _ _ _ _ E) as [Hl3 Hcl3].
  { exists w. rewrite Hl3. split; [done|]. apply Hheld; [done|done|by rewrite Ha]. }
  match goal with E : upgrade_response _ _ = (Ok ?a, ?p3) |- _ => destruct a as [[resp|] u'];
    [pose proof (upgrade_response_out _ _ _ _ _ E) as Hq3; apply upgrade_response_head in E; set (q := p3) in *
    |injection Hr as <- <-; exists w; rewrite Hl3; split; [done|]; apply Hheld; [done|done|by rewrite Ha]] end.
  case_bool_decide as Hst; [|by apply (Hframed q u' r p')].
  destruct (tunnel_relay_sent env initial u' q (set_leg_writer w l) r p') as (o & w' & -> & Hw & Hp & Hn);
    [done|by rewrite leg_writer_set|done|done|done|]. rewrite leg_writer_set, set_leg_writer_twice, Ha, Hcl3, <-app_assoc in *.
  exists w'. split; [done|]. split; [done|cbn [uploaded_whole is_tunnel orb]; auto|]. intros _. split; [done|]. by exists resp, u'.
Qed.

(** The direction that carries HTTP: the session with a TLS upstream, the
    socket otherwise; and what the upstream says in it. *)
Definition plaintext (tls : bool) (l : Leg) : Writer :=
  if tls then match leg_session l with Some (_, w) => w | None => fresh_socket None end else leg_socket l.
Definition replies_of (u : Upstream) (tls : bool) (server : bytes) : Source :=
  if tls then match hs_session (up_handshake u server) with Some (_, replies) => replies | None => [] end else up_replies u.
(** The upstream takes everything it is sent. *)
Definition unlimited (u : Upstream) : Prop :=
  up_budget u = None ∧ ∀ name b replies, hs_session (up_handshake u name) = Some (b, replies) → b = None.

(** What [exchange] leaves of a socket that has accepted [announced]. *)
Record exchanged (plan : ForwardPlan) (token : bytes) (u : Upstream) (announced client : bytes) (r : result plane_error Ending) (l : Leg) : Prop := {
  ex_prefix : accepted (plaintext (plan_upstream_tls plan) l) `prefix_of`
    (if plan_upstream_tls plan then [] else announced) ++ request_head plan token ++ onward r (plan_framing plan) client;
  ex_all : uploaded_whole r = true → unlimited u → plaintext (plan_upstream_tls plan) l =
    MkWriter [] ((if plan_upstream_tls plan then [] else announced) ++ request_head plan token ++ onward r (plan_framing plan) client) None (is_tunnel r);
  ex_tunnel : is_tunnel r = true → upgrade_requested (plan_head plan) = true ∧
    ∃ resp rest, read_response_head (replies_of u (plan_upstream_tls plan) (plan_tls_server_name plan)) = (Ok resp, rest) ∧ response_status resp = Some 101;
  ex_socket : plan_upstream_tls plan = true → (accepted (leg_socket l) = [] ∧ leg_session l = None) ∨
    accepted (leg_socket l) = announced ++ concat (hs_written (up_handshake u (plan_tls_server_name plan)));
}.

Lemma connect_tls_inv now u name p l r p' :
  pl_leg p = Some l → connect_trust_all_tls now u name UpstreamTls p = (r, p') → pl_client p' = pl_client p ∧
  pl_out p' = pl_out p ∧
  ∃ l', pl_leg p' = Some l' ∧ leg_endpoint l' = leg_endpoint l ∧
    (queued (leg_socket l) = [] → accepted (leg_socket l') = accepted (leg_socket l) ++ concat (hs_written (up_handshake u name))) ∧
    match r with
    | Ok replies => ∃ b, hs_session (up_handshake u name) = Some (b, replies) ∧ leg_session l' = Some (name, fresh_socket b)
    | Err _ => leg_session l' = None
    end.
Proof.
  unfold connect_trust_all_tls. intros ->. destruct (hs_session (up_handshake u name)) as [[b replies]|]; intros [= <- <-];
    (split_and!; [done|done|]); eexists; (split_and!; [reflexivity|done| |]); [|by exists b| |done];
    intros Hq; unfold accepted; cbn; rewrite Hq; by rewrite !app_nil_r.
Qed.

Lemma exchange_sent now random env initial u plan p e w r p' :
  pl_leg p = Some (MkLeg e w None) → queued w = [] → queued (pl_out p) = [] →
  (unlimited u → budget w = None) → closed w = false → 0 ≤ initial ≤ u64_max →
  exchange now random env initial u plan p = (r, p') →
  ∃ l, pl_leg p' = Some l ∧ leg_endpoint l = e ∧
    exchanged plan (pad32 (show_hex random)) u (accepted w) (body_prefix (plan_head plan) ++ contents (pl_client p)) r l.
Proof.
  intros Hl Hqw Hqo Hbw Hcw Hi Hr. unfold exchange in Hr. unfold mbind, plane_bind in Hr. cbn [mint mint_request_token unread_client] in Hr.
  fold (plane_bind (S := S) (E := plane_error)) in Hr. set (p1 := set_client _ _) in Hr.
  assert (contents (pl_client p1) = body_prefix (plan_head plan) ++ contents (pl_client p)) as <- by apply contents_unread.
  assert (pl_leg p1 = Some (MkLeg e w None)) as Hl1 by done. assert (queued (pl_out p1) = []) as Hqo1 by done. clearbody p1. set (token := pad32 _) in *.
  destruct (plan_upstream_tls plan) eqn:Etls.
  - destruct (connect_trust_all_tls _ _ _ _ p1) as [[replies|err] p2] eqn:Ec;
      destruct (connect_tls_inv _ _ _ _ _ _ _ Hl1 Ec) as (Hcl & Ho & l & Hl2 & He & Hsock & Hs); cbn [leg_endpoint] in He;
      specialize (Hsock Hqw); cbn [leg_socket] in Hsock.
    + destruct Hs as (b & Hsess & Hs). destruct (deliver_sent _ _ _ _ _ _ _ _ _ Hl2 ltac:(by rewrite Ho) Hi Hr) as (w' & Hl3 & [Hp Ha Ht]).
      assert (leg_writer l = fresh_socket b) as Hw by (unfold leg_writer; by rewrite Hs). rewrite Hw, Hcl in *.
      exists (set_leg_writer w' l). unfold set_leg_writer in *. rewrite Hs in *. split_and!; [done|done|].
      split; unfold plaintext, replies_of; rewrite ?Etls, ?Hsess; cbn [leg_session leg_socket]; [exact Hp| |exact Ht|by right].
      intros Hr' [_ Hb]. rewrite (Ha Hr' (Hb _ _ _ Hsess)). cbn [closed fresh_socket]. by rewrite orb_false_r.
    + injection Hr as <- <-. exists l. split_and!; [done|done|]. split; [|done|done|intros _; by right].
      unfold plaintext. rewrite Etls, Hs. apply prefix_nil.
  - cbn in Hr. destruct (deliver_sent _ _ _ _ _ _ _ _ _ Hl1 Hqo1 Hi Hr) as (w' & Hl3 & [Hp Ha Ht]).
    exists (MkLeg e w' None). split_and!; [done|done|]. unfold leg_writer in *. cbn [leg_session leg_socket] in *.
    split; unfold plaintext, replies_of; rewrite ?Etls; cbn [leg_socket]; [exact Hp| |exact Ht|done].
    intros Hr' Hu. rewrite (Ha Hr' (Hbw Hu)), Hcw. by rewrite orb_false_r.
Qed.
End sent.

(** ** One request *)

(** The route path routing goes on with. *)
Definition refines (h : HttpHead) (route route' : option (bytes * HttpRouteAction)) : Prop :=
  route' = route ∨ ∃ key a pr action, route = Some (key, a) ∧ select_path a (target h) = Some pr ∧
    path_action pr = PathReverseProxy action ∧ route' = Some (key ++ [COLON] ++ prefix pr, action).
Definition route_proxy_protocol (route : option (bytes * HttpRouteAction)) : ProxyProtocol.ProxyProtocol :=
  match route with Some (_, action) => ra_proxy_protocol action | None => ProxyProtocol.PNone end.
(** No configured upstream Host contains a line feed. *)
Definition one_line (host : option bytes) : Prop := match host with Some u => LF ∉ u | None => True end.
Definition hosts_ok (route : option (bytes * HttpRouteAction)) : Prop :=
  match route with
  | None => True
  | Some (_, a) => one_line (host_header a) ∧
      ∀ pr action, pr ∈ paths a → path_action pr = PathReverseProxy action → one_line (host_header action)
  end.

Lemma read_inner_parsed {S : Type} `{AsyncReadOk S} fuel max_size buf (reader : S) h reader' :
  read_http_head_inner fuel max_size buf reader = (Ok h, reader') →
  find_head_end (buffered h) = Some (head_len h) ∧ parse_head (buffered h) (head_len h) = Ok h.
Proof.
  revert buf reader. induction fuel as [|fuel IH]; intros buf reader; cbn [read_http_head_inner]; [done|].
  destruct (find_head_end buf) as [n|] eqn:En.
  - intros [= Hp _]. destruct (parse_head_inv buf n h Hp) as (_ & _ & acc & _ & _ & _ & Heq). by rewrite Heq in *.
  - destruct (_ <=? _); [done|]. destruct (poll_read _ reader) as [[d| | |] rd]; try done. apply IH.
Qed.

Lemma select_path_covers a t pr : select_path a t = Some pr → pr ∈ paths a ∧ path_prefix_matches (prefix pr) (nth 0 (split_chars [63; 35] t) t) = true.
Proof. unfold select_path. intros E. by apply max_by_key_filter in E as (Hin & Hm & _). Qed.

Section run.
Context (override : bytes → Z → option bytes) (lookup_host : bytes → option (list SocketAddr)) (hash : IpAddr → bytes → Z).
Context (civil : Z → DateTime) (to_lowercase : bytes → bytes) {G Z' : Type} `{Compressor G} `{Compressor Z'} (fs : Fs).
Context (b64_decode : bytes → option bytes) (ct_eq : bytes → bytes → bool).
Context (get_if_addrs : option (list IfAddr)) (endpoints : SelfEndpoints) (connect : bytes → option Upstream).
Context {S : Type} `{AsyncReadOk S}.
Implicit Types p : Plane S.
Local Abbreviation run := (http_run override lookup_host hash civil to_lowercase (G := G) (Z' := Z') fs b64_decode ct_eq get_if_addrs endpoints connect).
Local Abbreviation forward := (forward_request override lookup_host hash get_if_addrs endpoints connect).
Local Abbreviation routing := (route_request civil to_lowercase (G := G) (Z' := Z') fs b64_decode ct_eq).

Lemma require_basic_auth_inv h auth p r p' :
  require_basic_auth b64_decode ct_eq h auth p = (r, p') →
  pl_leg p' = pl_leg p ∧
  ∀ h', r = Ok (Some h') → p' = p ∧ (h' = h ∨ h' = consume_authorization h).
Proof.
  unfold require_basic_auth. destruct (negb (auth_enabled auth)); [intros [= <- <-]; split; [done|]; intros h' [= <-]; auto|].
  case_match; [intros [= <- <-]; split; [done|]; intros h' [= <-]; auto|].
  intros Hr. plane_step Hr; apply to_client_inv in E as ->; [done|]. by injection Hr as <- <-.
Qed.

Lemma route_request_inv route h p r p' :
  routing route h p = (r, p') →
  pl_leg p' = pl_leg p ∧
  ∀ route' h', r = Ok (Proceed route' h') → p' = p ∧ refines h route route' ∧ (hosts_ok route → match route' with Some (_, a) => one_line (host_header a) | None => True end) ∧
    (find_head_end (buffered h) = Some (head_len h) → parse_head (buffered h) (head_len h) = Ok h → edited h h').
Proof.
  intros Hr. destruct route as [[key a]|]; cbn [route_request] in Hr.
  2: { injection Hr as <- <-. split; [done|]. intros route' h' [= <- <-]. split_and!; [done|by left|done|]. apply edited_same. }
  destruct (select_path a (target h)) as [pr|] eqn:Esel.
  - plane_step Hr; destruct (require_basic_auth_inv _ _ _ _ _ E) as [Hleg Hgo]; [done|]. clear E.
    match goal with H : context [Ok ?x = Ok (Some _)] |- _ => destruct x as [h1|] end; [|by injection Hr as <- <-].
    destruct (Hgo h1 eq_refl) as [-> Hh1]. destruct (path_action pr) as [action|root index dl] eqn:Eact.
    2: { plane_step Hr; apply to_client_inv in E as ->; [done|]. by injection Hr as <- <-. }
    injection Hr as <- <-. split; [done|]. intros route' h' [= <- <-]. destruct (select_path_covers _ _ _ Esel) as [Hin Hm].
    split_and!; [done|by right; eauto 9|intros [_ Hh]; by eapply Hh|]. intros Hend Hp.
    assert (edited h h1 ∧ edited h (strip_path_prefix (prefix pr) h1)) as [? ?]; [|by destruct (strip_prefix_flag pr)].
    pose proof (edited_same _ _ _ Hend Hp). pose proof (edited_strip _ _ _ Hend Hp _ Hm).
    destruct Hh1 as [->| ->]; [done|]. rewrite strip_consume. auto using edited_consume.
  - destruct (_ && _).
    + plane_step Hr; apply to_client_inv in E as ->; [done|]. by injection Hr as <- <-.
    + injection Hr as <- <-. split; [done|]. intros route' h' [= <- <-]. split_and!; [done|by left|by intros [? _]|]. apply edited_same.
Qed.

Lemma admit_inv now h sni p r p' :
  admit_request now h sni p = (r, p') → pl_leg p' = pl_leg p ∧ pl_client p' = pl_client p ∧ pl_out p' = pl_out p ∧
  ∀ n, r = Ok n → n = Z.of_nat (length (buffered h) - length (body_prefix h)).
Proof.
  unfold admit_request. destruct (any_looped _ _ _) as [[] tokens]; [by intros [= <- <-]|].
  case_match; intros [= <- <-]; [done|]. split_and!; [done|done|done|]. by intros n [= <-].
Qed.

Lemma select_backend_inv now seed route h ip name policy p r p' :
  select_backend override lookup_host hash now seed route h ip name policy p = (r, p') →
  pl_leg p' = pl_leg p ∧ pl_client p' = pl_client p ∧ pl_out p' = pl_out p ∧
  ∃ sel, r = Ok sel ∧ ∀ s tls host, sel = Ok (s, tls, host) → host = None ∨ ∃ key a, route = Some (key, a) ∧ host = host_header a.
Proof.
  unfold select_backend. destruct route as [[key a]|].
  - destruct (select_http_backend _ _ _ _ _ _ _ _ _ _) as [[[s tls]|e] pools]; intros [= <- <-]; (split_and!; [done|done|done|]);
      eexists; (split; [reflexivity|]); [|done]. intros s' tls' host [= _ _ <-]. right. eauto.
  - destruct (http_listener_targets _).
    + destruct (choose_online _ _ _ _ _ _) as [[s|] pools]; intros [= <- <-]; (split_and!; [done|done|done|]);
        eexists; (split; [reflexivity|]); [|done]. intros s' tls' host [= _ _ <-]. by left.
    + destruct (select_runtime_target _ _ _ _ _ _ _ _ _) as [[s|e] pools]; intros [= <- <-]; (split_and!; [done|done|done|]);
        eexists; (split; [reflexivity|]); [|done]. intros s' tls' host [= _ _ <-]. by left.
Qed.

Lemma page_leg status p r p' :
  (_ ← to_client (error_response status false); mret Answered) p = (r, p') → pl_leg p' = pl_leg p ∧ is_tunnel r = false ∧ uploaded_whole r = false.
Proof. intros Hr. plane_step Hr; apply to_client_inv in E as ->; [done|]. by injection Hr as <- <-. Qed.

(** What the forwarded part does to the upstream, for a head [h]. *)
Lemma forward_request_sent now seed random env name remote loc policy client_tls len route h p r p' leg :
  pl_leg p = None → queued (pl_out p) = [] → 0 ≤ len ≤ u64_max →
  forward now seed random env name remote loc policy client_tls len route h p = (r, p') → pl_leg p' = Some leg →
  ∃ framing host tls u, body_framing h = Ok framing ∧ connect (leg_endpoint leg) = Some u ∧
    (host = None ∨ ∃ key a, route = Some (key, a) ∧ host = host_header a) ∧
    ∃ server, exchanged (MkPlan h framing (if client_tls then lit "https" else lit "http") (sa_ip remote) host tls server)
      (pad32 (show_hex random)) u (ProxyProtocol.header (route_proxy_protocol route) remote loc) (body_prefix h ++ contents (pl_client p)) r leg.
Proof.
  intros Hnone Hqo Hlen Hr Hleg. unfold forward_request in Hr.
  destruct (body_framing h) as [framing|e] eqn:Efr; [|apply page_leg in Hr as (Hl & _); congruence].
  plane_step Hr; destruct (select_backend_inv _ _ _ _ _ _ _ _ _ _ E) as (Hl1 & Hc1 & Ho1 & sel & Hsel & Hhost); [done|].
  injection Hsel as ->. clear E. set (p1 := x0) in *. destruct sel as [[[s tls] host]|e];
    [|apply page_leg in Hr as (Hl & _); congruence]. specialize (Hhost _ _ _ eq_refl).
  unfold mbind, plane_bind in Hr. cbn [report] in Hr. fold (plane_bind (S := S) (E := plane_error)) in Hr.
  set (p2 := set_reports _ _ p1) in Hr. destruct (negb _); [injection Hr as _ <-; cbn in Hleg; congruence|].
  unfold open_leg in Hr. destruct (connect (st_endpoint s)) as [u|] eqn:Ec;
    [|apply page_leg in Hr as (Hl & _); cbn in Hl; congruence].
  pose proof (announce_inv (route_proxy_protocol route) remote loc (up_budget u)) as Ha. unfold route_proxy_protocol in Ha at 1.
  destruct (tcp_announce _ _ _ _) as [[] w]; destruct Ha as (Hcw & Hqw & Ha).
  - destruct Ha as [Haw Hbw]. eapply exchange_sent in Hr as (l & Hl & He & Hex);
      [|reflexivity|done|cbn; congruence|by intros [? _]; auto|done|done]. rewrite Hl in Hleg. injection Hleg as ->. cbn [plan_head pl_client set_reports set_leg p2] in Hex.
    exists framing, host, tls, u. rewrite He. split_and!; [done|done|done|]. exists (st_tls_server_name s). rewrite <-Haw, <-Hc1. exact Hex.
  - assert (leg = MkLeg (st_endpoint s) w None ∧ is_tunnel r = false ∧ uploaded_whole r = false) as (-> & Hr1 & Hr2).
    { apply page_leg in Hr as (Hl & ? & ?). rewrite Hl in Hleg. by injection Hleg as <-. }
    exists framing, host, tls, u. split_and!; [done|done|done|]. exists (st_tls_server_name s). split; [|congruence|congruence|by left].
    assert (accepted (plaintext tls (MkLeg (st_endpoint s) w None)) = []) as Hnil by by destruct tls. cbn [plan_upstream_tls]. rewrite Hnil.
    apply prefix_nil.
Qed.
Lemma read_head_inv p r p' :
  read_head p = (r, p') → pl_leg p' = pl_leg p ∧ pl_out p' = pl_out p ∧
  ∀ h, r = Ok h → find_head_end (buffered h) = Some (head_len h) ∧ parse_head (buffered h) (head_len h) = Ok h ∧
    buffered h ++ contents (pl_client p') = contents (pl_client p) ∧ Z.of_nat (length (buffered h)) ≤ DEFAULT_MAX_HTTP_HEADER_SIZE.
Proof.
  unfold read_head. destruct (read_http_head (pl_client p) _) as [[h0|e0] c0] eqn:Eread; intros [= <- <-]; (split_and!; [done|done|]); [|done].
  intros h [= <-]. destruct (read_inner_parsed _ _ _ _ _ _ Eread) as [Hend Hparse].
  pose proof (read_http_head_inner_spec (S := ConnStream S) _ _ [] _ _ _ (Nat.lt_succ_diag_r _) ltac:(unfold DEFAULT_MAX_HTTP_HEADER_SIZE; cbn; lia) Eread) as Hspec.
  destruct (find_head_end (take _ _)) as [n0|]; [|by destruct Hspec as (? & ? & _)]. destruct Hspec as (all & Hall & _ & Hcont & Hsize).
  assert (buffered h0 = all) as <-; [|done].
  destruct (parse_head_inv all n0 h0) as (_ & _ & acc & _ & _ & _ & Heq); [done|]. by rewrite Heq.
Qed.

(** The head [exchange] sends is a complete head, with the client's fields
    that are not hop-by-hop and this hop's. *)
Lemma request_head_spec h framing scheme ip host tls server token (plan := MkPlan h framing scheme ip host tls server) :
  head_ok h → ip_wf ip → LF ∉ scheme → LF ∉ token → one_line host →
  find_head_end (request_head plan token) = Some (length (request_head plan token)) ∧
  header_fields (request_head plan token) = List.filter (keeps h host) (header_fields (head_bytes h)) ++ injected h ip scheme host token.
Proof.
  intros Hok Hip Hs Ht Hh. unfold request_head. cbn [plan_head plan_client_ip plan_scheme plan_host_header plan].
  destruct (rewrite_message h ip scheme host token Hok Hip Hs Ht Hh) as (ls & -> & Hls & Hfields).
  set (rl := nth 0 (head_lines (head_bytes h)) []).
  assert (LF ∉ rl) as Hrl.
  { unfold rl. pose proof (head_lines_LF (head_bytes h)) as Hall. destruct (head_lines (head_bytes h)); [set_solver|].
    by apply Forall_cons in Hall as [? _]. }
  assert (rl ++ crlf ++ block ls ++ crlf ++ body_prefix h = (rl ++ crlf ++ block ls ++ crlf) ++ body_prefix h) as -> by by rewrite <-!app_assoc.
  rewrite length_app, Nat.add_sub, take_app_length. split.
  - pose proof (find_head_end_message rl ls [] Hrl Hls) as Hm. by rewrite app_nil_r in Hm.
  - unfold header_fields at 1. rewrite head_lines_message by done. cbn [tail]. rewrite fields_of_app by done. cbn [fields_of].
    by rewrite app_nil_r.
Qed.

Lemma token_no_LF random : 0 ≤ random → LF ∉ pad32 (show_hex random).
Proof.
  intros Hr. unfold pad32. rewrite elem_of_app. intros [Hin|Hin].
  - apply list_elem_of_In, repeat_spec in Hin. done.
  - revert Hin. unfold show_hex. apply hex_digits_no_LF; [done|apply not_elem_of_nil].
Qed.

(** C7: a connection brings the upstream one request and nothing else.
    Whatever the client sends and in whatever segments, whatever the route,
    however the relay runs and whatever goes wrong on the way: the bytes the
    upstream gets are a prefix of the PROXY header of the chosen route (on
    the socket before the TLS handshake, if the upstream is TLS), the
    rewritten head of the client's first request, and what may follow it:
    the body that this request's framing delimits, or, after an upgrade, the
    rest of the connection.  It is all of that, unclosed for a request and
    closed for a tunnel, when the upload is not cut and the upstream takes
    what it is sent.  The head is complete, with the first request's fields
    less the hop-by-hop ones plus this hop's, and the framing fields unchanged
    unless the client's own Connection field names them.  A connection
    becomes a tunnel only if its request asked for an upgrade and this
    upstream's own response head has the status 101. *)
Theorem one_request_upstream now seed random env name remote loc policy route client_tls sni p r p' leg :
  pl_leg p = None → queued (pl_out p) = [] → 0 ≤ random → ip_wf (sa_ip remote) → hosts_ok route →
  run now seed random env name remote loc policy None route client_tls sni p = (r, p') → pl_leg p' = Some leg →
  ∃ n h0 h route' framing host tls server u
    (scheme := if client_tls then lit "https" else lit "http")
    (request := request_head (MkPlan h framing scheme (sa_ip remote) host tls server) (pad32 (show_hex random)))
    (header := ProxyProtocol.header (route_proxy_protocol route') remote loc)
    (rest := drop n (contents (pl_client p)))
    (sent := (if tls then [] else header) ++ request ++ if is_tunnel r then rest else framed framing rest),
    find_head_end (contents (pl_client p)) = Some n ∧ head_bytes h0 = take n (contents (pl_client p)) ∧
    parse_head (buffered h0) n = Ok h0 ∧ refines h0 route route' ∧
    header_fields (head_bytes h) = header_fields (head_bytes h0) ∧ body_framing h = Ok framing ∧
    connect (leg_endpoint leg) = Some u ∧
    find_head_end request = Some (length request) ∧
    header_fields request = List.filter (keeps h host) (header_fields (head_bytes h)) ++ injected h (sa_ip remote) scheme host (pad32 (show_hex random)) ∧
    (∀ name, name = lit "content-length" ∨ name = lit "transfer-encoding" → name ∉ hop_by_hop h →
       values_of name (header_fields request) = values_of name (header_fields (head_bytes h))) ∧
    accepted (plaintext tls leg) `prefix_of` sent ∧
    (uploaded_whole r = true → unlimited u → plaintext tls leg = MkWriter [] sent None (is_tunnel r)) ∧
    (is_tunnel r = true → upgrade_requested h = true ∧
       ∃ resp after, read_response_head (replies_of u tls server) = (Ok resp, after) ∧ response_status resp = Some 101) ∧
    (tls = true → (accepted (leg_socket leg) = [] ∧ leg_session leg = None) ∨
       accepted (leg_socket leg) = header ++ concat (hs_written (up_handshake u server))).
Proof.
  intros Hnone Hqo Hrand Hip Hhosts Hr Hleg. unfold http_run in Hr.
  plane_step Hr; destruct (read_head_inv _ _ _ E) as (Hl0 & Ho0 & Hread); [congruence|]. clear E.
  match goal with H : context [Ok ?x = Ok _] |- _ => set (h0 := x) in * end.
  destruct (Hread h0 eq_refl) as (Hend & Hparse & Hcont & Hsize). clear Hread.
  plane_step Hr; destruct (admit_inv _ _ _ _ _ _ E) as (Hl1 & Hc1 & Ho1 & Hlen); [congruence|]. clear E. specialize (Hlen _ eq_refl).
  plane_step Hr; [done|]. injection E as _ <-.
  plane_step Hr; destruct (route_request_inv _ _ _ _ _ E) as [Hl2 Hgo]; [cbn in Hl2; congruence|]. clear E.
  match type of Hr with context [match ?x with Finished => _ | Proceed _ _ => _ end] => destruct x as [|route' h] end;
    [injection Hr as _ <-; cbn in Hl2; congruence|].
  destruct (Hgo route' h eq_refl) as (-> & Href & Hone & Hed). destruct (Hed Hend Hparse) as [Hok Hbody Hfields]. cbn in Hl2.
  eapply forward_request_sent in Hr as (framing & host & tls & u & Hfr & Hconn & Hhost & server & [Hp Ha Ht Hk]);
    [|cbn; congruence|cbn; congruence|rewrite Hlen; unfold DEFAULT_MAX_HTTP_HEADER_SIZE, u64_max in *; lia|done].
  cbn [plan_upstream_tls plan_framing plan_head] in Hp, Ha, Ht, Hk. cbn [plan_tls_server_name] in Ht, Hk. cbn [pl_client set_reports] in Hp, Ha, Ht. rewrite Hc1, Hbody in *.
  destruct (find_head_end_app _ (contents (pl_client x0)) _ Hend) as [Hn Hle]. rewrite Hcont in Hn.
  assert (drop (head_len h0) (contents (pl_client p)) = body_prefix h0 ++ contents (pl_client x0)) as Hdrop.
  { rewrite <-Hcont, drop_app_le by lia. done. }
  assert (take (head_len h0) (contents (pl_client p)) = head_bytes h0) as Htake by (rewrite <-Hcont, take_app_le by lia; done).
  assert (one_line host) as Hol.
  { destruct Hhost as [->|(key & a & -> & ->)]; [done|]. by apply Hone. }
  destruct (request_head_spec h framing (if client_tls then lit "https" else lit "http") (sa_ip remote) host tls server (pad32 (show_hex random)))
    as [Hq1 Hq2]; [done|done|destruct client_tls; by apply LF_lit|by apply token_no_LF|done|].
  exists (head_len h0), h0, h, route', framing, host, tls, server, u. cbn zeta. rewrite Hdrop, Htake.
  assert (∀ c, onward r framing c = if is_tunnel r then c else framed framing c) as Hon by (intros c; by destruct r as [[]|]). rewrite Hon in Hp, Ha.
  split_and!; try done.
  intros nm Hnm Hhop. rewrite Hq2, values_of_app.
  assert (ordinary nm = true) as Ho by (destruct Hnm as [->| ->]; reflexivity).
  rewrite ordinary_injected, app_nil_r by done. apply values_of_filtered_in. intros v. unfold keeps. cbn [fst].
  rewrite ordinary_fate by done. destruct (existsb _ _) eqn:Ex; [|done]. by apply existsb_eqb_bytes in Ex.
Qed.
(** ** Protected paths *)

Definition unauthorized_page : bytes :=
  let body := render 401 (lit "Unauthorized") (default_detail 401) in unauthorized_head body ++ body.
(** The request carries the name and password of one of the users. *)
Definition has_credentials (h : HttpHead) (auth : HttpBasicAuth) : Prop :=
  ∃ user, user ∈ users auth ∧ supplied_credentials b64_decode h = Some (username user ++ [COLON] ++ password user).
(** [subtle::ConstantTimeEq] on slices of the same length is equality. *)
Hypothesis ct_eq_spec : ∀ a b, length a = length b → ct_eq a b = bool_decide (a = b).

Lemma credentials_match_spec auth c :
  credentials_match ct_eq auth c = true ↔ ∃ user, user ∈ users auth ∧ c = username user ++ [COLON] ++ password user.
Proof.
  unfold credentials_match. rewrite existsb_exists. setoid_rewrite list_elem_of_In.
  split; intros (user & Hu & Hm); exists user; (split; [done|]).
  - apply andb_true_iff in Hm as [Hl%Nat.eqb_eq Hc]. rewrite ct_eq_spec in Hc by done. by apply bool_decide_eq_true in Hc.
  - rewrite <-Hm, Nat.eqb_refl, ct_eq_spec by done. by apply bool_decide_eq_true.
Qed.

Lemma unauthorized_answers body :
  answers (_ ← put (unauthorized_head body); _ ← put body; close) (unauthorized_head body ++ body).
Proof.
  replace (unauthorized_head body ++ body) with (unauthorized_head body ++ body ++ []) by by rewrite app_nil_r.
  eapply answers_bind; [auto with tlsproxy|]. eapply answers_bind; auto with tlsproxy.
Qed.

Lemma any_looped_fresh now tokens c :
  (∀ t, t ∈ tokens → by_key c !! t = None) → (any_looped now tokens c).1 = false.
Proof.
  revert c. induction tokens as [|t tokens IH]; intros c Hc; [done|]. cbn [any_looped].
  unfold request_token_is_looped, cache_is_looped. rewrite Hc by left. apply IH. cbn [by_key]. intros t' Ht'.
  apply lookup_delete_None. right. apply Hc. by right.
Qed.

(** The handler's guards let the request pass: none of its tokens is known and
    it names the session's host. *)
Definition admissible (h : HttpHead) (sni : option bytes) p : Prop :=
  (∀ t, t ∈ loop_tokens h → by_key (pl_tokens p) !! t = None) ∧
  match sni with Some s => same_host s (host h) = true | None => True end.
Lemma admit_admissible now h sni p : admissible h sni p →
  ∃ n p1, admit_request now h sni p = (Ok n, p1) ∧ pl_out p1 = pl_out p ∧ pl_leg p1 = pl_leg p ∧ pl_pools p1 = pl_pools p.
Proof.
  intros [Hloop Hsni]. unfold admit_request. pose proof (any_looped_fresh now (loop_tokens h) (pl_tokens p) Hloop) as Hfresh.
  destruct (any_looped now (loop_tokens h) (pl_tokens p)) as [? tokens]. cbn in Hfresh. subst.
  assert (match sni with Some sni => negb (same_host sni (host h)) | None => false end = false) as ->
    by (destruct sni; [by rewrite Hsni|done]). eexists _, _. split; [reflexivity|]. done.
Qed.

Lemma has_credentials_spec h auth :
  match supplied_credentials b64_decode h with Some c => credentials_match ct_eq auth c | None => false end = true ↔ has_credentials h auth.
Proof.
  unfold has_credentials. destruct (supplied_credentials b64_decode h) as [c|]; [|split; [done|by intros (? & _ & ?)]].
  rewrite credentials_match_spec. split; intros (u & Hu & E); exists u; naive_solver.
Qed.

(** What routing answers is what the admitted request gets. *)
Lemma run_routed now seed random env name remote loc policy key a h client_tls sni p r w :
  admissible h sni p →
  (∀ q : Plane S, pl_out q = pl_out p → routing (Some (key, a)) h q = ((λ _ : (), Finished) <$> r, set_out w q)) →
  ∃ p', run now seed random env name remote loc policy (Some h) (Some (key, a)) client_tls sni p = ((λ _ : (), Answered) <$> r, p') ∧
    pl_out p' = w ∧ pl_leg p' = pl_leg p ∧ pl_pools p' = pl_pools p.
Proof.
  intros Hadm Hrt. destruct (admit_admissible now h sni p Hadm) as (n & p1 & Hadmit & Hout & Hleg & Hpools).
  unfold http_run. erewrite (plane_bind_ok _ _ p h p), (plane_bind_ok _ _ p n p1), plane_bind_ok by done.
  set (p2 := set_reports _ _ _). exists (set_out w p2). split; [|done].
  unfold mbind at 1, plane_bind at 1. rewrite (Hrt p2 Hout). by destruct r.
Qed.

Lemma gate_refuses key a pr h p : 
  select_path a (target h) = Some pr → auth_enabled (basic_auth pr) = true → ¬ has_credentials h (basic_auth pr) → budget (pl_out p) = None →
  routing (Some (key, a)) h p = (Ok Finished, set_out (MkWriter [] (accepted (pl_out p) ++ unauthorized_page) None true) p).
Proof.
  intros Hsel Hen Hno Hbud. rewrite <-has_credentials_spec in Hno. apply not_true_is_false in Hno.
  unfold route_request. rewrite Hsel. erewrite (plane_bind_ok _ _ p None); [done|].
  unfold require_basic_auth. rewrite Hen, Hno. cbn [negb]. cbv zeta. erewrite plane_bind_ok; [done|].
  unfold to_client. rewrite (unauthorized_answers _ _ Hbud). reflexivity.
Qed.


(** ** Respelled paths *)

(** Only a prefix that doubles the slash itself covers a doubled slash. *)
Lemma doubled_slash_unmatched prefix path :
  trim_end_char SLASH prefix ≠ [] → starts_with (lit "//") prefix = false → path_prefix_matches prefix (SLASH :: SLASH :: path) = false.
Proof.
  intros Hne Hdd. destruct (path_prefix_matches prefix _) eqn:E; [|done]. exfalso. revert Hdd. apply not_false_iff_true, starts_with_spec.
  destruct (trim_end_char_spec SLASH prefix) as [k Hk].
  assert (∃ r, SLASH :: SLASH :: path = trim_end_char SLASH prefix ++ r) as [r Hr].
  { unfold path_prefix_matches in E. rewrite !orb_true_iff in E. destruct E as [[E|E]|E].
    - by apply bool_decide_eq_true in E.
    - apply eqb_bytes_spec in E. exists []. by rewrite app_nil_r.
    - destruct (RustStd.strip_prefix _ _) as [r|] eqn:Es; [|done]. exists r. by apply strip_prefix_Some. }
  pose proof (trim_end_char_idem SLASH prefix) as Hi. destruct (trim_end_char SLASH prefix) as [|x [|y l]]; [done| |].
  - injection Hr as <- _. discriminate Hi.
  - injection Hr as <- <- _. rewrite Hk. by exists (l ++ repeat SLASH k).
Qed.

(** The route of everything, if no other covers a doubled slash. *)
Lemma doubled_slash_selects a r path :
  r ∈ paths a → trim_end_char SLASH (prefix r) = [] →
  (∀ x, x ∈ paths a → x = r ∨ (trim_end_char SLASH (prefix x) ≠ [] ∧ starts_with (lit "//") (prefix x) = false)) →
  select_path a (SLASH :: SLASH :: path) = Some r.
Proof.
  intros Hr Htop Hothers. unfold select_path.
  assert (∃ rest, nth 0 (split_chars [63; 35] (SLASH :: SLASH :: path)) (SLASH :: SLASH :: path) = SLASH :: SLASH :: rest) as [rest ->].
  { unfold split_chars. cbn [split_by existsb]. destruct (split_by _ path) as [|s ss]; cbn; eauto. }
  set (l := List.filter _ _).
  assert (∀ x, x ∈ l → x = r) as Hall.
  { intros x Hx. unfold l in Hx. apply list_elem_of_In, filter_In in Hx as [Hin Hm]. apply list_elem_of_In in Hin.
    destruct (Hothers x Hin) as [?|[Hne Hdd]]; [done|]. by rewrite (doubled_slash_unmatched _ _ Hne Hdd) in Hm. }
  assert (r ∈ l) as Hin.
  { apply list_elem_of_In, filter_In. split; [by apply list_elem_of_In|]. unfold path_prefix_matches. by rewrite Htop. }
  destruct (max_by_key _ l) as [x|] eqn:E.
  - apply max_by_key_spec in E as [Hx _]. by rewrite (Hall x Hx).
  - apply max_by_key_None in E. rewrite E in Hin. by apply not_elem_of_nil in Hin.
Qed.

(** C40: credentials are asked for by the path as it is spelled, the file is
    chosen by the path with its leading slashes cut off.  Take any host whose
    route [/] serves a document root without credentials, with other routes
    over paths inside it, none of whose prefixes begins with a doubled
    slash, and any request [h] for a path under a route with credentials:
    without credentials it gets the 401 page and nothing else.  But whatever
    file beneath the open root the path of [h] names, a request [h'] for the
    same target with one more slash in front gets that file as [serve_file]
    sends it, with no regard for any credentials. *)
Theorem respelled_path_skips_gate now seed random env name remote loc policy key a r pr document_root index listing h h' client_tls sni p
  root decoded physical md :
  r ∈ paths a → trim_end_char SLASH (prefix r) = [] → auth_enabled (basic_auth r) = false →
  path_action r = PathStaticFiles document_root index listing →
  (∀ x, x ∈ paths a → x = r ∨ (trim_end_char SLASH (prefix x) ≠ [] ∧ starts_with (lit "//") (prefix x) = false)) →
  select_path a (target h) = Some pr → auth_enabled (basic_auth pr) = true → ¬ has_credentials h (basic_auth pr) →
  starts_with [SLASH] (target h) = true → target h' = SLASH :: target h → method h' = lit "GET" →
  admissible h sni p → admissible h' sni p → budget (pl_out p) = None →
  canonicalize fs document_root = Ok root → is_dir <$> metadata fs root = Ok true →
  decode_path (relative_path (prefix r) (path_of h)) = Ok decoded →
  canonicalize fs (path_join root decoded) = Ok physical → path_starts_with root physical = true →
  metadata fs physical = Ok md → is_file md = true →
  (∃ p', run now seed random env name remote loc policy (Some h) (Some (key, a)) client_tls sni p = (Ok Answered, p') ∧
     pl_out p' = MkWriter [] (accepted (pl_out p) ++ unauthorized_page) None true) ∧
  (∃ p', run now seed random env name remote loc policy (Some h') (Some (key, a)) client_tls sni p =
       (match (serve_file civil (G := G) (Z' := Z') fs h' physical md false (pl_out p)).1 with Ok _ => Ok Answered | Err e => Err (ClientIo e) end, p') ∧
     pl_out p' = (serve_file civil (G := G) (Z' := Z') fs h' physical md false (pl_out p)).2).
Proof.
  intros Hr Htop Hopen Hact Hothers Hsel Hen Hno Hslash Ht' Hget Hadm Hadm' Hbud Hroot Hdir Hdec Hcan Hst Hmd Hfile. split.
  { destruct (run_routed now seed random env name remote loc policy key a h client_tls sni p (Ok ())
      (MkWriter [] (accepted (pl_out p) ++ unauthorized_page) None true)) as (p' & Hrun & Hout & _); [done| |by exists p'].
    intros q Hq. rewrite <-Hq. apply (gate_refuses key a pr); [done..|congruence]. }
  set (served := serve_file civil (G := G) (Z' := Z') fs h' physical md false (pl_out p)).
  destruct (run_routed now seed random env name remote loc policy key a h' client_tls sni p
    match served.1 with Ok _ => Ok () | Err e => Err (ClientIo e) end served.2) as (p' & Hrun & Hout & _); [done| |exists p'; split; [|exact Hout]; rewrite Hrun; fold served; by destruct served as [[]]].
  intros q Hq. apply starts_with_spec in Hslash as [t Ht]. cbn [app] in Ht. unfold route_request. rewrite Ht', Ht, (doubled_slash_selects a r t Hr Htop Hothers).
  unfold require_basic_auth. rewrite Hopen. cbn [negb]. rewrite (plane_bind_ok _ _ q (Some h') q) by done. rewrite Hact.
  assert (serve civil to_lowercase (G := G) (Z' := Z') fs h' (prefix r) document_root index listing =
    serve_file civil (G := G) (Z' := Z') fs h' physical md false) as ->.
  { apply (serve_is_file civil to_lowercase fs h' (prefix r) document_root index listing root decoded physical md); try done.
    by rewrite (relative_path_doubled (prefix r) h h'). }
  unfold mbind, plane_bind, to_client. rewrite Hq. fold served. by destruct served as [[[]|e] w].
Qed.
End run.

(** ** Examples *)

Module PlaneExample.
Definition client_ip : IpAddr := V4 [10; 0; 0; 9].
Definition remote : SocketAddr := MkSocketAddr client_ip 5000.
Definition loc : SocketAddr := MkSocketAddr (V4 [10; 0; 0; 1]) 80.
Definition policy : RelayPolicy := MkPolicy (lit "0.0.0.0:80") None 80 None false.
Definition upstream : Upstream := MkUpstream None [Seg (lit "HTTP/1.1 200 OK")] (λ _, MkHandshake [] None).
Definition backend : HttpBackend := MkBackend (lit "b:80") Plaintext None.
Definition action : HttpRouteAction :=
  MkRouteAction BehaviorReverseProxy 80 None Plaintext [backend] RoundRobin ProxyProtocol.PV1 None [] None.
(** Two pipelined requests. *)
Definition head : bytes := head_of [lit "POST /x HTTP/1.1"; lit "Host: h"; lit "Content-Length: 3"].
Definition client : ConnStream Source := with_request_id [Seg (head ++ lit "ab"); Seg (lit "cGET / HTTP/1.1"); Seg (crlf ++ crlf)] 1.
(** Nothing happens but the two directions running to their end. *)
Definition quick : RelayEnv := MkRelayEnv 0 0 [].
Definition start : Plane Source :=
  MkPlane cache_new cache_new SelectExamples.empty [] stats_new client (fresh_socket None) None.
Definition result := http_run SelectExamples.no_override SelectExamples.dns length_hash StaticExample.civil id
  (G := StaticExample.good_store) (Z' := StaticExample.good_store) StaticExample.fs Some eqb_bytes None (MkSelf [] [] []) (λ _, Some upstream)
  5 0 77 quick (lit "l") remote loc policy None (Some (lit "k", action)) false None start.

Lemma hosts : hosts_ok (Some (lit "k", action)).
Proof. split; [exact I|]. intros pr act Hin. change (pr ∈ ([] : list HttpPathRoute)) in Hin. by apply not_elem_of_nil in Hin. Qed.

Lemma one_request_upstream_witness :
  ends_with (lit "Connection: close" ++ crlf ++ crlf ++ lit "abc") match pl_leg result.2 with Some l => wire (leg_socket l) | None => [] end = true ∧
  ∃ leg tls header head body, pl_leg result.2 = Some leg ∧ find_head_end head = Some (length head) ∧
    plaintext tls leg = MkWriter [] (header ++ head ++ body) None false.
Proof.
  split; [vm_compute; reflexivity|].
  assert (uploaded_whole result.1 = true ∧ is_tunnel result.1 = false) as [Hr Ht] by (vm_compute; split; reflexivity).
  assert (is_Some (pl_leg result.2)) as [leg Hleg] by (vm_compute; by eexists).
  destruct result as [r p'] eqn:Eres. cbn [fst snd] in Hr, Ht, Hleg |- *.
  destruct (one_request_upstream SelectExamples.no_override SelectExamples.dns length_hash StaticExample.civil id
    (G := StaticExample.good_store) (Z' := StaticExample.good_store) StaticExample.fs Some eqb_bytes None (MkSelf [] [] []) (λ _, Some upstream)
    5 0 77 quick (lit "l") remote loc policy (Some (lit "k", action)) false None start r p' leg)
    as (n & h0 & h & route' & framing & host & tls & server & u & Hn & H1 & H2 & H3 & H4 & H5 & H6 & H7 & H8 & H9 & H10 & H11 & H12 & H13);
    [reflexivity|reflexivity|lia|split; [reflexivity|by unfold is_byte; repeat constructor; lia]|exact hosts|exact Eres|exact Hleg|].
  exists leg, tls. do 3 eexists. split; [exact Hleg|]. split; [exact H7|]. rewrite Ht in H11. apply (H11 Hr). injection H6 as <-. split; [reflexivity|discriminate].
Defined.
End PlaneExample.

(** ** A protected directory inside an open one *)

Module NestedExample.
Definition page : bytes := lit "secret text".
Definition fs : Fs := {|
  canonicalize := λ p, if bool_decide (p = lit "/www") || bool_decide (p = lit "/www/private") || bool_decide (p = lit "/www/private/a.txt")
                       then Ok p else Err NotFound;
  metadata := λ p, if bool_decide (p = lit "/www/private/a.txt") then Ok (MkMetadata KFile 11 None) else Ok (MkMetadata KDir 0 None);
  open_file := λ p, if bool_decide (p = lit "/www/private/a.txt") then Ok (λ off, [Seg (drop (Z.to_nat off) page)]) else Err PermissionDenied;
  read_dir := λ _, Ok [];
  read_link := λ _, None;
|}.
Definition auth : HttpBasicAuth := MkBasicAuth true [MkUser (lit "u") (lit "p")].
Definition open_route : HttpPathRoute := MkPathRoute (lit "/") false (MkBasicAuth false []) (PathStaticFiles (lit "/www") None false).
Definition private_route : HttpPathRoute := MkPathRoute (lit "/private") false auth (PathStaticFiles (lit "/www/private") None false).
Definition action : HttpRouteAction :=
  MkRouteAction BehaviorReverseProxy 80 None Plaintext [] RoundRobin ProxyProtocol.PNone None [open_route; private_route] None.
(** A request without credentials. *)
Definition request (path : bytes) : HttpHead := StaticExample.request (lit "GET " ++ path ++ lit " HTTP/1.1") [].
Definition run (h : HttpHead) := http_run SelectExamples.no_override SelectExamples.dns length_hash StaticExample.civil id
  (G := StaticExample.good_store) (Z' := StaticExample.good_store) fs Some eqb_bytes None (MkSelf [] [] []) (λ _, None)
  5 0 77 PlaneExample.quick (lit "l") PlaneExample.remote PlaneExample.loc PlaneExample.policy (Some h) (Some (lit "k", action)) false None
  PlaneExample.start.


(** Both respellings, the doubled slash and an escaped letter, give the
    protected file to anyone. *)
Example respelled_paths_served : Forall (λ path,
  (run (request path)).1 = Ok Answered ∧
  starts_with (lit "HTTP/1.1 200 OK") (wire (pl_out (run (request path)).2)) = true ∧
  ends_with page (wire (pl_out (run (request path)).2)) = true) [lit "//private/a.txt"; lit "/%70rivate/a.txt"].
Proof. repeat constructor; vm_compute; reflexivity. Qed.

Lemma respelled_path_skips_gate_witness :
  (∃ p', run (request (lit "/private/a.txt")) = (Ok Answered, p') ∧ pl_out p' = MkWriter [] unauthorized_page None true) ∧
  ∃ p', run (request (lit "//private/a.txt")) = (Ok Answered, p') ∧ ends_with page (wire (pl_out p')) = true.
Proof.
  destruct (respelled_path_skips_gate SelectExamples.no_override SelectExamples.dns length_hash StaticExample.civil id
    (G := StaticExample.good_store) (Z' := StaticExample.good_store) fs Some eqb_bytes None (MkSelf [] [] []) (λ _, None) (λ a b _, eq_refl)
    5 0 77 PlaneExample.quick (lit "l") PlaneExample.remote PlaneExample.loc PlaneExample.policy (lit "k") action open_route private_route
    (lit "/www") None false (request (lit "/private/a.txt")) (request (lit "//private/a.txt")) false None PlaneExample.start
    (lit "/www") (lit "private/a.txt") (lit "/www/private/a.txt") (MkMetadata KFile 11 None)) as [Hgate (p' & Hrun & Hout)].
  - left.
  - reflexivity.
  - reflexivity.
  - reflexivity.
  - intros x [->|[->|[]%not_elem_of_nil]%elem_of_cons]%elem_of_cons; [by left|right]. split; [discriminate|reflexivity].
  - vm_compute; reflexivity.
  - reflexivity.
  - intros (user & _ & Hs). discriminate Hs.
  - reflexivity.
  - vm_compute; reflexivity.
  - vm_compute; reflexivity.
  - split; [intros t Ht; apply lookup_empty|exact I].
  - split; [intros t Ht; apply lookup_empty|exact I].
  - reflexivity.
  - reflexivity.
  - reflexivity.
  - vm_compute; reflexivity.
  - vm_compute; reflexivity.
  - reflexivity.
  - vm_compute; reflexivity.
  - reflexivity.
  - split; [exact Hgate|]. exists p'. split; [etransitivity; [exact Hrun|f_equal; vm_compute; reflexivity]|rewrite Hout; vm_compute; reflexivity].
Defined.
End NestedExample.
