(* ===== verification/DefaultListener.v ===== *)
(** * The mandatory TLS listener (src/listener/default.rs) and its layer-4
      backends (src/dataplane/policy.rs, src/dataplane/tls/)

    One parsed ClientHello decides where a connection goes: an active ACME
    challenge, the control plane, an ordinary route or nowhere.  The state
    the decision consults is explicit: the challenge registry, the loop cache
    and the group table.  Certificate resolution ([certified_key]) and the
    success of connecting are parameters. *)

From S2P Require Import Prelude RustStd Net ProxyProtocol HostUtil Stream TlsHeader HelloCache AcmeChallenge BindAddr Config Accounting ActiveTracker AcmeDns RuntimeConfig Forward ForwardProps ForwardSelect Health Relay Dataplane.
Open Scope Z_scope.

(** ** Classification *)

Inductive RejectReason := MissingSni | PolicyDenied.
Inductive DefaultRoute :=
| RouteAcme (domain : bytes)
| RouteControl (hostname : bytes)
| RouteProxy (sni : bytes)
| RouteReject (reason : RejectReason).

Inductive ConnectionRoute :=
| ConnAcme (domain : bytes)
| ConnControl (hostname : bytes)
| ConnOrdinary (sni : bytes) (action : TlsRouteAction)
| ConnReject (reason : RejectReason).

Definition classify (sni : option bytes) (alpn_protocols : list bytes) (control_hostname : option bytes)
  (challenge_is_active ordinary_sni_is_allowed : bytes → bool) : DefaultRoute :=
  match sni ≫= AcmeDns.normalize_domain with
  | None => RouteReject MissingSni
  | Some sni =>
      let is_acme := existsb (λ p, eqb_bytes p TLS_ALPN_PROTOCOL) alpn_protocols in
      if is_acme && challenge_is_active sni then RouteAcme sni
      else if bool_decide (control_hostname ≫= AcmeDns.normalize_domain = Some sni) then RouteControl sni
      else if ordinary_sni_is_allowed sni then RouteProxy sni else RouteReject PolicyDenied
  end.

Section decide.
Context (is_match : Regex → bytes → bool).

Definition decide_route (hello : ClientHello) (c : DefaultListenerConfig) (control_hostname : option bytes)
  (challenge_is_active : bytes → bool) : ConnectionRoute :=
  match classify (Some (sni_host hello)) (alpn_protocols hello) control_hostname challenge_is_active
          (λ host, bool_decide (is_Some (select_tls_route is_match (ordinary_traffic c) host))) with
  | RouteAcme domain => ConnAcme domain
  | RouteControl hostname => ConnControl hostname
  | RouteProxy sni =>
      match select_tls_route is_match (ordinary_traffic c) sni with
      | Some action => ConnOrdinary sni action
      | None => ConnReject PolicyDenied
      end
  | RouteReject reason => ConnReject reason
  end.

End decide.

(** ** Dispatch *)

Record PassthroughRoute := MkPassthrough {
  pr_target : option bytes;
  pr_target_port : Z;
  pr_load_balancing : HttpLoadBalancing;
  pr_proxy_protocol : ProxyProtocol.ProxyProtocol;
}.
Record TerminateRoute := MkTerminate {
  tr_target : option bytes;
  tr_target_port : Z;
  tr_upstream_tls : bool;
  tr_load_balancing : HttpLoadBalancing;
  tr_proxy_protocol : ProxyProtocol.ProxyProtocol;
}.

Inductive dispatch_error := ChallengeExpired | LoopDetected | NoCertificate | ExplicitReject | Rejected (r : RejectReason) | ControlPassed.

(** The handler a connection is given to, with its arguments. *)
Inductive Handler (CertifiedKey : Type) :=
| AcceptChallenge (certificate : CertifiedKey)
| RunPassthrough (policy : RelayPolicy) (route : PassthroughRoute)
| RunTerminate (policy : RelayPolicy) (route : TerminateRoute) (key : CertifiedKey)
| RunReverseProxy (policy : RelayPolicy) (action : HttpRouteAction) (key : CertifiedKey).
Arguments AcceptChallenge {_} _.
Arguments RunPassthrough {_} _ _.
Arguments RunTerminate {_} _ _ _.
Arguments RunReverseProxy {_} _ _ _.

Section dispatch.
Context {CertifiedKey : Type}.
Context (certified_key : bytes → option CertifiedKey).
Abbreviation Registry := (gmap bytes (ChallengeEntry CertifiedKey)).

Definition dispatch_non_control (now : Z) (route : ConnectionRoute) (hello : ClientHello) (c : DefaultListenerConfig)
  (entries : Registry) (cache : Cache bytes) : result dispatch_error (Handler CertifiedKey) * Registry * Cache bytes :=
  match route with
  | ConnAcme domain =>
      let '(certificate, entries) := challenge_resolve now domain entries in
      (AcceptChallenge <$> ok_or certificate ChallengeExpired, entries, cache)
  | ConnOrdinary _ action =>
      let '(looped, cache) := cache_is_looped now (random hello) cache in
      if looped then (Err LoopDetected, entries, cache)
      else
        let policy := for_tls_route c action in
        (match action with
         | Passthrough target_port target lb pp => Ok (RunPassthrough policy (MkPassthrough target target_port lb pp))
         | Terminate target_port target upstream lb pp =>
             key ← ok_or (certified_key (sni_host hello)) NoCertificate;
             Ok (RunTerminate policy (MkTerminate target target_port (bool_decide (upstream = Tls)) lb pp) key)
         | TlsReverseProxy action =>
             key ← ok_or (certified_key (sni_host hello)) NoCertificate;
             Ok (RunReverseProxy policy action key)
         | Reject => Err ExplicitReject
         end, entries, cache)
  | ConnReject reason => (Err (Rejected reason), entries, cache)
  | ConnControl _ => (Err ControlPassed, entries, cache)
  end.


Definition listener_type (route : ConnectionRoute) : ListenerType :=
  match route with
  | ConnControl _ | ConnAcme _ | ConnOrdinary _ (Terminate _ _ _ _ _) | ConnOrdinary _ (TlsReverseProxy _) => TlsTerminateType
  | _ => TlsPassthroughType
  end.

(** [handle_connection] up to the handler: the interception, the decision and
    who serves the connection. *)
Inductive Served := ServedControl (hostname : bytes) | ServedBy (h : Handler CertifiedKey).
Inductive connection_error := HelloError (e : hello_error) | DispatchError (e : dispatch_error).

Context {A : Type} (acceptor_default : A) (accept : A → accept_result * A) (read_tls : A → bytes → option A).
Context {S : Type} `{AsyncReadOk S}.
Context (is_match : Regex → bytes → bool).

(** The control plane or [dispatch_non_control]. *)
Definition serve_route (now : Z) (c : DefaultListenerConfig) (hello : ClientHello) (client : ConnStream S)
  (entries : Registry) (cache : Cache bytes) (route : ConnectionRoute)
  : result connection_error (Served * ClientHello) * ConnStream S * Registry * Cache bytes :=
  match route with
  | ConnControl hostname => (Ok (ServedControl hostname, hello), client, entries, cache)
  | _ =>
      match dispatch_non_control now route hello c entries cache with
      | (Ok h, entries, cache) => (Ok (ServedBy h, hello), client, entries, cache)
      | (Err e, entries, cache) => (Err (DispatchError e), client, entries, cache)
      end
  end.

Definition handle_connection (now : Z) (c : DefaultListenerConfig) (control_hostname : option bytes) (client : ConnStream S)
  (entries : Registry) (cache : Cache bytes)
  : result connection_error (Served * ClientHello) * ConnStream S * Registry * Cache bytes :=
  match read_client_hello acceptor_default accept read_tls client DEFAULT_MAX_CLIENT_HELLO_SIZE with
  | (Err e, client) => (Err (HelloError e), client, entries, cache)
  | (Ok hello, client) =>
      let active domain := bool_decide (is_Some (challenge_resolve now domain entries).1) in
      (* asking the registry drops an expired entry *)
      let entries := match AcmeDns.normalize_domain (sni_host hello) with
                     | Some d => if existsb (λ p, eqb_bytes p TLS_ALPN_PROTOCOL) (alpn_protocols hello)
                                 then (challenge_resolve now d entries).2 else entries
                     | None => entries
                     end in
      serve_route now c hello client entries cache (decide_route is_match hello c control_hostname active)
  end.

End dispatch.

(** ** Layer-4 handlers *)

Inductive run_error :=
| RunHello (e : hello_error)
| RunLoop
| RunSelect (e : select_error)
| RunConnect
| RunAnnounce
| RunReplay
| RunNoSni
| RunSniChanged
| RunHandshake.

Section handlers.
Context (override : bytes → Z → option bytes) (lookup_host : bytes → option (list SocketAddr)).
Context (hash : IpAddr → bytes → Z).
(** What connecting to an endpoint gives.  The endpoint may be this proxy
    again, so that it depends on the loop cache at that moment. *)
Context (connect : Cache bytes → bytes → option Upstream).
Context {A : Type} (acceptor_default : A) (accept : A → accept_result * A) (read_tls : A → bytes → option A).
Context {S : Type} `{AsyncReadOk S}.
Local Abbreviation plane := (plane S run_error).

Definition inspect_hello (inspected : option ClientHello) : plane ClientHello := λ p,
  match inspected with
  | Some hello => (Ok hello, p)
  | None =>
      match read_client_hello acceptor_default accept read_tls (pl_client p) DEFAULT_MAX_CLIENT_HELLO_SIZE with
      | (Ok hello, client) => (Ok hello, set_client client p)
      | (Err e, client) => (Err (RunHello e), set_client client p)
      end
  end.
Definition refuse_loop (now : Z) (hello : ClientHello) : plane () := λ p,
  let '(looped, hellos) := cache_is_looped now (random hello) (pl_hellos p) in
  ((if looped then Err RunLoop else Ok ()), set_caches hellos (pl_tokens p) p).
Definition select_passthrough (now seed : Z) (name sni_target : bytes) (remote : SocketAddr) (policy : RelayPolicy) (route : option PassthroughRoute)
  : plane SelectedTarget := λ p,
  let '(r, pools) :=
    match route with
    | Some r => select_routed_pool override lookup_host hash now seed name sni_target (pr_target r) (pr_target_port r) true
                  (pr_proxy_protocol r) (sa_ip remote) (pr_load_balancing r) (pl_pools p)
    | None => select_runtime_target override lookup_host hash now sni_target (rp_target_port policy) true sni_target (pl_pools p)
    end in
  (match r with Ok s => Ok s | Err e => Err (RunSelect e) end, set_pools pools p).
Definition remember_hello (now : Z) (hello : ClientHello) : plane () := λ p,
  (Ok (), set_caches (cache_insert now DEFAULT_TTL (random hello) (pl_hellos p)) (pl_tokens p) p).
Definition open_passthrough (endpoint : bytes) (pp : ProxyProtocol.ProxyProtocol) (remote loc : SocketAddr) : plane Upstream := λ p,
  match connect (pl_hellos p) endpoint with
  | None => (Err RunConnect, p)
  | Some u =>
      let '(ok, w) := tcp_announce pp remote loc (fresh_socket (up_budget u)) in
      ((if ok then Ok u else Err RunAnnounce), set_leg (Some (MkLeg endpoint w None)) p)
  end.
Definition relay_passthrough (env : RelayEnv) (initial : Z) (u : Upstream) : plane RelayOutcome := λ p,
  plane_relay initial RunReplay (λ cw uw, relay env initial (pl_client p) cw (up_replies u) uw) p.

(** [passthrough::run] *)
Definition passthrough_run (now seed : Z) (env : RelayEnv) (name : bytes) (remote loc : SocketAddr) (policy : RelayPolicy)
  (inspected : option ClientHello) (route : option PassthroughRoute) : plane RelayOutcome :=
  hello ← inspect_hello inspected;
  _ ← refuse_loop now hello;
  _ ← report (TrackSni (sni_host hello));
  _ ← count_uploaded (Z.of_nat (length (buffered hello)));
  selected ← select_passthrough now seed name (sni_host hello) remote policy route;
  _ ← report (TrackTarget (st_tls_server_name selected) (st_endpoint selected));
  _ ← remember_hello now hello;
  upstream ← open_passthrough (st_endpoint selected) (match route with Some r => pr_proxy_protocol r | None => ProxyProtocol.PNone end) remote loc;
  _ ← report (TrackStatus StatusOk);
  _ ← upstream_op (tcp_write (buffered hello)) RunReplay;
  relay_passthrough env (Z.of_nat (length (buffered hello))) upstream.

(** C6: TLS passthrough is transparent, in both directions.  For a connection
    whose ClientHello was read by the dispatcher, the backend is the one the
    pool of the route selects for the server name; when it is contacted the
    hello is in the loop cache.  It gets the PROXY header of the route (if
    any) followed by the bytes the client sends, from the first byte of the
    ClientHello on; the client gets the bytes the backend sends; each is a
    prefix of that, and all of it, shut down, for a direction that the
    relay's monitor did not cut and whose writes succeed.  The reports name
    the server name and the backend and, for an uncut direction, count
    exactly its bytes. *)
Theorem passthrough_transparent now seed env name remote loc policy client hello route (p p' : Plane S) o :
  read_client_hello acceptor_default accept read_tls client DEFAULT_MAX_CLIENT_HELLO_SIZE = (Ok hello, pl_client p) →
  queued (pl_out p) = [] →
  passthrough_run now seed env name remote loc policy (Some hello) (Some route) p = (Ok o, p') →
  ∃ selected hellos u leg up down,
    (select_routed_pool override lookup_host hash now seed name (sni_host hello) (pr_target route) (pr_target_port route) true
       (pr_proxy_protocol route) (sa_ip remote) (pr_load_balancing route) (pl_pools p)).1 = Ok selected ∧
    by_key hellos !! random hello = Some (now + DEFAULT_TTL) ∧ connect hellos (st_endpoint selected) = Some u ∧
    pl_hellos p' = hellos ∧ pl_leg p' = Some leg ∧ leg_endpoint leg = st_endpoint selected ∧ leg_session leg = None ∧
    accepted (leg_socket leg) `prefix_of` ProxyProtocol.header (pr_proxy_protocol route) remote loc ++ contents client ∧
    accepted (pl_out p') `prefix_of` accepted (pl_out p) ++ contents (up_replies u) ∧
    pl_tracks p' = pl_tracks p ++ [TrackSni (sni_host hello); TrackUploaded (Z.of_nat (length (buffered hello)));
      TrackTarget (st_tls_server_name selected) (st_endpoint selected); TrackStatus StatusOk; TrackUploaded up; TrackDownloaded down] ∧
    (upload_whole o = true → up_budget u = None →
       leg_socket leg = MkWriter [] (ProxyProtocol.header (pr_proxy_protocol route) remote loc ++ contents client) None true ∧
       (Z.of_nat (length (buffered hello)) + up) mod (u64_max + 1) = Z.of_nat (length (contents client)) mod (u64_max + 1)) ∧
    (download_whole o = true → budget (pl_out p) = None →
       pl_out p' = MkWriter [] (accepted (pl_out p) ++ contents (up_replies u)) None true ∧
       down = Z.of_nat (length (contents (up_replies u))) mod (u64_max + 1)).
Proof.
  intros Hread Hqo Hr. eapply read_client_hello_lossless in Hread as [_ Hok].
  destruct (Hok hello eq_refl) as (Hloss & Hlen & _).
  assert (0 ≤ Z.of_nat (length (buffered hello)) ≤ u64_max) as Hcount.
  { unfold DEFAULT_MAX_CLIENT_HELLO_SIZE, u64_max in *. lia. }
  unfold passthrough_run in Hr. plane_step Hr. injection E as <- <-. plane_step Hr. revert E. unfold refuse_loop.
  destruct (cache_is_looped now (random hello) (pl_hellos p)) as [[] hellos0]; [done|]. intros [= <- <-].
  do 2 (plane_step Hr; injection E as _ <-).
  plane_step Hr. revert E. unfold select_passthrough. cbn [pl_pools set_reports set_caches].
  destruct (select_routed_pool _ _ _ _ _ _ _ _ _ _ _ _ _ _) as [[sel|e] pools] eqn:Esel; [|done]. intros [= <- <-].
  do 2 (plane_step Hr; injection E as _ <-). set (hellos := cache_insert _ _ _ _) in Hr.
  plane_step Hr. revert E. unfold open_passthrough. cbn [pl_hellos set_caches set_reports set_pools].
  destruct (connect hellos (st_endpoint sel)) as [u|] eqn:Ec; [|done].
  pose proof (announce_inv (pr_proxy_protocol route) remote loc (up_budget u)) as Ha.
  destruct (tcp_announce _ remote loc _) as [[] w]; [|done]. destruct Ha as (Hcw & Hqw & Haw & Hbw). intros [= <- <-].
  plane_step Hr. injection E as _ <-. set (header := ProxyProtocol.header _ remote loc) in *.
  plane_step Hr. apply (upstream_op_inv _ _ _ (MkLeg (st_endpoint sel) w None)) in E as [Hx Hw]; [|reflexivity]. rewrite Hx in Hr. clear Hx.
  unfold leg_writer, tcp_write in Hr, Hw. cbn [leg_session leg_socket] in Hr, Hw.
  destruct (spend (budget w)) as [b|] eqn:Eb; [|done]. clear Hw. unfold set_leg_writer in Hr. cbn [snd leg_session leg_endpoint] in Hr.
  unfold accepted in Haw. rewrite Hqw, app_nil_r in Haw. rewrite Hqw, Haw, Hcw in Hr.
  assert (up_budget u = None → b = None) as Hb by (intros Hu; rewrite (Hbw Hu) in Eb; by injection Eb as <-).
  unfold relay_passthrough in Hr. set (q := set_leg _ _) in Hr. set (w2 := MkWriter _ _ b false) in *.
  destruct (plane_relay_inv _ _ _ q (MkLeg (st_endpoint sel) w2 None) _ _ eq_refl Hr) as ([= ->] & Hout & Hleg & _ & Hh & _ & Htr).
  destruct (relay_to_carried shutdown (λ _, true) shutdown_accepted shutdown_unbounded env (Z.of_nat (length (buffered hello))) (pl_client p) (pl_out p)
    (up_replies u) w2 Hqo eq_refl Hcount) as [[(D & HD & HaU) HwU _] [(D' & HD' & HaD) HwD _]].
  unfold leg_writer in *. cbn [leg_session leg_socket pl_client pl_out q set_leg set_reports set_caches set_pools] in *.
  change (relay_to shutdown) with (relay (CR := ConnStream S) (UR := Source)) in *. set (out := relay _ _ _ _ _ _) in *.
  assert (accepted (pl_out p) = wire (pl_out p)) as Hao by (unfold accepted; by rewrite Hqo, app_nil_r).
  exists sel, hellos, u. do 3 eexists. split_and!; [done|unfold hellos, cache_insert; apply lookup_insert_eq|done|exact Hh|exact Hleg|done|done| | | | |].
  - cbn [set_leg_writer leg_session leg_socket]. rewrite HaU. cbn [wire w2]. rewrite <-Hloss, <-app_assoc. by do 2 apply prefix_app.
  - rewrite Hout, HaD, Hao. by apply prefix_app.
  - rewrite Htr. cbn. by rewrite <-!app_assoc.
  - cbn [upload_whole set_leg_writer leg_session leg_socket]. intros Hf Hu. destruct (HwU Hf (Hb Hu)) as [-> ->]. split.
    + cbn [wire w2]. by rewrite <-app_assoc, Hloss.
    + unfold relayed, counted. rewrite <-Hloss, length_app, Zplus_mod_idemp_r, Zplus_minus, Z.mod_mod by (unfold u64_max; lia). f_equal. lia.
  - cbn [download_whole]. intros Hf Hu. rewrite Hout. destruct (HwD Hf Hu) as [-> ->]. rewrite Hao. split; [done|].
    unfold relayed, counted. by rewrite Z.sub_0_r, Z.add_0_l, Z.mod_mod by (unfold u64_max; lia).
Qed.

End handlers.

(** A passthrough connection in two segments, with a PROXY header upstream;
    the client half-closes and the backend answers. *)
Module PassthroughExample.
Definition accept_all (seen : bytes) : accept_result * bytes := sample_accept seen.
Definition client : ConnStream Source := with_request_id [Seg (take 7 sample_hello); Seg (drop 7 sample_hello); Seg (lit "rest")] 1.
Definition hello : ClientHello := MkClientHello (lit "a.example") [] (seq_bytes 32) sample_hello.
Definition client' : ConnStream Source := with_request_id [Seg (lit "rest")] 1.
Definition remote : SocketAddr := MkSocketAddr (V4 [10; 0; 0; 9]) 5000.
Definition loc : SocketAddr := MkSocketAddr (V4 [10; 0; 0; 1]) 443.
Definition route : PassthroughRoute := MkPassthrough (Some (lit "b:80")) 443 RoundRobin ProxyProtocol.PV1.
Definition policy : RelayPolicy := MkPolicy default_https_bind None 443 None true.
Definition upstream : Upstream := MkUpstream None [Seg (lit "reply")] (λ _, MkHandshake [] None).
Definition connect (_ : Cache bytes) (_ : bytes) : option Upstream := Some upstream.
Definition env : RelayEnv := MkRelayEnv 0 0 [DownAt 3 (Wake true); UpAt 4 (Wake false); UpAt 5 (Wake false); UpAt 6 (Wake false); UpAt 6 (Wake false); Tick 500].
Definition start : Plane Source := MkPlane cache_new cache_new SelectExamples.empty [] stats_new client' (fresh_socket None) None.
Definition run :=
  passthrough_run SelectExamples.no_override SelectExamples.dns length_hash connect [] accept_all (λ a d, Some (a ++ d)) 5 0 env
    (lit "l") remote loc policy (Some hello) (Some route) start.

Lemma passthrough_transparent_witness :
  match run.1 with Ok o => upload_whole o && download_whole o | Err _ => false end = true ∧
  ∃ leg, pl_leg run.2 = Some leg ∧ wire (leg_socket leg) = ProxyProtocol.header ProxyProtocol.PV1 remote loc ++ sample_hello ++ lit "rest" ∧
    wire (pl_out run.2) = lit "reply".
Proof.
  assert (match run.1 with Ok o => upload_whole o && download_whole o | Err _ => false end = true) as Hok by (vm_compute; reflexivity).
  split; [exact Hok|]. destruct run as [r p'] eqn:E. cbn [fst snd] in *. destruct r as [o|e]; [|discriminate Hok].
  apply andb_true_iff in Hok as [Hu Hd].
  destruct (passthrough_transparent SelectExamples.no_override SelectExamples.dns length_hash connect [] accept_all (λ a d, Some (a ++ d))
    5 0 env (lit "l") remote loc policy client hello route start p' o)
    as (selected & hellos & u & leg & up & down & _ & _ & Hc & _ & Hleg & _ & _ & _ & _ & _ & Hup & Hdown);
    [vm_compute; reflexivity|reflexivity|exact E|]. injection Hc as <-.
  exists leg. split; [exact Hleg|]. destruct (Hup Hu eq_refl) as [-> _]. destruct (Hdown Hd eq_refl) as [-> _]. split; vm_compute; reflexivity.
Defined.
End PassthroughExample.

(** ** Who serves a connection *)

Section served.
Context {CertifiedKey : Type} (certified_key : bytes → option CertifiedKey).
Context {A : Type} (acceptor_default : A) (accept : A → accept_result * A) (read_tls : A → bytes → option A).
Context {S : Type} `{AsyncReadOk S} (is_match : Regex → bytes → bool).
Local Abbreviation handle := (handle_connection certified_key acceptor_default accept read_tls is_match).

(** What the handler must be for the name and the protocols of the hello. *)
Definition right_handler (now : Z) (c : DefaultListenerConfig) (control : option bytes) (hello : ClientHello)
  (entries : gmap bytes (ChallengeEntry CertifiedKey)) (d : bytes) (served : Served (CertifiedKey := CertifiedKey)) : Prop :=
  let acme := TLS_ALPN_PROTOCOL ∈ alpn_protocols hello ∧ is_Some (challenge_resolve now d entries).1 in
  let control_host := control ≫= AcmeDns.normalize_domain = Some d in
  let action := select_tls_route is_match (ordinary_traffic c) d in
  match served with
  | ServedControl host => host = d ∧ control_host ∧ ¬ acme
  | ServedBy (AcceptChallenge cert) => acme ∧ (challenge_resolve now d entries).1 = Some cert
  | ServedBy (RunPassthrough policy r) => ¬ acme ∧ ¬ control_host ∧ rp_upstream_tls policy = true ∧
      action = Some (Passthrough (pr_target_port r) (pr_target r) (pr_load_balancing r) (pr_proxy_protocol r))
  | ServedBy (RunTerminate policy r key) => ¬ acme ∧ ¬ control_host ∧ certified_key (sni_host hello) = Some key ∧
      rp_upstream_tls policy = tr_upstream_tls r ∧
      ∃ upstream, action = Some (Terminate (tr_target_port r) (tr_target r) upstream (tr_load_balancing r) (tr_proxy_protocol r)) ∧
        tr_upstream_tls r = bool_decide (upstream = Tls)
  | ServedBy (RunReverseProxy policy a key) => ¬ acme ∧ ¬ control_host ∧ certified_key (sni_host hello) = Some key ∧
      action = Some (TlsReverseProxy a)
  end.

Lemma acme_alpn_spec hello : existsb (λ p, eqb_bytes p TLS_ALPN_PROTOCOL) (alpn_protocols hello) = true ↔
  TLS_ALPN_PROTOCOL ∈ alpn_protocols hello.
Proof.
  rewrite existsb_exists. setoid_rewrite list_elem_of_In. split.
  - intros (x & Hx & ->%eqb_bytes_spec). done.
  - intros Hx. exists TLS_ALPN_PROTOCOL. split; [done|]. by apply eqb_bytes_spec.
Qed.

Lemma challenge_resolve_live (now : Z) (d : bytes) (entries : gmap bytes (ChallengeEntry CertifiedKey)) :
  is_Some (challenge_resolve now d entries).1 → (challenge_resolve now d entries).2 = entries.
Proof. unfold challenge_resolve. intros [c Hc]. by repeat case_match. Qed.

Lemma decide_route_spec hello c control active d :
  AcmeDns.normalize_domain (sni_host hello) = Some d →
  decide_route is_match hello c control active =
    if existsb (λ p, eqb_bytes p TLS_ALPN_PROTOCOL) (alpn_protocols hello) && active d then ConnAcme d
    else if bool_decide (control ≫= AcmeDns.normalize_domain = Some d) then ConnControl d
    else match select_tls_route is_match (ordinary_traffic c) d with
         | Some action => ConnOrdinary d action
         | None => ConnReject PolicyDenied
         end.
Proof.
  intros Ed. unfold decide_route, classify. cbn [mbind option_bind]. rewrite Ed. destruct (existsb _ _ && active d); [done|].
  case_bool_decide; [done|]. destruct (select_tls_route is_match (ordinary_traffic c) d) as [action|] eqn:Ea.
  - rewrite bool_decide_eq_true_2 by done. by rewrite Ea.
  - by rewrite bool_decide_eq_false_2 by by intros [].
Qed.

(** The branches after the challenge protocol is out of the way. *)
Lemma ordinary_served (now : Z) (c : DefaultListenerConfig) (control : option bytes) (cl : ConnStream S) (h : ClientHello) (d : bytes) (entries e1 : gmap bytes (ChallengeEntry CertifiedKey)) (cache : Cache bytes)
  served hello client' entries' cache' :
  AcmeDns.normalize_domain (sni_host h) = Some d →
  ¬ (TLS_ALPN_PROTOCOL ∈ alpn_protocols h ∧ is_Some (challenge_resolve now d entries).1) →
  serve_route certified_key now c h cl e1 cache
    (if bool_decide (control ≫= AcmeDns.normalize_domain = Some d) then ConnControl d
     else match select_tls_route is_match (ordinary_traffic c) d with
          | Some action => ConnOrdinary d action
          | None => ConnReject PolicyDenied
          end) = (Ok (served, hello), client', entries', cache') →
  hello = h ∧ right_handler now c control h entries d served ∧
    match served with
    | ServedBy (RunPassthrough _ _) | ServedBy (RunTerminate _ _ _) | ServedBy (RunReverseProxy _ _ _) =>
        (cache_is_looped now (random h) cache).1 = false
    | _ => True
    end.
Proof.
  intros Hd Hna.
  destruct (bool_decide_reflect (control ≫= AcmeDns.normalize_domain = Some d)) as [Hc|Hc].
  { intros [= <- <- _ _ _]. split_and!; done. }
  destruct (select_tls_route is_match (ordinary_traffic c) d) as [action|] eqn:Ea; [|done].
  cbn [serve_route dispatch_non_control]. destruct (cache_is_looped now (random h) cache) as [[] cache1] eqn:El; [done|].
  destruct action as [port target lb pp|port target upstream lb pp|action|]; cbn [mbind result_bind].
  - intros [= <- <- _ _ _]. unfold right_handler. rewrite Ea. split_and!; done.
  - destruct (certified_key (sni_host h)) as [key|] eqn:Ek; [|done]. cbn. intros [= <- <- _ _ _].
    unfold right_handler. rewrite Ea. split_and!; try done. by exists upstream.
  - destruct (certified_key (sni_host h)) as [key|] eqn:Ek; [|done]. cbn. intros [= <- <- _ _ _].
    unfold right_handler. rewrite Ea. split_and!; done.
  - done.
Qed.

(** C4: precedence of the mandatory listener.  A connection that is served
    has a valid server name, and goes to: the certificate of its name's
    active ACME challenge, if it asks for the challenge protocol; otherwise
    the control plane if the name is the control hostname, which is thus
    never proxied; otherwise the handler of the best route of its name, with
    the route's parameters, and never if its ClientHello is one this proxy
    sent recently. *)
Theorem connection_served_right (now : Z) (c : DefaultListenerConfig) (control : option bytes) (client : ConnStream S) entries cache served hello client' entries' cache' :
  handle now c control client entries cache = (Ok (served, hello), client', entries', cache') →
  ∃ d, AcmeDns.normalize_domain (sni_host hello) = Some d ∧ right_handler now c control hello entries d served ∧
    match served with
    | ServedBy (RunPassthrough _ _) | ServedBy (RunTerminate _ _ _) | ServedBy (RunReverseProxy _ _ _) =>
        (cache_is_looped now (random hello) cache).1 = false
    | _ => True
    end.
Proof.
  unfold handle_connection. destruct (read_client_hello _ _ _ _ _) as [[h|e] cl]; [|done].
  destruct (AcmeDns.normalize_domain (sni_host h)) as [d|] eqn:Ed.
  2: { unfold decide_route, classify. cbn [mbind option_bind]. by rewrite Ed. }
  rewrite (decide_route_spec _ _ _ _ d Ed). pose proof (acme_alpn_spec h) as Halpn.
  destruct (existsb _ (alpn_protocols h)); cbn [andb].
  - destruct (challenge_resolve now d entries) as [[cert|] e1] eqn:Er; cbn [fst snd].
    + assert (e1 = entries) as ->. { pose proof (challenge_resolve_live now d entries) as Hl. rewrite Er in Hl. by apply Hl. }
      rewrite bool_decide_eq_true_2 by done. cbn [serve_route dispatch_non_control]. rewrite Er. cbn.
      intros [= <- <- <- <- <-]. exists d. split; [done|]. split; [|done]. unfold right_handler. rewrite Er. cbn.
      split; [|done]. split; [by apply Halpn|done].
    + rewrite bool_decide_eq_false_2 by by intros []. intros Hout.
      apply (ordinary_served now c control cl h d entries e1 cache) in Hout as (-> & ? & ?); [by exists d|done|].
      intros [_ Ha]. rewrite Er in Ha. by destruct Ha.
  - intros Hout. apply (ordinary_served now c control cl h d entries entries cache) in Hout as (-> & ? & ?);
      [by exists d|done|]. intros [Ha _]. by apply Halpn in Ha.
Qed.

End served.

Module ServedExample.
Definition listener : DefaultListenerConfig := MkDefaultListener default_https_bind default_tls_config.
Definition out := handle_connection (CertifiedKey := bytes) (λ sni, Some sni) [] sample_accept (λ a d, Some (a ++ d)) (λ _ _, false) 5
  listener (Some (lit "A.Example.")) PassthroughExample.client ∅ (cache_new : Cache bytes).

Lemma connection_served_right_witness :
  out.1.1.1 = Ok (ServedControl (lit "a.example"), PassthroughExample.hello) ∧
  ∃ d, AcmeDns.normalize_domain (lit "a.example") = Some d ∧
    right_handler (CertifiedKey := bytes) (λ sni, Some sni) (λ _ _, false) 5 listener (Some (lit "A.Example."))
      PassthroughExample.hello ∅ d (ServedControl (lit "a.example")).
Proof.
  assert (out.1.1.1 = Ok (ServedControl (lit "a.example"), PassthroughExample.hello)) as Hok by (vm_compute; reflexivity).
  split; [exact Hok|]. destruct out as [[[r cl] es] ca] eqn:E. cbn [fst] in Hok. subst r.
  destruct (connection_served_right (CertifiedKey := bytes) (λ sni, Some sni) [] sample_accept (λ a d, Some (a ++ d)) (λ _ _, false)
    5 listener (Some (lit "A.Example.")) PassthroughExample.client ∅ (cache_new : Cache bytes) _ _ _ _ _ E) as (d & Hd & Hr & _).
  exists d. split; [exact Hd|exact Hr].
Defined.
End ServedExample.
