(* ===== verification/ControlPlane.v ===== *)
(** * The control plane's connections (src/listener/control_plane.rs)

    From the mandatory listener's decision to the TLS session the control
    API is served on.  The TLS library's acceptor and the HTTP server are
    parameters. *)

From S2P Require Import Prelude RustStd Net Stream TlsHeader HelloCache AcmeChallenge FilePath AcmeDns Config RuntimeConfig Store Lru LocalCa ManagedTls DefaultListener.
Open Scope Z_scope.

Inductive control_error := SniChanged | ControlCertificate (e : tls_error) | AcceptTimedOut | AcceptFailed | HandshakeTimedOut | HandshakeFailed | HttpFailed.
Definition CONTROL_ALPN : list bytes := [lit "h2"; lit "http/1.1"].

Section control.
Context {S Start Session C : Type} `{AsyncReadOk S} {ca_lru : LruCache C bytes CachedIdentity}.
(** The TLS library: the acceptor reads the ClientHello, then the handshake
    is completed with the certificate and the protocols; [None] is the
    five-second timeout.  [serve_http] is the HTTP server on the session. *)
Context (acceptor : ConnStream S → option (option Start)) (into_stream : Start → CertifiedKey → list bytes → option (option Session)) (serve_http : Session → bool).
Context (dns_name_ok : bytes → bool) (sign : LeafParams → bytes → option bytes) (certificate_expires_at : bytes → option Z)
  (identity_ok : list bytes → bytes → bool) (ca_chain : list bytes).
Abbreviation resolve_key := (resolve_with_fallback dns_name_ok sign certificate_expires_at identity_ok ca_chain).

Definition handshake (key : CertifiedKey) (client : ConnStream S) : result control_error () :=
  start ← ok_or (acceptor client) AcceptTimedOut;
  start ← ok_or start AcceptFailed;
  tls ← ok_or (into_stream start key CONTROL_ALPN) HandshakeTimedOut;
  tls ← ok_or tls HandshakeFailed;
  guard! serve_http tls else HttpFailed;
  Ok ().
Definition serve_inner (i : MintInput) (fallback : CertificateFallbackPolicy) (entries : gmap bytes CachedCertificate) (hostname : bytes) (hello : ClientHello)
  (client : ConnStream S) (ca : C) : result control_error () * C :=
  if negb (eqb_bytes (sni_host hello) hostname) then (Err SniChanged, ca)
  else match resolve_key i hostname fallback entries ca with
       | (Err e, ca) => (Err (ControlCertificate e), ca)
       | (Ok key, ca) => (handshake key (unread (buffered hello) client), ca)
       end.

Context {A : Type} (acceptor_default : A) (accept : A → accept_result * A) (read_tls : A → bytes → option A).
Context (is_match : Regex → bytes → bool) (certified_key : bytes → option CertifiedKey).
Abbreviation handle := (handle_connection certified_key acceptor_default accept read_tls is_match).

(** A connection the listener gives to the control service was read without
    loss, and its hostname is the normal form of the name it asked for. *)
Lemma control_handed_over now c control (client client' : ConnStream S) entries cache host hello entries' cache' :
  handle now c control client entries cache = (Ok (ServedControl host, hello), client', entries', cache') →
  buffered hello ++ contents client' = contents client ∧ AcmeDns.normalize_domain (sni_host hello) = Some host.
Proof.
  unfold handle_connection. destruct (read_client_hello acceptor_default accept read_tls client DEFAULT_MAX_CLIENT_HELLO_SIZE) as [[h|e] cl] eqn:Er; [|done].
  apply read_client_hello_lossless in Er as [_ Hl]. destruct (Hl h eq_refl) as (Hc&_).
  unfold serve_route. destruct (decide_route _ _ _ _ _) as [d|d|d act|reason] eqn:Ed.
  2: { intros [= -> <- <- _ _]. split; [done|]. unfold decide_route, classify in Ed. destruct (Some (sni_host h) ≫= AcmeDns.normalize_domain) as [n|] eqn:En; [|done].
       cbn in En. rewrite En. destruct (_ && _); [done|]. case_bool_decide; [by simplify_eq|]. repeat (case_match; try done). }
  all: repeat case_match; intros [=].
Qed.

(** C5: Control traffic reaches the control API intact, or not at all.  When
    the mandatory listener hands a connection to the control service and the
    client named the host as it is configured, the TLS handshake is done
    with the certificate found for that host, on a stream that begins with
    the connection's first byte; without a certificate nothing is
    answered.  A client that spells the name differently (with a trailing
    dot, for instance) is classified as control traffic and then refused. *)
Theorem control_connection_served now c control (client client' : ConnStream S) entries cache host hello entries' cache' i fallback certs ca :
  handle now c control client entries cache = (Ok (ServedControl host, hello), client', entries', cache') →
  let out := serve_inner i fallback certs host hello client' ca in
  (sni_host hello = host → ∃ stream, contents stream = contents client
     ∧ out = match resolve_key i host fallback certs ca with
             | (Ok key, ca') => (handshake key stream, ca')
             | (Err e, ca') => (Err (ControlCertificate e), ca')
             end)
  ∧ (sni_host hello ≠ host → out = (Err SniChanged, ca)).
Proof.
  intros Hrun. apply control_handed_over in Hrun as [Hc Hn]. cbv zeta. unfold serve_inner. split.
  - intros <-. rewrite (proj2 (eqb_bytes_spec _ _) eq_refl). cbn [negb]. exists (unread (buffered hello) client'). split; [by rewrite contents_unread|].
    by destruct (resolve_key _ _ _ _ _) as [[key|e] ca'].
  - intros Hne. destruct (eqb_bytes (sni_host hello) host) eqn:E; [by apply eqb_bytes_spec in E|]. done.
Qed.
End control.

Module ControlPlaneExample.
Definition out := handle_connection (CertifiedKey := CertifiedKey) (λ _, None) [] sample_accept (λ a d, Some (a ++ d)) (λ _ _, false) 5
  ServedExample.listener (Some (lit "A.Example.")) PassthroughExample.client ∅ (cache_new : Cache bytes).
(** A handshake that reads the ClientHello back. *)
Definition accept_stream (client : ConnStream Source) : option (option bytes) := Some (Some (take 5 (contents client))).
Definition complete (start : bytes) (key : CertifiedKey) (alpn : list bytes) : option (option bytes) := Some (Some start).
Definition key : CertifiedKey := MkKey [lit "leaf"] (lit "k").
Definition certs : gmap bytes CachedCertificate := {[lit "a.example" := MkCachedCert (lit "a.example") (lit "g1") key]}.
Definition served (hello : ClientHello) (client : ConnStream Source) :=
  serve_inner (C := ca_example.small_cache) accept_stream complete (λ start, bool_decide (start = take 5 sample_hello)) (λ _, true) ca_example.toy_leaf ca_example.toy_expiry
    (λ _ _, true) [] (MkMint 5 5 6 None) FallbackReject certs (lit "a.example") hello client lru_new.
End ControlPlaneExample.
Lemma control_connection_served_witness :
  ∃ stream : ConnStream Source, contents stream = contents PassthroughExample.client
    ∧ ControlPlaneExample.served PassthroughExample.hello PassthroughExample.client' = (Ok (), lru_new).
Proof.
  assert (ControlPlaneExample.out.1.1 = (Ok (ServedControl (lit "a.example"), PassthroughExample.hello), PassthroughExample.client')) as Hok by (vm_compute; reflexivity).
  destruct ControlPlaneExample.out as [[[r cl] es] cc] eqn:E. cbn [fst] in Hok. injection Hok as -> ->.
  destruct (control_connection_served (C := ca_example.small_cache) ControlPlaneExample.accept_stream ControlPlaneExample.complete (λ start, bool_decide (start = take 5 sample_hello))
    (λ _, true) ca_example.toy_leaf ca_example.toy_expiry (λ _ _, true) [] [] sample_accept (λ a d, Some (a ++ d)) (λ _ _, false) (λ _, None) 5 ServedExample.listener (Some (lit "A.Example."))
    PassthroughExample.client PassthroughExample.client' ∅ (cache_new : Cache bytes) (lit "a.example") PassthroughExample.hello es cc (MkMint 5 5 6 None) FallbackReject
    ControlPlaneExample.certs lru_new E) as [Hs _].
  destruct (Hs eq_refl) as (stream&Hc&_). exists stream. split; [exact Hc|]. vm_compute. reflexivity.
Defined.
