(* ===== verification/Terminate.v ===== *)
(** * Raw forwarding and TLS termination (src/dataplane/l4.rs,
      src/dataplane/tls/terminate.rs)

    Both connect, announce the client, optionally wrap the upstream in TLS
    and relay bytes.  The server side of TLS (rustls' acceptor) is a
    parameter: it gives the name the client asked for and, with a
    certificate, a decrypted stream. *)

From S2P Require Import Prelude RustStd Net ProxyProtocol Stream TlsHeader HelloCache BindAddr AcmeChallenge Config Accounting ActiveTracker HttpHead HttpPath HttpRewrite ChunkedBody BodyReader RuntimeConfig Forward ForwardProps ForwardSelect Health Relay Dataplane FilePath ErrorPages StaticFiles Listing StaticServe HttpPlane HttpSafety DefaultListener.
Open Scope Z_scope.

Inductive l4_error :=
| NoOnlineBackend
| L4SelfConnect
| L4Connect
| L4Announce
| L4UpstreamTls
| L4Relay
| ClientHelloFailed
| NoServerName
| SniChanged
| SelectFailed (e : select_error)
| NoKey
| ClientHandshake.

(** ** The upstream half both handlers share *)

Section upstream.
Context (connect : bytes → option Upstream).
Context {S : Type}.
Local Abbreviation plane := (plane S l4_error).

(** Connect and announce: [None] announces nothing. *)
Definition open_upstream (endpoint : bytes) (announce : option (ProxyProtocol.ProxyProtocol * SocketAddr * SocketAddr)) : plane Upstream := λ p,
  match connect endpoint with
  | None => (Err L4Connect, p)
  | Some u =>
      let '(ok, w) := match announce with
                      | Some (pp, client, loc) => tcp_announce pp client loc (fresh_socket (up_budget u))
                      | None => (true, fresh_socket (up_budget u))
                      end in
      ((if ok then Ok u else Err L4Announce), set_leg (Some (MkLeg endpoint w None)) p)
  end.

(** The relay over the socket or over a trust-all TLS session on it. *)
Definition relay_upstream {CR : Type} `{AsyncReadOk CR} (now : Z) (env : RelayEnv) (upstream_tls : bool)
  (server_name : bytes) (u : Upstream) (client_read : CR) : plane RelayOutcome :=
  upstream_read ← (if upstream_tls then connect_trust_all_tls now u server_name L4UpstreamTls else mret (up_replies u));
  plane_relay 0 L4Relay (λ cw uw, relay env 0 client_read cw upstream_read uw).
End upstream.

(** ** Raw forwarding *)

Section l4.
Context (lookup_host : bytes → option (list SocketAddr)) (hash : IpAddr → bytes → Z).
Context (get_if_addrs : option (list IfAddr)) (endpoints : SelfEndpoints) (connect : bytes → option Upstream).
Context {S : Type} `{AsyncReadOk S}.
Local Abbreviation plane := (plane S l4_error).

Definition choose_backend (seed : Z) (name : bytes) (client_ip : IpAddr) (lb : HttpLoadBalancing) : plane SelectedTarget := λ p,
  let '(r, pools) := choose_online hash seed name client_ip lb (pl_pools p) in (ok_or r NoOnlineBackend, set_pools pools p).

Definition relay_client (now : Z) (env : RelayEnv) (upstream_tls : bool) (server_name : bytes) (u : Upstream) : plane RelayOutcome := λ p,
  relay_upstream now env upstream_tls server_name u (pl_client p) p.

(** [l4::run] *)
Definition l4_run (now seed : Z) (env : RelayEnv) (name : bytes) (remote loc : SocketAddr) (policy : RelayPolicy)
  (lb : HttpLoadBalancing) (pp : ProxyProtocol.ProxyProtocol) : plane RelayOutcome :=
  resolved ← choose_backend seed name (sa_ip remote) lb;
  _ ← report (TrackTarget (st_tls_server_name resolved) (st_endpoint resolved));
  if negb (reject_obvious_self_connect get_if_addrs lookup_host endpoints (rp_bind policy) (st_endpoint resolved))
  then plane_fail L4SelfConnect
  else
    upstream ← open_upstream connect (st_endpoint resolved) (Some (pp, remote, loc));
    _ ← report (TrackStatus StatusOk);
    relay_client now env (rp_upstream_tls policy) (st_tls_server_name resolved) upstream.
End l4.

(** ** Termination *)

(** A parsed ClientHello waiting for a configuration. *)
Record TlsStart (CertifiedKey T : Type) := MkStart {
  ts_server_name : option bytes;
  (** The handshake with a key and the offered protocols: the decrypted
      stream and how much can be written to it. *)
  ts_into_stream : CertifiedKey → list bytes → option (T * option nat);
}.
Arguments MkStart {_ _} _ _.
Arguments ts_server_name {_ _} _.
Arguments ts_into_stream {_ _} _ _ _.

Section terminate.
Context (override : bytes → Z → option bytes) (lookup_host : bytes → option (list SocketAddr)) (hash : IpAddr → bytes → Z).
Context (get_if_addrs : option (list IfAddr)) (endpoints : SelfEndpoints) (connect : bytes → option Upstream).
Context {CertifiedKey S T : Type} `{AsyncReadOk S} `{AsyncReadOk T}.
(** [LazyConfigAcceptor] under its timeout; the local CA. *)
Context (acceptor : ConnStream S → option (TlsStart CertifiedKey T)) (resolve_or_mint : bytes → option CertifiedKey).
Local Abbreviation plane := (plane S l4_error).

Record InspectedRoute := MkInspected { expected_sni : bytes; ir_client : SocketAddr; ir_local : SocketAddr; ir_route : TerminateRoute }.

Definition select_terminate (now seed : Z) (name sni_target : bytes) (policy : RelayPolicy) (upstream_tls : bool) (route : option InspectedRoute)
  : plane SelectedTarget := λ p,
  let '(r, pools) :=
    match route with
    | Some i => select_routed_pool override lookup_host hash now seed name sni_target (tr_target (ir_route i)) (tr_target_port (ir_route i))
                  upstream_tls (tr_proxy_protocol (ir_route i)) (sa_ip (ir_client i)) (tr_load_balancing (ir_route i)) (pl_pools p)
    | None => select_runtime_target override lookup_host hash now sni_target (rp_target_port policy) upstream_tls sni_target (pl_pools p)
    end in
  (match r with Ok s => Ok s | Err e => Err (SelectFailed e) end, set_pools pools p).

(** From here the client is written to through its TLS session. *)
Definition enter_tls (client_budget : option nat) : plane () := λ p, (Ok (), set_out (fresh_socket client_budget) p).

(** [run_stream] *)
Definition run_stream (now seed : Z) (env : RelayEnv) (name : bytes) (policy : RelayPolicy) (route : option InspectedRoute)
  (certified_key : option CertifiedKey) : plane RelayOutcome := λ p,
  match acceptor (pl_client p) with
  | None => (Err ClientHelloFailed, p)
  | Some start =>
      match ts_server_name start with
      | None => (Err NoServerName, p)
      | Some sni_target =>
          if match route with Some i => negb (eqb_bytes (expected_sni i) sni_target) | None => false end then (Err SniChanged, p)
          else
            let upstream_tls := match route with Some i => tr_upstream_tls (ir_route i) | None => rp_upstream_tls policy end in
            (_ ← report (TrackSni sni_target);
             selected ← select_terminate now seed name sni_target policy upstream_tls route;
             _ ← report (TrackTarget (st_tls_server_name selected) (st_endpoint selected));
             match match certified_key with Some key => Some key | None => resolve_or_mint sni_target end with
             | None => plane_fail NoKey
             | Some key =>
                 match ts_into_stream start key [] with
                 | None => plane_fail ClientHandshake
                 | Some (tls_stream, client_budget) =>
                     _ ← enter_tls client_budget;
                     if upstream_tls && negb (reject_obvious_self_connect get_if_addrs lookup_host endpoints (rp_bind policy) (st_endpoint selected))
                     then plane_fail L4SelfConnect
                     else
                       upstream ← open_upstream connect (st_endpoint selected)
                         ((λ i, (tr_proxy_protocol (ir_route i), ir_client i, ir_local i)) <$> route);
                       _ ← report (TrackStatus StatusOk);
                       relay_upstream now env upstream_tls sni_target upstream tls_stream
                 end
             end) p
      end
  end.

Definition run_inspected (now seed : Z) (env : RelayEnv) (name : bytes) (remote loc : SocketAddr) (policy : RelayPolicy)
  (hello : ClientHello) (route : TerminateRoute) (certified_key : CertifiedKey) : plane RelayOutcome := λ p,
  run_stream now seed env name policy (Some (MkInspected (TlsHeader.sni_host hello) remote loc route)) (Some certified_key)
    (set_client (unread (TlsHeader.buffered hello) (pl_client p)) p).

(** ** Termination into HTTP *)

Definition switch_client (c : ConnStream T) (out : Writer) (p : Plane S) : Plane T :=
  MkPlane (pl_hellos p) (pl_tokens p) (pl_pools p) (pl_tracks p) (pl_stats p) c out (pl_leg p).

Inductive reverse_error := ReverseHello | ReverseHandshake | ReverseHttp (e : plane_error).

Context (civil : Z → DateTime) (to_lowercase : bytes → bytes) {G Z' : Type} `{Compressor G} `{Compressor Z'} (fs : Fs).
Context (b64_decode : bytes → option bytes) (ct_eq : bytes → bytes → bool).

(** [HeadIntercept::intercept] *)
Definition head_intercept (p : Plane T) : result plane_error HttpHead * Plane T := read_head p.

Definition run_reverse_proxy (now seed random : Z) (env : RelayEnv) (name : bytes) (remote loc : SocketAddr)
  (policy : RelayPolicy) (hello : ClientHello) (key : CertifiedKey) (action : HttpRouteAction) (p : Plane S)
  : result reverse_error Ending * (Plane S + Plane T) :=
  let client := unread (TlsHeader.buffered hello) (pl_client p) in
  let p := set_client client p in
  match acceptor client with
  | None => (Err ReverseHello, inl p)
  | Some start =>
      match ts_into_stream start key [lit "http/1.1"] with
      | None => (Err ReverseHandshake, inl p)
      | Some (tls_stream, client_budget) =>
          let q := switch_client (with_request_id tls_stream (request_id client)) (fresh_socket client_budget) p in
          match head_intercept q with
          | (Err e, q) => (Err (ReverseHttp e), inr q)
          | (Ok head, q) =>
              let route_key := name ++ [COLON] ++ to_ascii_lowercase (TlsHeader.sni_host hello) in
              match http_run override lookup_host hash civil to_lowercase (G := G) (Z' := Z') fs b64_decode ct_eq get_if_addrs endpoints connect
                      now seed random env name remote loc policy (Some head) (Some (route_key, action)) true
                      (Some (TlsHeader.sni_host hello)) q with
              | (Ok e, q) => (Ok e, inr q)
              | (Err e, q) => (Err (ReverseHttp e), inr q)
              end
          end
      end
  end.
End terminate.

(** ** What the upstream and the client get *)

(** A finished relay over [u], announced with [header]: what went up is a
    prefix of what [client] held, what came down of what the upstream sent
    ([replies]); a direction that was not cut carried all of it and was shut
    down; and with a TLS upstream the header came before the handshake. *)
Record bridged (o : RelayOutcome) (u : Upstream) (tls : bool) (server_name header client : bytes) (out : Writer) (replies : Source) (out' : Writer) (leg : Leg) : Prop := {
  br_source : if tls then ∃ b, hs_session (up_handshake u server_name) = Some (b, replies) else replies = up_replies u;
  br_up_prefix : accepted (plaintext tls leg) `prefix_of` (if tls then [] else header) ++ client;
  br_up : upload_whole o = true → unlimited u → plaintext tls leg = MkWriter [] ((if tls then [] else header) ++ client) None true;
  br_socket : tls = true → wire (leg_socket leg) = header ++ concat (hs_written (up_handshake u server_name));
  br_down_prefix : accepted out' `prefix_of` wire out ++ contents replies;
  br_down : download_whole o = true → budget out = None → out' = MkWriter [] (wire out ++ contents replies) None true;
}.

Definition announced (a : option (ProxyProtocol.ProxyProtocol * SocketAddr * SocketAddr)) : bytes :=
  match a with Some (pp, client, loc) => ProxyProtocol.header pp client loc | None => [] end.

Section bridge.
Context (connect : bytes → option Upstream) {S CR : Type} `{AsyncReadOk CR}.
Implicit Types p : Plane S.

Lemma open_upstream_inv endpoint ann p u p' :
  open_upstream connect endpoint ann p = (Ok u, p') →
  connect endpoint = Some u ∧ ∃ w, p' = set_leg (Some (MkLeg endpoint w None)) p ∧ queued w = [] ∧ wire w = announced ann ∧
    (unlimited u → budget w = None).
Proof.
  unfold open_upstream. destruct (connect endpoint) as [u'|]; [|done].
  assert (∀ ok w, match ann with Some (pp, client, loc) => tcp_announce pp client loc (fresh_socket (up_budget u')) | None => (true, fresh_socket (up_budget u')) end = (ok, w) →
    ok = true → queued w = [] ∧ wire w = announced ann ∧ (up_budget u' = None → budget w = None)) as Hann.
  { intros ok w E ->. destruct ann as [[[pp client] loc]|]; [|by injection E as <-].
    pose proof (announce_inv pp client loc (up_budget u')) as Ha. rewrite E in Ha. destruct Ha as (_ & _ & Hacc & Hb).
    assert (queued w = []) as Hq.
    { revert E. unfold tcp_announce, tcp_write. destruct (ProxyProtocol.is_none pp); [by intros [= <-]|].
      destruct (spend _); [|done]. by intros [= <-]. }
    unfold accepted in Hacc. rewrite Hq, app_nil_r in Hacc. done. }
  destruct (match ann with Some _ => _ | None => _ end) as [[] w]; [|done]. intros [= <- <-].
  destruct (Hann true w eq_refl eq_refl) as (Hq & Hw & Hb). split; [done|]. exists w. split_and!; [done|done|done|]. intros [Hu _]. auto.
Qed.

Lemma relay_upstream_bridged now env tls name u (cr : CR) p e w header o p' :
  pl_leg p = Some (MkLeg e w None) → queued (pl_out p) = [] → queued w = [] → wire w = header → (unlimited u → budget w = None) →
  relay_upstream now env tls name u cr p = (Ok o, p') →
  ∃ leg replies, pl_leg p' = Some leg ∧ leg_endpoint leg = e ∧
    bridged o u tls name header (contents cr) (pl_out p) replies (pl_out p') leg.
Proof.
  intros Hl Hqo Hq Hw Hb Hr. unfold relay_upstream in Hr.
  assert (∃ replies p1 l1, pl_leg p1 = Some l1 ∧ leg_endpoint l1 = e ∧ pl_out p1 = pl_out p ∧
    plane_relay 0 L4Relay (λ cw uw, relay env 0 cr cw replies uw) p1 = (Ok o, p') ∧
    (if tls then ∃ b, hs_session (up_handshake u name) = Some (b, replies) else replies = up_replies u) ∧
    queued (leg_writer l1) = [] ∧ wire (leg_writer l1) = (if tls then [] else header) ∧ (unlimited u → budget (leg_writer l1) = None) ∧
    leg_session l1 = (if tls then Some (name, leg_writer l1) else None) ∧
    (tls = true → wire (leg_socket l1) = header ++ concat (hs_written (up_handshake u name))))
    as (replies & p1 & l1 & Hl1 & He & Hout & Hrel & Hsrc & Hq1 & Hw1 & Hb1 & Hs1 & Hsock).
  { destruct tls.
    - plane_step Hr. revert E. unfold connect_trust_all_tls. rewrite Hl.
      destruct (hs_session (up_handshake u name)) as [[b rep]|] eqn:Ehs; [|done]. intros [= <- <-].
      match type of Hr with plane_relay _ _ _ ?q = _ => exists rep, q end. eexists. split_and!; [reflexivity|done|done|exact Hr|by eexists|done|done| |done|].
      + intros [_ Hu]. by apply (Hu _ _ _ Ehs).
      + intros _. cbn [leg_socket wire]. by rewrite Hw.
    - cbn in Hr. exists (up_replies u), p, (MkLeg e w None). by split_and!. }
  rewrite <-Hout in Hqo. destruct (plane_relay_inv _ _ _ _ _ _ _ Hl1 Hrel) as ([= ->] & Ho & Hleg & _).
  destruct (relay_to_carried shutdown (λ _, true) shutdown_accepted shutdown_unbounded env 0 cr (pl_out p1) replies (leg_writer l1) Hqo Hq1
    ltac:(unfold u64_max; lia)) as [[(D & HD & HaU) HwU _] [(D' & HD' & HaD) HwD _]].
  change (relay_to shutdown) with (relay (CR := CR) (UR := Source)) in *. set (out := relay env 0 cr _ _ _) in *.
  exists (set_leg_writer (t_writer (r_up out)) l1), replies.
  assert (leg_endpoint (set_leg_writer (t_writer (r_up out)) l1) = e ∧ plaintext tls (set_leg_writer (t_writer (r_up out)) l1) = t_writer (r_up out) ∧
    (tls = true → leg_socket (set_leg_writer (t_writer (r_up out)) l1) = leg_socket l1)) as (He' & Hpl & Hsk).
  { unfold set_leg_writer, plaintext. rewrite Hs1. by destruct tls. }
  split_and!; [done|done|]. rewrite <-Hout. split; [done|..].
  - rewrite Hpl, HaU, Hw1. by apply prefix_app.
  - cbn [upload_whole]. intros Hf Hu. rewrite Hpl. destruct (HwU Hf (Hb1 Hu)) as [-> _]. by rewrite Hw1.
  - intros Ht. rewrite Hsk by done. auto.
  - rewrite Ho, HaD. by apply prefix_app.
  - cbn [download_whole]. intros Hf Hu. rewrite Ho. by destruct (HwD Hf Hu).
Qed.
End bridge.

Section l4_properties.
Context (lookup_host : bytes → option (list SocketAddr)) (hash : IpAddr → bytes → Z).
Context (get_if_addrs : option (list IfAddr)) (endpoints : SelfEndpoints) (connect : bytes → option Upstream).
Context {S : Type} `{AsyncReadOk S}.

(** Raw forwarding is transparent: a relay that ran chose an online backend
    of the listener whose address is not one of the proxy's own, announced
    the client, and carried the bytes of both sides, all of them in a
    direction that was not cut. *)
Theorem l4_forward_transparent now seed env name remote loc policy lb pp (p p' : Plane S) o :
  queued (pl_out p) = [] →
  l4_run lookup_host hash get_if_addrs endpoints connect now seed env name remote loc policy lb pp p = (Ok o, p') →
  ∃ resolved u leg replies, (choose_online hash seed name (sa_ip remote) lb (pl_pools p)).1 = Some resolved ∧
    reject_obvious_self_connect get_if_addrs lookup_host endpoints (rp_bind policy) (st_endpoint resolved) = true ∧
    connect (st_endpoint resolved) = Some u ∧ pl_leg p' = Some leg ∧
    bridged o u (rp_upstream_tls policy) (st_tls_server_name resolved) (ProxyProtocol.header pp remote loc) (contents (pl_client p))
      (pl_out p) replies (pl_out p') leg.
Proof.
  intros Hqo. unfold l4_run. intros Hr. plane_step Hr. revert E. unfold choose_backend.
  destruct (choose_online hash seed name (sa_ip remote) lb (pl_pools p)) as [[s|] pools]; [|done]. intros [= <- <-].
  plane_step Hr. injection E as _ <-. destruct (reject_obvious_self_connect _ _ _ _ _) eqn:Eself; [|done]. cbn [negb] in Hr.
  plane_step Hr. apply open_upstream_inv in E as (Hconn & w & -> & Hq & Hw & Hb). plane_step Hr. injection E as _ <-.
  unfold relay_client in Hr. eapply relay_upstream_bridged in Hr as (leg & replies & Hleg & _ & Hbr); [|done|exact Hqo|done|exact Hw|done].
  eexists s, _, leg, replies. split_and!; [done|done|exact Hconn|done|exact Hbr].
Qed.
End l4_properties.

Section terminate_properties.
Context (override : bytes → Z → option bytes) (lookup_host : bytes → option (list SocketAddr)) (hash : IpAddr → bytes → Z).
Context (get_if_addrs : option (list IfAddr)) (endpoints : SelfEndpoints) (connect : bytes → option Upstream).
Context {CertifiedKey S T : Type} `{AsyncReadOk S} `{AsyncReadOk T}.
Context (acceptor : ConnStream S → option (TlsStart CertifiedKey T)) (resolve_or_mint : bytes → option CertifiedKey).

(** Termination relays what the client encrypted.  When the dispatcher
    read the ClientHello, the TLS acceptor starts again from the client's
    first byte; a relay that ran used the dispatcher's certificate and the
    server name it routed by, and carried the decrypted bytes to the
    upstream and the replies back, all of them in a direction that was not
    cut, the PROXY header first, before the upstream's own handshake if there
    is one. *)
Theorem terminate_relays_decrypted {A : Type} (acceptor_default : A) (accept : A → accept_result * A) (read_tls : A → bytes → option A)
  now seed env name remote loc policy client hello route key (p p' : Plane S) o :
  read_client_hello acceptor_default accept read_tls client DEFAULT_MAX_CLIENT_HELLO_SIZE = (Ok hello, pl_client p) →
  run_inspected override lookup_host hash get_if_addrs endpoints connect acceptor resolve_or_mint now seed env name remote loc policy hello route key p
    = (Ok o, p') →
  ∃ wire_stream start tls_stream client_budget selected u leg replies,
    contents wire_stream = contents client ∧ acceptor wire_stream = Some start ∧
    ts_server_name start = Some (TlsHeader.sni_host hello) ∧ ts_into_stream start key [] = Some (tls_stream, client_budget) ∧
    connect (st_endpoint selected) = Some u ∧ pl_leg p' = Some leg ∧
    (tr_upstream_tls route = true → reject_obvious_self_connect get_if_addrs lookup_host endpoints (rp_bind policy) (st_endpoint selected) = true) ∧
    (select_routed_pool override lookup_host hash now seed name (TlsHeader.sni_host hello) (tr_target route) (tr_target_port route)
       (tr_upstream_tls route) (tr_proxy_protocol route) (sa_ip remote) (tr_load_balancing route) (pl_pools p)).1 = Ok selected ∧
    bridged o u (tr_upstream_tls route) (TlsHeader.sni_host hello) (ProxyProtocol.header (tr_proxy_protocol route) remote loc)
      (contents tls_stream) (fresh_socket client_budget) replies (pl_out p') leg.
Proof.
  intros Hread Hr. apply read_client_hello_lossless in Hread as [_ Hok]. destruct (Hok hello eq_refl) as (Hloss & _ & _).
  unfold run_inspected, run_stream in Hr. cbn [pl_client set_client] in Hr.
  set (ws := unread (TlsHeader.buffered hello) (pl_client p)) in *.
  assert (contents ws = contents client) as Hws by (unfold ws; by rewrite contents_unread, Hloss).
  destruct (acceptor ws) as [start|] eqn:Eacc; [|done]. destruct (ts_server_name start) as [sni|] eqn:Esni; [|done].
  cbn [expected_sni ir_route ir_client ir_local] in Hr. destruct (eqb_bytes (TlsHeader.sni_host hello) sni) eqn:Eeq; [|done].
  apply eqb_bytes_spec in Eeq as <-. cbn [negb] in Hr.
  plane_step Hr. injection E as _ <-. plane_step Hr. revert E. unfold select_terminate. cbn [ir_route ir_client pl_pools set_reports set_client].
  destruct (select_routed_pool _ _ _ _ _ _ _ _ _ _ _ _ _ _) as [[s|e] pools] eqn:Esel; [|done]. intros [= <- <-].
  plane_step Hr. injection E as _ <-. destruct (ts_into_stream start key []) as [[ts cb]|] eqn:Ets; [|done].
  plane_step Hr. injection E as _ <-. destruct (_ && _) eqn:Eself; [done|].
  plane_step Hr. apply open_upstream_inv in E as (Hconn & w & -> & Hq & Hw & Hb). plane_step Hr. injection E as _ <-.
  eapply relay_upstream_bridged in Hr as (leg & replies & Hleg & _ & Hbr); [|done|done|done|exact Hw|done].
  exists ws, start, ts, cb, s. eexists _, leg, replies. split_and!; [done..|exact Hconn|done| |done|exact Hbr].
  intros Ht. rewrite Ht in Eself. cbn in Eself. by apply negb_false_iff in Eself.
Qed.
End terminate_properties.

(** ** Host and SNI *)

(** The token was forwarded by this proxy and has not expired. *)
Definition live_token (now : Z) (c : Cache bytes) (t : bytes) : Prop := ∃ e, by_key c !! t = Some e ∧ now < e.

Lemma any_looped_false now tokens c : (any_looped now tokens c).1 = false → ∀ t, t ∈ tokens → ¬ live_token now c t.
Proof.
  revert c. induction tokens as [|t0 tokens IH]; intros c Hl t Ht; [by apply not_elem_of_nil in Ht|].
  cbn [any_looped] in Hl. unfold request_token_is_looped, cache_is_looped in Hl.
  destruct (decide (t = t0)) as [->|Hne].
  - intros (e & He & Hlt). rewrite He in Hl. by rewrite (proj2 (Z.ltb_lt _ _) Hlt) in Hl.
  - apply elem_of_cons in Ht as [|Ht]; [done|].
    destruct (match by_key c !! t0 with Some e => now <? e | None => false end); [done|].
    intros (e & He & Hlt). apply (IH _ Hl t Ht). exists e. split; [|done]. cbn [by_key]. by rewrite lookup_delete_ne.
Qed.

Lemma admit_admits {S} now h sni (p : Plane S) r p' :
  admit_request now h sni p = (r, p') →
  pl_out p' = pl_out p ∧ pl_leg p' = pl_leg p ∧
  (is_ok r = true → (∀ s, sni = Some s → same_host s (host h) = true) ∧ ∀ t, t ∈ loop_tokens h → ¬ live_token now (pl_tokens p) t).
Proof.
  unfold admit_request. pose proof (any_looped_false now (loop_tokens h) (pl_tokens p)) as Hlive.
  destruct (any_looped _ _ _) as [[] tokens]; [by intros [= <- <-]|].
  destruct sni as [s|]; [destruct (same_host s (host h)) eqn:Es|]; cbn [negb]; intros [= <- <-]; split_and!; try done; intros _; split; auto;
    by intros s' [= <-].
Qed.

Section reverse_properties.
Context (override : bytes → Z → option bytes) (lookup_host : bytes → option (list SocketAddr)) (hash : IpAddr → bytes → Z).
Context (get_if_addrs : option (list IfAddr)) (endpoints : SelfEndpoints) (connect : bytes → option Upstream).
Context {CertifiedKey S T : Type} `{AsyncReadOk S} `{AsyncReadOk T}.
Context (acceptor : ConnStream S → option (TlsStart CertifiedKey T)).
Context (civil : Z → DateTime) (to_lowercase : bytes → bytes) {G Z' : Type} `{Compressor G} `{Compressor Z'} (fs : Fs).
Context (b64_decode : bytes → option bytes) (ct_eq : bytes → bytes → bool).

(** A TLS connection reaches only the site it was routed for.  If
    terminating into HTTP answers the client, contacts an upstream or ends
    normally, then the Host of the request that was read from the decrypted
    stream is the server name of the ClientHello (up to case and a final
    dot), and none of the request's loop tokens is one this proxy forwarded
    and that is still live. *)
Theorem https_host_is_sni now seed random env name remote loc policy hello key action p r q' :
  run_reverse_proxy override lookup_host hash get_if_addrs endpoints connect acceptor civil to_lowercase (G := G) (Z' := Z') fs b64_decode ct_eq
    now seed random env name remote loc policy hello key action p = (r, q') →
  is_ok r = true ∨ (∃ q, q' = inr q ∧ (accepted (pl_out q) ≠ [] ∨ pl_leg q ≠ pl_leg p)) →
  ∃ start tls_stream client_budget head rest, ts_into_stream start key [lit "http/1.1"] = Some (tls_stream, client_budget) ∧
    read_http_head (with_request_id tls_stream (request_id (pl_client p))) DEFAULT_MAX_HTTP_HEADER_SIZE = (Ok head, rest) ∧
    same_host (TlsHeader.sni_host hello) (host head) = true ∧ ∀ t, t ∈ loop_tokens head → ¬ live_token now (pl_tokens p) t.
Proof.
  unfold run_reverse_proxy. set (ws := unread _ _).
  assert (request_id ws = request_id (pl_client p)) as Hid by (unfold ws, unread; by destruct (TlsHeader.buffered hello)).
  destruct (acceptor ws) as [start|]; [|by intros [= <- <-] [?|(? & ? & _)]].
  destruct (ts_into_stream start key [lit "http/1.1"]) as [[ts cb]|] eqn:Ets; [|by intros [= <- <-] [?|(? & ? & _)]].
  set (q := switch_client _ _ _). unfold head_intercept, read_head.
  destruct (read_http_head (pl_client q) _) as [[head|e] c] eqn:Eh.
  2: { intros [= <- <-] [?|(? & [= <-] & [Hn|Hn])]; [done|by destruct Hn|by destruct Hn]. }
  destruct (http_run _ _ _ _ _ _ _ _ _ _ _ _ _ _ _ _ _ _ _ _ _ _ _ _) as [r1 q1] eqn:Erun. intros Hr Hdid. unfold http_run in Erun.
  assert (∃ n q2, admit_request now head (Some (TlsHeader.sni_host hello)) (set_client c q) = (Ok n, q2)) as (n & q2 & Ea).
  { plane_step Erun; [done|]. injection E as <- <-. plane_step Erun; [|by eauto].
    destruct (admit_admits _ _ _ _ _ _ E) as (Ho & Hl & _). injection Hr as <- <-.
    destruct Hdid as [?|(? & [= <-] & [Hn|Hn])]; [done|by rewrite Ho in Hn|by rewrite Hl in Hn]. }
  destruct (admit_admits _ _ _ _ _ _ Ea) as (_ & _ & [Hh Ht]); [done|].
  exists start, ts, cb, head, c. split_and!; [done|by rewrite <-Hid|by apply Hh|exact Ht].
Qed.
End reverse_properties.

Module TerminateExample.
Definition acceptor (plain : Source) (_ : ConnStream Source) : option (TlsStart bytes Source) :=
  Some (MkStart (Some (lit "a.example")) (λ _ _, Some (plain, None))).
Definition start : Plane Source := MkPlane cache_new cache_new SelectExamples.empty [] stats_new PassthroughExample.client' (fresh_socket None) None.
Definition route : TerminateRoute := MkTerminate (Some (lit "b:80")) 443 false RoundRobin ProxyProtocol.PV1.
Definition run := run_inspected SelectExamples.no_override SelectExamples.dns length_hash None (MkSelf [] [] []) (λ _, Some PlaneExample.upstream)
  (acceptor [Seg (lit "plain "); Seg (lit "text")]) (λ _, None) 5 0 PlaneExample.quick (lit "l") PassthroughExample.remote PassthroughExample.loc
  PassthroughExample.policy PassthroughExample.hello route (lit "key") start.

Lemma terminate_relays_decrypted_witness :
  ∃ leg, pl_leg run.2 = Some leg ∧
    leg_socket leg = MkWriter [] (ProxyProtocol.header ProxyProtocol.PV1 PassthroughExample.remote PassthroughExample.loc ++ lit "plain text") None true.
Proof.
  assert (match run.1 with Ok o => upload_whole o | Err _ => false end = true) as Hok by (vm_compute; reflexivity).
  destruct run as [r p'] eqn:E. cbn [fst snd] in *. destruct r as [o|]; [|discriminate Hok].
  destruct (terminate_relays_decrypted SelectExamples.no_override SelectExamples.dns length_hash None (MkSelf [] [] []) (λ _, Some PlaneExample.upstream)
    (acceptor [Seg (lit "plain "); Seg (lit "text")]) (λ _, None) [] PassthroughExample.accept_all (λ a d, Some (a ++ d)) 5 0 PlaneExample.quick
    (lit "l") PassthroughExample.remote PassthroughExample.loc PassthroughExample.policy PassthroughExample.client PassthroughExample.hello route (lit "key") start p' o)
    as (ws & st & ts & cb & selected & u & leg & replies & _ & Hacc & _ & Hts & Hconn & Hleg & _ & _ & Hbr);
    [vm_compute; reflexivity|exact E|].
  injection Hacc as <-. cbn in Hts. injection Hts as <- <-. injection Hconn as <-.
  exists leg. split; [exact Hleg|]. apply (br_up _ _ _ _ _ _ _ _ _ _ Hbr Hok). split; [reflexivity|discriminate].
Defined.

Definition request : bytes := head_of [lit "GET / HTTP/1.1"; lit "Host: A.example."].
Definition reverse := run_reverse_proxy SelectExamples.no_override SelectExamples.dns length_hash None (MkSelf [] [] []) (λ _, Some PlaneExample.upstream)
  (acceptor [Seg request]) StaticExample.civil id (G := StaticExample.good_store) (Z' := StaticExample.good_store) StaticExample.fs Some eqb_bytes
  5 0 77 PlaneExample.quick (lit "l") PassthroughExample.remote PassthroughExample.loc PassthroughExample.policy PassthroughExample.hello (lit "key")
  PlaneExample.action start.

Lemma https_host_is_sni_witness :
  is_ok reverse.1 = true ∧ ∃ head : HttpHead, same_host (lit "a.example") (host head) = true.
Proof.
  assert (is_ok reverse.1 = true) as Hok by (vm_compute; reflexivity). split; [exact Hok|].
  destruct reverse as [r q'] eqn:E.
  destruct (https_host_is_sni SelectExamples.no_override SelectExamples.dns length_hash None (MkSelf [] [] []) (λ _, Some PlaneExample.upstream)
    (acceptor [Seg request]) StaticExample.civil id (G := StaticExample.good_store) (Z' := StaticExample.good_store) StaticExample.fs Some eqb_bytes
    5 0 77 PlaneExample.quick (lit "l") PassthroughExample.remote PassthroughExample.loc PassthroughExample.policy PassthroughExample.hello (lit "key")
    PlaneExample.action start r q') as (st & ts & cb & head & rest & _ & _ & Hh & _); [exact E|left; exact Hok|].
  exists head. exact Hh.
Defined.
End TerminateExample.

(** ** Probes and traffic meet in the same groups *)

Section table_keys.
Context (override : bytes → Z → option bytes) (lookup_host : bytes → option (list SocketAddr)) (hash : IpAddr → bytes → Z).

Definition has_group (p : Pools) (k : GroupKey) : Prop := is_Some (groups p !! k).

Lemma choose_in_keys pick k0 p k : has_group (choose_in hash pick k0 p).2 k ↔ has_group p k.
Proof.
  unfold choose_in, has_group. destruct (groups p !! k0) as [g|] eqn:Hg; [|done]. destruct (choose_endpoint hash pick g) as [s g'].
  cbn [snd]. rewrite groups_set, lookup_insert_is_Some. split; [|destruct (decide (k0 = k)); auto].
  intros [<-|[_ ?]]; [by exists g|done].
Qed.
Lemma balance_keys seed key ip lb members p k : has_group (balance hash seed key ip lb members p).2 k ↔ has_group p k.
Proof.
  unfold balance. destruct lb; [cbn [next_cursor]|]; (destruct (members !! _) as [k0|]; [|done]).
  - set (p1 := set_cursors _ _). pose proof (choose_in_keys Sequential k0 p1 k) as Hc. by destruct (choose_in hash Sequential k0 p1).
  - pose proof (choose_in_keys (Sticky ip) k0 p k) as Hc. by destruct (choose_in hash (Sticky ip) k0 p).
Qed.
Lemma gather_keys now rs p k :
  pools_wf p → has_group (gather override lookup_host now rs p).2 k ↔ has_group p k ∨ k ∈ map (request_key override) rs.
Proof.
  revert p. induction rs as [|r rs IH]; intros p Hw; cbn [gather map]; [rewrite elem_of_nil; tauto|].
  destruct (ensure_group_spec override lookup_host now r p Hw) as (Hgs & G & Hk & _).
  destruct (ensure_group override lookup_host now r p) as [g p1]. cbn [fst snd] in *.
  pose proof (grow_touch now (g_key g) p1 (proj1 G)) as G2. specialize (IH _ (proj1 G2)).
  destruct (gather override lookup_host now rs _) as [[pref fall] p']. cbn [snd] in IH.
  replace (has_group _ k) with (has_group p' k) by by destruct (group_is_viable (g_endpoints g)) as [[]|].
  rewrite IH, elem_of_cons. unfold has_group, touch_group. rewrite groups_set, lookup_alter_is_Some, Hgs, lookup_insert_is_Some.
  destruct (decide (request_key override r = k)); naive_solver.
Qed.

(** A pool selection leaves the groups that were there and those of its
    requests, and takes its endpoint from the latter. *)
Lemma select_routed_pool_uses now seed key sni targets port tls pp ip lb p s p' :
  pools_wf p → select_routed_pool override lookup_host hash now seed key sni targets port tls pp ip lb p = (Ok s, p') →
  let keys := map (request_key override) (pool_requests sni port tls pp (routed_targets sni targets)).1 in
  (∀ k, has_group p' k ↔ has_group p k ∨ k ∈ keys) ∧
  ∃ k e, k ∈ keys ∧ e ∈ endpoints_of p' k ∧ st_endpoint s = ep_endpoint e.
Proof.
  intros Hw Hsel keys. pose proof (select_routed_pool_healthy override lookup_host hash now seed key sni targets port tls pp ip lb p Hw) as Hh.
  rewrite Hsel in Hh. cbn [fst snd] in Hh. destruct Hh as (_ & _ & r & e & Hr & -> & Hc). split.
  - intros k. revert Hsel. unfold select_routed_pool. fold (routed_targets sni targets). unfold keys.
    generalize (routed_targets sni targets) as ts. intros [|t ts]; [done|]. destruct (pool_requests sni port tls pp (t :: ts)) as [rs ok]. cbn [fst].
    pose proof (gather_keys now rs p k Hw) as Hg. destruct (gather override lookup_host now rs p) as [[pref fall] p1]. cbn [snd] in Hg.
    destruct ok; [|done]. cbn [negb]. destruct (match pref with [] => fall | _ => pref end) as [|m ms]; [done|].
    pose proof (balance_keys seed key ip lb (m :: ms) p1 k) as Hb. destruct (balance _ _ _ _ _ _ _) as [[s0 i] p2]. cbn [snd] in Hb.
    destruct s0; [|done]. intros [= _ <-]. by rewrite Hb.
  - exists (request_key override r), e. split_and!; [by apply list_elem_of_fmap_2|apply Hc|done].
Qed.
End table_keys.

Section handlers_select.
Context (override : bytes → Z → option bytes) (lookup_host : bytes → option (list SocketAddr)) (hash : IpAddr → bytes → Z).
Context (get_if_addrs : option (list IfAddr)) (endpoints : SelfEndpoints).
Context {CertifiedKey S T : Type} `{AsyncReadOk S} `{AsyncReadOk T}.
Context {A : Type} (acceptor_default : A) (accept : A → accept_result * A) (read_tls : A → bytes → option A).
Context (acceptor : ConnStream S → option (TlsStart CertifiedKey T)) (resolve_or_mint : bytes → option CertifiedKey).
Implicit Types p q : Plane S.

Lemma relay_pools {E CR UR : Type} `{AsyncReadOk CR} `{AsyncReadOk UR} initial (e : E) (run : Writer → Writer → RelayState CR UR) p r p' :
  plane_relay initial e run p = (r, p') → pl_pools p' = pl_pools p ∧ leg_endpoint <$> pl_leg p' = leg_endpoint <$> pl_leg p.
Proof.
  unfold plane_relay. destruct (pl_leg p) as [l|] eqn:El; [|intros [= <- <-]; by rewrite El]. intros [= <- <-]. cbn. split; [done|].
  unfold set_leg_writer. by destruct (leg_session l) as [[]|].
Qed.
Lemma upstream_op_pools {E} op (e : E) p r p' :
  upstream_op op e p = (r, p') → pl_pools p' = pl_pools p ∧ leg_endpoint <$> pl_leg p' = leg_endpoint <$> pl_leg p.
Proof.
  unfold upstream_op. destruct (pl_leg p) as [l|] eqn:El; [|intros [= <- <-]; by rewrite El]. destruct (op (leg_writer l)).
  intros [= <- <-]. cbn. split; [done|]. unfold set_leg_writer. by destruct (leg_session l) as [[]|].
Qed.

(** When a handler has contacted an upstream, it had selected it. *)
Lemma passthrough_selected connect now seed env name remote loc policy hello r q o q' leg :
  pl_leg q = None → passthrough_run override lookup_host hash connect acceptor_default accept read_tls now seed env name remote loc policy
    (Some hello) (Some r) q = (o, q') → pl_leg q' = Some leg →
  ∃ s, select_routed_pool override lookup_host hash now seed name (sni_host hello) (pr_target r) (pr_target_port r) true (pr_proxy_protocol r)
    (sa_ip remote) (pr_load_balancing r) (pl_pools q) = (Ok s, pl_pools q') ∧ leg_endpoint leg = st_endpoint s.
Proof.
  intros Hnone Hr Hleg. unfold passthrough_run in Hr. plane_step Hr; [done|]. injection E as <- <-.
  plane_step Hr; revert E; unfold refuse_loop; destruct (cache_is_looped _ _ _) as [looped hellos];
    [intros [= _ <-]; cbn in Hleg; congruence|]. intros [= _ <-].
  do 2 (plane_step Hr; [done|]; injection E as _ <-).
  plane_step Hr; revert E; unfold select_passthrough; cbn [pl_pools set_reports set_caches];
    destruct (select_routed_pool _ _ _ _ _ _ _ _ _ _ _ _ _ _) as [[sel|e1] pools] eqn:Esel; try done;
    [intros [= _ <-]; cbn in Hleg; congruence|]. intros [= <- <-].
  do 2 (plane_step Hr; [done|]; injection E as _ <-).
  assert (pl_pools q' = pools ∧ leg_endpoint <$> pl_leg q' = Some (st_endpoint sel)) as [Hp He];
    [|exists sel; rewrite Hp; split; [done|]; rewrite Hleg in He; by injection He].
  plane_step Hr; revert E; unfold open_passthrough; (destruct (connect _ _) as [u|]; [|intros [= _ <-]; cbn in Hleg; congruence]);
    destruct (tcp_announce _ _ _ _) as [[] w]; try done; [by intros [= _ <-]|].
  intros [= <- <-]. plane_step Hr; [done|]. injection E as _ <-.
  plane_step Hr; destruct (upstream_op_pools _ _ _ _ _ E) as [Hp1 He1]; [by rewrite Hp1, He1|].
  unfold relay_passthrough in Hr. destruct (relay_pools _ _ _ _ _ _ Hr) as [Hp2 He2]. by rewrite Hp2, Hp1, He2, He1.
Qed.

Lemma relay_upstream_pools {CR : Type} `{AsyncReadOk CR} now env tls name u (cr : CR) p r p' :
  relay_upstream now env tls name u cr p = (r, p') → pl_pools p' = pl_pools p ∧ leg_endpoint <$> pl_leg p' = leg_endpoint <$> pl_leg p.
Proof.
  intros Hr. unfold relay_upstream in Hr.
  assert (∀ r1 p1, (if tls then connect_trust_all_tls now u name L4UpstreamTls else mret (up_replies u)) p = (r1, p1) →
    pl_pools p1 = pl_pools p ∧ leg_endpoint <$> pl_leg p1 = leg_endpoint <$> pl_leg p) as Hopen.
  { intros r1 p1. destruct tls; [|by intros [= _ <-]]. unfold connect_trust_all_tls. destruct (pl_leg p) as [l|] eqn:El; [|intros [= _ <-]; by rewrite El].
    destruct (hs_session _) as [[b rep]|]; by intros [= _ <-]. }
  plane_step Hr; destruct (Hopen _ _ E) as [Hp He]; [done|]. destruct (relay_pools _ _ _ _ _ _ Hr) as [Hp2 He2]. by rewrite Hp2, He2, Hp, He.
Qed.
Lemma open_upstream_pools connect endpoint ann p r p' :
  open_upstream connect endpoint ann p = (r, p') →
  pl_pools p' = pl_pools p ∧ (pl_leg p' = pl_leg p ∧ is_ok r = false ∨ leg_endpoint <$> pl_leg p' = Some endpoint).
Proof.
  unfold open_upstream. destruct (connect endpoint) as [u|]; [|intros [= <- <-]; auto].
  destruct (match ann with Some _ => _ | None => _ end) as [ok w]. intros [= _ <-]. cbn. auto.
Qed.
Lemma select_terminate_pools now seed name sni policy tls i p r p' :
  select_terminate override lookup_host hash now seed name sni policy tls (Some i) p = (r, p') →
  pl_leg p' = pl_leg p ∧ ∀ s, r = Ok s →
    select_routed_pool override lookup_host hash now seed name sni (tr_target (ir_route i)) (tr_target_port (ir_route i)) tls
      (tr_proxy_protocol (ir_route i)) (sa_ip (ir_client i)) (tr_load_balancing (ir_route i)) (pl_pools p) = (Ok s, pl_pools p').
Proof.
  unfold select_terminate. destruct (select_routed_pool _ _ _ _ _ _ _ _ _ _ _ _ _ _) as [[sel|e] pools]; intros [= <- <-]; (split; [done|]); [|done].
  by intros s [= <-].
Qed.

Lemma run_stream_selected connect now seed env name policy i key p o p' leg :
  pl_leg p = None → run_stream override lookup_host hash get_if_addrs endpoints connect acceptor resolve_or_mint now seed env name policy
    (Some i) (Some key) p = (o, p') → pl_leg p' = Some leg →
  ∃ s, select_routed_pool override lookup_host hash now seed name (expected_sni i) (tr_target (ir_route i)) (tr_target_port (ir_route i))
    (tr_upstream_tls (ir_route i)) (tr_proxy_protocol (ir_route i)) (sa_ip (ir_client i)) (tr_load_balancing (ir_route i)) (pl_pools p) = (Ok s, pl_pools p')
    ∧ leg_endpoint leg = st_endpoint s.
Proof.
  intros Hnone Hr Hleg. unfold run_stream in Hr.
  destruct (acceptor _) as [start|]; [|injection Hr as _ <-; congruence].
  destruct (ts_server_name start) as [sni|]; [|injection Hr as _ <-; congruence].
  destruct (eqb_bytes (expected_sni i) sni) eqn:Eeq; [|injection Hr as _ <-; congruence].
  apply eqb_bytes_spec in Eeq as <-. cbn [negb] in Hr. plane_step Hr; [done|]. injection E as _ <-.
  plane_step Hr; destruct (select_terminate_pools _ _ _ _ _ _ _ _ _ _ E) as [Hl1 Hs1]; [cbn in Hl1; congruence|]. clear E.
  specialize (Hs1 _ eq_refl). cbn [pl_leg pl_pools set_reports] in Hl1, Hs1.
  match type of Hs1 with _ = (Ok ?s, pl_pools ?p1) => set (sel := s) in *; set (q1 := p1) in * end. clearbody sel q1.
  cut (pl_pools p' = pl_pools q1 ∧ leg_endpoint <$> pl_leg p' = Some (st_endpoint sel)).
  { intros [Hp He]. exists sel. rewrite Hp. split; [done|]. rewrite Hleg in He. by injection He. }
  clear Hs1. plane_step Hr; [done|]. injection E as _ <-.
  destruct (ts_into_stream start key []) as [[ts cb]|]; [|injection Hr as _ <-; cbn in Hleg; congruence].
  plane_step Hr; [done|]. injection E as _ <-. destruct (_ && _); [injection Hr as _ <-; cbn in Hleg; congruence|].
  plane_step Hr; destruct (open_upstream_pools _ _ _ _ _ _ E) as [Hp2 He2]; cbn [pl_pools pl_leg set_out set_reports] in Hp2, He2; clear E.
  { destruct He2 as [[He2 _]|He2]; [congruence|done]. }
  destruct He2 as [[_ He2]|He2]; [done|]. plane_step Hr; [done|]. injection E as _ <-.
  apply relay_upstream_pools in Hr as [Hp3 He3]. cbn [pl_pools pl_leg set_reports] in Hp3, He3. split; congruence.
Qed.

Lemma terminate_selected connect now seed env name remote loc policy hello r key q o q' leg :
  pl_leg q = None → run_inspected override lookup_host hash get_if_addrs endpoints connect acceptor resolve_or_mint now seed env name remote loc policy
    hello r key q = (o, q') → pl_leg q' = Some leg →
  ∃ s, select_routed_pool override lookup_host hash now seed name (sni_host hello) (tr_target r) (tr_target_port r) (tr_upstream_tls r)
    (tr_proxy_protocol r) (sa_ip remote) (tr_load_balancing r) (pl_pools q) = (Ok s, pl_pools q') ∧ leg_endpoint leg = st_endpoint s.
Proof.
  intros Hnone Hr Hleg. unfold run_inspected in Hr. eapply run_stream_selected in Hr as (s & Hs & He); [|exact Hnone|exact Hleg].
  exists s. split; [exact Hs|exact He].
Qed.
End handlers_select.

Section agreement.
Context (override : bytes → Z → option bytes) (lookup_host : bytes → option (list SocketAddr)) (hash : IpAddr → bytes → Z).
Context (get_if_addrs : option (list IfAddr)) (endpoints : SelfEndpoints).
Context {CertifiedKey S T : Type} `{AsyncReadOk S} `{AsyncReadOk T}.
Context {A : Type} (acceptor_default : A) (accept : A → accept_result * A) (read_tls : A → bytes → option A).
Context (acceptor : ConnStream S → option (TlsStart CertifiedKey T)) (resolve_or_mint : bytes → option CertifiedKey).
Context (connect : bytes → option Upstream) (now : Z).

Lemma bind_l4_targets_keys listener host m port tls lb pp ts p :
  pools_wf p → Forall (λ t, rq_port (l4_request m port tls pp t) ≠ 0) ts →
  ∃ p', bind_l4_targets override lookup_host now listener host m port tls lb pp ts p = (Ok (), p') ∧
    map hb_group (bindings p') = map hb_group (bindings p) ++ map (λ t, request_key override (l4_request m port tls pp t)) ts.
Proof.
  revert p. induction ts as [|t ts IH]; intros p Hw Hp; cbn [bind_l4_targets map].
  { exists p. by rewrite app_nil_r. }
  apply Forall_cons in Hp as [Hpt Hp]. rewrite (proj2 (Z.eqb_neq _ _) Hpt). unfold bind_group.
  set (r := l4_request m port tls pp t). pose proof (ensure_group_bindings override lookup_host now r p) as Hb.
  destruct (ensure_group_spec override lookup_host now r p Hw) as (_ & G & Hk & _).
  destruct (ensure_group override lookup_host now r p) as [g p1]. cbn [fst snd] in *.
  set (p2 := set_bindings _ p1). destruct (IH p2) as (p' & Hrun & Hkeys); [exact (proj1 G)|done|]. exists p'. split; [done|].
  rewrite Hkeys. unfold p2. cbn [bindings set_bindings]. rewrite map_app, Hb, <-app_assoc. cbn [map app]. by rewrite <-Hk.
Qed.

(** Running the handler a connection was dispatched to. *)
Definition run_handler (seed : Z) (env : RelayEnv) (name : bytes) (remote loc : SocketAddr) (hello : ClientHello) (h : Handler CertifiedKey) (q : Plane S)
  : option (Plane S) :=
  match h with
  | RunPassthrough policy r =>
      Some (passthrough_run override lookup_host hash (λ _, connect) acceptor_default accept read_tls now seed env name remote loc policy (Some hello) (Some r) q).2
  | RunTerminate policy r key =>
      Some (run_inspected override lookup_host hash get_if_addrs endpoints connect acceptor resolve_or_mint now seed env name remote loc policy hello r key q).2
  | _ => None
  end.

(** C36: the probe loop watches exactly the groups the data plane uses.  For a
    layer-4 route with explicit targets, registering the route binds a list
    of groups to probe; and whenever the handler dispatched for the route has
    run on a connection and contacted a backend, the group table holds the
    groups it held before and the bound ones, no others, and the backend is an
    endpoint of one of the bound ones.  The relay policy agrees on upstream
    TLS. *)
Theorem l4_probes_what_traffic_uses (certified_key : bytes → option CertifiedKey) (listener : bytes) (m : HostMatcher) (a : TlsRouteAction)
  (targets : bytes) (port : Z) (tls : bool) (lb : HttpLoadBalancing) (pp : ProxyProtocol.ProxyProtocol) (ts : list bytes) (p : Pools) (sni : bytes) (hello : ClientHello) (c : DefaultListenerConfig)
  (entries : gmap bytes (ChallengeEntry CertifiedKey)) (cache : Cache bytes) (h : Handler CertifiedKey) entries' cache' :
  l4_backends a = Some (targets, port, tls, lb, pp) → Targets.parse_targets targets = Ok ts →
  Forall (λ t, utf8_valid t = true) (Targets.pieces targets) → pools_wf p →
  dispatch_non_control certified_key now (ConnOrdinary sni a) hello c entries cache = (Ok h, entries', cache') →
  ∃ p' keys, bind_l4_route override lookup_host now listener m a p = (Ok (), p') ∧
    map hb_group (bindings p') = map hb_group (bindings p) ++ keys ∧
    rp_upstream_tls (for_tls_route c a) = tls ∧
    ∀ seed env name remote loc q, pools_wf (pl_pools q) → pl_leg q = None →
    ∃ q', run_handler seed env name remote loc hello h q = Some q' ∧
      ∀ leg, pl_leg q' = Some leg →
        (∀ k, has_group (pl_pools q') k ↔ has_group (pl_pools q) k ∨ k ∈ keys) ∧
        ∃ k e, k ∈ keys ∧ e ∈ endpoints_of (pl_pools q') k ∧ leg_endpoint leg = ep_endpoint e.
Proof.
  intros Ha Hts Hv Hw Hd. destruct (l4_keys_agree override m (sni_host hello) port tls pp targets ts Hv Hts) as (Hkeys & _ & Hports).
  destruct (bind_l4_targets_keys listener (matcher_label m) m port tls lb pp ts p Hw Hports) as (p' & Hb & Hg).
  exists p'. eexists. unfold bind_l4_route. rewrite Ha, Hts. split; [done|]. split; [exact Hg|]. rewrite Hkeys.
  cbn [dispatch_non_control] in Hd. destruct (cache_is_looped now (random hello) cache) as [[] cache1]; [done|].
  destruct a as [port' [target'|] lb' pp'|port' [target'|] up' lb' pp'|act|]; try done; cbn [l4_backends] in Ha; simplify_eq.
  - split; [done|]. intros seed env name remote loc q Hwq Hnone. eexists. split; [reflexivity|]. intros leg Hleg.
    destruct (passthrough_run _ _ _ _ _ _ _ _ _ _ _ _ _ _ _ _ q) as [o q'] eqn:Er. cbn [snd] in *.
    apply (passthrough_selected) with (leg := leg) in Er as (s & Hsel & ->); [|done|done].
    by apply select_routed_pool_uses in Hsel.
  - destruct (certified_key (sni_host hello)) as [key|]; [|done]. cbn [mbind result_bind ok_or] in *. simplify_eq.
    split; [done|]. intros seed env name remote loc q Hwq Hnone. eexists. split; [reflexivity|]. intros leg Hleg.
    destruct (run_inspected _ _ _ _ _ _ _ _ _ _ _ _ _ _ _ _ _ _ q) as [o q'] eqn:Er. cbn [snd] in *.
    apply terminate_selected with (leg := leg) in Er as (s & Hsel & ->); [|done|done].
    by apply select_routed_pool_uses in Hsel.
Qed.
End agreement.

Module ProbeExample.
Definition l4_route : TlsRouteAction := Passthrough 443 (Some (lit "b:80;c:81")) RoundRobin ProxyProtocol.PNone.
Definition handler : Handler bytes :=
  RunPassthrough (for_tls_route ServedExample.listener l4_route) (MkPassthrough (Some (lit "b:80;c:81")) 443 RoundRobin ProxyProtocol.PNone).
Definition run := run_handler (CertifiedKey := bytes) (T := Source) SelectExamples.no_override SelectExamples.dns length_hash None (MkSelf [] [] [])
  [] PassthroughExample.accept_all (λ a d, Some (a ++ d)) (TerminateExample.acceptor []) (λ _, None) (λ _, Some PassthroughExample.upstream) 5
  0 PlaneExample.quick (lit "l") PassthroughExample.remote PassthroughExample.loc PassthroughExample.hello handler PassthroughExample.start.

Lemma l4_probes_what_traffic_uses_witness :
  ∃ p' keys q' leg, bind_l4_route SelectExamples.no_override SelectExamples.dns 5 (lit "l") (MkMatcher [lit "a"] [] []) l4_route SelectExamples.empty
    = (Ok (), p') ∧ map hb_group (bindings p') = keys ∧ run = Some q' ∧ pl_leg q' = Some leg ∧
    ∃ k e, k ∈ keys ∧ e ∈ endpoints_of (pl_pools q') k ∧ leg_endpoint leg = ep_endpoint e.
Proof.
  destruct (l4_probes_what_traffic_uses (CertifiedKey := bytes) (T := Source) SelectExamples.no_override SelectExamples.dns length_hash None (MkSelf [] [] [])
    [] PassthroughExample.accept_all (λ a d, Some (a ++ d)) (TerminateExample.acceptor []) (λ _, None) (λ _, Some PassthroughExample.upstream) 5
    (λ sni, Some sni) (lit "l") (MkMatcher [lit "a"] [] []) l4_route (lit "b:80;c:81") 443 true RoundRobin ProxyProtocol.PNone [lit "b:80"; lit "c:81"]
    SelectExamples.empty (lit "a") PassthroughExample.hello ServedExample.listener ∅ (cache_new : Cache bytes) handler ∅ (cache_new : Cache bytes))
    as (p' & keys & Hb & Hk & _ & Hrun).
  - reflexivity.
  - vm_compute. reflexivity.
  - apply (bool_decide_unpack _). vm_compute. exact I.
  - apply SelectExamples.empty_wf.
  - vm_compute. reflexivity.
  - destruct (Hrun 0 PlaneExample.quick (lit "l") PassthroughExample.remote PassthroughExample.loc PassthroughExample.start SelectExamples.empty_wf eq_refl)
      as (q' & Hq & Huse). fold run in Hq.
    assert (is_Some (run ≫= pl_leg)) as [leg Hleg] by (vm_compute; by eexists).
    rewrite Hq in Hleg. cbn [mbind option_bind] in Hleg. destruct (Huse leg Hleg) as [_ He].
    exists p', keys, q', leg. split_and!; [exact Hb|rewrite Hk; reflexivity|exact Hq|exact Hleg|exact He].
Defined.
End ProbeExample.
