(* ===== verification/Runtime.v ===== *)
(** * The runtime supervisor (src/runtime.rs, src/runtime_live.rs)

    Applying a configuration revision, serving it until a reload, rolling
    back to the last revision that worked, hot changes, and the restart loop
    of a listener.  What the process observes while it starts one revision
    (binds, interfaces, clocks, whether certificate material loads) is a
    [Boot] record; the life of a started revision is a function from the
    state in which it starts to how it ended. *)

From S2P Require Import Prelude RustStd Net ProxyProtocol HostUtil BindAddr AcmeDns Config RuntimeConfig Store StoreAcme Resolver Forward Health Relay.
Open Scope Z_scope.

(** ** Live settings (runtime_live.rs) *)

#[global] Instance compression_config_eq_dec : EqDecision Config.Compression.
Proof. solve_decision. Defined.
#[global] Instance accounting_config_eq_dec : EqDecision AccountingConfig.
Proof. solve_decision. Defined.
#[global] Instance exact_dns_rule_eq_dec : EqDecision ExactDnsRule.
Proof. solve_decision. Defined.
#[global] Instance suffix_dns_rule_eq_dec : EqDecision SuffixDnsRule.
Proof. solve_decision. Defined.
#[global] Instance regex_dns_rule_eq_dec : EqDecision RegexDnsRule.
Proof. solve_decision. Defined.
#[global] Instance dns_config_eq_dec : EqDecision DnsConfig.
Proof. solve_decision. Defined.
#[global] Instance control_plane_config_eq_dec : EqDecision ControlPlaneConfig.
Proof. solve_decision. Defined.
#[global] Instance acme_settings_eq_dec : EqDecision AcmeSettings.
Proof. solve_decision. Defined.
#[global] Instance fallback_eq_dec : EqDecision CertificateFallbackPolicy.
Proof. solve_decision. Defined.

(** The ["protocol"] tag of a listener. *)
Inductive Protocol := ProtoTls | ProtoHttp | ProtoRedirect | ProtoForward.
#[global] Instance protocol_eq_dec : EqDecision Protocol.
Proof. solve_decision. Defined.
Definition protocol (l : AdditionalListenerConfig) : Protocol :=
  match l with TlsListener _ => ProtoTls | HttpListener _ => ProtoHttp | RedirectListener _ => ProtoRedirect | ForwardListener _ => ProtoForward end.

(** What is left of a configuration's JSON: the mandatory listener without
    its traffic rules, protocol and bind of the others, the global parts. *)
Record Topology := MkTopology {
  tp_default_bind : bytes;
  tp_listeners : list (bytes * (Protocol * bytes));
  tp_disabled : list bytes;
  tp_dns : DnsConfig;
  tp_accounting : option AccountingConfig;
  tp_control : ControlPlaneConfig;
  tp_acme : AcmeSettings;
  tp_fallback : CertificateFallbackPolicy;
}.
#[global] Instance topology_eq_dec : EqDecision Topology.
Proof. solve_decision. Defined.
Definition topology (c : RuntimeConfig.RuntimeConfig) : Topology :=
  MkTopology (dl_bind (default_listener c)) (map (λ nl, (nl.1, (protocol nl.2, listener_bind nl.2))) (additional_listeners c)) (disabled_listeners c)
    (dns_overrides c) (accounting c) (control_plane c) (acme c) (certificate_fallback c).
Definition listener_settings_only (old new : RuntimeConfig.RuntimeConfig) : bool := bool_decide (topology old = topology new).

(** ** The state of the process *)

Section runtime.
Context (canonicalize : bytes → option bytes) (is_dir : bytes → bool).
Context (to_lowercase : bytes → bytes) {R : Type} (compile_dns_pattern : bytes → option R) (dns_is_match : R → bytes → bool).

Record World := MkWorld {
  w_db : Db;
  w_live : RuntimeConfig.RuntimeConfig;
  w_last_good : option StoredConfig;
  w_sender : bool;  (** accounting's [SENDER] is set *)
  w_tables : Tables (R := R);
  w_pools : Pools;
  w_endpoints : SelfEndpoints;
}.
Definition set_db (db : Db) (w : World) : World := MkWorld db (w_live w) (w_last_good w) (w_sender w) (w_tables w) (w_pools w) (w_endpoints w).
Definition live_store (c : RuntimeConfig.RuntimeConfig) (w : World) : World := MkWorld (w_db w) c (w_last_good w) (w_sender w) (w_tables w) (w_pools w) (w_endpoints w).
Definition set_last_good (s : option StoredConfig) (w : World) : World := MkWorld (w_db w) (w_live w) s (w_sender w) (w_tables w) (w_pools w) (w_endpoints w).
Definition set_sender (w : World) : World := MkWorld (w_db w) (w_live w) (w_last_good w) true (w_tables w) (w_pools w) (w_endpoints w).
Definition set_tables (t : Tables (R := R)) (w : World) : World := MkWorld (w_db w) (w_live w) (w_last_good w) (w_sender w) t (w_pools w) (w_endpoints w).
Definition set_world_pools (p : Pools) (w : World) : World := MkWorld (w_db w) (w_live w) (w_last_good w) (w_sender w) (w_tables w) p (w_endpoints w).
Definition store_self_endpoints (e : SelfEndpoints) (w : World) : World := MkWorld (w_db w) (w_live w) (w_last_good w) (w_sender w) (w_tables w) (w_pools w) e.

Definition store_last_good (s : StoredConfig) (w : World) : World :=
  if match w_last_good w with Some existing => revision s <=? revision existing | None => false end then w else set_last_good (Some s) w.
Definition take_last_good (w : World) : option StoredConfig * World := (w_last_good w, set_last_good None w).

(** ** Applying a revision *)

Inductive runtime_error :=
| InvalidRevision (e : config_error)
| StoreFailed (e : store_error)
| AccountingTwice
| AccountingFailed
| HealthChecksFailed (e : Health.bind_error)
| BindFailed (listener : bytes)
| LocalAddrFailed
| CaFailed
| CacheFailed
| TargetsFailed (e : Targets.target_error)
| SignalFailed
| ConfigurationGone.

(** What one start observes.  [bt_bind address i] is the outcome of the
    [i]-th attempt to bind. *)
Record Boot := MkBoot {
  bt_clock : bytes → Z;
  bt_now : Z;
  bt_interfaces : option (list IfAddr);
  bt_bind : bytes → nat → option SocketAddr;
  bt_lookup : bytes → option (list SocketAddr);
  bt_log_opens : bool;
  bt_local_addr : bool;
  bt_ca : bool;
  bt_cache : bool;
  bt_rollback : Z * Z;
}.

Fixpoint bind_attempts (tries : nat → option SocketAddr) (first attempts : nat) : option SocketAddr :=
  match attempts with
  | O => None
  | S attempts => match tries first with Some a => Some a | None => bind_attempts tries (S first) attempts end
  end.
(** [bind]: three attempts. *)
Definition bind (b : Boot) (pattern : bytes) : option SocketAddr :=
  match resolve_bind_addr (bt_interfaces b) pattern with
  | Err _ => None
  | Ok address => bind_attempts (bt_bind b address) 0 3
  end.

(** [accounting::init]: the writer itself is modelled in AccountingLog. *)
Definition accounting_start (b : Boot) (cfg : AccountingConfig) (w : World) : result runtime_error () * World :=
  if negb (acc_enabled cfg) then (Ok (), w)
  else if w_sender w then (Err AccountingTwice, w)
  else if negb (is_ok (accounting_validate cfg)) || negb (bt_log_opens b) then (Err AccountingFailed, w)
  else (Ok (), set_sender w).

(** The listeners a revision binds, in order. *)
Fixpoint bind_listeners (b : Boot) (disabled : list bytes) (ls : list (bytes * AdditionalListenerConfig))
  : result runtime_error (list (bytes * AdditionalListenerConfig * SocketAddr)) :=
  match ls with
  | [] => Ok []
  | (name, l) :: ls =>
      if bool_decide (name ∈ disabled) then bind_listeners b disabled ls
      else match bind b (listener_bind l) with
           | None => Err (BindFailed name)
           | Some a => bound ← bind_listeners b disabled ls; Ok ((name, l, a) :: bound)
           end
  end.
Fixpoint register_forwards (override : bytes → Z → option bytes) (b : Boot) (bound : list (bytes * AdditionalListenerConfig * SocketAddr)) (p : Pools)
  : result runtime_error () * Pools :=
  match bound with
  | [] => (Ok (), p)
  | (name, ForwardListener c, _) :: bound =>
      match register_forward_listener override (bt_lookup b) (bt_now b) name (rf_targets c) (rf_upstream_tls c) (rf_proxy_protocol c) p with
      | (Err e, p) => (Err (TargetsFailed e), p)
      | (Ok _, p) => register_forwards override b bound p
      end
  | _ :: bound => register_forwards override b bound p
  end.

(** Store preparation: providers, record migration, automatic certificates. *)
Definition prepare_store (b : Boot) (config : RuntimeConfig.RuntimeConfig) (db : Db) : result runtime_error () * Db :=
  match ensure_builtin_providers db with
  | (Err e, db) => (Err (StoreFailed e), db)
  | (Ok _, db) =>
      match migrate_certificates_to_single_domain_ids db with
      | (Err e, db) => (Err (StoreFailed e), db)
      | (Ok _, db) =>
          match ensure_automatic_certificates (bt_clock b) config db with
          | (Err e, db) => (Err (StoreFailed e), db)
          | (Ok _, db) => (Ok (), db)
          end
      end
  end.

(** Everything up to the first task: afterwards the state serves. *)
Definition start_network (b : Boot) (config : RuntimeConfig.RuntimeConfig) (w : World) : result runtime_error () * World :=
  let override := Resolver.resolve to_lowercase dns_is_match (w_tables w) in
  match configure_health_checks override (bt_lookup b) (bt_now b) config (Forward.reset (w_pools w)) with
  | (Err e, p) => (Err (HealthChecksFailed e), set_world_pools p w)
  | (Ok _, p) =>
      let w := set_world_pools p w in
      match bind b (dl_bind (default_listener config)) with
      | None => (Err (BindFailed DEFAULT_LISTENER_NAME), w)
      | Some default_addr =>
          match bind_listeners b (disabled_listeners config) (additional_listeners config) with
          | Err e => (Err e, w)
          | Ok bound =>
              if negb (bt_local_addr b) then (Err LocalAddrFailed, w)
              else
                let w := store_self_endpoints (MkSelf (default_addr :: map snd bound) (default [] (map if_ip <$> bt_interfaces b))
                                                 (omap parse_ip (AcmeDns.self_ips (control_plane config)))) w in
                if negb (bt_ca b) then (Err CaFailed, w)
                else if negb (bt_cache b) then (Err CacheFailed, w)
                else let '(r, p) := register_forwards override b bound (w_pools w) in (r, set_world_pools p w)
          end
      end
  end.
Definition start_revision (b : Boot) (config : RuntimeConfig.RuntimeConfig) (w : World) : result runtime_error () * World :=
  match validate canonicalize is_dir config with
  | Err e => (Err (InvalidRevision e), w)
  | Ok _ =>
      let w := live_store config w in
      match prepare_store b config (w_db w) with
      | (Err e, db) => (Err e, set_db db w)
      | (Ok _, db) =>
          let w := set_tables (Resolver.init_inner to_lowercase compile_dns_pattern (dns_overrides config)).1 (set_db db w) in
          match (match accounting config with Some cfg => accounting_start b cfg w | None => (Ok (), w) end) with
          | (Err e, w) => (Err e, w)
          | (Ok _, w) => start_network b config w
          end
      end
  end.

(** How a started revision ended. *)
Inductive ServeEnd := CtrlC | CtrlCFailed | ReloadRequested.
Definition run_revision (b : Boot) (serve : World → ServeEnd * World) (stored : StoredConfig) (w : World) : result runtime_error bool * World :=
  match start_revision b (stored_config stored) w with
  | (Err e, w) => (Err e, w)
  | (Ok _, w) =>
      match serve w with
      | (CtrlC, w) => (Ok false, w)
      | (CtrlCFailed, w) => (Err SignalFailed, w)
      | (ReloadRequested, w) => (Ok true, w)
      end
  end.

(** ** The supervisor *)

Record Attempt := MkAttempt { at_stored : StoredConfig; at_result : result runtime_error bool }.

(** Each attempt takes one [Boot] and one life from the environment; [None]
    when the environment has no more to offer. *)
Fixpoint run (env : list (Boot * (World → ServeEnd * World))) (stored : StoredConfig) (w : World)
  : list Attempt * option (result runtime_error ()) * World :=
  match env with
  | [] => ([], None, w)
  | (b, serve) :: env =>
      let '(r, w) := run_revision b serve stored w in
      let attempt := MkAttempt stored r in
      match r with
      | Ok false => ([attempt], Some (Ok ()), w)
      | Ok true =>
          let w := store_last_good stored w in
          match load_config (w_db w) with
          | None => ([attempt], Some (Err ConfigurationGone), w)
          | Some stored => let '(attempts, e, w) := run env stored w in (attempt :: attempts, e, w)
          end
      | Err cause =>
          let '(good, w) := take_last_good w in
          match good with
          | None => ([attempt], Some (Err cause), w)
          | Some previous =>
              match save_config canonicalize is_dir (bt_rollback b).1 (bt_rollback b).2 (stored_config previous) (lit "runtime-auto-rollback") (w_db w) with
              | (Err e, db) => ([attempt], Some (Err (StoreFailed e)), set_db db w)
              | (Ok stored, db) => let '(attempts, e, w) := run env stored (set_db db w) in (attempt :: attempts, e, w)
              end
          end
      end
  end.

(** ** Lemmas on starting *)

Lemma accounting_start_inv b cfg w r w' : accounting_start b cfg w = (r, w') →
  w_last_good w' = w_last_good w ∧ (w_sender w = true → w_sender w' = true) ∧ w_live w' = w_live w
  ∧ (∀ e, r = Err e → e ≠ SignalFailed) ∧ (acc_enabled cfg = true → r = Ok () → w_sender w = false ∧ w_sender w' = true).
Proof.
  unfold accounting_start. destruct (acc_enabled cfg) eqn:Ea; cbn [negb]; [|intros [= <- <-]; naive_solver].
  destruct (w_sender w) eqn:Es; [intros [= <- <-]; naive_solver|]. destruct (_ || _); intros [= <- <-]; cbn; naive_solver.
Qed.
Lemma bind_listeners_error b disabled ls e : bind_listeners b disabled ls = Err e → e ≠ SignalFailed.
Proof.
  induction ls as [|[name l] ls IH]; cbn; [done|]. destruct (bool_decide _); [done|]. destruct (bind _ _); [|by intros [= <-]].
  destruct (bind_listeners b disabled ls); cbn; [done|]. intros [= <-]. by apply IH.
Qed.
Lemma register_forwards_error override b bound p e p' : register_forwards override b bound p = (Err e, p') → e ≠ SignalFailed.
Proof.
  revert p. induction bound as [|[[name l] a] bound IH]; intros p; cbn; [done|]. destruct l; try apply IH.
  destruct (register_forward_listener _ _ _ _ _ _ _ _) as [[] ?]; [apply IH|]. by intros [= <- _].
Qed.
Lemma prepare_store_error b config db e db' : prepare_store b config db = (Err e, db') → e ≠ SignalFailed.
Proof.
  unfold prepare_store. destruct (ensure_builtin_providers db) as [[] ?]; [|by intros [= <- _]].
  destruct (migrate_certificates_to_single_domain_ids _) as [[] ?]; [|by intros [= <- _]].
  destruct (ensure_automatic_certificates _ _ _) as [[] ?]; [done|]. by intros [= <- _].
Qed.

Lemma start_network_inv b config w r w' : start_network b config w = (r, w') →
  w_last_good w' = w_last_good w ∧ w_sender w' = w_sender w ∧ w_live w' = w_live w ∧ (∀ e, r = Err e → e ≠ SignalFailed)
  ∧ (r = Ok () → ∃ a bound, bind b (dl_bind (default_listener config)) = Some a
       ∧ bind_listeners b (disabled_listeners config) (additional_listeners config) = Ok bound ∧ bound_sockets (w_endpoints w') = a :: map snd bound).
Proof.
  unfold start_network. destruct (configure_health_checks _ _ _ _ _) as [[u|e] p]; [|intros [= <- <-]; naive_solver].
  destruct (bind b _) as [a|] eqn:Ed; [|intros [= <- <-]; naive_solver].
  destruct (bind_listeners _ _ _) as [bound|e] eqn:Eb; [|intros [= <- <-]; apply bind_listeners_error in Eb; naive_solver].
  destruct (bt_local_addr b), (bt_ca b), (bt_cache b); cbn [negb]; try (intros [= <- <-]; naive_solver).
  destruct (register_forwards _ _ _ _) as [r' p'] eqn:Er. intros [= <- <-]. cbn. split_and!; [done..| |].
  - intros e ->. by eapply register_forwards_error.
  - intros _. by exists a, bound.
Qed.

(** Starting keeps the last-good slot and the accounting sender. *)
Lemma start_revision_inv b config w r w' : start_revision b config w = (r, w') →
  w_last_good w' = w_last_good w ∧ (w_sender w = true → w_sender w' = true) ∧ (∀ e, r = Err e → e ≠ SignalFailed)
  ∧ (r = Ok () → validate canonicalize is_dir config = Ok () ∧ w_live w' = config
       ∧ (∀ cfg, accounting config = Some cfg → acc_enabled cfg = true → w_sender w = false ∧ w_sender w' = true)
       ∧ ∃ a bound, bind b (dl_bind (default_listener config)) = Some a
           ∧ bind_listeners b (disabled_listeners config) (additional_listeners config) = Ok bound ∧ bound_sockets (w_endpoints w') = a :: map snd bound).
Proof.
  unfold start_revision. destruct (validate _ _ _) as [[]|] eqn:Ev; [|intros [= <- <-]; naive_solver].
  destruct (prepare_store _ _ _) as [[] db] eqn:Ep; [|intros [= <- <-]; apply prepare_store_error in Ep; naive_solver].
  set (w1 := set_tables _ _).
  assert (∃ r2 w2, match accounting config with Some cfg => accounting_start b cfg w1 | None => (Ok (), w1) end = (r2, w2)
    ∧ w_last_good w2 = w_last_good w1 ∧ (w_sender w1 = true → w_sender w2 = true) ∧ w_live w2 = w_live w1 ∧ (∀ e, r2 = Err e → e ≠ SignalFailed)
    ∧ (∀ cfg, accounting config = Some cfg → acc_enabled cfg = true → r2 = Ok () → w_sender w1 = false ∧ w_sender w2 = true))
    as (r2&w2&->&H1&H2&H3&H4&H5).
  { destruct (accounting config) as [cfg|]; [|do 2 eexists; split; [done|]; naive_solver].
    destruct (accounting_start b cfg w1) as [r2 w2] eqn:Ea. exists r2, w2. split; [done|]. apply accounting_start_inv in Ea. naive_solver. }
  destruct r2 as [[]|e2]; [|intros [= <- <-]; naive_solver]. intros Hn. apply start_network_inv in Hn as (N1&N2&N3&N4&N5).
  rewrite N1, N2, N3, H1, H3. cbn in *. split_and!; [done|done|done|]. intros ->. split_and!; [done..| |by apply N5].
  intros cfg Hc He. by apply (H5 cfg Hc He).
Qed.

Definition start_failed (a : Attempt) : Prop := ∃ e, at_result a = Err e ∧ e ≠ SignalFailed.

(** An attempt that fails to start leaves the slot as it was. *)
Lemma run_revision_failed b serve stored w e w' : run_revision b serve stored w = (Err e, w') → e ≠ SignalFailed → w_last_good w' = w_last_good w.
Proof.
  unfold run_revision. destruct (start_revision b (stored_config stored) w) as [[u|e0] w0] eqn:Es; apply start_revision_inv in Es as (Hl&_).
  - destruct (serve w0) as [[] ?]; intros [= <- <-]; done.
  - by intros [= <- <-].
Qed.

Lemma run_head env stored w attempts e w' a : run env stored w = (attempts, e, w') → attempts !! 0%nat = Some a →
  at_stored a = stored ∧ ∃ b serve env' w1, env = (b, serve) :: env' ∧ run_revision b serve stored w = (at_result a, w1).
Proof.
  destruct env as [|[b serve] env]; cbn [run]; [by intros [= <- _ _]|]. destruct (run_revision b serve stored w) as [r w1] eqn:Er. intros H Ha.
  assert (attempts !! 0%nat = Some (MkAttempt stored r)) as Heq.
  { revert H. repeat case_match; intros [= <- _ _]; done. }
  rewrite Ha in Heq. injection Heq as ->. cbn. split; [done|]. by do 4 eexists.
Qed.

Lemma run_nonempty env stored w attempts e w' : run env stored w = (attempts, e, w') → env ≠ [] → attempts ≠ [].
Proof.
  destruct env as [|[b serve] env]; [done|]. cbn [run]. destruct (run_revision b serve stored w) as [r w1].
  intros H _ ->. revert H. repeat case_match; done.
Qed.

(** With an empty slot, an attempt that fails to start is the last one. *)
Lemma run_empty_slot env stored w attempts e w' a :
  run env stored w = (attempts, e, w') → w_last_good w = None → attempts !! 0%nat = Some a → start_failed a →
  attempts = [a] ∧ ∃ cause, e = Some (Err cause).
Proof.
  intros Hrun Hw Ha (cause&Hc&Hne). pose proof (run_head _ _ _ _ _ _ _ Hrun Ha) as (Hs&b&serve&env'&w1&->&Er). rewrite Hc in Er.
  cbn [run] in Hrun. rewrite Er in Hrun. apply run_revision_failed in Er as Hl; [|done]. unfold take_last_good in Hrun. rewrite Hl, Hw in Hrun.
  injection Hrun as <- <- _. cbn in Ha. injection Ha as <-. split; [done|]. by exists cause.
Qed.

Lemma run_lookup_S env stored w attempts e w' i a :
  run env stored w = (attempts, e, w') → attempts !! S i = Some a →
  ∃ a0 env' stored' w0 attempts', attempts = a0 :: attempts' ∧ run env' stored' w0 = (attempts', e, w') ∧ length env = S (length env')
    ∧ (is_ok (at_result a0) = false → w_last_good w0 = None).
Proof.
  destruct env as [|[b serve] env]; cbn [run]; [by intros [= <- _ _]|]. destruct (run_revision b serve stored w) as [r w1].
  destruct r as [[|]|cause].
  - destruct (load_config _) as [s|]; [|by intros [= <- _ _]]. destruct (run env s _) as [[attempts' e'] w2] eqn:Er. intros [= <- <- <-] _.
    do 5 eexists. split; [done|]. split; [done|]. by split.
  - by intros [= <- _ _].
  - cbn [take_last_good]. destruct (w_last_good w1) as [g|]; [|by intros [= <- _ _]].
    destruct (save_config _ _ _ _ _ _ _) as [[s|] db]; [|by intros [= <- _ _]].
    destruct (run env s _) as [[attempts' e'] w2] eqn:Er. intros [= <- <- <-] _. do 5 eexists. split; [done|]. split; [done|]. by split.
Qed.

(** C30: rolling back cannot go on forever.  When an attempt to apply a
    revision fails and the rollback that follows it fails to start too, the
    supervisor stops there with an error, whatever the environment does: no
    third attempt follows.  In particular, with every start failing, at most
    two revisions are attempted and the run ends in an error. *)
Theorem rollback_terminates env stored w attempts e w' :
  run env stored w = (attempts, e, w') →
  (∀ i a1 a2, attempts !! i = Some a1 → attempts !! S i = Some a2 → is_ok (at_result a1) = false → start_failed a2 →
     length attempts = S (S i) ∧ ∃ cause, e = Some (Err cause))
  ∧ (Forall start_failed attempts → (2 ≤ length env)%nat → (length attempts ≤ 2)%nat ∧ ∃ cause, e = Some (Err cause)).
Proof.
  intros Hrun.
  assert (∀ i a1 a2, attempts !! i = Some a1 → attempts !! S i = Some a2 → is_ok (at_result a1) = false → start_failed a2 →
     length attempts = S (S i) ∧ ∃ cause, e = Some (Err cause)) as Hpair.
  { intros i. revert env stored w attempts Hrun. induction i as [|i IH]; intros env stored w attempts Hrun a1 a2 H1 H2 Hf Hs.
    - pose proof (run_lookup_S _ _ _ _ _ _ _ _ Hrun H2) as (a0&env'&s'&w0&att'&->&Hrun'&_&Hslot). cbn in H1, H2. injection H1 as ->.
      destruct (run_empty_slot _ _ _ _ _ _ a2 Hrun' (Hslot Hf) H2 Hs) as [-> ?]. done.
    - pose proof (run_lookup_S _ _ _ _ _ _ _ _ Hrun H2) as (a0&env'&s'&w0&att'&->&Hrun'&_&_). cbn in H1, H2.
      destruct (IH _ _ _ _ Hrun' a1 a2 H1 H2 Hf Hs) as [Hl He]. cbn [length]. by rewrite Hl. }
  split; [exact Hpair|]. intros Hall Hlen. destruct attempts as [|a1 [|a2 attempts]].
  - exfalso. apply run_nonempty in Hrun; [done|]. intros ->. cbn in Hlen. lia.
  - split; [cbn; lia|]. apply Forall_cons in Hall as [(cause&Hc&Hne) _].
    pose proof (run_head _ _ _ _ _ _ a1 Hrun eq_refl) as (_&b&serve&env'&w1&->&Er). cbn [run] in Hrun. rewrite Er, Hc in Hrun.
    cbn [take_last_good] in Hrun. destruct (w_last_good w1) as [g|]; [|injection Hrun as _ <- _; by exists cause].
    destruct (save_config _ _ _ _ _ _ _) as [[s|se] db]; [|injection Hrun as _ <- _; by eexists].
    exfalso. destruct (run env' s _) as [[attempts' e'] w2] eqn:Er2. apply run_nonempty in Er2; [|intros ->; cbn in Hlen; lia].
    injection Hrun as _ -> _ _. done.
  - apply Forall_cons in Hall as [(c1&Hc1&_) [Hs2 _]%Forall_cons].
    destruct (Hpair 0%nat a1 a2 eq_refl eq_refl) as [Hl He]; [by rewrite Hc1|done|]. rewrite Hl. split; [lia|done].
Qed.

(** A rollback restores a configuration that worked.  When a revision was
    served until a reload and the next one fails to start, the attempt that
    follows runs the configuration of the newest revision recorded as good,
    which is the one that was served or a later one applied hot, saved again
    as a new revision. *)
Theorem rollback_restores env stored w attempts e w' a1 a2 a3 rest :
  run env stored w = (attempts, e, w') → attempts = a1 :: a2 :: a3 :: rest → at_result a1 = Ok true → start_failed a2 →
  ∃ good, revision (at_stored a1) ≤ revision good ∧ stored_config (at_stored a3) = stored_config good
    ∧ updated_by (at_stored a3) = lit "runtime-auto-rollback".
Proof.
  intros Hrun -> H1 (cause&Hc&Hne).
  pose proof (run_head _ _ _ _ _ _ a1 Hrun eq_refl) as (Hs1&b&serve&env1&w1&->&Er1). rewrite H1 in Er1. cbn [run] in Hrun. rewrite Er1 in Hrun.
  destruct (load_config _) as [s2|]; [|done]. destruct (run env1 s2 _) as [[att1 e1] w1'] eqn:Hrun1. injection Hrun as _ -> -> ->.
  assert (∃ g, w_last_good (store_last_good stored w1) = Some g ∧ revision stored ≤ revision g) as (g&Hg&Hle).
  { unfold store_last_good. destruct (w_last_good w1) as [g|] eqn:Eg; [|by exists stored].
    destruct (Z.leb_spec (revision stored) (revision g)); [by exists g|by exists stored]. }
  pose proof (run_head _ _ _ _ _ _ a2 Hrun1 eq_refl) as (_&b2&serve2&env2&w2&->&Er2). rewrite Hc in Er2.
  apply run_revision_failed in Er2 as Hl; [|done]. cbn [run] in Hrun1. rewrite Er2 in Hrun1. cbn [take_last_good] in Hrun1. rewrite Hl, Hg in Hrun1.
  destruct (save_config _ _ _ _ _ _ _) as [[s3|] db] eqn:Esave; [|done]. destruct (run env2 s3 _) as [[att2 e2] w2'] eqn:Hrun2.
  injection Hrun1 as _ -> -> ->. pose proof (run_head _ _ _ _ _ _ a3 Hrun2 eq_refl) as (Hs3&_). exists g. rewrite Hs1, Hs3. split; [done|].
  revert Esave. unfold save_config. destruct (validate _ _ _); [|done]. destruct (current_revision _); [|done]. destruct (_ <=? _); [done|].
  by intros [= <- _].
Qed.

(** ** Accounting and reloads *)

Definition accounting_on (c : RuntimeConfig.RuntimeConfig) : Prop := ∃ cfg, accounting c = Some cfg ∧ acc_enabled cfg = true.

Lemma start_fails_twice b c w : accounting_on c → w_sender w = true →
  ∃ e w', start_revision b c w = (Err e, w') ∧ e ≠ SignalFailed ∧ w_last_good w' = w_last_good w ∧ w_sender w' = true.
Proof.
  intros (cfg&Hc&He) Hs. destruct (start_revision b c w) as [[[]|e] w'] eqn:E; apply start_revision_inv in E as (H1&H2&H3&H4).
  - exfalso. destruct H4 as (_&_&H4&_); [done|]. destruct (H4 cfg Hc He). congruence.
  - exists e, w'. split_and!; [done|by apply H3|done|by apply H2].
Qed.
Lemma attempt_fails_twice b serve stored w : accounting_on (stored_config stored) → w_sender w = true →
  ∃ e w', run_revision b serve stored w = (Err e, w') ∧ w_last_good w' = w_last_good w ∧ w_sender w' = true.
Proof.
  intros Ha Hs. destruct (start_fails_twice b _ w Ha Hs) as (e&w'&E&_&?&?). exists e, w'. unfold run_revision. by rewrite E.
Qed.

(** C38: with accounting on, a reload ends the process.  The accounting sender
    is set once and never cleared, and starting a revision with accounting
    enabled fails when it is set.  So when a revision with accounting was
    served and a configuration change asks for a reload, the new revision
    fails to start, the rollback to the old one fails the same way, and the
    supervisor returns an error, although both configurations are valid. *)
Theorem accounting_reload_fatal b serve env stored w w1 stored2 :
  accounting_on (stored_config stored) → accounting_on (stored_config stored2) →
  (∀ w, w_sender w = true → w_sender (serve w).2 = true) →
  run_revision b serve stored w = (Ok true, w1) → load_config (w_db w1) = Some stored2 →
  (∀ s, w_last_good w1 = Some s → accounting_on (stored_config s)) → (2 ≤ length env)%nat →
  ∃ attempts cause w', run ((b, serve) :: env) stored w = (attempts, Some (Err cause), w')
    ∧ (length attempts ≤ 3)%nat ∧ Forall (λ a, is_ok (at_result a) = false) (tail attempts).
Proof.
  intros Ha Ha2 Hkeep Hr Hload Hslot Hlen. assert (w_sender w1 = true) as Hs1.
  { revert Hr. unfold run_revision. destruct (start_revision b _ w) as [[[]|] w0] eqn:Es; [|done]. apply start_revision_inv in Es as (_&_&_&Hok).
    destruct Hok as (_&_&Hacc&_); [done|]. destruct Ha as (cfg&Hc&He). destruct (Hacc cfg Hc He) as [_ Hs0]. specialize (Hkeep w0 Hs0).
    destruct (serve w0) as [[] ?]; intros [= <-]; done. }
  destruct env as [|[b2 serve2] [|[b3 serve3] env]]; cbn in Hlen; [lia|lia|]. cbn [run]. rewrite Hr.
  set (w1' := store_last_good stored w1).
  assert (w_sender w1' = true ∧ w_db w1' = w_db w1 ∧ ∀ s, w_last_good w1' = Some s → accounting_on (stored_config s)) as (Hs1'&Hdb&Hslot').
  { unfold w1', store_last_good. destruct (match w_last_good w1 with Some existing => revision stored <=? revision existing | None => false end); [done|]. cbn. split; [done|]. split; [done|]. by intros s [= <-]. }
  rewrite Hdb, Hload. destruct (attempt_fails_twice b2 serve2 stored2 w1' Ha2 Hs1') as (e2&w2&->&Hl2&Hs2). cbn [take_last_good]. rewrite Hl2.
  destruct (w_last_good w1') as [g|] eqn:Eg; [|do 3 eexists; split; [done|]; split; [cbn; lia|by repeat constructor]].
  destruct (save_config _ _ _ _ _ _ _) as [[s3|] db3] eqn:Esave; [|do 3 eexists; split; [done|]; split; [cbn; lia|by repeat constructor]].
  assert (stored_config s3 = stored_config g) as Hs3.
  { revert Esave. unfold save_config. destruct (validate _ _ _); [|done]. destruct (current_revision _); [|done]. destruct (_ <=? _); [done|]. by intros [= <- _]. }
  destruct (attempt_fails_twice b3 serve3 s3 (set_db db3 (set_last_good None w2))) as (e3&w3&->&Hl3&Hs3'); [rewrite Hs3; by apply Hslot'|done|].
  rewrite Hl3. cbn. do 3 eexists. split; [done|]. split; [cbn; lia|by repeat constructor].
Qed.
End runtime.

(** ** Hot changes *)

(** The plan of sockets: name, protocol, address of every bound listener. *)
Definition socket_plan (bound : list (bytes * AdditionalListenerConfig * SocketAddr)) : list (bytes * Protocol * SocketAddr) :=
  map (λ x, (x.1.1, protocol x.1.2, x.2)) bound.

Lemma bind_listeners_plan b disabled ls ls' :
  map (λ nl, (nl.1, (protocol nl.2, listener_bind nl.2))) ls = map (λ nl, (nl.1, (protocol nl.2, listener_bind nl.2))) ls' →
  (b' ← bind_listeners b disabled ls; Ok (socket_plan b')) = (b' ← bind_listeners b disabled ls'; Ok (socket_plan b')).
Proof.
  revert ls'. induction ls as [|[n l] ls IH]; intros [|[n' l'] ls'] Heq; [done..|]. cbn [map fst snd] in Heq. injection Heq as <- Hp Hb Heq.
  specialize (IH ls' Heq). cbn [bind_listeners]. destruct (bool_decide _); [done|]. rewrite Hb. destruct (bind b _) as [a|]; [|done].
  destruct (bind_listeners b disabled ls) as [x|], (bind_listeners b disabled ls') as [y|]; cbn in *; try congruence.
  injection IH as IH. unfold socket_plan in IH. by rewrite Hp, IH.
Qed.

(** A hot change keeps the sockets.  When two configurations count as
    differing in listener settings only, starting either of them binds the
    same addresses for the same listeners with the same protocols, or fails
    at the same one, in every environment; and the DNS overrides, the
    accounting, control-plane and ACME settings and the certificate fallback
    are equal, so nothing that only a reload applies has changed. *)
Theorem hot_change_keeps_sockets old new b :
  listener_settings_only old new = true →
  bind b (dl_bind (default_listener old)) = bind b (dl_bind (default_listener new))
  ∧ (bound ← bind_listeners b (disabled_listeners old) (additional_listeners old); Ok (socket_plan bound))
    = (bound ← bind_listeners b (disabled_listeners new) (additional_listeners new); Ok (socket_plan bound))
  ∧ dns_overrides old = dns_overrides new ∧ accounting old = accounting new ∧ control_plane old = control_plane new
  ∧ acme old = acme new ∧ certificate_fallback old = certificate_fallback new.
Proof.
  unfold listener_settings_only. intros H%bool_decide_eq_true. unfold topology in H. injection H as H1 H2 H3 H4 H5 H6 H7 H8.
  rewrite H1, H3. split_and!; try done. by apply bind_listeners_plan.
Qed.

(** ** Examples *)

Module RuntimeExample.
Definition with_accounting (a : option AccountingConfig) (c : RuntimeConfig.RuntimeConfig) : RuntimeConfig.RuntimeConfig :=
  MkRuntimeConfig (default_listener c) (additional_listeners c) (disabled_listeners c) (dns_overrides c) a (control_plane c) (acme c) (certificate_fallback c).
Definition logging : RuntimeConfig.RuntimeConfig :=
  with_accounting (Some (MkAccounting true (lit "/var/log/cdr.csv") (lit "10mib") 5 2 Gzip)) sample_config.
Definition port443 : SocketAddr := MkSocketAddr (V4 [0; 0; 0; 0]) 443.
Definition good : Boot := MkBoot (λ _, 7) 7 None (λ _ _, Some port443) (λ _, None) true true true true (8, 9).
Definition no_bind : Boot := MkBoot (λ _, 7) 7 None (λ _ _, None) (λ _, None) true true true true (8, 9).
Definition until_reload (w : World (R := ())) : ServeEnd * World (R := ()) := (ReloadRequested, w).
Definition saved (c : RuntimeConfig.RuntimeConfig) : StoredConfig := MkStored 1 1 (lit "admin") c.
Definition world (c : RuntimeConfig.RuntimeConfig) : World (R := ()) :=
  MkWorld (save_config Some (λ _, true) 1 2 c (lit "admin") db_empty).2 default_runtime_config None false (MkTables ∅ ∅ [] []) (MkPools ∅ ∅ ∅ ∅ ∅ [])
    (MkSelf [] [] []).
Definition go (env : list (Boot * (World (R := ()) → ServeEnd * World (R := ())))) (c : RuntimeConfig.RuntimeConfig) :=
  run Some (λ _, true) to_ascii_lowercase (λ _, Some ()) (λ _ _, false) env (saved c) (world c).

(** A served revision, then nothing binds any more. *)
Definition failing := go [(good, until_reload); (no_bind, until_reload); (no_bind, until_reload); (good, until_reload)] sample_config.

Example failing_results : map at_result failing.1.1 = [Ok true; Err (BindFailed DEFAULT_LISTENER_NAME); Err (BindFailed DEFAULT_LISTENER_NAME)].
Proof. vm_compute. reflexivity. Qed.

Lemma rollback_terminates_witness : length failing.1.1 = 3%nat ∧ ∃ cause, failing.1.2 = Some (Err cause).
Proof.
  pose proof failing_results as Hm. destruct failing as [[attempts e] w'] eqn:E. cbn [fst snd] in *.
  destruct (rollback_terminates _ _ _ _ _ _ _ _ _ _ _ E) as [H _].
  destruct attempts as [|a1 [|a2 [|a3 [|]]]]; try discriminate Hm. injection Hm as R1 R2 R3.
  apply (H 1%nat a2 a3 eq_refl eq_refl); [rewrite R2; reflexivity|]. exists (BindFailed DEFAULT_LISTENER_NAME). split; [exact R3|discriminate].
Defined.

Lemma rollback_restores_witness : ∃ a1 a2 a3, failing.1.1 = [a1; a2; a3] ∧
  ∃ g, revision (at_stored a1) ≤ revision g ∧ stored_config (at_stored a3) = stored_config g
    ∧ updated_by (at_stored a3) = lit "runtime-auto-rollback".
Proof.
  pose proof failing_results as Hm. destruct failing as [[attempts e] w'] eqn:E. cbn [fst snd] in *.
  destruct attempts as [|a1 [|a2 [|a3 [|]]]]; try discriminate Hm. injection Hm as R1 R2 R3. exists a1, a2, a3. split; [reflexivity|].
  apply (rollback_restores _ _ _ _ _ _ _ _ _ _ _ a1 a2 a3 [] E eq_refl R1). exists (BindFailed DEFAULT_LISTENER_NAME). split; [exact R2|discriminate].
Defined.

Lemma accounting_reload_fatal_witness : ∃ attempts cause w',
  go [(good, until_reload); (good, until_reload); (good, until_reload)] logging = (attempts, Some (Err cause), w')
  ∧ (length attempts ≤ 3)%nat ∧ Forall (λ a, is_ok (at_result a) = false) (tail attempts).
Proof.
  assert (accounting_on logging) as Hon by (eexists; split; reflexivity).
  destruct (run_revision Some (λ _, true) to_ascii_lowercase (λ _, Some ()) (λ _ _, false) good until_reload (saved logging) (world logging))
    as [r w1] eqn:E.
  assert ((run_revision Some (λ _, true) to_ascii_lowercase (λ _, Some ()) (λ _ _, false) good until_reload (saved logging) (world logging)).1 = Ok true)
    as Hr by (vm_compute; reflexivity).
  assert (load_config (w_db (run_revision Some (λ _, true) to_ascii_lowercase (λ _, Some ()) (λ _ _, false) good until_reload (saved logging)
    (world logging)).2) = Some (saved logging)) as Hl by (vm_compute; reflexivity).
  assert (w_last_good (run_revision Some (λ _, true) to_ascii_lowercase (λ _, Some ()) (λ _ _, false) good until_reload (saved logging)
    (world logging)).2 = None) as Hg by (vm_compute; reflexivity).
  rewrite E in Hr, Hl, Hg. cbn [fst snd] in Hr, Hl, Hg. subst r.
  apply (accounting_reload_fatal Some (λ _, true) to_ascii_lowercase (λ _, Some ()) (λ _ _, false) good until_reload
    [(good, until_reload); (good, until_reload)] (saved logging) (world logging) w1 (saved logging)); [exact Hon|exact Hon| |exact E|exact Hl| |].
  - intros w Hw. exact Hw.
  - intros s Hs. rewrite Hg in Hs. discriminate.
  - cbn. lia.
Defined.

(** New traffic rules for the mandatory listener. *)
Definition retuned : RuntimeConfig.RuntimeConfig :=
  MkRuntimeConfig (MkDefaultListener (dl_bind (default_listener sample_config)) (MkTlsConfig [] DENY empty_rules default_tls_action (Some 1000) None))
    (additional_listeners sample_config) (disabled_listeners sample_config) (dns_overrides sample_config) (accounting sample_config)
    (control_plane sample_config) (acme sample_config) (certificate_fallback sample_config).
Lemma hot_change_keeps_sockets_witness :
  bind good (dl_bind (default_listener sample_config)) = bind good (dl_bind (default_listener retuned)).
Proof. apply (hot_change_keeps_sockets sample_config retuned good). vm_compute. reflexivity. Defined.
End RuntimeExample.
