(* ===== verification/Listeners.v ===== *)
(** * The accept loops (src/runtime.rs, src/listener/default.rs)

    What each listener does with one accepted connection under the live
    configuration, and the restart cycle of a listener.  The bookkeeping
    around a connection ([ConnGuard]) is in ActiveTracker. *)

From S2P Require Import Prelude RustStd Net ProxyProtocol HostUtil Stream TlsHeader HelloCache AcmeChallenge BindAddr FilePath HttpHead Config Accounting AcmeDns RuntimeConfig Forward Health Relay Dataplane ErrorPages StaticFiles HttpPlane DefaultListener Terminate Runtime.
Open Scope Z_scope.

(** ** Restarting a listener *)

Inductive RoundEnd := LoopEnded | RestartRequested.
Inductive ListenerState := Listening (socket : SocketAddr) | ListenerDown.

(** Up to 20 calls of [bind] between which the loop sleeps. *)
Definition rebind (tries : nat → option SocketAddr) : option SocketAddr := bind_attempts tries 0 20.
(** One entry per round: how it ended and what rebinding then gives. *)
Fixpoint run_restartable (rounds : list (RoundEnd * (nat → option SocketAddr))) (socket : SocketAddr) : ListenerState :=
  match rounds with
  | [] => Listening socket
  | (LoopEnded, _) :: _ => ListenerDown
  | (RestartRequested, tries) :: rounds =>
      match rebind tries with
      | Some socket => run_restartable rounds socket
      | None => ListenerDown
      end
  end.

(** ** Live settings per connection *)

(** The listener of that name in the live configuration, when it still has
    the protocol of the running loop. *)
Definition live_tls (live : RuntimeConfig.RuntimeConfig) (name : bytes) (own : HostRoutedTlsListenerConfig) : DefaultListenerConfig :=
  match assoc name (additional_listeners live) with
  | Some (TlsListener c) => MkDefaultListener (tl_bind c) (routing c)
  | _ => MkDefaultListener (tl_bind own) (routing own)
  end.
Definition live_http (live : RuntimeConfig.RuntimeConfig) (name : bytes) (own : HostRoutedHttpListenerConfig) : HostRoutedHttpListenerConfig :=
  match assoc name (additional_listeners live) with
  | Some (HttpListener c) | Some (RedirectListener c) => c
  | _ => own
  end.
Definition live_forward (live : RuntimeConfig.RuntimeConfig) (name : bytes) (own : RawForwardListenerConfig) : RawForwardListenerConfig :=
  match assoc name (additional_listeners live) with
  | Some (ForwardListener c) => c
  | _ => own
  end.
Definition idle_timeout_ms (max_idle : option Z) : Z := default u64_max max_idle.
(** The arguments the mandatory listener gives to [handle_connection]. *)
Definition default_settings (live : RuntimeConfig.RuntimeConfig) (control_hostname : option bytes)
  : DefaultListenerConfig * option bytes * CertificateFallbackPolicy :=
  (default_listener live,
   if bool_decide (cp_hostname (control_plane live) = []) then control_hostname else Some (cp_hostname (control_plane live)),
   certificate_fallback live).

(** ** TLS listeners *)

Section tls.
Context {CertifiedKey : Type} (certified_key : bytes → option CertifiedKey).
Context {A : Type} (acceptor_default : A) (accept : A → accept_result * A) (read_tls : A → bytes → option A).
Context {S : Type} `{AsyncReadOk S} (is_match : Regex → bytes → bool).
Abbreviation Registry := (gmap bytes (ChallengeEntry CertifiedKey)).

Inductive tls_listener_error := TlsHello (e : hello_error) | SniDenied | TlsDispatch (e : dispatch_error).

Definition tls_listener_connection (now : Z) (live : RuntimeConfig.RuntimeConfig) (name : bytes) (own : HostRoutedTlsListenerConfig)
  (client : ConnStream S) (entries : Registry) (cache : Cache bytes)
  : result tls_listener_error (Handler CertifiedKey * ClientHello) * ConnStream S * Registry * Cache bytes :=
  let c := live_tls live name own in
  match read_client_hello acceptor_default accept read_tls client DEFAULT_MAX_CLIENT_HELLO_SIZE with
  | (Err e, client) => (Err (TlsHello e), client, entries, cache)
  | (Ok hello, client) =>
      match select_tls_route is_match (ordinary_traffic c) (sni_host hello) with
      | None => (Err SniDenied, client, entries, cache)
      | Some action =>
          match dispatch_non_control certified_key now (ConnOrdinary (sni_host hello) action) hello c entries cache with
          | (Ok h, entries, cache) => (Ok (h, hello), client, entries, cache)
          | (Err e, entries, cache) => (Err (TlsDispatch e), client, entries, cache)
          end
      end
  end.
End tls.

(** ** HTTP and redirect listeners *)

Section http.
Context (override : bytes → Z → option bytes) (lookup_host : bytes → option (list SocketAddr)) (hash : IpAddr → bytes → Z).
Context (civil : Z → DateTime) (to_lowercase : bytes → bytes) {G Z' : Type} `{Compressor G} `{Compressor Z'} (fs : Fs).
Context (b64_decode : bytes → option bytes) (ct_eq : bytes → bytes → bool).
Context (get_if_addrs : option (list IfAddr)) (endpoints : SelfEndpoints) (connect : bytes → option Upstream).
Context {S : Type} `{AsyncReadOk S} (is_match : Regex → bytes → bool).

Inductive http_listener_error := HttpDenied | HttpFailed (e : plane_error).
Inductive HttpServed := Redirected | Handled (e : Ending).

Definition http_listener_policy (c : HostRoutedHttpListenerConfig) : RelayPolicy := MkPolicy (hl_bind c) None 80 (hl_speed_limit c) false.
Definition http_listener_connection (now seed random : Z) (env : RelayEnv) (live : RuntimeConfig.RuntimeConfig) (name : bytes)
  (own : HostRoutedHttpListenerConfig) (remote loc : SocketAddr) (p : Plane S) : result http_listener_error HttpServed * Plane S :=
  let c := live_http live name own in
  match read_head p with
  | (Err e, p) => (Err (HttpFailed e), p)
  | (Ok head, p) =>
      match select_http_route is_match c (host head) with
      | None => (Err HttpDenied, p)
      | Some action =>
          if bool_decide (behavior action = BehaviorRedirectHttps) then
            match to_client (redirect_https head (RuntimeConfig.redirect action) (redirect_https_port c)) p with
            | (Ok _, p) => (Ok Redirected, p)
            | (Err e, p) => (Err (HttpFailed e), p)
            end
          else
            let route_key := name ++ [COLON] ++ to_ascii_lowercase (host head) in
            match http_run override lookup_host hash civil to_lowercase (G := G) (Z' := Z') fs b64_decode ct_eq get_if_addrs endpoints connect
                    now seed random env name remote loc (http_listener_policy c) (Some head) (Some (route_key, action)) false None p with
            | (Ok e, p) => (Ok (Handled e), p)
            | (Err e, p) => (Err (HttpFailed e), p)
            end
      end
  end.

(** ** Forward listeners *)

Definition forward_listener_policy (c : RawForwardListenerConfig) : RelayPolicy :=
  MkPolicy (rf_bind c) (Some (rf_targets c)) 0 (rf_speed_limit c) (rf_upstream_tls c).
Definition forward_listener_connection (now seed : Z) (env : RelayEnv) (live : RuntimeConfig.RuntimeConfig) (name : bytes)
  (own : RawForwardListenerConfig) (remote loc : SocketAddr) (p : Plane S) : result l4_error RelayOutcome * Plane S :=
  let c := live_forward live name own in
  l4_run lookup_host hash get_if_addrs endpoints connect now seed env name remote loc
    (forward_listener_policy c) (rf_load_balancing c) (rf_proxy_protocol c) p.
End http.

(** ** Agreement with the mandatory listener *)

Section agreement.
Context {CertifiedKey : Type} (certified_key : bytes → option CertifiedKey).
Context {A : Type} (acceptor_default : A) (accept : A → accept_result * A) (read_tls : A → bytes → option A).
Context {S : Type} `{AsyncReadOk S} (is_match : Regex → bytes → bool).

(** The outcomes of the mandatory listener as a TLS listener reports them. *)
Definition as_tls_listener (r : result connection_error (Served (CertifiedKey := CertifiedKey) * ClientHello))
  : option (result tls_listener_error (Handler CertifiedKey * ClientHello)) :=
  match r with
  | Ok (ServedBy h, hello) => Some (Ok (h, hello))
  | Ok (ServedControl _, _) => None
  | Err (HelloError e) => Some (Err (TlsHello e))
  | Err (DispatchError (Rejected PolicyDenied)) => Some (Err SniDenied)
  | Err (DispatchError e) => Some (Err (TlsDispatch e))
  end.

(** A TLS listener decides as the mandatory one does.  For a client whose
    server name is in normal form, offers no ACME protocol and is not the
    control hostname, an additional TLS listener with some rules does exactly
    what the mandatory listener does with those rules: the same handler with
    the same arguments or the same rejection, the same bytes consumed, the
    same effect on the loop cache. *)
Theorem tls_listener_agrees now live name own control_hostname client entries cache hello client1 :
  read_client_hello acceptor_default accept read_tls client DEFAULT_MAX_CLIENT_HELLO_SIZE = (Ok hello, client1) →
  AcmeDns.normalize_domain (sni_host hello) = Some (sni_host hello) →
  existsb (λ p, eqb_bytes p TLS_ALPN_PROTOCOL) (alpn_protocols hello) = false →
  control_hostname ≫= AcmeDns.normalize_domain ≠ Some (sni_host hello) →
  let '(r, client', entries', cache') := tls_listener_connection certified_key acceptor_default accept read_tls is_match now live name own client entries cache in
  let '(r0, client0, entries0, cache0) :=
    handle_connection certified_key acceptor_default accept read_tls is_match now (live_tls live name own) control_hostname client entries cache in
  as_tls_listener r0 = Some r ∧ client' = client0 ∧ entries' = entries0 ∧ cache' = cache0.
Proof.
  intros Hread Hn Hacme Hctl. unfold tls_listener_connection, handle_connection. rewrite Hread, Hn, Hacme.
  unfold decide_route, classify. cbn [mbind option_bind]. rewrite Hn, Hacme. cbn [andb]. rewrite (bool_decide_eq_false_2 _ Hctl).
  destruct (select_tls_route is_match (ordinary_traffic (live_tls live name own)) (sni_host hello)) as [action|] eqn:Es.
  - rewrite bool_decide_eq_true_2 by (by eexists). rewrite Es. cbn [serve_route].
    unfold dispatch_non_control. destruct (cache_is_looped now (random hello) cache) as [[|] cache']; [done|].
    destruct action; cbn; try done; by destruct (certified_key (sni_host hello)).
  - rewrite bool_decide_eq_false_2 by (by intros [? ?]). done.
Qed.
End agreement.

Module ListenerExample.
Definition own : HostRoutedTlsListenerConfig := MkTlsListener (lit "0.0.0.0:8443") default_tls_config.
Definition served :=
  tls_listener_connection (CertifiedKey := bytes) (λ sni, Some sni) [] sample_accept (λ a d, Some (a ++ d)) (λ _ _, false) 5
    default_runtime_config (lit "extra") own PassthroughExample.client ∅ (cache_new : Cache bytes).
Definition mandatory :=
  handle_connection (CertifiedKey := bytes) (λ sni, Some sni) [] sample_accept (λ a d, Some (a ++ d)) (λ _ _, false) 5
    (live_tls default_runtime_config (lit "extra") own) None PassthroughExample.client ∅ (cache_new : Cache bytes).

Lemma tls_listener_agrees_witness : as_tls_listener mandatory.1.1.1 = Some served.1.1.1.
Proof.
  assert (read_client_hello [] sample_accept (λ a d, Some (a ++ d)) PassthroughExample.client DEFAULT_MAX_CLIENT_HELLO_SIZE
    = (Ok PassthroughExample.hello, PassthroughExample.client')) as Hr by (vm_compute; reflexivity).
  assert (AcmeDns.normalize_domain (sni_host PassthroughExample.hello) = Some (sni_host PassthroughExample.hello)) as Hn by (vm_compute; reflexivity).
  pose proof (tls_listener_agrees (CertifiedKey := bytes) (λ sni, Some sni) [] sample_accept (λ a d, Some (a ++ d)) (λ _ _, false) 5
    default_runtime_config (lit "extra") own None PassthroughExample.client ∅ (cache_new : Cache bytes) PassthroughExample.hello
    PassthroughExample.client' Hr Hn eq_refl ltac:(discriminate)) as H.
  fold served in H. fold mandatory in H. destruct served as [[[r c] e] ca], mandatory as [[[r0 c0] e0] ca0].
  destruct H as [H _]. exact H.
Defined.
End ListenerExample.
