(* ===== verification/TaskTree.v ===== *)
(** * Tasks and their cancellation (src/controller.rs, src/runtime.rs)

    A revision's background jobs, listeners, connections and relays run as
    tasks in a tree of contexts; dropping a context cancels its tasks and
    those of its descendants.  The contexts are those of tokio-tree-context,
    an interface here ([TreeContext]) with the list model [forest] as an
    instance.  [Revision] is what the running tasks own of the tree, and
    [Event] is what can happen to it. *)

From S2P Require Import Prelude RustStd Net ProxyProtocol FilePath Config RuntimeConfig.
From stdpp Require Import infinite.

(** ** Contexts *)

(** [under t a b]: context [b] is [a] or one of its descendants, and has not
    been dropped.  [live t c l]: the task [l] spawned in context [c] has
    neither completed nor been cancelled. *)
Class TreeContext (T C L : Type) := MkTreeContext {
  context_dec :: EqDecision C;
  context_new : T → C * T;
  new_child_context : C → T → C * T;
  context_spawn : C → L → T → T;
  context_done : C → L → T → T;
  context_drop : C → T → T;
  under : T → C → C → Prop;
  live : T → C → L → Prop;
  new_fresh t x : ¬ under t (context_new t).1 x ∧ ¬ under t x (context_new t).1;
  new_under t a b : under (context_new t).2 a b ↔ under t a b ∨ (a = (context_new t).1 ∧ b = (context_new t).1);
  new_live t c l : live (context_new t).2 c l ↔ live t c l;
  child_fresh p t x : ¬ under t (new_child_context p t).1 x ∧ ¬ under t x (new_child_context p t).1;
  child_under p t a b : under t p p →
    under (new_child_context p t).2 a b ↔ under t a b ∨ (b = (new_child_context p t).1 ∧ (a = (new_child_context p t).1 ∨ under t a p));
  child_live p t c l : live (new_child_context p t).2 c l ↔ live t c l;
  spawn_under c l t a b : under (context_spawn c l t) a b ↔ under t a b;
  spawn_live c l t x k : under t c c → live (context_spawn c l t) x k ↔ live t x k ∨ (x = c ∧ k = l);
  done_under c l t a b : under (context_done c l t) a b ↔ under t a b;
  done_live c l t x k : live (context_done c l t) x k ↔ live t x k ∧ ¬ (x = c ∧ k = l);
  drop_under c t a b : under (context_drop c t) a b ↔ under t a b ∧ ¬ under t c b;
  drop_live c t x k : live (context_drop c t) x k ↔ live t x k ∧ ¬ under t c x;
}.

(** *** Controllers (controller.rs) *)

Section controller.
Context {T C L : Type} {tree : TreeContext T C L}.

Definition controller_new (t : T) : C * T := context_new t.
Definition controller_spawn (c : C) (l : L) (t : T) : T := context_spawn c l t.
Definition controller_child (c : C) (t : T) : C * T := new_child_context c t.
(** The old context is dropped; the controller goes on with a new one. *)
Definition controller_cancel (c : C) (t : T) : C * T :=
  let '(fresh, t) := context_new t in (fresh, context_drop c t).
End controller.

(** ** The tasks of a revision *)

Inductive BackgroundJob := Sampler | Reconciler | Eviction | HealthLoop | Scheduler | Maintenance.
Inductive RelayPart := Upload | Download | Monitor.
(** Listeners are numbered in the order in which they are spawned; the
    mandatory one is number 0.  Connections carry their request id. *)
Inductive Task :=
| Job (j : BackgroundJob)
| Probe (n : nat)
| ListenerTask (slot : nat)
| ConnectionTask (slot id : nat)
| RelayTask (slot id : nat) (part : RelayPart).

Section revision.
Context {T C : Type} {tree : TreeContext T C Task}.

(** Where [run_restartable] is: spawned but not polled yet, in a round (with
    the round's controller), between two rounds, or returned. *)
Inductive Phase := Spawned | Accepting (round : C) | Rebinding | Stopped.
(** [ln_restarts] are the messages queued in the restart channel. *)
Record Listener := MkListener { ln_name : bytes; ln_controller : C; ln_phase : Phase; ln_connections : gmap nat C; ln_restarts : nat }.
(** [rv_senders] is [restart_senders]: the listener whose channel a name has. *)
Record Revision := MkRevision {
  rv_tree : T;
  rv_root : C;
  rv_health : C;
  rv_sweep : option C;
  rv_listeners : list Listener;
  rv_senders : gmap bytes nat;
}.
Definition set_tree (t : T) (s : Revision) : Revision := MkRevision t (rv_root s) (rv_health s) (rv_sweep s) (rv_listeners s) (rv_senders s).
Definition set_listener (slot : nat) (l : Listener) (s : Revision) : Revision :=
  MkRevision (rv_tree s) (rv_root s) (rv_health s) (rv_sweep s) (<[slot := l]> (rv_listeners s)) (rv_senders s).
Definition set_phase (p : Phase) (l : Listener) : Listener := MkListener (ln_name l) (ln_controller l) p (ln_connections l) (ln_restarts l).
Definition set_connections (cs : gmap nat C) (l : Listener) : Listener := MkListener (ln_name l) (ln_controller l) (ln_phase l) cs (ln_restarts l).
Definition set_restarts (n : nat) (l : Listener) : Listener := MkListener (ln_name l) (ln_controller l) (ln_phase l) (ln_connections l) n.

(** *** Starting (run_revision) *)

Definition spawn_listener (root : C) (slot : nat) (name : bytes) (t : T) : Listener * T :=
  let '(child, t) := controller_child root t in
  (MkListener name child Spawned ∅ 0, controller_spawn root (ListenerTask slot) t).
Fixpoint spawn_listeners (root : C) (slot : nat) (names : list bytes) (t : T) : list Listener * T :=
  match names with
  | [] => ([], t)
  | name :: names =>
      let '(l, t) := spawn_listener root slot name t in
      let '(ls, t) := spawn_listeners root (S slot) names t in
      (l :: ls, t)
  end.
Definition spawn_global_health_checks (root : C) (t : T) : C * T :=
  let '(health, t) := controller_child root t in
  (health, controller_spawn root (Job HealthLoop) t).
(** [names] are the additional listeners that were bound.  When a forward
    listener cannot be registered, the early return drops the controller. *)
Definition start_tasks (registered : bool) (names : list bytes) (t : T) : option Revision * T :=
  let '(root, t) := controller_new t in
  let t := controller_spawn root (Job Sampler) t in
  let t := controller_spawn root (Job Reconciler) t in
  let t := controller_spawn root (Job Eviction) t in
  let '(health, t) := spawn_global_health_checks root t in
  let t := controller_spawn root (Job Scheduler) t in
  let t := controller_spawn root (Job Maintenance) t in
  if negb registered then (None, context_drop root t)
  else
    let '(ls, t) := spawn_listeners root 0 (DEFAULT_LISTENER_NAME :: names) t in
    (Some (MkRevision t root health None ls ∅), t).

(** *** Listeners (run_restartable and the accept loops) *)

(** A round begins: the accept loop gets a child of the listener's
    controller. *)
Definition begin_round (slot : nat) (l : Listener) (s : Revision) : Revision :=
  let '(round, t) := controller_child (ln_controller l) (rv_tree s) in
  set_listener slot (set_phase (Accepting round) l) (set_tree t s).
(** The task's first turn: the channel is put in place of an older one. *)
Definition listener_begin (slot : nat) (s : Revision) : option Revision :=
  l ← rv_listeners s !! slot;
  match ln_phase l with
  | Spawned =>
      let s := MkRevision (rv_tree s) (rv_root s) (rv_health s) (rv_sweep s) (rv_listeners s) (<[ln_name l := slot]> (rv_senders s)) in
      Some (begin_round slot l s)
  | _ => None
  end.
(** The loop returns: its controller and the receiver are dropped. *)
Definition listener_stop (slot : nat) (l : Listener) (s : Revision) : Revision :=
  let t := context_drop (ln_controller l) (context_done (rv_root s) (ListenerTask slot) (rv_tree s)) in
  set_listener slot (set_connections ∅ (set_phase Stopped l)) (set_tree t s).
Definition round_end (slot : nat) (s : Revision) : option Revision :=
  l ← rv_listeners s !! slot;
  match ln_phase l with Accepting _ => Some (listener_stop slot l s) | _ => None end.
(** A connection is accepted: its own controller, then its task. *)
Definition accept_connection (slot id : nat) (s : Revision) : option Revision :=
  l ← rv_listeners s !! slot;
  match ln_phase l, ln_connections l !! id with
  | Accepting round, None =>
      let '(connection, t) := controller_child round (rv_tree s) in
      let t := controller_spawn round (ConnectionTask slot id) t in
      Some (set_listener slot (set_connections (<[id := connection]> (ln_connections l)) l) (set_tree t s))
  | _, _ => None
  end.
(** The tasks of a relay ([pipe] twice and the monitor). *)
Definition relay_spawn (slot id : nat) (part : RelayPart) (s : Revision) : option Revision :=
  l ← rv_listeners s !! slot;
  connection ← ln_connections l !! id;
  Some (set_tree (controller_spawn connection (RelayTask slot id part) (rv_tree s)) s).
(** One of them completes, or the monitor aborts it. *)
Definition relay_done (slot id : nat) (part : RelayPart) (s : Revision) : option Revision :=
  l ← rv_listeners s !! slot;
  connection ← ln_connections l !! id;
  Some (set_tree (context_done connection (RelayTask slot id part) (rv_tree s)) s).
(** The connection's task completes and its controller is dropped. *)
Definition connection_end (slot id : nat) (s : Revision) : option Revision :=
  l ← rv_listeners s !! slot;
  match ln_phase l, ln_connections l !! id with
  | Accepting round, Some connection =>
      let t := context_drop connection (context_done round (ConnectionTask slot id) (rv_tree s)) in
      Some (set_listener slot (set_connections (delete id (ln_connections l)) l) (set_tree t s))
  | _, _ => None
  end.

(** *** Restarts *)

Definition request_listener_restart (name : bytes) (s : Revision) : bool * Revision :=
  let key := if eqb_bytes name (lit "__default__") then DEFAULT_LISTENER_NAME else name in
  match rv_senders s !! key with
  | None => (false, s)
  | Some slot =>
      match rv_listeners s !! slot with
      | None => (false, s)
      | Some l => match ln_phase l with
                  | Stopped => (false, s)
                  | _ => (true, set_listener slot (set_restarts (S (ln_restarts l)) l) s)
                  end
      end
  end.
(** [restart.recv()] is ready: a message is queued, or the sender is gone. *)
Definition restart_ready (slot : nat) (l : Listener) (s : Revision) : bool :=
  (0 <? ln_restarts l)%nat || negb (bool_decide (rv_senders s !! ln_name l = Some slot)).
(** The round is dropped, with the controller it owns. *)
Definition take_restart (slot : nat) (s : Revision) : option Revision :=
  l ← rv_listeners s !! slot;
  match ln_phase l with
  | Accepting round =>
      if restart_ready slot l s
      then Some (set_listener slot (set_connections ∅ (set_restarts (pred (ln_restarts l)) (set_phase Rebinding l)))
                   (set_tree (context_drop round (rv_tree s)) s))
      else None
  | _ => None
  end.
Definition rebound (slot : nat) (bound : bool) (s : Revision) : option Revision :=
  l ← rv_listeners s !! slot;
  match ln_phase l with
  | Rebinding => Some (if bound then begin_round slot l s else listener_stop slot l s)
  | _ => None
  end.

(** *** Health sweeps (run_global_health_checks) *)

Definition sweep_begin (s : Revision) : option Revision :=
  match rv_sweep s with
  | Some _ => None
  | None => let '(check, t) := controller_child (rv_health s) (rv_tree s) in
            Some (MkRevision t (rv_root s) (rv_health s) (Some check) (rv_listeners s) (rv_senders s))
  end.
Definition sweep_probe (n : nat) (s : Revision) : option Revision :=
  check ← rv_sweep s; Some (set_tree (controller_spawn check (Probe n) (rv_tree s)) s).
Definition probe_done (n : nat) (s : Revision) : option Revision :=
  check ← rv_sweep s; Some (set_tree (context_done check (Probe n) (rv_tree s)) s).
(** [check_controller.cancel()]; the new context goes as the turn ends. *)
Definition sweep_end (s : Revision) : option Revision :=
  check ← rv_sweep s;
  let '(fresh, t) := controller_cancel check (rv_tree s) in
  Some (MkRevision (context_drop fresh t) (rv_root s) (rv_health s) None (rv_listeners s) (rv_senders s)).

(** *** The end of a revision *)

(** [root.cancel()]; the new context goes as [run_revision] returns. *)
Definition stop_revision (s : Revision) : T :=
  let '(fresh, t) := controller_cancel (rv_root s) (rv_tree s) in context_drop fresh t.

Inductive Event :=
| ListenerBegins (slot : nat)
| RoundEnds (slot : nat)
| Accepts (slot id : nat)
| Relays (slot id : nat) (part : RelayPart)
| RelayEnds (slot id : nat) (part : RelayPart)
| ConnectionEnds (slot id : nat)
| RestartRequest (name : bytes)
| RestartTaken (slot : nat)
| Rebound (slot : nat) (bound : bool)
| SweepBegins
| Probes (n : nat)
| ProbeEnds (n : nat)
| SweepEnds.
Definition step (e : Event) (s : Revision) : option Revision :=
  match e with
  | ListenerBegins slot => listener_begin slot s
  | RoundEnds slot => round_end slot s
  | Accepts slot id => accept_connection slot id s
  | Relays slot id part => relay_spawn slot id part s
  | RelayEnds slot id part => relay_done slot id part s
  | ConnectionEnds slot id => connection_end slot id s
  | RestartRequest name => Some (request_listener_restart name s).2
  | RestartTaken slot => take_restart slot s
  | Rebound slot bound => rebound slot bound s
  | SweepBegins => sweep_begin s
  | Probes n => sweep_probe n s
  | ProbeEnds n => probe_done n s
  | SweepEnds => sweep_end s
  end.
(** A tree with nothing in it. *)
Definition idle (t : T) : Prop := (∀ a b, ¬ under t a b) ∧ ∀ c l, ¬ live t c l.
(** The states of a revision that was started on an idle tree. *)
Inductive reachable : Revision → Prop :=
| started t names s t' : idle t → start_tasks true names t = (Some s, t') → reachable s
| stepped e s s' : reachable s → step e s = Some s' → reachable s'.

(** *** The tree is what the tasks own *)

(** Contexts by their place: the root is [[]], the health checks' context
    [[0]] and a sweep's [[0; 0]]; listener [n] has [[S n]], its round
    [[S n; 0]] and the connections [[S n; 0; id]]. *)
Definition listener_own (l : Listener) (rest : list nat) : option C :=
  match ln_phase l, rest with
  | Stopped, _ => None
  | _, [] => Some (ln_controller l)
  | Accepting round, [0%nat] => Some round
  | Accepting _, [0%nat; id] => ln_connections l !! id
  | _, _ => None
  end.
Definition own (s : Revision) (p : list nat) : option C :=
  match p with
  | [] => Some (rv_root s)
  | [0%nat] => Some (rv_health s)
  | [0%nat; 0%nat] => rv_sweep s
  | S n :: rest => l ← rv_listeners s !! n; listener_own l rest
  | _ => None
  end.
Definition task_path (k : Task) : list nat :=
  match k with
  | Job _ | ListenerTask _ => []
  | Probe _ => [0%nat; 0%nat]
  | ConnectionTask slot _ => [S slot; 0%nat]
  | RelayTask slot id _ => [S slot; 0%nat; id]
  end.
(** [t] consists of the contexts in [owner], nested as their places are, and
    its tasks are in the contexts of their places. *)
Record tree_is (t : T) (owner : list nat → option C) : Prop := {
  own_inj p q c : owner p = Some c → owner q = Some c → p = q;
  own_under a b : under t a b ↔ ∃ p q, owner p = Some a ∧ owner q = Some b ∧ p `prefix_of` q;
  own_live c k : live t c k → owner (task_path k) = Some c;
}.

Lemma tree_ext t f g : (∀ p, f p = g p) → tree_is t f → tree_is t g.
Proof. intros E [H1 H2 H3]. split; setoid_rewrite <- E; done. Qed.
Lemma tree_owned t f p c : tree_is t f → f p = Some c → under t c c.
Proof. intros H Hp. apply (own_under _ _ H). exists p, p. done. Qed.
Lemma tree_under t f p q a b : tree_is t f → f p = Some a → f q = Some b → under t a b ↔ p `prefix_of` q.
Proof.
  intros H Hp Hq. rewrite (own_under _ _ H). split; [|by eauto].
  intros (p'&q'&Hp'&Hq'&Hpre). by rewrite (own_inj _ _ H p p' a Hp Hp'), (own_inj _ _ H q q' b Hq Hq').
Qed.
Lemma tree_fresh t f c p : tree_is t f → (∀ x, ¬ under t c x) → f p ≠ Some c.
Proof. intros H Hc Hp. by apply (Hc c), (tree_owned t f p c). Qed.
Lemma prefix_snoc_inv (r p : list nat) x : r `prefix_of` p ++ [x] → r = p ++ [x] ∨ r `prefix_of` p.
Proof. intros [s Hs]. destruct s as [|y s _] using rev_ind; [left; by rewrite app_nil_r in Hs|]. right. rewrite app_assoc in Hs. apply app_inj_tail in Hs as [-> _]. by exists s. Qed.
Lemma tree_child t f p x a : tree_is t f → f p = Some a → (∀ r, f ((p ++ [x]) ++ r) = None) →
  tree_is (new_child_context a t).2 (λ q, if decide (q = p ++ [x]) then Some (new_child_context a t).1 else f q).
Proof.
  intros H Hp Hx. pose proof (tree_owned t f p a H Hp) as Ha. pose proof (child_fresh a t) as Hfr. set (c := (new_child_context a t).1) in *.
  assert (∀ q, f q ≠ Some c) as Hnc by (intros q; apply (tree_fresh t f c q H); intros y; by destruct (Hfr y)). split.
  - intros q r d. do 2 case_decide; subst; [done|intros [= <-] Hr; by destruct (Hnc r)|intros Hq [= <-]; by destruct (Hnc q)|by apply (own_inj _ _ H)].
  - intros y z. rewrite (child_under a t y z Ha). fold c. split.
    + intros [(q&r&Hq&Hr&Hqr)%(own_under _ _ H)|[-> [->|(q&r&Hq&Hr&Hqr)%(own_under _ _ H)]]].
      * exists q, r. split_and!; [..|done]; case_decide as Hd; try done; subst; [specialize (Hx [])|specialize (Hx [])]; rewrite app_nil_r in Hx; congruence.
      * exists (p ++ [x]), (p ++ [x]). by rewrite decide_True.
      * assert (r = p) as -> by (by eapply (own_inj _ _ H)). exists q, (p ++ [x]). rewrite (decide_True _ _ (eq_refl (p ++ [x]))). split_and!; [|done|by apply prefix_app_r].
        case_decide as Hd; [|done]. subst. apply prefix_length in Hqr. rewrite length_app in Hqr. cbn in Hqr. lia.
    + intros (q&r&Hq&Hr&Hqr). destruct (decide (q = p ++ [x])) as [->|D1], (decide (r = p ++ [x])) as [->|D2].
      * injection Hq as <-. injection Hr as <-. right. auto.
      * destruct Hqr as [w ->]. by rewrite Hx in Hr.
      * injection Hr as <-. right. split; [done|]. apply prefix_snoc_inv in Hqr as [->|Hqr]; [done|]. right. apply (own_under _ _ H). eauto.
      * left. apply (own_under _ _ H). eauto.
  - intros y k Hl%child_live. apply (own_live _ _ H) in Hl. case_decide as Hd; [|done]. rewrite Hd in Hl. specialize (Hx []). rewrite app_nil_r in Hx. congruence.
Qed.
Lemma tree_spawn t f c k : tree_is t f → f (task_path k) = Some c → tree_is (context_spawn c k t) f.
Proof.
  intros H Hk. pose proof (tree_owned _ _ _ _ H Hk) as Hc. destruct H as [H1 H2 H3]. split; [done|intros a b; by rewrite spawn_under|].
  intros x k' [Hl|[-> ->]]%spawn_live; [by apply H3|done|done].
Qed.
Lemma tree_done t f c k : tree_is t f → tree_is (context_done c k t) f.
Proof. intros [H1 H2 H3]. split; [done|intros a b; by rewrite done_under|]. intros x k' [Hl _]%done_live. by apply H3. Qed.
Lemma tree_drop t f p c : tree_is t f → f p = Some c → tree_is (context_drop c t) (λ q, if decide (p `prefix_of` q) then None else f q).
Proof.
  intros H Hp. split.
  - intros q r d. do 2 (case_decide; [done|]). by apply (own_inj _ _ H).
  - intros a b. rewrite drop_under. split.
    + intros [(q&r&Hq&Hr&Hqr)%(own_under _ _ H) Hn]. rewrite (tree_under _ _ _ _ _ _ H Hp Hr) in Hn. exists q, r. rewrite (decide_False _ _ Hn).
      rewrite decide_False; [done|]. intros Hpq. apply Hn. by etrans.
    + intros (q&r&Hq&Hr&Hqr). case_decide; [done|]. case_decide; [done|]. split; [apply (own_under _ _ H); eauto|]. by rewrite (tree_under _ _ _ _ _ _ H Hp Hr).
  - intros x k [Hl Hn]%drop_live. apply (own_live _ _ H) in Hl. rewrite (tree_under _ _ _ _ _ _ H Hp Hl) in Hn. by rewrite decide_False.
Qed.
(** Which tasks a drop cancels. *)
Lemma drop_tasks t f p c x k : tree_is t f → f p = Some c → live (context_drop c t) x k ↔ live t x k ∧ ¬ p `prefix_of` task_path k.
Proof.
  intros H Hp. rewrite drop_live. split; intros [Hl Hn]; (split; [done|]); pose proof (own_live _ _ H _ _ Hl) as Hk; by rewrite (tree_under _ _ _ _ _ _ H Hp Hk) in *.
Qed.
(** Cancelling and then dropping a controller is dropping its old context. *)
Lemma cancel_drop t f p c : tree_is t f → f p = Some c →
  let '(fresh, t') := controller_cancel c t in
  (∀ a b, under (context_drop fresh t') a b ↔ under (context_drop c t) a b) ∧ ∀ x k, live (context_drop fresh t') x k ↔ live (context_drop c t) x k.
Proof.
  intros H Hp. unfold controller_cancel. pose proof (new_fresh t) as Hf. pose proof (new_under t) as Hu. pose proof (new_live t) as Hl.
  destruct (context_new t) as [fresh t']. cbn [fst snd] in *. pose proof (tree_owned _ _ _ _ H Hp) as Hc.
  assert (c ≠ fresh) as Hne by (intros ->; by destruct (Hf fresh)).
  assert (∀ x, under (context_drop c t') fresh x ↔ x = fresh) as Hfx.
  { intros x. rewrite drop_under, !Hu. split; [intros [[Hx|[_ Hx]] _]; [by destruct (Hf x)|done]|]. intros ->. split; [auto|]. intros [Hx|[? _]]; [by destruct (Hf c)|done]. }
  split.
  - intros a b. rewrite drop_under, Hfx, !drop_under, !Hu. split; [intros [[[?|[_ ->]] Hn] Hb]; [|done]; split; [done|]; by auto|].
    intros [Hab Hn]. split; [split; [by left|]|]; [intros [?|[? _]]; done|]. intros ->. by destruct (Hf a).
  - intros x k. rewrite drop_live, Hfx, !drop_live, Hl, Hu. split; [intros [[? Hn] ?]; split; [done|]; by auto|].
    intros [Hlk Hn]. split; [split; [done|]; intros [?|[? _]]; done|]. intros ->. apply (own_live _ _ H) in Hlk. apply (tree_fresh _ _ _ _ H) in Hlk; [done|]. intros y. by destruct (Hf y).
Qed.
Lemma tree_same t t' f : (∀ a b, under t' a b ↔ under t a b) → (∀ x k, live t' x k → live t x k) → tree_is t f → tree_is t' f.
Proof. intros Hu Hl [H1 H2 H3]. split; [done|intros a b; by rewrite Hu|]. intros x k Hk. by apply H3, Hl. Qed.

(** *** Every reachable state *)

Definition settled (l : Listener) : Prop := match ln_phase l with Accepting _ => True | _ => ln_connections l = ∅ end.
Definition revision_ok (s : Revision) : Prop := tree_is (rv_tree s) (own s) ∧ Forall settled (rv_listeners s).

Lemma own_listener s slot l rest : rv_listeners s !! slot = Some l → own s (S slot :: rest) = listener_own l rest.
Proof. intros Hl. cbn. by rewrite Hl. Qed.
Lemma own_set_listener s slot l l' t p : rv_listeners s !! slot = Some l →
  own (set_listener slot l' (set_tree t s)) p =
  match p with S n :: rest => if decide (n = slot) then listener_own l' rest else own s p | _ => own s p end.
Proof.
  intros Hl. destruct p as [|[|n] rest]; [done..|]. cbn. case_decide as Hn.
  - subst n. rewrite list_lookup_insert_eq by (by eapply lookup_lt_Some). done.
  - by rewrite list_lookup_insert_ne.
Qed.
Lemma settled_set s slot l' t : Forall settled (rv_listeners s) → settled l' → Forall settled (rv_listeners (set_listener slot l' (set_tree t s))).
Proof. intros H Hl. by apply Forall_insert. Qed.
(** The listener's slot gets [l'], the tree becomes [t']. *)
Lemma revision_ok_listener s slot l l' t' f :
  revision_ok s → rv_listeners s !! slot = Some l → settled l' → tree_is t' f →
  (∀ p, f p = match p with S n :: rest => if decide (n = slot) then listener_own l' rest else own s p | _ => own s p end) →
  revision_ok (set_listener slot l' (set_tree t' s)).
Proof.
  intros [_ Hs] Hl Hl' Ht Hf. split; [|by apply settled_set]. apply (tree_ext _ f); [|done].
  intros p. rewrite (own_set_listener s slot l l' t' p Hl). apply Hf.
Qed.
Lemma begin_round_ok slot l s : revision_ok s → rv_listeners s !! slot = Some l → ln_phase l = Spawned ∨ ln_phase l = Rebinding →
  revision_ok (begin_round slot l s).
Proof.
  intros Hok Hl Hp. pose proof Hok as [Ht Hset]. unfold begin_round, controller_child.
  pose proof (tree_child _ _ [S slot] 0%nat (ln_controller l) Ht) as Hc. destruct (new_child_context _ _) as [round t']. cbn [fst snd app] in Hc.
  eapply revision_ok_listener; [done|done|done|apply Hc|].
  - rewrite (own_listener s slot l) by done. unfold listener_own. by destruct Hp as [-> | ->].
  - intros r. rewrite (own_listener s slot l) by done. unfold listener_own. by destruct Hp as [-> | ->].
  - intros p. eapply Forall_lookup_1 in Hset; [|exact Hl]. destruct p as [|[|n] rest]; [done|by rewrite decide_False|].
    case_decide as D; [injection D as -> ->; by rewrite decide_True|]. case_decide as Dn; [|done]. subst n. rewrite (own_listener s slot l) by done.
    unfold listener_own, settled in *. cbn. destruct Hp as [E|E]; rewrite E in *; rewrite Hset; destruct rest as [|[|?] [|? [|? ?]]]; by try (rewrite lookup_empty).
Qed.
Lemma listener_stop_ok slot l s : revision_ok s → rv_listeners s !! slot = Some l → ln_phase l ≠ Stopped → revision_ok (listener_stop slot l s).
Proof.
  intros Hok Hl Hp. pose proof Hok as [Ht Hset]. unfold listener_stop. assert (own s [S slot] = Some (ln_controller l)) as Ho.
  { rewrite (own_listener s slot l) by done. unfold listener_own. by destruct (ln_phase l). }
  apply (tree_done _ _ (rv_root s) (ListenerTask slot)) in Ht. eapply revision_ok_listener; [done|done|done|exact (tree_drop _ _ [S slot] _ Ht Ho)|].
  intros p. destruct p as [|[|n] rest].
  - rewrite decide_False; [done|]. intros [? ?]; done.
  - rewrite decide_False; [done|]. intros [? ?]; done.
  - destruct (decide (n = slot)) as [->|Hn]; [rewrite decide_True by (by exists rest); done|]. rewrite decide_False; [done|]. intros [r [= ? _]]. done.
Qed.
Lemma own_round s slot l round : rv_listeners s !! slot = Some l → ln_phase l = Accepting round → own s [S slot; 0%nat] = Some round.
Proof. intros Hl Hp. rewrite (own_listener s slot l) by done. unfold listener_own. by rewrite Hp. Qed.
Lemma own_connection s slot l round id : rv_listeners s !! slot = Some l → ln_phase l = Accepting round →
  own s [S slot; 0%nat; id] = ln_connections l !! id.
Proof. intros Hl Hp. rewrite (own_listener s slot l) by done. unfold listener_own. by rewrite Hp. Qed.
(** A listener with connections is accepting. *)
Lemma settled_accepting s slot l id c : revision_ok s → rv_listeners s !! slot = Some l → ln_connections l !! id = Some c → ∃ round, ln_phase l = Accepting round.
Proof.
  intros [_ Hs] Hl Hc. eapply Forall_lookup_1 in Hs; [|exact Hl]. unfold settled in Hs. destruct (ln_phase l) as [|round| |]; [|by eauto|..]; rewrite Hs in Hc; done.
Qed.
Lemma set_tree_ok t s : revision_ok s → tree_is t (own s) → revision_ok (set_tree t s).
Proof. by intros [_ Hs] Ht. Qed.
Lemma set_tree_same s : set_tree (rv_tree s) s = s.
Proof. by destruct s. Qed.

Lemma accept_connection_ok slot id s s' : revision_ok s → accept_connection slot id s = Some s' → revision_ok s'.
Proof.
  intros Hok. pose proof Hok as [Ht Hset]. unfold accept_connection. destruct (rv_listeners s !! slot) as [l|] eqn:Hl; [|done]. cbn.
  destruct (ln_phase l) as [|round| |] eqn:Hp; try done. destruct (ln_connections l !! id) eqn:Hid; [done|]. unfold controller_child.
  pose proof (own_round _ _ _ _ Hl Hp) as Hr. pose proof (tree_child _ _ [S slot; 0%nat] id round Ht Hr) as Hc.
  destruct (new_child_context _ _) as [c t']. cbn [fst snd app] in Hc. intros [= <-].
  eapply revision_ok_listener; [done|done|unfold settled; cbn; by rewrite Hp|apply tree_spawn; [apply Hc|]|].
  - intros r. rewrite (own_listener s slot l) by done. unfold listener_own. rewrite Hp. destruct r; [done|]. done.
  - cbn [task_path]. rewrite decide_False by done. exact Hr.
  - intros p. destruct p as [|[|n] rest]; [done|by rewrite decide_False|]. destruct (decide (S n :: rest = [S slot; 0%nat; id])) as [D|D].
    + injection D as -> ->. rewrite decide_True by done. unfold listener_own. cbn. by rewrite Hp, lookup_insert_eq.
    + case_decide as Dn; [|done]. subst n. rewrite (own_listener s slot l) by done. unfold listener_own. cbn. rewrite Hp.
      destruct rest as [|[|?] [|i [|? ?]]]; try done. rewrite lookup_insert_ne; [done|]. intros ->. done.
Qed.
Lemma connection_end_ok slot id s s' : revision_ok s → connection_end slot id s = Some s' → revision_ok s'.
Proof.
  intros Hok. pose proof Hok as [Ht Hset]. unfold connection_end. destruct (rv_listeners s !! slot) as [l|] eqn:Hl; [|done]. cbn.
  destruct (ln_phase l) as [|round| |] eqn:Hp; try done. destruct (ln_connections l !! id) as [c|] eqn:Hid; [|done]. intros [= <-].
  pose proof (own_connection _ _ _ _ id Hl Hp) as Hc. rewrite Hid in Hc. apply (tree_done _ _ round (ConnectionTask slot id)) in Ht.
  eapply revision_ok_listener; [done|done|unfold settled; cbn; by rewrite Hp|exact (tree_drop _ _ _ _ Ht Hc)|].
  intros p. destruct p as [|[|n] rest]; [rewrite decide_False; [done|]; by intros [? ?]..|]. destruct (decide (n = slot)) as [->|Hn].
  2: { rewrite decide_False; [done|]. intros [r [= ? _]]. done. }
  rewrite (own_listener s slot l) by done. unfold listener_own. cbn. rewrite Hp. destruct (decide ([S slot; 0%nat; id] `prefix_of` S slot :: rest)) as [[r [= ->]]|D].
  - destruct r; [by rewrite lookup_delete_eq|done].
  - destruct rest as [|[|?] [|i [|? ?]]]; try done. rewrite lookup_delete_ne; [done|]. intros <-. by apply D.
Qed.
Lemma take_restart_ok slot s s' : revision_ok s → take_restart slot s = Some s' → revision_ok s'.
Proof.
  intros Hok. pose proof Hok as [Ht Hset]. unfold take_restart. destruct (rv_listeners s !! slot) as [l|] eqn:Hl; [|done]. cbn.
  destruct (ln_phase l) as [|round| |] eqn:Hp; try done. destruct (restart_ready slot l s); [|done]. intros [= <-].
  pose proof (own_round _ _ _ _ Hl Hp) as Hr. eapply revision_ok_listener; [done|done|done|exact (tree_drop _ _ _ _ Ht Hr)|].
  intros p. destruct p as [|[|n] rest]; [rewrite decide_False; [done|]; by intros [? ?]..|]. destruct (decide (n = slot)) as [->|Hn].
  2: { rewrite decide_False; [done|]. intros [r [= ? _]]. done. }
  rewrite (own_listener s slot l) by done. unfold listener_own. cbn. rewrite Hp. destruct (decide ([S slot; 0%nat] `prefix_of` S slot :: rest)) as [[r [= ->]]|D]; [done|].
  destruct rest as [|[|?] [|i [|? ?]]]; try done; by destruct D; eexists.
Qed.
Lemma relay_tasks_ok slot id part s s' : revision_ok s → relay_spawn slot id part s = Some s' ∨ relay_done slot id part s = Some s' → revision_ok s'.
Proof.
  intros Hok Hs. unfold relay_spawn, relay_done in Hs. destruct (rv_listeners s !! slot) as [l|] eqn:Hl; [|by destruct Hs]. cbn in Hs.
  destruct (ln_connections l !! id) as [c|] eqn:Hc; [|by destruct Hs]. cbn in Hs. destruct (settled_accepting s slot l id c Hok Hl Hc) as [round Hp].
  pose proof Hok as [Ht _]. destruct Hs as [[= <-]|[= <-]]; apply set_tree_ok; try done; [|by apply tree_done]. apply tree_spawn; [done|].
  by rewrite <- Hc, <- (own_connection s slot l round).
Qed.
Lemma request_ok name s : revision_ok s → revision_ok (request_listener_restart name s).2.
Proof.
  intros Hok. unfold request_listener_restart. destruct (rv_senders s !! _) as [slot|]; [|done]. destruct (rv_listeners s !! slot) as [l|] eqn:Hl; [|done].
  pose proof Hok as [Ht Hset]. assert (revision_ok (set_listener slot (set_restarts (S (ln_restarts l)) l) s)); [|by destruct (ln_phase l)].
  rewrite <- (set_tree_same s) at 1. eapply revision_ok_listener; [done|done| |exact Ht|].
  - eapply Forall_lookup_1 in Hset; [|exact Hl]. exact Hset.
  - intros [|[|n] rest]; [done..|]. case_decide; [subst|done]. by rewrite (own_listener s slot l).
Qed.
Lemma sweeps_ok s s' : revision_ok s → sweep_begin s = Some s' ∨ sweep_end s = Some s' ∨ (∃ n, sweep_probe n s = Some s' ∨ probe_done n s = Some s') → revision_ok s'.
Proof.
  intros Hok. pose proof Hok as [Ht Hset]. unfold sweep_begin, sweep_end, sweep_probe, probe_done, controller_child. destruct (rv_sweep s) as [check|] eqn:Hs; cbn.
  - assert (own s [0%nat; 0%nat] = Some check) as Hc by exact Hs. intros [?|[He|[n [[= <-]|[= <-]]]]]; [done| |apply set_tree_ok; [done|by apply tree_spawn]|apply set_tree_ok; [done|by apply tree_done]].
    pose proof (cancel_drop _ _ _ _ Ht Hc) as Hcd. destruct (controller_cancel check (rv_tree s)) as [fresh t']. destruct Hcd as [Hu Hl]. injection He as <-. split; [|done]. cbn.
    eapply tree_ext; [|eapply (tree_same (context_drop check (rv_tree s))); [exact Hu|by intros x k ?%Hl|exact (tree_drop _ _ _ _ Ht Hc)]].
    intros [|[|n] rest]; [by rewrite decide_False by (by intros [? ?])| |by rewrite decide_False by (by intros [? ?])].
    destruct (decide ([0%nat; 0%nat] `prefix_of` 0%nat :: rest)) as [[r [= ->]]|D]; [by destruct r|]. by destruct rest as [|[|?] [|? ?]].
  - intros [Hb|[?|[n [?|?]]]]; try done. pose proof (tree_child _ _ [0%nat] 0%nat (rv_health s) Ht eq_refl) as Hc.
    destruct (new_child_context _ _) as [c t']. cbn [fst snd app] in Hc. injection Hb as <-. split; [|done]. cbn. eapply tree_ext; [|apply Hc].
    + intros [|[|n] rest]; [done| |by rewrite decide_False]. case_decide as D; [by injection D as ->|]. destruct rest as [|[|?] [|? ?]]; done.
    + intros [|? ?]; done.
Qed.
(** *** The start *)

Lemma tree_new t : idle t → tree_is (context_new t).2 (λ q, if decide (q = []) then Some (context_new t).1 else None).
Proof.
  intros [Hu Hl]. split.
  - intros p q c. destruct (decide (p = [])) as [->|], (decide (q = [])) as [->|]; done.
  - intros a b. rewrite new_under. split.
    + intros [?|[-> ->]]; [by destruct (Hu a b)|]. exists [], []. done.
    + intros (p&q&Hp&Hq&_). destruct (decide (p = [])), (decide (q = [])); try done. injection Hp as <-. injection Hq as <-. by right.
  - intros c k Hk. rewrite new_live in Hk. exfalso. exact (Hl c k Hk).
Qed.
(** Listeners spawned after the first [slot]. *)
Definition with_listeners (f : list nat → option C) (slot : nat) (ls : list Listener) (p : list nat) : option C :=
  match p with
  | S n :: rest => if (slot <=? n)%nat then l ← ls !! (n - slot)%nat; listener_own l rest else f p
  | _ => f p
  end.
Lemma spawn_listeners_ok root names : ∀ slot f t ls t', tree_is t f → f [] = Some root → (∀ n rest, (slot ≤ n)%nat → f (S n :: rest) = None) →
  spawn_listeners root slot names t = (ls, t') → tree_is t' (with_listeners f slot ls) ∧ Forall settled ls ∧ length ls = length names.
Proof.
  induction names as [|name names IH]; intros slot f t ls t' Ht Hroot Hf; cbn [spawn_listeners].
  { intros [= <- <-]. split_and!; [|constructor|done]. eapply tree_ext; [|exact Ht]. intros [|[|n] rest]; [done..|]. cbn.
    destruct (Nat.leb_spec slot n); [|done]. by rewrite Hf. }
  unfold spawn_listener, controller_child, controller_spawn. pose proof (tree_child _ _ [] (S slot) root Ht Hroot) as Hc.
  destruct (new_child_context root t) as [child t1]. cbn [fst snd app] in Hc.
  destruct (spawn_listeners root (S slot) names _) as [ls1 t2] eqn:Es. intros [= <- <-].
  eapply (IH (S slot) (λ q, if decide (q = [S slot]) then Some child else f q)) in Es as (Ht2&Hs&Hlen).
  - split_and!; [|by constructor|cbn; by rewrite Hlen]. eapply tree_ext; [|exact Ht2]. intros [|[|n] rest]; [done..|]. cbn -[Nat.sub Nat.leb].
    destruct (Nat.leb_spec slot n) as [Hle|Hlt].
    + destruct (Nat.leb_spec (S slot) n) as [Hle'|Hlt'].
      * replace (n - slot)%nat with (S (n - S slot)) by lia. done.
      * assert (n = slot) as -> by lia. rewrite Nat.sub_diag. cbn. case_decide as D; [by injection D as ->|]. rewrite Hf by lia.
        unfold listener_own. cbn. by destruct rest.
    + destruct (Nat.leb_spec (S slot) n); [lia|]. rewrite decide_False; [done|]. intros [= ? _]. lia.
  - apply tree_spawn; [|by cbn; rewrite decide_False]. apply Hc. intros r. by apply Hf.
  - by rewrite decide_False.
  - intros n rest Hn. rewrite decide_False; [apply Hf; lia|]. intros [= ? _]. lia.
Qed.
Lemma spawn_listeners_names root names : ∀ slot t ls t', spawn_listeners root slot names t = (ls, t') →
  map ln_name ls = names ∧ Forall (λ l, ln_phase l = Spawned) ls.
Proof.
  induction names as [|name names IH]; intros slot t ls t'; cbn [spawn_listeners]; [by intros [= <- _]|]. unfold spawn_listener.
  destruct (controller_child root t) as [child t1]. destruct (spawn_listeners root (S slot) names _) as [ls1 t2] eqn:Es. apply IH in Es as [E1 E2].
  intros [= <- _]. cbn. rewrite E1. split; [done|]. by constructor.
Qed.
(** Everything [start_tasks] does before the listeners. *)
Lemma start_tasks_ok registered names t r t' : idle t → start_tasks registered names t = (r, t') →
  match r with
  | Some s => registered = true ∧ revision_ok s ∧ rv_tree s = t' ∧ map ln_name (rv_listeners s) = DEFAULT_LISTENER_NAME :: names
      ∧ Forall (λ l, ln_phase l = Spawned) (rv_listeners s) ∧ rv_senders s = ∅
  | None => registered = false ∧ idle t'
  end.
Proof.
  intros Hidle. unfold start_tasks, controller_new, spawn_global_health_checks, controller_child, controller_spawn.
  pose proof (tree_new t Hidle) as H0. destruct (context_new t) as [root t0]. cbn [fst snd] in H0. cbv zeta.
  apply (tree_spawn _ _ root (Job Sampler)) in H0; [|done]. apply (tree_spawn _ _ root (Job Reconciler)) in H0; [|done].
  apply (tree_spawn _ _ root (Job Eviction)) in H0; [|done].
  eapply (tree_child _ _ [] 0%nat root) in H0; [|done|done].
  destruct (new_child_context root _) as [health t1]. cbn [fst snd app] in H0.
  apply (tree_spawn _ _ root (Job HealthLoop)) in H0; [|done]. apply (tree_spawn _ _ root (Job Scheduler)) in H0; [|done].
  apply (tree_spawn _ _ root (Job Maintenance)) in H0; [|done].
  destruct registered; cbn [negb].
  - destruct (spawn_listeners root 0 (DEFAULT_LISTENER_NAME :: names) _) as [ls t2] eqn:Es. intros [= <- <-].
    assert (map ln_name ls = DEFAULT_LISTENER_NAME :: names ∧ Forall (λ l, ln_phase l = Spawned) ls) as [Hn Hph] by (by eapply spawn_listeners_names).
    eapply spawn_listeners_ok in Es as (Ht2&Hs&_); [|exact H0|done|done].
    split_and!; try done. split; [|done]. eapply tree_ext; [|exact Ht2]. intros [|[|n] rest]; [done| |].
    + cbn. destruct rest as [|[|?] [|? ?]]; done.
    + cbn. by rewrite Nat.sub_0_r.
  - intros [= <- <-]. split; [done|]. pose proof (tree_drop _ _ [] root H0 eq_refl) as Hd. split.
    + intros a b (p&q&Hp&_)%(own_under _ _ Hd). rewrite decide_True in Hp; [done|]. by exists p.
    + intros c l Hl%(own_live _ _ Hd). rewrite decide_True in Hl; [done|]. by eexists.
Qed.
Lemma reachable_ok s : reachable s → revision_ok s.
Proof.
  induction 1 as [t names s t' Hi Hs|e s s' _ IH Hs].
  - by apply start_tasks_ok in Hs as (_&?&_).
  - destruct e; cbn in Hs.
    + unfold listener_begin in Hs. destruct (rv_listeners s !! slot) as [l|] eqn:Hl; [|done]. cbn in Hs. destruct (ln_phase l) eqn:Hp; try done. injection Hs as <-.
      apply begin_round_ok; [exact IH|exact Hl|by left].
    + unfold round_end in Hs. destruct (rv_listeners s !! slot) as [l|] eqn:Hl; [|done]. cbn in Hs. destruct (ln_phase l) eqn:Hp; try done. injection Hs as <-.
      apply listener_stop_ok; [done|done|congruence].
    + by eapply accept_connection_ok.
    + by eapply relay_tasks_ok; eauto.
    + by eapply relay_tasks_ok; eauto.
    + by eapply connection_end_ok.
    + injection Hs as <-. by apply request_ok.
    + by eapply take_restart_ok.
    + unfold rebound in Hs. destruct (rv_listeners s !! slot) as [l|] eqn:Hl; [|done]. cbn in Hs. destruct (ln_phase l) eqn:Hp; try done. injection Hs as <-.
      destruct bound; [apply begin_round_ok; auto|apply listener_stop_ok; [done|done|congruence]].
    + by eapply sweeps_ok; eauto.
    + eapply sweeps_ok; [done|]. eauto.
    + eapply sweeps_ok; [done|]. eauto.
    + eapply sweeps_ok; [done|]. eauto.
Qed.

(** ** What cancelling does *)

(** The tasks of a listener's connections. *)
Definition serves (slot : nat) (k : Task) : bool :=
  match k with ConnectionTask n _ | RelayTask n _ _ => (n =? slot)%nat | _ => false end.
Definition belongs (slot id : nat) (k : Task) : bool :=
  match k with ConnectionTask n i | RelayTask n i _ => (n =? slot)%nat && (i =? id)%nat | _ => false end.
Lemma serves_path slot k : [S slot; 0%nat] `prefix_of` task_path k ↔ serves slot k = true.
Proof.
  destruct k; cbn; try (split; [intros [r ?]; done|done]).
  - rewrite Nat.eqb_eq. split; [by intros [r [= -> _]]|]. intros ->. by exists [].
  - rewrite Nat.eqb_eq. split; [by intros [r [= -> _]]|]. intros ->. by exists [id].
Qed.

(** Restarting a listener cancels its connections and their relays and
    nothing else. *)
Lemma restart_isolated slot s s' :
  reachable s → take_restart slot s = Some s' →
  ∀ c k, live (rv_tree s') c k ↔ live (rv_tree s) c k ∧ serves slot k = false.
Proof.
  intros [Ht _]%reachable_ok. unfold take_restart. destruct (rv_listeners s !! slot) as [l|] eqn:Hl; [|done]. cbn.
  destruct (ln_phase l) as [|round| |] eqn:Hp; try done. destruct (restart_ready slot l s); [|done]. intros [= <-] c k. cbn.
  rewrite (drop_tasks _ _ _ _ c k Ht (own_round _ _ _ _ Hl Hp)), serves_path. by rewrite not_true_iff_false.
Qed.

(** When a connection ends, its relay goes with it and nothing else. *)
Lemma connection_end_exact slot id s s' :
  reachable s → connection_end slot id s = Some s' →
  ∀ c k, live (rv_tree s') c k ↔ live (rv_tree s) c k ∧ belongs slot id k = false.
Proof.
  intros [Ht _]%reachable_ok. unfold connection_end. destruct (rv_listeners s !! slot) as [l|] eqn:Hl; [|done]. cbn.
  destruct (ln_phase l) as [|round| |] eqn:Hp; try done. destruct (ln_connections l !! id) as [conn|] eqn:Hc; [|done]. intros [= <-] c k. cbn.
  pose proof (own_connection _ _ _ _ id Hl Hp) as Ho. rewrite Hc in Ho. pose proof (own_round _ _ _ _ Hl Hp) as Hr.
  rewrite (drop_tasks _ _ _ _ c k (tree_done _ _ round (ConnectionTask slot id) Ht) Ho), done_live. split.
  - intros [[Hk Hne] Hn]. split; [done|]. destruct k as [| | |n i|n i part]; cbn; try done; apply andb_false_iff; rewrite !Nat.eqb_neq.
    + pose proof (own_live _ _ Ht _ _ Hk) as Hk'. cbn [task_path] in Hk'. destruct (decide (n = slot)) as [->|]; [|auto]. right. intros ->. apply Hne. split; [congruence|done].
    + destruct (decide (n = slot)) as [->|]; [|auto]. right. intros ->. apply Hn. by exists [].
  - intros [Hk Hb]. split; [split; [done|]|].
    + intros [_ ->]. cbn in Hb. by rewrite !Nat.eqb_refl in Hb.
    + intros [r Hr']. destruct k; cbn in Hr'; try done; injection Hr' as -> -> _. cbn in Hb. by rewrite !Nat.eqb_refl in Hb.
Qed.
(** The probes of a sweep do not outlive it, and nothing else is cancelled. *)
Lemma sweep_end_exact s s' : reachable s → sweep_end s = Some s' →
  ∀ c k, live (rv_tree s') c k ↔ live (rv_tree s) c k ∧ ∀ n, k ≠ Probe n.
Proof.
  intros [Ht _]%reachable_ok. unfold sweep_end. destruct (rv_sweep s) as [check|] eqn:Hs; [|done]. cbn. assert (own s [0%nat; 0%nat] = Some check) as Hc by exact Hs.
  pose proof (cancel_drop _ _ _ _ Ht Hc) as Hcd. destruct (controller_cancel check (rv_tree s)) as [fresh t']. destruct Hcd as [_ Hl]. intros [= <-] c k. cbn.
  rewrite Hl, (drop_tasks _ _ _ _ c k Ht Hc). split; intros [Hk Hn]; (split; [done|]).
  - intros n ->. apply Hn. by exists [].
  - intros [r Hr]. destruct k; cbn in Hr; try done. by apply (Hn n).
Qed.

Lemma stop_revision_idle s : reachable s → idle (stop_revision s).
Proof.
  intros [Ht _]%reachable_ok. unfold stop_revision. pose proof (cancel_drop _ _ [] (rv_root s) Ht eq_refl) as Hcd.
  destruct (controller_cancel (rv_root s) (rv_tree s)) as [fresh t']. destruct Hcd as [Hu Hl].
  pose proof (tree_drop _ _ [] (rv_root s) Ht eq_refl) as Hd. split.
  - intros a b Hab. rewrite Hu in Hab. apply (own_under _ _ Hd) in Hab as (p&q&Hp&_). rewrite decide_True in Hp; [done|]. by exists p.
  - intros c l Hk. rewrite Hl in Hk. apply (own_live _ _ Hd) in Hk. rewrite decide_True in Hk; [done|]. by eexists.
Qed.
(** A start that fails after the first tasks leaves nothing behind. *)
Lemma failed_start_idle names t : idle t → (start_tasks false names t).1 = None ∧ idle (start_tasks false names t).2.
Proof. intros Hi. destruct (start_tasks false names t) as [[s|] t'] eqn:E; apply start_tasks_ok in E; try done; by destruct E. Qed.

(** C15: cancellation hits exactly what it should, in every state a revision
    can reach.  A restart that is taken cancels the connections of that
    listener with their relays, all of them, and no other task: not the
    listener's own, no background job, no probe, no other listener's
    connection.  A connection that ends takes its own relay with it.  The end
    of a health sweep cancels its probes.  And [root.cancel()] with the return
    of [run_revision] leaves no task and no context, so the next revision
    starts as the first did. *)
Theorem cancellation_exact s :
  reachable s →
  (∀ slot s', take_restart slot s = Some s' → ∀ c k, live (rv_tree s') c k ↔ live (rv_tree s) c k ∧ serves slot k = false)
  ∧ (∀ slot id s', connection_end slot id s = Some s' → ∀ c k, live (rv_tree s') c k ↔ live (rv_tree s) c k ∧ belongs slot id k = false)
  ∧ (∀ s', sweep_end s = Some s' → ∀ c k, live (rv_tree s') c k ↔ live (rv_tree s) c k ∧ ∀ n, k ≠ Probe n)
  ∧ idle (stop_revision s).
Proof.
  intros Hr. split_and!; [intros slot s'; by apply restart_isolated|intros slot id s'; by apply connection_end_exact|intros s'; by apply sweep_end_exact|].
  by apply stop_revision_idle.
Qed.

(** ** Restart requests and names *)

Fixpoint steps (es : list Event) (s : Revision) : option Revision :=
  match es with [] => Some s | e :: es => s ← step e s; steps es s end.

(** A request that is answered with [true] is carried out by a listener of
    that name: its next turn in a round is the restart. *)
Theorem restart_requested name s s' : request_listener_restart name s = (true, s') →
  ∃ slot l, rv_listeners s' !! slot = Some l ∧ ln_phase l ≠ Stopped ∧ rv_senders s' !! (if eqb_bytes name (lit "__default__") then DEFAULT_LISTENER_NAME else name) = Some slot
    ∧ ∀ round, ln_phase l = Accepting round → is_Some (take_restart slot s').
Proof.
  unfold request_listener_restart. destruct (rv_senders s !! _) as [slot|] eqn:Hs; [|done]. destruct (rv_listeners s !! slot) as [l|] eqn:Hl; [|done].
  intros Hr. assert (ln_phase l ≠ Stopped ∧ s' = set_listener slot (set_restarts (S (ln_restarts l)) l) s) as [Hp ->] by (destruct (ln_phase l); by simplify_eq).
  assert (<[slot := set_restarts (S (ln_restarts l)) l]> (rv_listeners s) !! slot = Some (set_restarts (S (ln_restarts l)) l)) as Hi
    by (apply list_lookup_insert_eq; by eapply lookup_lt_Some).
  exists slot, (set_restarts (S (ln_restarts l)) l). split_and!; [exact Hi|done|exact Hs|]. intros round Hround. unfold take_restart. cbn [set_listener rv_listeners]. rewrite Hi. cbn [mbind option_bind].
  rewrite Hround. eexists. reflexivity.
Qed.

(** A listener whose sender another one has replaced. *)
Definition cut_off (slot : nat) (s : Revision) : Prop :=
  ∃ l, rv_listeners s !! slot = Some l ∧ ln_phase l ≠ Spawned ∧ rv_senders s !! ln_name l ≠ Some slot.
Lemma cut_off_listener slot n l l' t s : cut_off slot s → rv_listeners s !! n = Some l → ln_name l' = ln_name l → (ln_phase l ≠ Spawned → ln_phase l' ≠ Spawned) →
  cut_off slot (set_listener n l' (set_tree t s)).
Proof.
  intros (l0&Hl0&Hp&Hs) Hl Hname Hphase. destruct (decide (n = slot)) as [->|Hne].
  - exists l'. cbn. rewrite list_lookup_insert_eq by (by eapply lookup_lt_Some). simplify_eq. rewrite Hname. auto.
  - exists l0. cbn. by rewrite list_lookup_insert_ne.
Qed.
Lemma cut_off_step e slot s s' : cut_off slot s → step e s = Some s' → cut_off slot s'.
Proof.
  intros Hc. destruct e; cbn [step].
  - unfold listener_begin. destruct (rv_listeners s !! slot0) as [l|] eqn:Hl; [|done]. cbn. destruct (ln_phase l) eqn:Hp; try done. intros [= <-]. unfold begin_round. cbn [rv_tree].
    destruct (controller_child _ _) as [round t]. eapply cut_off_listener; [|exact Hl|done|done]. destruct Hc as (l0&Hl0&Hp0&Hs). exists l0. split; [done|]. split; [done|]. cbn.
    destruct (decide (ln_name l = ln_name l0)) as [E|E]; [rewrite E, lookup_insert_eq|by rewrite lookup_insert_ne]. intros [= ->]. congruence.
  - unfold round_end. destruct (rv_listeners s !! slot0) as [l|] eqn:Hl; [|done]. cbn. destruct (ln_phase l); try done. intros [= <-]. by eapply cut_off_listener.
  - unfold accept_connection. destruct (rv_listeners s !! slot0) as [l|] eqn:Hl; [|done]. cbn. destruct (ln_phase l) eqn:Hp; try done. destruct (ln_connections l !! id); [done|].
    destruct (controller_child _ _). intros [= <-]. by eapply cut_off_listener.
  - unfold relay_spawn. destruct (rv_listeners s !! slot0) as [l|]; [|done]. cbn. destruct (ln_connections l !! id); [|done]. by intros [= <-].
  - unfold relay_done. destruct (rv_listeners s !! slot0) as [l|]; [|done]. cbn. destruct (ln_connections l !! id); [|done]. by intros [= <-].
  - unfold connection_end. destruct (rv_listeners s !! slot0) as [l|] eqn:Hl; [|done]. cbn. destruct (ln_phase l) eqn:Hp; try done. destruct (ln_connections l !! id); [|done].
    intros [= <-]. by eapply cut_off_listener.
  - intros [= <-]. unfold request_listener_restart. destruct (rv_senders s !! _) as [n|]; [|done]. destruct (rv_listeners s !! n) as [l|] eqn:Hl; [|done].
    assert (cut_off slot (set_listener n (set_restarts (S (ln_restarts l)) l) s)) by (rewrite <- (set_tree_same s); by eapply cut_off_listener). by destruct (ln_phase l).
  - unfold take_restart. destruct (rv_listeners s !! slot0) as [l|] eqn:Hl; [|done]. cbn. destruct (ln_phase l); try done. destruct (restart_ready _ _ _); [|done].
    intros [= <-]. by eapply cut_off_listener.
  - unfold rebound. destruct (rv_listeners s !! slot0) as [l|] eqn:Hl; [|done]. cbn. destruct (ln_phase l); try done. intros [= <-]. destruct bound; [|by eapply cut_off_listener].
    unfold begin_round. destruct (controller_child _ _). by eapply cut_off_listener.
  - unfold sweep_begin. destruct (rv_sweep s); [done|]. destruct (controller_child _ _). by intros [= <-].
  - unfold sweep_probe. destruct (rv_sweep s); [|done]. by intros [= <-].
  - unfold probe_done. destruct (rv_sweep s); [|done]. by intros [= <-].
  - unfold sweep_end. destruct (rv_sweep s); [|done]. cbn. destruct (controller_cancel _ _). by intros [= <-].
Qed.

(** C39: two listeners of one name cannot both run.  The channel of the one
    that begins second replaces the other's in [restart_senders]; the first
    one's [recv] then answers [None] at once, which [select!] takes for a
    request: whatever happens later, every round of it can be torn down the
    moment it accepts, with nobody asking.  The names of additional listeners
    are not checked against the mandatory listener's. *)
Theorem shared_name_never_settles slot1 slot2 l1 l2 s s1 es s2 :
  rv_listeners s !! slot1 = Some l1 → rv_listeners s !! slot2 = Some l2 → slot1 ≠ slot2 → ln_name l1 = ln_name l2 → ln_phase l1 ≠ Spawned →
  listener_begin slot2 s = Some s1 → steps es s1 = Some s2 →
  ∀ l round, rv_listeners s2 !! slot1 = Some l → ln_phase l = Accepting round → is_Some (take_restart slot1 s2).
Proof.
  intros H1 H2 Hne Hname Hp Hb Hs. assert (cut_off slot1 s1) as Hc.
  { revert Hb. unfold listener_begin. rewrite H2. cbn. destruct (ln_phase l2); try done. intros [= <-]. unfold begin_round. cbn [rv_tree]. destruct (controller_child _ _) as [round t].
    exists l1. cbn. rewrite list_lookup_insert_ne by done. rewrite Hname, lookup_insert_eq. by split_and!; [| |congruence]. }
  assert (cut_off slot1 s2) as (l'&Hl'&_&Hn).
  { clear Hb. revert s1 Hs Hc. induction es as [|e es IH]; intros s1; cbn; [by intros [= <-]|]. destruct (step e s1) as [s1'|] eqn:E; [|done]. cbn. intros Hs Hc. eapply IH; [exact Hs|]. by eapply cut_off_step. }
  intros l round Hl Hround. assert (l' = l) as -> by congruence. unfold take_restart. rewrite Hl. cbn [mbind option_bind]. rewrite Hround. unfold restart_ready.
  rewrite bool_decide_eq_false_2 by done. rewrite orb_true_r. eexists. reflexivity.
Qed.
End revision.

(** ** Contexts as a forest *)

Section forest.
Context {L : Type} `{EqDecision L}.

(** A context with itself and its ancestors; the tasks with their contexts. *)
Record Forest := MkForest { paths : gmap nat (list nat); tasks : list (nat * L) }.
Definition mentioned (t : Forest) : list nat := (map_to_list (paths t)).*1 ++ concat (map_to_list (paths t)).*2 ++ (tasks t).*1.
Definition path_of (t : Forest) (c : nat) : list nat := default [] (paths t !! c).
Definition add_context (path : list nat) (t : Forest) : nat * Forest :=
  let c := fresh (mentioned t) in (c, MkForest (<[c := c :: path]> (paths t)) (tasks t)).
Definition drop_context (c : nat) (t : Forest) : Forest :=
  MkForest (filter (λ x, c ∉ x.2) (paths t)) (filter (λ x, c ∉ path_of t x.1) (tasks t)).
Definition forest_under (t : Forest) (a b : nat) : Prop := a ∈ path_of t b.

Lemma fresh_path t b : fresh (mentioned t) ∉ path_of t b ∧ paths t !! fresh (mentioned t) = None.
Proof.
  pose proof (infinite_is_fresh (mentioned t)) as Hf. unfold mentioned in Hf at 2. rewrite !not_elem_of_app in Hf. destruct Hf as (H1&H2&_). split.
  - unfold path_of. destruct (paths t !! b) as [p|] eqn:E; cbn; [|apply not_elem_of_nil]. intros Hin. apply H2, list_elem_of_In, in_concat. exists p.
    split; [apply list_elem_of_In, list_elem_of_fmap; exists (b, p); split; [done|]; by apply elem_of_map_to_list|by apply list_elem_of_In].
  - destruct (paths t !! fresh (mentioned t)) as [p|] eqn:E; [|done]. destruct H1. apply list_elem_of_fmap. exists (fresh (mentioned t), p). split; [done|]. by apply elem_of_map_to_list.
Qed.
Lemma add_context_under path t a b :
  forest_under (add_context path t).2 a b ↔ (b = (add_context path t).1 ∧ (a = (add_context path t).1 ∨ a ∈ path)) ∨ forest_under t a b.
Proof.
  unfold forest_under, path_of. cbn. destruct (fresh_path t b) as [_ Hn]. destruct (decide (b = fresh (mentioned t))) as [->|Hne].
  - rewrite lookup_insert_eq. cbn. rewrite elem_of_cons, Hn. cbn. split; [auto|]. intros [[_ ?]|[]%elem_of_nil]; done.
  - rewrite lookup_insert_ne by done. split; [auto|]. intros [[? _]|?]; done.
Qed.
#[export] Program Instance forest : TreeContext Forest nat L := {|
  context_new t := add_context [] t;
  new_child_context p t := add_context (path_of t p) t;
  context_spawn c l t := MkForest (paths t) (tasks t ++ [(c, l)]);
  context_done c l t := MkForest (paths t) (filter (λ x, x ≠ (c, l)) (tasks t));
  context_drop := drop_context;
  under := forest_under;
  live t c l := (c, l) ∈ tasks t;
|}.
Next Obligation. intros t x. split; [apply fresh_path|]. unfold forest_under, path_of. cbn. rewrite (proj2 (fresh_path t x)). apply not_elem_of_nil. Qed.
Next Obligation.
  intros t a b. rewrite (add_context_under [] t a b). split; [intros [[-> [->|Hn]]|?]; [auto|by apply elem_of_nil in Hn|auto]|]. intros [?|[-> ->]]; auto.
Qed.
Next Obligation. done. Qed.
Next Obligation. intros p t x. split; [apply fresh_path|]. unfold forest_under, path_of. cbn. rewrite (proj2 (fresh_path t x)). apply not_elem_of_nil. Qed.
Next Obligation. intros p t a b _. rewrite (add_context_under (path_of t p) t a b). unfold forest_under at 3. tauto. Qed.
Next Obligation. done. Qed.
Next Obligation. done. Qed.
Next Obligation. intros c l t x k _. cbn. rewrite elem_of_app, list_elem_of_singleton. split; (intros [?|?]; [by left|right; naive_solver]). Qed.
Next Obligation. done. Qed.
Next Obligation. intros c l t x k. cbn. rewrite list_elem_of_filter. naive_solver. Qed.
Next Obligation.
  intros c t a b. unfold forest_under, path_of. cbn. rewrite map_lookup_filter. destruct (paths t !! b) as [p|]; cbn; [|split; [by intros ?%elem_of_nil|by intros [?%elem_of_nil _]]].
  case_guard; cbn; [naive_solver|]. split; [by intros ?%elem_of_nil|naive_solver].
Qed.
Next Obligation. intros c t x k. cbn. rewrite list_elem_of_filter. unfold forest_under. cbn. tauto. Qed.
End forest.
#[export] Instance job_dec : EqDecision BackgroundJob.
Proof. solve_decision. Defined.
#[export] Instance part_dec : EqDecision RelayPart.
Proof. solve_decision. Defined.
#[export] Instance task_dec : EqDecision Task.
Proof. solve_decision. Defined.

(** ** A revision with two listeners *)

Module tree_example.
Definition web : bytes := lit "web".
Definition empty : Forest (L := Task) := MkForest ∅ [].
Definition boot (names : list bytes) : option (Revision (T := Forest) (C := nat)) := (start_tasks true names empty).1.
(** Both listeners have a connection with a relay, and a probe runs. *)
Definition busy_events : list Event :=
  [ListenerBegins 0; ListenerBegins 1; Accepts 0 7; Relays 0 7 Upload; Accepts 1 7; Relays 1 7 Monitor; SweepBegins; Probes 3; RestartRequest web].
Definition busy : option Revision := s ← boot [web]; steps busy_events s.
Definition running (s : option (Revision (T := Forest) (C := nat))) : option (list Task) := (λ s, (tasks (rv_tree s)).*2) <$> s.
Example busy_tasks : running busy =
  Some [Job Sampler; Job Reconciler; Job Eviction; Job HealthLoop; Job Scheduler; Job Maintenance; ListenerTask 0; ListenerTask 1;
        ConnectionTask 0 7; RelayTask 0 7 Upload; ConnectionTask 1 7; RelayTask 1 7 Monitor; Probe 3].
Proof. vm_compute. reflexivity. Qed.
Lemma empty_idle : idle empty.
Proof. split; [intros a b; apply not_elem_of_nil|intros c l; apply not_elem_of_nil]. Qed.
Lemma steps_reachable es (s s' : Revision (T := Forest) (C := nat)) : reachable s → steps es s = Some s' → reachable s'.
Proof.
  revert s. induction es as [|e es IH]; intros s Hr; cbn; [by intros [= <-]|]. destruct (step e s) as [s1|] eqn:E; [|done]. cbn. apply IH. by eapply stepped.
Qed.
Lemma boot_reachable names s : boot names = Some s → reachable s.
Proof. unfold boot. destruct (start_tasks true names empty) as [r t'] eqn:E. cbn. intros ->. by eapply started; [apply empty_idle|]. Qed.
End tree_example.
Import tree_example.

Lemma busy_reachable s : busy = Some s → reachable s.
Proof. unfold busy. destruct (boot [web]) as [s0|] eqn:E0; [|done]. cbn [mbind option_bind]. apply steps_reachable. by apply (boot_reachable [web]). Qed.

Lemma cancellation_exact_witness : ∃ s s', busy = Some s ∧ take_restart 1 s = Some s'
  ∧ (∀ c, ¬ live (rv_tree s') c (ConnectionTask 1 7)) ∧ (∃ c, live (rv_tree s') c (RelayTask 0 7 Upload)) ∧ idle (stop_revision s).
Proof.
  assert (bool_decide (is_Some (s ← busy; take_restart 1 s)) = true) as [s' Hs']%bool_decide_eq_true by (vm_compute; reflexivity).
  assert (running busy ≫= (λ ks, ks !! 9%nat) = Some (RelayTask 0 7 Upload)) as Hk by (vm_compute; reflexivity).
  destruct busy as [s|] eqn:Eb; [|discriminate]. exists s, s'. cbn [mbind option_bind] in Hs'. split; [reflexivity|]. split; [exact Hs'|].
  destruct (cancellation_exact s (busy_reachable s Eb)) as (H&_&_&Hi). specialize (H 1%nat s' Hs'). split; [|split; [|exact Hi]].
  - intros c Hc. apply H in Hc as [_ Hc]. discriminate.
  - cbn in Hk. apply list_elem_of_lookup_2, list_elem_of_fmap in Hk as ([c k]&Ek&Hc). cbn in Ek. subst k. exists c. apply H. split; [exact Hc|reflexivity].
Defined.

(** A listener with the mandatory one's name passes validation, and once it
    runs the mandatory listener accepts nobody for long. *)
Definition namesake : RuntimeConfig.RuntimeConfig :=
  let c := default_runtime_config in
  MkRuntimeConfig (default_listener c) [(DEFAULT_LISTENER_NAME, ForwardListener (MkRawForward (lit "0.0.0.0:9000") (lit "10.0.0.1:80") false RoundRobin ProxyProtocol.PNone None None))]
    [] (dns_overrides c) (accounting c) (control_plane c) (acme c) (certificate_fallback c).
Definition clash : option Revision := s ← boot (map fst (additional_listeners namesake)); steps [ListenerBegins 0] s.
Lemma shared_name_never_settles_witness : validate Some (λ _, true) namesake = Ok () ∧ ∃ s s1, clash = Some s ∧ listener_begin 1 s = Some s1
  ∧ is_Some (take_restart 0 s1) ∧ take_restart 0 s = None.
Proof.
  split; [vm_compute; reflexivity|]. assert (bool_decide (is_Some (s ← clash; listener_begin 1 s)) = true) as [s1 H1]%bool_decide_eq_true by (vm_compute; reflexivity).
  assert ((λ s, map ln_name (rv_listeners s)) <$> clash = Some [DEFAULT_LISTENER_NAME; DEFAULT_LISTENER_NAME]) as Hn by (vm_compute; reflexivity).
  assert ((s ← clash; take_restart 0 s) = None) as H0 by (vm_compute; reflexivity).
  assert ((λ s, map (λ l, match ln_phase l with Spawned => 0 | Accepting _ => 1 | _ => 2 end) (rv_listeners s)) <$> clash = Some [1; 0]) as Hp by (vm_compute; reflexivity).
  assert ((λ s, map (λ l, match ln_phase l with Spawned => 0 | Accepting _ => 1 | _ => 2 end) (rv_listeners s)) <$> (s ← clash; listener_begin 1 s) = Some [1; 1]) as Hp1 by (vm_compute; reflexivity).
  destruct clash as [s|] eqn:Ec; [|discriminate]. cbn [mbind option_bind] in *. exists s, s1. split; [reflexivity|]. split; [exact H1|]. split; [|exact H0].
  rewrite H1 in Hp1. cbn in Hn, Hp, Hp1. destruct (rv_listeners s) as [|l1 [|l2 [|? ?]]] eqn:El; try discriminate. destruct (rv_listeners s1) as [|k1 rest] eqn:Ek; [discriminate|].
  injection Hn as Hn1 Hn2. injection Hp as Hp _. injection Hp1 as Hp1 _. destruct (ln_phase k1) as [|round| |] eqn:Er; try discriminate.
  apply (shared_name_never_settles 0 1 l1 l2 s s1 [] s1) with (l := k1) (round := round);
    [rewrite El; reflexivity|rewrite El; reflexivity|discriminate|congruence|intros E; rewrite E in Hp; discriminate|exact H1|reflexivity|rewrite Ek; reflexivity|exact Er].
Defined.
