(* ===== verification/ControlApi.v ===== *)
(** * The control API (src/control_api.rs)

    The handlers of the router over the process state, behind the session
    check of the protected ones, with the login and the certificate
    publication; the pages that show the connection tables and the health
    rows are left out.  What a call reads of its environment — clock, random
    tokens, DNS — is the record [Env].  Password hashing, token hashing and
    the database import are parameters; extractors and JSON are axum's. *)

From S2P Require Import Prelude RustStd Net BindAddr FilePath AcmeDns Config RuntimeConfig Store StoreProps StoreAcme StoreAcmeProps Lru LocalCa ManagedTls Resolver Forward Health Relay Runtime.
Open Scope Z_scope.

Definition SESSION_COOKIE : bytes := lit "tlsproxy_session".
Definition SESSION_HOURS : Z := 12.
Definition REMEMBER_DAYS : Z := 30.
Definition NS : Z := 1000000000.

(** ** Responses *)

Record PublishedCertificate := MkPublished {
  pc_certificate_id : bytes;
  pc_generation_id : bytes;
  pc_domains : list bytes;
  pc_certificate_pem : bytes;
  pc_chain_pem : bytes;
  pc_private_key_pem : option bytes;
  pc_fingerprint : bytes;
  pc_not_before : option Z;
  pc_not_after : option Z;
}.
Record PublicProvider := MkPublicProvider {
  pp_id : bytes;
  pp_name : bytes;
  pp_directory_url : bytes;
  pp_contacts : list bytes;
  pp_eab_key_id : option bytes;
  pp_has_eab_hmac_key : bool;
  pp_staging : bool;
  pp_is_default : bool;
  pp_builtin : bool;
  pp_directory_ca_pem : option bytes;
}.
Record CertificateStatus := MkCertStatus {
  cs_id : bytes;
  cs_domains : list bytes;
  cs_enabled : bool;
  cs_generation : option (bytes * bytes * option Z * option Z);
  cs_renewal : option RenewalState;
}.
Inductive Body :=
| NoBody
| TextBody (text : bytes)
| StoreFailure (e : store_error)
| PasswordFailure
| BrowserPage
| SessionBody (username csrf_token : bytes) (expires_at : option Z)
| PublishedBody (c : PublishedCertificate)
| TokenBody (id bearer_token : bytes)
| TokensBody (tokens : list RetrievalToken)
| AuditBody (entries : list AuditEntry)
| DiagnosticsBody (entries : list DnsDiagnostic)
| StatusBody (revision : Z) (hostname bind : bytes) (listeners : list (bytes * AdditionalListenerConfig)) (certificates : list CertificateStatus)
| ConfigBody (c : StoredConfig)
| HistoryBody (cs : list StoredConfig)
| ProvidersBody (ps : list PublicProvider)
| CertificatesBody (cs : list ManagedCertificate)
| OperationBody (revision : option Z) (listener operation : bytes)
| SamplesBody (samples : list HealthCheckSample)
| ExportBody (db : Db)
| ImportBody (imported : nat) (mode : bytes).
Record Response := MkResponse { rsp_status : Z; rsp_headers : list (bytes * bytes); rsp_body : Body }.
Definition plain (status : Z) : Response := MkResponse status [] NoBody.
Definition with_text (status : Z) (text : bytes) : Response := MkResponse status [] (TextBody text).
Definition json (body : Body) : Response := MkResponse 200 [] body.
Definition redirect_to (location : bytes) : Response := MkResponse 303 [(lit "location", location)] NoBody.
Definition store_failure (status : Z) (e : store_error) : Response := MkResponse status [] (StoreFailure e).
(** [internal] *)
Definition internal (e : store_error) : Response := store_failure 500 e.

(** ** Cookies *)

(** [HeaderValue::to_str] *)
Definition header_str (value : bytes) : option bytes :=
  if forallb (λ b, ((32 <=? b) && (b <? 127)) || (b =? 9)) value then Some value else None.
Definition cookie_value (header : option bytes) (name : bytes) : option bytes :=
  h ← header;
  text ← header_str h;
  head (omap (λ kv : bytes * bytes, if eqb_bytes kv.1 name then Some kv.2 else None)
          (omap (λ part, split_once 61 (trim part)) (split_char SEMI text))).

Section api.
Context (canonicalize : bytes → option bytes) (is_dir : bytes → bool).
Context (to_lowercase : bytes → bytes) {R : Type} (compile_dns_pattern : bytes → option R) (dns_is_match : R → bytes → bool).
Context {tls : TlsLibrary}.
(** Argon2 and SHA-256. *)
Context (verify_password : bytes → bytes → bool) (argon2 : bytes → option bytes) (token_hash : bytes → bytes) (token_id : bytes → bytes).
(** The import of src/store/mod.rs on the stored bytes (StoreExport). *)
Context {Export : Type} (import_json : Export → bool → option (gset bytes) → Db → result store_error nat * Db).

(** What one call observes: the clock (also per item, and as the audit key
    reads it), the random tokens, the DNS answers. *)
Record Env := MkEnv {
  en_now : Z;
  en_clock : bytes → Z;
  en_key_now : Z;
  en_token : bytes;
  en_csrf : bytes;
  en_lookup : bytes → option (list SocketAddr);
}.

Record Control := MkControl {
  ct_world : World (R := R);
  login_attempts : gmap bytes (Z * Z);
  retrieval_attempts : gmap bytes (Z * Z);
  ct_scans : nat;      (** calls of [request_renewal_scan] *)
  ct_reloads : nat;    (** calls of [configuration_changed] *)
  ct_restarts : list bytes;
}.
Definition ct_db (st : Control) : Db := w_db (ct_world st).
Definition set_world (w : World (R := R)) (st : Control) : Control :=
  MkControl w (login_attempts st) (retrieval_attempts st) (ct_scans st) (ct_reloads st) (ct_restarts st).
Definition set_ct_db (db : Db) (st : Control) : Control := set_world (set_db db (ct_world st)) st.
Definition set_login (m : gmap bytes (Z * Z)) (st : Control) : Control :=
  MkControl (ct_world st) m (retrieval_attempts st) (ct_scans st) (ct_reloads st) (ct_restarts st).
Definition set_retrieval (m : gmap bytes (Z * Z)) (st : Control) : Control :=
  MkControl (ct_world st) (login_attempts st) m (ct_scans st) (ct_reloads st) (ct_restarts st).
Definition request_renewal_scan (st : Control) : Control :=
  MkControl (ct_world st) (login_attempts st) (retrieval_attempts st) (S (ct_scans st)) (ct_reloads st) (ct_restarts st).
Definition configuration_changed (st : Control) : Control :=
  MkControl (ct_world st) (login_attempts st) (retrieval_attempts st) (ct_scans st) (S (ct_reloads st)) (ct_restarts st).
Definition request_listener_restart (name : bytes) (st : Control) : Control :=
  MkControl (ct_world st) (login_attempts st) (retrieval_attempts st) (ct_scans st) (ct_reloads st) (ct_restarts st ++ [name]).

(** A handler. *)
Abbreviation handler := (Env → Control → Response * Control).

(** ** Counters with a window *)

(** [attempts.retain(..)]: windows of the given length that are still open. *)
Definition open_windows (now length_ns : Z) (m : gmap bytes (Z * Z)) : gmap bytes (Z * Z) :=
  filter (λ kv : bytes * (Z * Z), now - kv.2.2 < length_ns) m.
(** [entry(key).or_insert((0, now))], then [+= 1]. *)
Definition count_attempt (now : Z) (key : bytes) (m : gmap bytes (Z * Z)) : Z * gmap bytes (Z * Z) :=
  let value := default (0, now) (m !! key) in
  (value.1 + 1, <[key := (value.1 + 1, value.2)]> m).

(** ** Publication of certificates *)

Definition retrieval_rate_limited (key : bytes) (env : Env) (st : Control) : bool * Control :=
  let '(count, attempts) := count_attempt (en_now env) key (open_windows (en_now env) (60 * NS) (retrieval_attempts st)) in
  (60 <? count, set_retrieval attempts st).
Definition audit_retrieval (detail : bytes) (env : Env) (st : Control) : Control :=
  set_ct_db (append_audit (en_now env) (en_key_now env) (lit "certificate_retrieval") detail (ct_db st)) st.
(** The audited members, as one text. *)
Definition retrieval_detail (domain : bytes) (token_id : option bytes) (accepted : bool) (outcome : bytes) : bytes :=
  lit "domain=" ++ domain ++ lit " token=" ++ default (lit "null") token_id ++ lit " accepted=" ++ (if accepted then lit "true" else lit "false")
  ++ lit " outcome=" ++ outcome.
Definition too_many : Response := with_text 429 (lit "retrieval rate limit exceeded").
(** The answer to a request without a usable token. *)
Definition unauthorized (domain outcome text : bytes) : handler := λ env st,
  let '(limited, st) := retrieval_rate_limited (lit "unauthorized") env st in
  if limited then (too_many, audit_retrieval (retrieval_detail domain None false (lit "rate_limited")) env st)
  else (with_text 401 text, audit_retrieval (retrieval_detail domain None false outcome) env st).
Definition token_live (now : Z) (token : RetrievalToken) : bool :=
  negb (rt_disabled token) && match rt_expires_at token with Some at_ => now <? at_ | None => true end.
Definition etag_of (managed : ManagedCertificate) (g : CertificateGeneration) (private_key : bool) : bytes :=
  [34] ++ mc_id managed ++ [58] ++ cg_id g ++ [58] ++ (if private_key then lit "true" else lit "false") ++ [34].
Definition published (managed : ManagedCertificate) (g : CertificateGeneration) (private_key : bool) : PublishedCertificate :=
  MkPublished (mc_id managed) (cg_id g) (mc_domains managed) (cg_certificate_pem g) (cg_chain_pem g)
    (if private_key then Some (cg_private_key_pem g) else None) (cg_fingerprint g) (cg_not_before g) (cg_not_after g).
(** The part after the token is known. *)
Definition publish_to (token : RetrievalToken) (domain : bytes) (private_key : bool) (if_none_match : option bytes) : handler := λ env st,
  let audit accepted outcome := audit_retrieval (retrieval_detail domain (Some (rt_id token)) accepted outcome) env in
  match certificate_for_domain domain (ct_db st) with
  | Err e => (internal e, st)
  | Ok found =>
      match (m ← found; if mc_enabled m && pub_enabled (mc_publish m) then Some m else None) with
      | None => (plain 404, audit false (lit "not_published") st)
      | Some managed =>
          if negb (bool_decide (rt_certificate_ids token = ∅)) && negb (bool_decide (mc_id managed ∈ rt_certificate_ids token))
          then (plain 403, audit false (lit "scope_denied") st)
          else if private_key && (negb (rt_allow_private_key token) || negb (pub_allow_private_key (mc_publish managed)))
          then (with_text 403 (lit "private-key export is not permitted"), audit false (lit "key_denied") st)
          else match (g ← active_generation (mc_id managed) (ct_db st); if is_ok (validate_generation (en_now env) managed g) then Some g else None) with
               | None => (plain 404, st)
               | Some g =>
                   let etag := etag_of managed g private_key in
                   if bool_decide (if_none_match ≫= header_str = Some etag)
                   then (MkResponse 304 [(lit "etag", etag)] NoBody, audit true (lit "not_modified") st)
                   else (MkResponse 200 [(lit "etag", etag); (lit "cache-control", lit "private, no-cache")] (PublishedBody (published managed g private_key)),
                         audit true (lit "published") st)
               end
      end
  end.
Definition publish_certificate (domain : bytes) (private_key : bool) (authorization if_none_match : option bytes) : handler := λ env st,
  match (value ← authorization; text ← header_str value; strip_prefix (lit "Bearer ") text) with
  | None => unauthorized domain (lit "missing_token") (lit "Bearer token required") env st
  | Some bearer =>
      match (t ← retrieval_token_by_hash (token_hash bearer) (ct_db st); if token_live (en_now env) t then Some t else None) with
      | None => unauthorized domain (lit "invalid_token") (lit "Invalid or expired bearer token") env st
      | Some token =>
          let '(limited, st) := retrieval_rate_limited (lit "token:" ++ rt_id token) env st in
          if limited then (too_many, audit_retrieval (retrieval_detail domain (Some (rt_id token)) false (lit "rate_limited")) env st)
          else publish_to token domain private_key if_none_match env st
      end
  end.

(** ** Retrieval tokens *)

Record CreateRetrievalTokenRequest := MkCreateToken { cr_label : bytes; cr_certificate_ids : gset bytes; cr_allow_private_key : bool; cr_expires_at : option Z }.
Definition create_retrieval_token (request : CreateRetrievalTokenRequest) : handler := λ env st,
  if bool_decide (trim (cr_label request) = []) || match cr_expires_at request with Some at_ => at_ <=? en_now env | None => false end
  then (with_text 400 (lit "label and a future expiry are required"), st)
  else if negb (forallb (λ id, bool_decide (is_Some (managed_certificate id (ct_db st)))) (elements (cr_certificate_ids request)))
  then (with_text 400 (lit "unknown certificate"), st)
  else
    let id := token_id (en_token env) in
    let token := MkToken id (cr_label request) (token_hash (en_token env)) (en_token env) (cr_certificate_ids request) (cr_allow_private_key request)
                   (Some (en_now env)) (cr_expires_at request) false in
    match save_retrieval_token token (ct_db st) with
    | (Ok _, db) => (MkResponse 201 [] (TokenBody id (en_token env)), set_ct_db db st)
    | (Err e, db) => (internal e, set_ct_db db st)
    end.
Definition clear_hash (t : RetrievalToken) : RetrievalToken :=
  MkToken (rt_id t) (rt_label t) [] (rt_bearer_token t) (rt_certificate_ids t) (rt_allow_private_key t) (rt_created_at t) (rt_expires_at t) (rt_disabled t).
Definition list_retrieval_tokens : handler := λ env st, (json (TokensBody (map clear_hash (retrieval_tokens (ct_db st)))), st).
Definition delete_retrieval_token (id : bytes) : handler := λ env st, (plain 204, set_ct_db (Store.delete_retrieval_token id (ct_db st)) st).

(** ** Reports *)

Definition list_audit : handler := λ env st, (json (AuditBody (audits 200 (ct_db st))), st).
Definition list_dns_diagnostics : handler := λ env st, (json (DiagnosticsBody (dns_diagnostics (ct_db st))), st).
Definition certificate_status (db : Db) (c : ManagedCertificate) : CertificateStatus :=
  MkCertStatus (mc_id c) (mc_domains c) (mc_enabled c)
    ((λ g, (cg_id g, cg_fingerprint g, cg_not_before g, cg_not_after g)) <$> active_generation (mc_id c) db) (renewal_state (mc_id c) db).
Definition runtime_status : handler := λ env st,
  match load_config (ct_db st) with
  | None => (plain 503, st)
  | Some stored =>
      let c := stored_config stored in
      (json (StatusBody (revision stored) (cp_hostname (control_plane c)) (dl_bind (default_listener c)) (additional_listeners c)
               (map (certificate_status (ct_db st)) (managed_certificates (ct_db st)))), st)
  end.
(** [sort_by_key(checked_at)], stable. *)
Fixpoint insert_by_checked (x : HealthCheckSample) (l : list HealthCheckSample) : list HealthCheckSample :=
  match l with
  | [] => [x]
  | y :: l' => if hs_checked_at x <=? hs_checked_at y then x :: l else y :: insert_by_checked x l'
  end.
Definition health_check_history_filtered (now : Z) (listener host backend endpoint : bytes) (db : Db) : list HealthCheckSample :=
  foldr insert_by_checked [] (List.filter (λ s, eqb_bytes (hs_listener s) listener && eqb_bytes (hs_host s) host && eqb_bytes (hs_backend s) backend
    && eqb_bytes (hs_endpoint s) endpoint) (Store.health_check_history now db)).
Definition health_check_history (listener host backend endpoint : bytes) : handler := λ env st,
  (json (SamplesBody (health_check_history_filtered (en_now env) listener host backend endpoint (ct_db st))), st).

(** ** Configuration *)

Definition get_config : handler := λ env st,
  match load_config (ct_db st) with Some c => (json (ConfigBody c), st) | None => (plain 404, st) end.
Definition config_history : handler := λ env st, (json (HistoryBody (Store.config_history 50 (ct_db st))), st).
(** The new control host name has an active, usable certificate. *)
Definition hostname_usable (env : Env) (db : Db) (hostname : bytes) : bool :=
  match certificate_for_domain hostname db with
  | Ok (Some managed) =>
      match active_generation (mc_id managed) db with
      | Some g => is_ok (validate_generation (en_now env) managed g)
      | None => false
      end
  | _ => false
  end.
Definition save_and_reload (config : RuntimeConfig.RuntimeConfig) (actor : bytes) : handler := λ env st,
  match save_config canonicalize is_dir (en_now env) (en_key_now env) config actor (ct_db st) with
  | (Ok stored, db) => (json (ConfigBody stored), configuration_changed (set_ct_db db st))
  | (Err e, db) => (store_failure 400 e, set_ct_db db st)
  end.
Definition rollback_config (session : SessionRecord) (target : Z) : handler := λ env st,
  match config_revision target (ct_db st) with
  | None => (plain 404, st)
  | Some previous =>
      match load_config (ct_db st) with
      | None => (plain 404, st)
      | Some current =>
          let config := stored_config previous in
          if negb (eqb_bytes (dl_bind (default_listener config)) (dl_bind (default_listener (stored_config current))))
          then (with_text 400 (lit "the mandatory Public HTTPS bind address cannot be changed by rollback"), st)
          else if negb (eqb_bytes (cp_hostname (control_plane (stored_config current))) (cp_hostname (control_plane config)))
                  && negb (hostname_usable env (ct_db st) (cp_hostname (control_plane config)))
          then (with_text 400 (lit "historical control hostname has no active valid managed certificate"), st)
          else match ensure_automatic_certificates (en_clock env) config (ct_db st) with
               | (Err e, db) => (store_failure 400 e, set_ct_db db st)
               | (Ok _, db) => save_and_reload config (sr_username session) env (set_ct_db db st)
               end
      end
  end.

Definition apply_runtime_config (previous : RuntimeConfig.RuntimeConfig) (saved : StoredConfig) (registered_certificates : bool) (env : Env) (st : Control) : Control :=
  if listener_settings_only previous (stored_config saved)
  then
    let w := live_store (stored_config saved) (ct_world st) in
    let override := Resolver.resolve to_lowercase dns_is_match (w_tables w) in
    match apply_hot_listener_settings override (en_lookup env) (en_now env) (stored_config saved) (w_pools w) with
    | (Err _, p) => configuration_changed (set_world (set_world_pools p w) st)
    | (Ok _, p) =>
        let st := set_world (store_last_good saved (set_world_pools p w)) st in
        if registered_certificates then request_renewal_scan st else st
    end
  else configuration_changed st.

(** The check before the control host name is switched; the refusals differ
    in their text only. *)
Definition hostname_switch (env : Env) (db : Db) (hostname : bytes) : option Response :=
  match certificate_for_domain hostname db with
  | Err e => Some (internal e)
  | Ok None => Some (with_text 400 (lit "Issue a managed certificate for the new control hostname before switching"))
  | Ok (Some managed) =>
      match active_generation (mc_id managed) db with
      | None => Some (with_text 400 (lit "The new control hostname certificate has not been issued yet"))
      | Some g => if is_ok (validate_generation (en_now env) managed g) then None else Some (with_text 400 (lit "The new control hostname certificate is unusable"))
      end
  end.
Definition put_config (session : SessionRecord) (expected : Z) (config : RuntimeConfig.RuntimeConfig) : handler := λ env st,
  match load_config (ct_db st) with
  | None => (plain 404, st)
  | Some current =>
      if negb (revision current =? expected) then (with_text 409 (lit "Configuration revision changed"), st)
      else if negb (eqb_bytes (dl_bind (default_listener config)) (dl_bind (default_listener (stored_config current))))
      then (with_text 400 (lit "the mandatory Public HTTPS bind address cannot be changed"), st)
      else match validate canonicalize is_dir config with
           | Err e => (store_failure 400 (InvalidConfig e), st)
           | Ok _ =>
               match (if eqb_bytes (cp_hostname (control_plane (stored_config current))) (cp_hostname (control_plane config)) then None
                      else hostname_switch env (ct_db st) (cp_hostname (control_plane config))) with
               | Some refusal => (refusal, st)
               | None =>
                   match ensure_automatic_certificates (en_clock env) config (ct_db st) with
                   | (Err e, db) => (store_failure 400 e, set_ct_db db st)
                   | (Ok registered, db) =>
                       let st := set_ct_db db st in
                       match save_config canonicalize is_dir (en_now env) (en_key_now env) config (sr_username session) (ct_db st) with
                       | (Err e, db) => (store_failure 400 e, set_ct_db db st)
                       | (Ok saved, db) =>
                           (json (ConfigBody saved),
                            apply_runtime_config (stored_config current) saved (0 <? registered)%nat env (set_ct_db db st))
                       end
                   end
               end
           end
  end.

(** ** Listeners *)

(** The set of stopped listeners is a list in the order of its iteration. *)
Definition set_disabled (names : list bytes) (c : RuntimeConfig.RuntimeConfig) : RuntimeConfig.RuntimeConfig :=
  MkRuntimeConfig (default_listener c) (additional_listeners c) names (dns_overrides c) (accounting c) (control_plane c) (acme c) (certificate_fallback c).
Definition save_operation (config : RuntimeConfig.RuntimeConfig) (actor listener operation : bytes) : handler := λ env st,
  match save_config canonicalize is_dir (en_now env) (en_key_now env) config actor (ct_db st) with
  | (Ok saved, db) => (json (OperationBody (Some (revision saved)) listener operation), configuration_changed (set_ct_db db st))
  | (Err e, db) => (store_failure 400 e, set_ct_db db st)
  end.
Definition listener_operation (session : SessionRecord) (listener operation : bytes) : handler := λ env st,
  match load_config (ct_db st) with
  | None => (plain 404, st)
  | Some stored =>
      let c := stored_config stored in
      let mandatory := eqb_bytes listener (lit "__default__") || eqb_bytes listener DEFAULT_LISTENER_NAME in
      let disabled := disabled_listeners c in
      if negb mandatory && negb (bool_decide (listener ∈ map fst (additional_listeners c))) then (with_text 404 (lit "listener does not exist"), st)
      else if eqb_bytes operation (lit "start")
      then (if mandatory then (with_text 400 (lit "Public HTTPS is always running"), st)
            else save_operation (set_disabled (List.filter (λ n, negb (eqb_bytes n listener)) disabled) c) (sr_username session) listener operation env st)
      else if eqb_bytes operation (lit "stop")
      then (if mandatory then (with_text 400 (lit "Public HTTPS cannot be stopped"), st)
            else save_operation (set_disabled (if bool_decide (listener ∈ disabled) then disabled else disabled ++ [listener]) c) (sr_username session) listener operation env st)
      else if eqb_bytes operation (lit "restart")
      then (if bool_decide (listener ∈ disabled) then (with_text 409 (lit "listener is stopped; start it instead"), st)
            else (json (OperationBody None listener operation), request_listener_restart listener st))
      else (with_text 400 (lit "operation must be start, stop, or restart"), st)
  end.

(** ** Providers *)

Definition is_builtin (id : bytes) : bool := eqb_bytes id production_id || eqb_bytes id staging_id.
Definition public_provider (p : AcmeProvider) : PublicProvider :=
  MkPublicProvider (ap_id p) (ap_name p) (ap_directory_url p) (ap_contacts p) (ap_eab_key_id p) (bool_decide (is_Some (ap_eab_hmac_key p))) (ap_staging p)
    (ap_is_default p) (is_builtin (ap_id p)) (ap_directory_ca_pem p).
Definition list_providers : handler := λ env st, (json (ProvidersBody (map public_provider (providers (ct_db st)))), st).
Definition pin_builtin (p : AcmeProvider) : AcmeProvider :=
  if eqb_bytes (ap_id p) production_id
  then MkProvider (ap_id p) (lit "Let's Encrypt Production") (lit "https://acme-v02.api.letsencrypt.org/directory") (ap_contacts p) (ap_eab_key_id p)
         (ap_eab_hmac_key p) false (ap_is_default p) None
  else if eqb_bytes (ap_id p) staging_id
  then MkProvider (ap_id p) (lit "Let's Encrypt Staging") (lit "https://acme-staging-v02.api.letsencrypt.org/directory") (ap_contacts p) (ap_eab_key_id p)
         (ap_eab_hmac_key p) true (ap_is_default p) None
  else p.
(** A secret left out keeps the stored one. *)
Definition keep_secret (existing : option AcmeProvider) (p : AcmeProvider) : AcmeProvider :=
  match ap_eab_hmac_key p, existing with
  | None, Some old =>
      MkProvider (ap_id p) (ap_name p) (ap_directory_url p) (ap_contacts p)
        (match ap_eab_key_id p with None => ap_eab_key_id old | Some k => Some k end) (ap_eab_hmac_key old) (ap_staging p) (ap_is_default p)
        (match ap_directory_ca_pem p with None => ap_directory_ca_pem old | Some pem => Some pem end)
  | _, _ => p
  end.
Definition save_provider (p : AcmeProvider) : handler := λ env st,
  let p := pin_builtin p in
  match StoreAcme.save_provider (keep_secret (provider (ap_id p) (ct_db st)) p) (ct_db st) with
  | (Ok _, db) => (plain 204, set_ct_db db st)
  | (Err e, db) => (store_failure 400 e, set_ct_db db st)
  end.
Definition delete_provider (id : bytes) : handler := λ env st,
  if is_builtin id then (with_text 409 (lit "built-in Let's Encrypt providers cannot be deleted"), st)
  else match load_config (ct_db st) with
       | None => (plain 404, st)
       | Some stored =>
           if eqb_bytes (cp_provider_id (control_plane (stored_config stored))) id then (with_text 409 (lit "provider is used by the control-plane certificate"), st)
           else if existsb (λ c, eqb_bytes (mc_provider_id c) id) (managed_certificates (ct_db st)) then (with_text 409 (lit "provider is used by a managed certificate"), st)
           else match StoreAcme.delete_provider id (ct_db st) with
                | (Ok _, db) => (plain 204, set_ct_db db st)
                | (Err e, db) => (internal e, set_ct_db db st)
                end
       end.

(** ** Managed certificates *)

Definition list_certificates : handler := λ env st, (json (CertificatesBody (managed_certificates (ct_db st))), st).
(** The record as it is saved: not automatic, its one domain normalised. *)
Definition manual_certificate (c : ManagedCertificate) : option ManagedCertificate :=
  match mc_domains c with
  | [d] => (λ d, MkManaged d [d] (mc_provider_id c) (mc_enabled c) false (mc_publish c) (mc_created_at c) (mc_updated_at c)) <$> normalize_domain d
  | ds => Some (MkManaged (mc_id c) ds (mc_provider_id c) (mc_enabled c) false (mc_publish c) (mc_created_at c) (mc_updated_at c))
  end.
Definition save_certificate (c : ManagedCertificate) : handler := λ env st,
  match manual_certificate c with
  | None => (store_failure 400 InvalidDomain, st)
  | Some c =>
      if existsb (λ d, negb (contains DOT d)) (mc_domains c) then (with_text 400 (lit "not a fully-qualified domain name"), st)
      else match save_managed_certificate (en_now env) c (ct_db st) with
           | (Ok _, db) => (plain 204, configuration_changed (set_ct_db db st))
           | (Err e, db) => (store_failure 400 e, set_ct_db db st)
           end
  end.
Definition delete_certificate (id : bytes) : handler := λ env st,
  match delete_managed_certificate id (ct_db st) with
  | (Ok true, db) => (plain 204, configuration_changed (set_ct_db db st))
  | (Ok false, db) => (plain 404, set_ct_db db st)
  | (Err e, db) => (store_failure 409 e, set_ct_db db st)
  end.
Definition set_publish (publish : PublishPolicy) (c : ManagedCertificate) : ManagedCertificate :=
  MkManaged (mc_id c) (mc_domains c) (mc_provider_id c) (mc_enabled c) (mc_automatic c) publish (mc_created_at c) (mc_updated_at c).
(** The two steps of [update_certificate_publish]; no lock spans them. *)
Definition publish_read (id : bytes) (st : Control) : option ManagedCertificate := managed_certificate id (ct_db st).
Definition publish_write (read : option ManagedCertificate) (publish : PublishPolicy) : handler := λ env st,
  match read with
  | None => (with_text 400 (lit "managed certificate not found"), st)
  | Some c =>
      match save_managed_certificate (en_now env) (set_publish publish c) (ct_db st) with
      | (Ok _, db) => (plain 204, set_ct_db db st)
      | (Err e, db) => (store_failure 400 e, set_ct_db db st)
      end
  end.
Definition update_certificate_publish (id : bytes) (publish : PublishPolicy) : handler := λ env st, publish_write (publish_read id st) publish env st.
Definition request_renewal : handler := λ env st,
  (plain 202, request_renewal_scan (set_ct_db (clear_renewal_retry_gates (en_clock env) (ct_db st)).2 st)).

(** ** Login and sessions *)

Record LoginForm := MkLogin { lf_username : bytes; lf_password : bytes; lf_remember : option bytes }.
Definition throttle_key (form : LoginForm) : bytes := to_ascii_lowercase (trim (lf_username form)).
(** The login in its two critical sections: the throttle is read first ... *)
Definition login_check (form : LoginForm) (env : Env) (st : Control) : bool * Control :=
  let attempts := open_windows (en_now env) (300 * NS) (login_attempts st) in
  (match attempts !! throttle_key form with Some (count, _) => 5 <=? count | None => false end, set_login attempts st).
Definition credentials_ok (form : LoginForm) (db : Db) : option UserRecord :=
  u ← user (lf_username form) db;
  if negb (ur_disabled u) && verify_password (ur_password_hash u) (lf_password form) then Some u else None.
Definition session_cookie (token : bytes) (max_age : Z) : bytes :=
  SESSION_COOKIE ++ [61] ++ token ++ lit "; Path=/; Max-Age=" ++ show_dec max_age ++ lit "; HttpOnly; Secure; SameSite=Strict".
Definition session_lifetime (form : LoginForm) : Z := match lf_remember form with Some _ => REMEMBER_DAYS * 24 * 3600 | None => SESSION_HOURS * 3600 end.
(** ... and written after the password was verified. *)
Definition login_finish (form : LoginForm) : handler := λ env st,
  match credentials_ok form (ct_db st) with
  | None => (with_text 401 (lit "Invalid username or password"), set_login (count_attempt (en_now env) (throttle_key form) (login_attempts st)).2 st)
  | Some u =>
      let st := set_login (delete (throttle_key form) (login_attempts st)) st in
      let session := MkSessionRecord (token_hash (en_token env)) (ur_username u) (en_csrf env) (Some (en_now env))
                       (Some (en_now env + session_lifetime form * NS)) in
      match save_session session (ct_db st) with
      | (Err e, db) => (internal e, set_ct_db db st)
      | (Ok _, db) => (MkResponse 303 [(lit "location", lit "/"); (lit "set-cookie", session_cookie (en_token env) (session_lifetime form))] NoBody, set_ct_db db st)
      end
  end.
Definition login (form : LoginForm) : handler := λ env st,
  let '(throttled, st) := login_check form env st in
  if throttled then (with_text 429 (lit "Too many login attempts"), st) else login_finish form env st.

Definition session_live (now : Z) (s : SessionRecord) : bool := match sr_expires_at s with Some expiry => now <? expiry | None => false end.
Definition live_administrator (username : bytes) (db : Db) : bool :=
  match user username db with Some u => ur_administrator u && negb (ur_disabled u) | None => false end.
Definition logout (hash : bytes) : handler := λ env st,
  (MkResponse 303 [(lit "location", lit "/login"); (lit "set-cookie", session_cookie [] 0)] NoBody, set_ct_db (delete_session hash (ct_db st)) st).
Definition session_info (session : SessionRecord) : handler := λ env st,
  (json (SessionBody (sr_username session) (sr_csrf_token session) (sr_expires_at session)), st).

(** [auth::hash_password] *)
Definition hash_password (password : bytes) : option bytes := if (length password <? 12)%nat then None else argon2 password.
Definition set_password (hash : bytes) (u : UserRecord) : UserRecord := MkUserRecord (ur_username u) hash (ur_administrator u) (ur_created_at u) (ur_disabled u).
Definition change_password (session : SessionRecord) (current_password new_password : bytes) (logout_all : bool) : handler := λ env st,
  match user (sr_username session) (ct_db st) with
  | None => (MkResponse 400 [] PasswordFailure, st)
  | Some u =>
      if negb (verify_password (ur_password_hash u) current_password) then (MkResponse 400 [] PasswordFailure, st)
      else match hash_password new_password with
           | None => (MkResponse 400 [] PasswordFailure, st)
           | Some hash =>
               match save_user (set_password hash u) (ct_db st) with
               | (Err e, db) => (store_failure 400 e, set_ct_db db st)
               | (Ok _, db) =>
                   let db := if logout_all then (delete_user_sessions (ur_username u) db).2 else db in
                   (plain 204, set_ct_db db st)
               end
           end
  end.

(** ** Database export and import *)

Definition is_administrator (session : SessionRecord) (st : Control) : bool := live_administrator (sr_username session) (ct_db st).
Definition export_database (session : SessionRecord) : handler := λ env st,
  if negb (is_administrator session st) then (plain 403, st) else (json (ExportBody (ct_db st)), st).
Definition import_database (session : SessionRecord) (mode : bytes) (export : Export) (column_families : list bytes) : handler := λ env st,
  if negb (is_administrator session st) then (plain 403, st)
  else match (if eqb_bytes mode (lit "merge") then Some false else if eqb_bytes mode (lit "clear_and_import") then Some true else None) with
       | None => (with_text 400 (lit "mode must be `merge` or `clear_and_import`"), st)
       | Some clear_existing =>
           let selected := if bool_decide (column_families = []) then None else Some (list_to_set column_families) in
           match import_json export clear_existing selected (ct_db st) with
           | (Err e, db) => (store_failure 400 e, set_ct_db db st)
           | (Ok imported, db) =>
               let db := append_audit (en_now env) (en_key_now env) (lit "database_json_import") (mode ++ [32] ++ sr_username session) db in
               (json (ImportBody imported mode), configuration_changed (set_ct_db db st))
           end
       end.

(** ** The router *)

Inductive Method := GET | HEAD | POST | PUT | PATCH | DELETE | OtherMethod.
#[global] Instance method_eq_dec : EqDecision Method.
Proof. solve_decision. Defined.
(** The protected endpoints, with the arguments axum extracts. *)
Inductive Endpoint :=
| Index
| Logout
| ChangePassword (current_password new_password : bytes) (logout_all : bool)
| SessionInfo
| GetConfig
| PutConfig (expected : Z) (config : RuntimeConfig.RuntimeConfig)
| ConfigHistory
| RollbackConfig (target : Z)
| ListProviders
| SaveProvider (p : AcmeProvider)
| DeleteProvider (id : bytes)
| ListCertificates
| SaveCertificate (c : ManagedCertificate)
| DeleteCertificate (id : bytes)
| UpdatePublish (id : bytes) (publish : PublishPolicy)
| RequestRenewal
| ListTokens
| CreateToken (request : CreateRetrievalTokenRequest)
| DeleteToken (id : bytes)
| ListAudit
| ListDiagnostics
| RuntimeStatus
| ListenerOperation (listener operation : bytes)
| HealthHistory (listener host backend endpoint : bytes)
| ExportDatabase
| ImportDatabase (mode : bytes) (export : Export) (column_families : list bytes).
Definition method_of (e : Endpoint) : Method :=
  match e with
  | Index | SessionInfo | GetConfig | ConfigHistory | ListProviders | ListCertificates | ListTokens | ListAudit | ListDiagnostics | RuntimeStatus
  | HealthHistory _ _ _ _ | ExportDatabase => GET
  | Logout | RollbackConfig _ | SaveCertificate _ | RequestRenewal | CreateToken _ | ListenerOperation _ _ | ImportDatabase _ _ _ => POST
  | ChangePassword _ _ _ | PutConfig _ _ | SaveProvider _ | UpdatePublish _ _ => PUT
  | DeleteProvider _ | DeleteCertificate _ | DeleteToken _ => DELETE
  end.
(** A [get] route also answers HEAD. *)
Definition route_accepts (m : Method) (e : Endpoint) : bool := bool_decide (m = method_of e) || (bool_decide (method_of e = GET) && bool_decide (m = HEAD)).
Definition dispatch (session : SessionRecord) (hash : bytes) (e : Endpoint) : handler :=
  match e with
  | Index => λ env st, (json BrowserPage, st)
  | Logout => logout hash
  | ChangePassword current new all => change_password session current new all
  | SessionInfo => session_info session
  | GetConfig => get_config
  | PutConfig expected config => put_config session expected config
  | ConfigHistory => config_history
  | RollbackConfig target => rollback_config session target
  | ListProviders => list_providers
  | SaveProvider p => save_provider p
  | DeleteProvider id => delete_provider id
  | ListCertificates => list_certificates
  | SaveCertificate c => save_certificate c
  | DeleteCertificate id => delete_certificate id
  | UpdatePublish id publish => update_certificate_publish id publish
  | RequestRenewal => request_renewal
  | ListTokens => list_retrieval_tokens
  | CreateToken request => create_retrieval_token request
  | DeleteToken id => delete_retrieval_token id
  | ListAudit => list_audit
  | ListDiagnostics => list_dns_diagnostics
  | RuntimeStatus => runtime_status
  | ListenerOperation listener operation => listener_operation session listener operation
  | HealthHistory listener host backend endpoint => health_check_history listener host backend endpoint
  | ExportDatabase => export_database session
  | ImportDatabase mode export families => import_database session mode export families
  end.
Record ApiRequest := MkApiRequest { rq_method : Method; rq_cookie : option bytes; rq_csrf : option bytes; rq_endpoint : Endpoint }.
Definition mutating (m : Method) : bool := match m with POST | PUT | PATCH | DELETE => true | _ => false end.
(** [require_session]: [next] is the route below the layer. *)
Definition require_session (rq : ApiRequest) (next : SessionRecord → bytes → handler) : handler := λ env st,
  match cookie_value (rq_cookie rq) SESSION_COOKIE with
  | None => (redirect_to (lit "/login"), st)
  | Some token =>
      let hash := token_hash token in
      match (s ← session hash (ct_db st); if session_live (en_now env) s then Some s else None) with
      | None => (redirect_to (lit "/login"), st)
      | Some session =>
          if negb (live_administrator (sr_username session) (ct_db st)) then (with_text 403 (lit "Administrator access required"), st)
          else if mutating (rq_method rq) && negb (bool_decide (rq_csrf rq ≫= header_str = Some (sr_csrf_token session)))
          then (with_text 403 (lit "Missing or invalid CSRF token"), st)
          else next session hash env st
      end
  end.
Definition method_not_allowed : handler := λ env st, (plain 405, st).
(** [route_layer] wraps a route with its answer to other methods. *)
Definition serve_protected (rq : ApiRequest) : handler :=
  require_session rq (λ session hash, if route_accepts (rq_method rq) (rq_endpoint rq) then dispatch session hash (rq_endpoint rq) else method_not_allowed).

(** The whole router: the public endpoints beside the protected ones. *)
Inductive ApiCall :=
| LoginCall (m : Method) (form : LoginForm)
| StylesheetCall (m : Method)
| PublicationCall (m : Method) (domain : bytes) (private_key : bool) (authorization if_none_match : option bytes)
| ProtectedCall (rq : ApiRequest).
Definition is_get (m : Method) : bool := match m with GET | HEAD => true | _ => false end.
Definition serve_api (c : ApiCall) : handler :=
  match c with
  | LoginCall POST form => login form
  | LoginCall m _ | StylesheetCall m => if is_get m then λ env st, (json BrowserPage, st) else method_not_allowed
  | PublicationCall m domain private_key authorization if_none_match =>
      if is_get m then publish_certificate domain private_key authorization if_none_match else method_not_allowed
  | ProtectedCall rq => serve_protected rq
  end.

(** ** Event streams *)

(** [stream_events], after the snapshot was sent: what the loop selects. *)
Inductive StreamInput :=
| SessionTick (now : Z) (db : Db)
| Ping (payload : bytes)
| ClientClose
| ClientError
| ClientEnd
| OtherFrame
| HubEvent (encoded : option bytes)
| HubClosed.
Inductive StreamOutput := SendText (text : bytes) | SendPong (payload : bytes) | SendClose.
Definition stream_session_valid (hash : bytes) (now : Z) (db : Db) : bool :=
  match session hash db with
  | Some s => session_live now s && live_administrator (sr_username s) db
  | None => false
  end.
(** [sent] tells whether the next frame can be sent. *)
Fixpoint stream_events (hash : bytes) (inputs : list (StreamInput * bool)) : list StreamOutput :=
  match inputs with
  | [] => []
  | (input, sent) :: inputs =>
      match input with
      | SessionTick now db => if stream_session_valid hash now db then stream_events hash inputs else [SendClose]
      | Ping payload => if sent then SendPong payload :: stream_events hash inputs else []
      | ClientClose | ClientError | ClientEnd | HubClosed => []
      | OtherFrame | HubEvent None => stream_events hash inputs
      | HubEvent (Some text) => if sent then SendText text :: stream_events hash inputs else []
      end
  end.
End api.
