(* ===== verification/ControlProps.v ===== *)
(** * Who may change what (theorems on src/control_api.rs)

    Sessions and CSRF guard every change but what a login and a retrieval
    themselves record; the throttles; optimistic
    concurrency of configuration writes; what publication hands out; and two
    races. *)

From S2P Require Import Prelude RustStd Net BindAddr FilePath AcmeDns Config RuntimeConfig Store StoreProps StoreAcme StoreAcmeProps Lru LocalCa ManagedTls Resolver Forward Health Relay Runtime ControlApi.
Open Scope Z_scope.

Section props.
Context (canonicalize : bytes → option bytes) (is_dir : bytes → bool).
Context (to_lowercase : bytes → bytes) {R : Type} (dns_is_match : R → bytes → bool).
Context {tls : TlsLibrary}.
Context (verify_password : bytes → bytes → bool) (argon2 : bytes → option bytes) (token_hash : bytes → bytes) (token_id : bytes → bytes).
Context {Export : Type} (import_json : Export → bool → option (gset bytes) → Db → result store_error nat * Db).
Abbreviation State := (Control (R := R)).
Abbreviation dispatch := (dispatch canonicalize is_dir to_lowercase dns_is_match verify_password argon2 token_hash token_id import_json).
Abbreviation serve_protected := (serve_protected canonicalize is_dir to_lowercase dns_is_match verify_password argon2 token_hash token_id import_json).
Abbreviation serve_api := (serve_api canonicalize is_dir to_lowercase dns_is_match verify_password argon2 token_hash token_id import_json).

(** ** Sessions *)

(** Reading endpoints leave everything as it is. *)
Lemma get_reads_only session hash e env (st : State) : method_of e = GET → (dispatch session hash e env st).2 = st.
Proof.
  destruct e; intros Hm; try discriminate Hm; try reflexivity; cbn.
  - unfold get_config. by destruct (load_config _).
  - unfold runtime_status. by destruct (load_config _).
  - unfold export_database. by destruct (is_administrator _ _).
Qed.

(** The cookie of [rq] names a session that is live, of an administrator
    that is enabled. *)
Definition authenticated (rq : ApiRequest (Export:=Export)) (now : Z) (db : Db) (s : SessionRecord) : Prop :=
  ∃ token expiry u, cookie_value (rq_cookie rq) SESSION_COOKIE = Some token ∧ session (token_hash token) db = Some s
    ∧ sr_expires_at s = Some expiry ∧ now < expiry
    ∧ user (sr_username s) db = Some u ∧ ur_administrator u = true ∧ ur_disabled u = false.
(** What an unauthenticated request for a protected endpoint is told. *)
Definition refusal (r : Response) : Prop :=
  r = redirect_to (lit "/login") ∨ r = with_text 403 (lit "Administrator access required") ∨ r = with_text 403 (lit "Missing or invalid CSRF token").
Lemma serve_protected_cases rq env (st : State) :
  let out := serve_protected rq env st in
  (refusal out.1 ∧ out.2 = st)
  ∨ ∃ s hash, authenticated rq (en_now env) (ct_db st) s ∧ (mutating (rq_method rq) = true → rq_csrf rq ≫= header_str = Some (sr_csrf_token s))
      ∧ ((route_accepts (rq_method rq) (rq_endpoint rq) = true ∧ out = dispatch s hash (rq_endpoint rq) env st)
         ∨ (route_accepts (rq_method rq) (rq_endpoint rq) = false ∧ out = (plain 405, st))).
Proof.
  cbv zeta. unfold serve_protected, require_session, refusal.
  destruct (cookie_value _ _) as [token|] eqn:Ec; [|left; auto].
  destruct (session (token_hash token) (ct_db st)) as [s|] eqn:Es; cbn [mbind option_bind]; [|left; auto].
  destruct (session_live (en_now env) s) eqn:El; [|left; auto]. destruct (live_administrator _ _) eqn:Ea; cbn [negb]; [|left; auto].
  destruct (mutating (rq_method rq) && _) eqn:Em; [left; auto 6|]. right. exists s, (token_hash token). split_and!.
  - unfold session_live in El. destruct (sr_expires_at s) as [expiry|] eqn:Ex; [|done]. unfold live_administrator in Ea.
    destruct (user (sr_username s) (ct_db st)) as [u|] eqn:Eu; [|done]. apply andb_true_iff in Ea as [Ha Hd%negb_true_iff].
    exists token, expiry, u. split_and!; try done. lia.
  - intros Hm. rewrite Hm in Em. cbn [andb] in Em. by apply negb_false_iff, bool_decide_eq_true in Em.
  - destruct (route_accepts _ _); auto.
Qed.

(** *** The public endpoints *)

Lemma publish_changes domain private_key authorization if_none_match env (st : State) :
  ∃ attempts, (publish_certificate token_hash domain private_key authorization if_none_match env st).2 = set_retrieval attempts st
    ∨ ∃ detail, (publish_certificate token_hash domain private_key authorization if_none_match env st).2 = audit_retrieval detail env (set_retrieval attempts st).
Proof.
  unfold publish_certificate, unauthorized, retrieval_rate_limited. destruct (count_attempt (en_now env) (lit "unauthorized") _) as [n m].
  destruct (value ← authorization; _) as [bearer|]; [|exists m; destruct (60 <? n); eauto].
  destruct (t ← retrieval_token_by_hash _ _; _) as [token|]; [|exists m; destruct (60 <? n); eauto].
  destruct (count_attempt _ _ _) as [n' m']. exists m'. destruct (60 <? n'); [eauto|]. unfold publish_to.
  destruct (certificate_for_domain _ _); [|eauto]. repeat case_match; eauto.
Qed.
Lemma login_changes form env (st : State) :
  ∃ attempts, (login verify_password token_hash form env st).2 = set_login attempts st
    ∨ ∃ u, user (lf_username form) (ct_db st) = Some u ∧ ur_disabled u = false ∧ verify_password (ur_password_hash u) (lf_password form) = true
        ∧ (login verify_password token_hash form env st).2 =
          set_ct_db (save_session (MkSessionRecord (token_hash (en_token env)) (ur_username u) (en_csrf env) (Some (en_now env))
                                     (Some (en_now env + session_lifetime form * NS))) (ct_db st)).2 (set_login attempts st).
Proof.
  unfold login, login_check. destruct (match _ with Some _ => _ | None => _ end); [eauto|]. unfold login_finish, credentials_ok.
  change (ct_db (set_login ?m st)) with (ct_db st). destruct (user (lf_username form) (ct_db st)) as [u|] eqn:Eu; cbn [mbind option_bind]; [|eauto].
  destruct (negb (ur_disabled u) && _) eqn:Ev; [|eauto]. apply andb_true_iff in Ev as [Hd%negb_true_iff Hv].
  eexists. right. exists u. split_and!; [done..|]. change (ct_db (set_login ?m ?st')) with (ct_db st'). by destruct (save_session _ _) as [[] ?].
Qed.

(** C13: Who can change what through the control API.  A call of a protected
    endpoint changes something only in a live session of an enabled
    administrator, by POST, PUT, PATCH or DELETE, and with the CSRF token of
    that session; whoever has no such session gets one of three fixed
    refusals and no data.  Of the public endpoints a login changes its
    throttle, and the sessions by the one it opens, which needs the name and
    password of an account that is not disabled; the retrieval of a
    certificate counts in its rate limit and adds an entry to the audit log;
    and nothing else in the state changes by either. *)
Theorem changes_need_session c env (st : State) :
  let out := serve_api c env st in
  match c with
  | ProtectedCall rq =>
      (out.2 ≠ st → mutating (rq_method rq) = true
         ∧ ∃ s, authenticated rq (en_now env) (ct_db st) s ∧ rq_csrf rq ≫= header_str = Some (sr_csrf_token s))
      ∧ ((¬ ∃ s, authenticated rq (en_now env) (ct_db st) s) → refusal out.1 ∧ out.2 = st)
  | LoginCall m form => out.2 = st ∨ (m = POST ∧ ∃ attempts, out.2 = set_login attempts st
      ∨ ∃ u, user (lf_username form) (ct_db st) = Some u ∧ ur_disabled u = false ∧ verify_password (ur_password_hash u) (lf_password form) = true
          ∧ out.2 = set_ct_db (save_session (MkSessionRecord (token_hash (en_token env)) (ur_username u) (en_csrf env) (Some (en_now env))
                                 (Some (en_now env + session_lifetime form * NS))) (ct_db st)).2 (set_login attempts st))
  | PublicationCall m _ _ _ _ => out.2 = st ∨ (is_get m = true ∧ ∃ attempts, out.2 = set_retrieval attempts st
      ∨ ∃ detail, out.2 = audit_retrieval detail env (set_retrieval attempts st))
  | StylesheetCall _ => out.2 = st
  end.
Proof.
  destruct c as [m form|m|m domain private_key authorization if_none_match|rq]; cbn [serve_api]; cbv zeta.
  - destruct m; try (left; reflexivity). right. split; [done|]. apply login_changes.
  - by destruct (is_get m).
  - destruct (is_get m); [|by left]. right. split; [done|]. apply publish_changes.
  - destruct (serve_protected_cases rq env st) as [[Hr Hs]|(s&hash&Ha&Hcsrf&[[Hroute ->]|[_ ->]])]; [done| |naive_solver]. split; [|naive_solver].
    intros Hne. assert (mutating (rq_method rq) = true) as Hm; [|split; [done|exists s; auto]].
    apply orb_true_iff in Hroute as [Hm%bool_decide_eq_true|[Hg%bool_decide_eq_true _]%andb_true_iff].
    + rewrite Hm. destruct (method_of (rq_endpoint rq)) eqn:Eg; try done; [by apply (get_reads_only s hash _ env st) in Eg|by destruct (rq_endpoint rq)..].
    + by apply (get_reads_only s hash _ env st) in Hg.
Qed.

(** ** Publication *)

(** An answer that publishes nothing. *)
Ltac not_published :=
  let Heq := fresh in let Hb := fresh in intros Heq Hb; apply (f_equal fst) in Heq; cbn [fst] in Heq; rewrite <- Heq in Hb; discriminate Hb.

Abbreviation publish_certificate := (publish_certificate (R:=R) token_hash).
Lemma publish_to_published token domain private_key if_none_match env (st : State) resp st' c :
  publish_to token domain private_key if_none_match env st = (resp, st') → rsp_body resp = PublishedBody c →
  ∃ managed g, certificate_for_domain domain (ct_db st) = Ok (Some managed) ∧ mc_enabled managed = true ∧ pub_enabled (mc_publish managed) = true
    ∧ (rt_certificate_ids token = ∅ ∨ mc_id managed ∈ rt_certificate_ids token)
    ∧ (private_key = true → rt_allow_private_key token = true ∧ pub_allow_private_key (mc_publish managed) = true)
    ∧ active_generation (mc_id managed) (ct_db st) = Some g ∧ is_ok (validate_generation (en_now env) managed g) = true
    ∧ c = published managed g private_key.
Proof.
  unfold publish_to. destruct (certificate_for_domain domain (ct_db st)) as [[managed|]|e] eqn:Ec; cbn [mbind option_bind]; [|not_published..].
  destruct (mc_enabled managed && _) eqn:Ep; [|not_published]. apply andb_true_iff in Ep as [He Hp].
  destruct (negb _ && _) eqn:Es; [not_published|]. destruct (private_key && _) eqn:Ek; [not_published|].
  destruct (active_generation (mc_id managed) (ct_db st)) as [g|] eqn:Eg; cbn [mbind option_bind]; [|not_published].
  destruct (is_ok _) eqn:Ev; [|not_published]. destruct (bool_decide (_ = Some _)); [not_published|]. intros Heq. apply (f_equal fst) in Heq. cbn [fst] in Heq. subst. intros [= <-].
  exists managed, g. split_and!; try done.
  - apply andb_false_iff in Es as [Hs%negb_false_iff%bool_decide_eq_true|Hs%negb_false_iff%bool_decide_eq_true]; auto.
  - intros ->. cbn [andb] in Ek. by apply orb_false_iff in Ek as [?%negb_false_iff ?%negb_false_iff].
Qed.
Lemma audit_keeps detail env (st : State) : db_certificates (ct_db (audit_retrieval detail env st)) = db_certificates (ct_db st).
Proof. done. Qed.

(** C23: What publication hands out: a certificate leaves only to the bearer
    of a stored token that is neither disabled nor expired and whose scope
    includes the certificate, only if the certificate is enabled and
    published, and only as its active generation, which still passes every
    check; the private key goes along only if it was asked for and both the
    token and the certificate allow it. *)
Theorem publication_guarded domain private_key authorization if_none_match env (st : State) resp st' c :
  publish_certificate domain private_key authorization if_none_match env st = (resp, st') → rsp_body resp = PublishedBody c →
  ∃ header bearer token managed g,
    authorization = Some header ∧ strip_prefix (lit "Bearer ") header = Some bearer
    ∧ retrieval_token_by_hash (token_hash bearer) (ct_db st) = Some token ∧ rt_disabled token = false
    ∧ (∀ at_, rt_expires_at token = Some at_ → en_now env < at_)
    ∧ certificate_for_domain domain (ct_db st) = Ok (Some managed) ∧ mc_enabled managed = true ∧ pub_enabled (mc_publish managed) = true
    ∧ (rt_certificate_ids token = ∅ ∨ mc_id managed ∈ rt_certificate_ids token)
    ∧ active_generation (mc_id managed) (ct_db st) = Some g ∧ is_ok (validate_generation (en_now env) managed g) = true
    ∧ pc_certificate_pem c = cg_certificate_pem g
    ∧ (∀ k, pc_private_key_pem c = Some k → private_key = true ∧ k = cg_private_key_pem g
         ∧ rt_allow_private_key token = true ∧ pub_allow_private_key (mc_publish managed) = true).
Proof.
  unfold publish_certificate, unauthorized. destruct (value ← authorization; _) as [bearer|] eqn:Ea.
  2: { destruct (retrieval_rate_limited _ _ _) as [[|] ?]; not_published. }
  destruct (t ← retrieval_token_by_hash _ _; _) as [token|] eqn:Et.
  2: { destruct (retrieval_rate_limited _ _ _) as [[|] ?]; not_published. }
  destruct (retrieval_rate_limited _ _ _) as [limited st1] eqn:El. assert (ct_db st1 = ct_db st) as Hdb.
  { revert El. unfold retrieval_rate_limited. destruct (count_attempt _ _ _). by intros [= _ <-]. }
  destruct limited; [not_published|]. intros Hpub Hc. pose proof (publish_to_published _ _ _ _ _ _ _ _ _ Hpub Hc) as (managed&g&H1&H2&H3&H4&H5&H6&H7&->).
  rewrite Hdb in H1, H6. destruct authorization as [header|]; [cbn [mbind option_bind] in Ea|done]. unfold header_str in Ea.
  destruct (forallb _ header); [cbn [mbind option_bind] in Ea|done].
  destruct (retrieval_token_by_hash (token_hash bearer) (ct_db st)) as [t|] eqn:Eh; [cbn [mbind option_bind] in Et|done].
  destruct (token_live _ t) eqn:Etl; [injection Et as ->|done]. apply andb_true_iff in Etl as [Hdis%negb_true_iff Hexp].
  exists header, bearer, token, managed, g. split_and!; try done.
  - intros at_ Hat. rewrite Hat in Hexp. lia.
  - cbn. intros k. destruct private_key; [|done]. intros [= <-]. destruct H5; auto.
Qed.

(** ** Throttles *)

Abbreviation login := (login (R:=R) verify_password token_hash).
Abbreviation login_finish := (login_finish (R:=R) verify_password token_hash).
Abbreviation credentials_ok := (credentials_ok verify_password).

Lemma open_windows_lookup now len m k :
  open_windows now len m !! k = match m !! k with Some v => if now - v.2 <? len then Some v else None | None => None end.
Proof.
  unfold open_windows. rewrite map_lookup_filter. destruct (m !! k) as [v|]; cbn [mbind option_bind]; [|done].
  case_guard as Hg; cbn in *; destruct (Z.ltb_spec (now - v.2) len); done || lia.
Qed.
Lemma login_users form env (st : State) : db_users (ct_db (login form env st).2) = db_users (ct_db st).
Proof.
  unfold login, login_check. destruct (match _ with Some _ => _ | None => _ end); [done|]. unfold login_finish. cbn [ct_db ct_world set_login w_db].
  destruct (credentials_ok form _); [|done]. unfold save_session. by destruct (_ || _).
Qed.
Lemma credentials_users form db db' : db_users db' = db_users db → credentials_ok form db' = credentials_ok form db.
Proof. unfold credentials_ok, user. by intros ->. Qed.
(** A guess for another name leaves this name's window, while it is open. *)
Lemma login_other form env (st : State) k n t0 :
  throttle_key form ≠ k → login_attempts st !! k = Some (n, t0) → en_now env - t0 < 300 * NS → login_attempts (login form env st).2 !! k = Some (n, t0).
Proof.
  intros Hk Hw Ht. assert (open_windows (en_now env) (300 * NS) (login_attempts st) !! k = Some (n, t0)) as Ho.
  { rewrite open_windows_lookup, Hw. cbn [snd]. by destruct (Z.ltb_spec (en_now env - t0) (300 * NS)); [|lia]. }
  unfold login, login_check. destruct (match _ with Some _ => _ | None => _ end); [done|]. unfold login_finish.
  destruct (credentials_ok form _).
  - unfold save_session. destruct (_ || _); cbn; by rewrite lookup_delete_ne.
  - unfold count_attempt. cbn. by rewrite lookup_insert_ne.
Qed.
(** A wrong guess is counted, up to five. *)
Lemma login_wrong form env (st : State) n t0 :
  credentials_ok form (ct_db st) = None → login_attempts st !! throttle_key form = Some (n, t0) → en_now env - t0 < 300 * NS →
  login_attempts (login form env st).2 !! throttle_key form = Some (if 5 <=? n then n else n + 1, t0).
Proof.
  intros Hc Hw Ht. assert (open_windows (en_now env) (300 * NS) (login_attempts st) !! throttle_key form = Some (n, t0)) as Ho.
  { rewrite open_windows_lookup, Hw. cbn [snd]. by destruct (Z.ltb_spec (en_now env - t0) (300 * NS)); [|lia]. }
  unfold login, login_check. rewrite Ho. destruct (5 <=? n); [done|]. unfold login_finish. change (ct_db (set_login _ st)) with (ct_db st). rewrite Hc.
  unfold count_attempt. cbn [login_attempts set_login fst snd]. rewrite Ho. cbn. apply lookup_insert_eq.
Qed.

Definition run_logins (calls : list (LoginForm * Env)) (st : State) : State := foldl (λ st c, (login c.1 c.2 st).2) st calls.
Definition guesses_of (k : bytes) (calls : list (LoginForm * Env)) : list (LoginForm * Env) := List.filter (λ c, eqb_bytes (throttle_key c.1) k) calls.
Lemma run_logins_window k t0 calls : ∀ n (st : State), 0 ≤ n ≤ 5 → login_attempts st !! k = Some (n, t0) →
  Forall (λ c, t0 ≤ en_now c.2 < t0 + 300 * NS) calls → Forall (λ c, throttle_key c.1 = k → credentials_ok c.1 (ct_db st) = None) calls →
  login_attempts (run_logins calls st) !! k = Some (Z.min 5 (n + Z.of_nat (length (guesses_of k calls))), t0).
Proof.
  induction calls as [|[form env] calls IH]; intros n st Hn Hw Ht Hc; cbn [run_logins foldl guesses_of List.filter fst].
  { rewrite Hw. f_equal. cbn. f_equal. lia. }
  apply Forall_cons in Ht as [Ht Hts]. apply Forall_cons in Hc as [Hc Hcs]. cbn [fst snd] in *.
  assert (Forall (λ c, throttle_key c.1 = k → credentials_ok c.1 (ct_db (login form env st).2) = None) calls) as Hcs'.
  { eapply Forall_impl; [exact Hcs|]. intros c Hk Hck. rewrite (credentials_users _ _ _ (login_users form env st)). by apply Hk. }
  fold (run_logins calls (login form env st).2). fold (guesses_of k calls). destruct (eqb_bytes (throttle_key form) k) eqn:Ek.
  - apply eqb_bytes_spec in Ek. subst k. pose proof (login_wrong form env st n t0 (Hc eq_refl) Hw ltac:(lia)) as Hw'.
    rewrite (IH (if 5 <=? n then n else n + 1) _ ltac:(destruct (Z.leb_spec 5 n); lia) Hw' Hts Hcs'). f_equal. f_equal. cbn [length]. destruct (Z.leb_spec 5 n); lia.
  - apply (IH n); [done| |done|done]. apply login_other; [|done|lia]. intros Heq. apply eqb_bytes_spec in Heq. congruence.
Qed.

(** C25: Five wrong guesses lock a user name, whatever guesses for other names
    come between: until five minutes after the first, every further login
    for it — the right password included — is refused with 429 and touches
    neither users nor sessions; from then on the next login is judged on its
    password again. *)
Theorem login_throttled form0 env0 calls form env (st : State) :
  let t0 := en_now env0 in let k := throttle_key form0 in
  open_windows t0 (300 * NS) (login_attempts st) !! k = None → credentials_ok form0 (ct_db st) = None →
  Forall (λ c, t0 ≤ en_now c.2 < t0 + 300 * NS) calls → Forall (λ c, throttle_key c.1 = k → credentials_ok c.1 (ct_db st) = None) calls →
  (4 ≤ length (guesses_of k calls))%nat → throttle_key form = k →
  let st1 := run_logins ((form0, env0) :: calls) st in
  (t0 ≤ en_now env < t0 + 300 * NS → (login form env st1).1 = with_text 429 (lit "Too many login attempts") ∧ ct_db (login form env st1).2 = ct_db st1)
  ∧ (t0 + 300 * NS ≤ en_now env → ∃ st2, login form env st1 = login_finish form env st2 ∧ ct_db st2 = ct_db st1).
Proof.
  cbv zeta. intros Hnone Hc0 Hts Hcs Hlen Hk. set (k := throttle_key form0) in *. cbn [run_logins foldl fst snd].
  assert (login_attempts (login form0 env0 st).2 !! k = Some (1, en_now env0)) as H1.
  { unfold login, login_check. fold k. rewrite Hnone. unfold login_finish. change (ct_db (set_login _ st)) with (ct_db st). rewrite Hc0.
    unfold count_attempt. cbn [login_attempts set_login fst snd]. fold k. rewrite Hnone. cbn. apply lookup_insert_eq. }
  fold (run_logins calls (login form0 env0 st).2).
  pose proof (run_logins_window k (en_now env0) calls 1 (login form0 env0 st).2 ltac:(lia) H1 Hts) as Hw. rewrite Z.min_l in Hw by lia.
  specialize (Hw ltac:(eapply Forall_impl; [exact Hcs|]; intros c Hc Hck; rewrite (credentials_users _ _ _ (login_users form0 env0 st)); by apply Hc)).
  set (st1 := run_logins calls _) in *. unfold login, login_check. rewrite Hk, open_windows_lookup, Hw. cbn [snd]. split.
  - intros Ht. by destruct (Z.ltb_spec (en_now env - en_now env0) (300 * NS)); [|lia].
  - intros Ht. destruct (Z.ltb_spec (en_now env - en_now env0) (300 * NS)); [lia|]. eexists. split; done.
Qed.

(** Logins that are under way at the same time: all have read the throttle
    before any has counted. *)
Fixpoint check_all (calls : list (LoginForm * Env)) (st : State) : list bool * State :=
  match calls with
  | [] => ([], st)
  | (form, env) :: calls => let '(b, st) := login_check form env st in let '(bs, st) := check_all calls st in (b :: bs, st)
  end.
Fixpoint finish_all (calls : list (LoginForm * Env)) (st : State) : list Response * State :=
  match calls with
  | [] => ([], st)
  | (form, env) :: calls => let '(r, st) := login_finish form env st in let '(rs, st) := finish_all calls st in (r :: rs, st)
  end.
Lemma check_all_open calls : ∀ st : State, Forall (λ c, login_attempts st !! throttle_key c.1 = None) calls →
  (check_all calls st).1 = map (λ _, false) calls ∧ ct_db (check_all calls st).2 = ct_db st.
Proof.
  induction calls as [|[form env] calls IH]; intros st Hnone; [done|]. apply Forall_cons in Hnone as [Hn Hnone]. cbn [fst] in Hn. cbn [check_all map].
  unfold login_check. rewrite open_windows_lookup, Hn. set (st' := set_login _ st).
  assert (Forall (λ c, login_attempts st' !! throttle_key c.1 = None) calls) as Hnone'.
  { eapply Forall_impl; [exact Hnone|]. intros c Hc. cbn in Hc. unfold st'. cbn. by rewrite open_windows_lookup, Hc. }
  destruct (IH st' Hnone') as [H1 H2]. destruct (check_all calls st') as [bs st2]. cbn [fst snd] in *. by rewrite H1, H2.
Qed.
Lemma login_finish_status form env (st : State) :
  rsp_status (login_finish form env st).1 ≠ 429 ∧ (rsp_status (login_finish form env st).1 = 401 ↔ credentials_ok form (ct_db st) = None)
  ∧ db_users (ct_db (login_finish form env st).2) = db_users (ct_db st).
Proof.
  unfold login_finish. destruct (credentials_ok form (ct_db st)) as [u|]; [|done]. cbn [ct_db ct_world set_login w_db].
  unfold save_session. destruct (_ || _); done.
Qed.
Lemma finish_all_judged calls : ∀ (st : State) i form env, calls !! i = Some (form, env) →
  ∃ r, (finish_all calls st).1 !! i = Some r ∧ rsp_status r ≠ 429 ∧ (rsp_status r = 401 ↔ credentials_ok form (ct_db st) = None).
Proof.
  induction calls as [|[form0 env0] calls IH]; intros st i form env Hi; [done|]. cbn [finish_all].
  pose proof (login_finish_status form0 env0 st) as (H1&H2&H3). destruct (login_finish form0 env0 st) as [r st1]. cbn [fst snd] in *.
  destruct (finish_all calls st1) as [rs st2] eqn:Ef. cbn [fst]. destruct i as [|i]; cbn in *.
  - injection Hi as -> ->. exists r. done.
  - destruct (IH st1 i form env Hi) as (r'&Hr&Hs&Hc). rewrite Ef in Hr. exists r'. rewrite <- (credentials_users _ _ _ H3). done.
Qed.

(** The throttle does not hold against guesses made in parallel: however
    many logins for a name are under way at once, if none was counted before
    they read the throttle then all pass it, and each is judged on its
    password. *)
Theorem parallel_logins_unthrottled calls (st : State) :
  Forall (λ c, login_attempts st !! throttle_key c.1 = None) calls →
  let '(checks, st1) := check_all calls st in
  checks = map (λ _, false) calls
  ∧ ∀ i form env, calls !! i = Some (form, env) →
      ∃ r, (finish_all calls st1).1 !! i = Some r ∧ rsp_status r ≠ 429 ∧ (rsp_status r = 401 ↔ credentials_ok form (ct_db st) = None).
Proof.
  intros Hnone. destruct (check_all_open calls st Hnone) as [Hc Hdb]. destruct (check_all calls st) as [checks st1]. cbn [fst snd] in *.
  split; [done|]. intros i form env Hi. rewrite <- Hdb. by eapply finish_all_judged.
Qed.

(** ** Configuration writes *)

Definition same_config (db db' : Db) : Prop := db_config db' = db_config db ∧ db_revision db' = db_revision db.
(** The stored configuration and the counter are at revision [r]. *)
Definition config_at (db : Db) (r : Z) : Prop :=
  ∃ s, db_config db = Some s ∧ revision s = r ∧ db_revision db = Some (be_bytes 8 r) ∧ 0 ≤ r ≤ u64_max.
(** The revision does not go back. *)
Definition config_grows (db db' : Db) : Prop := ∀ r, config_at db r → ∃ r', r ≤ r' ∧ config_at db' r'.
Lemma same_config_grows db db' : same_config db db' → config_grows db db'.
Proof. intros [Hc Hr] r Hat. exists r. split; [lia|]. unfold config_at. by rewrite Hc, Hr. Qed.
Lemma config_grows_refl db : config_grows db db.
Proof. by apply same_config_grows. Qed.
Lemma config_grows_trans db1 db2 db3 : config_grows db1 db2 → config_grows db2 db3 → config_grows db1 db3.
Proof.
  intros H12 H23 r Hr. destruct (H12 r Hr) as (r2&Hle2&H2). destruct (H23 r2 H2) as (r3&Hle3&H3). exists r3. split; [lia|done].
Qed.
Lemma config_at_of_be r : 0 ≤ r ≤ u64_max → (length (be_bytes 8 r) =? 8)%nat = true ∧ of_be (be_bytes 8 r) = r.
Proof. intros Hr. split; [done|]. apply of_be_be_bytes_id. change (256 ^ Z.of_nat 8) with (u64_max + 1). lia. Qed.
Lemma save_config_at now key_now config actor db res db' r : save_config canonicalize is_dir now key_now config actor db = (res, db') → config_at db r →
  match res with Ok saved => revision saved = r + 1 ∧ config_at db' (r + 1) | Err _ => db' = db end.
Proof.
  unfold save_config. intros Hs (s&Hc&Hrev&Hb&Hr). revert Hs. destruct (validate _ _ _) as [[]|e]; [|by intros [= <- <-]].
  unfold current_revision. rewrite Hb. destruct (config_at_of_be r Hr) as [-> ->]. destruct (Z.leb_spec u64_max r); intros [= <- <-]; [done|].
  split; [done|]. eexists. split; [done|]. split; [done|]. split; [done|]. lia.
Qed.
Lemma save_config_grows now key_now config actor db res db' : save_config canonicalize is_dir now key_now config actor db = (res, db') → config_grows db db'.
Proof.
  intros Hs r Hr. pose proof (save_config_at _ _ _ _ _ _ _ _ Hs Hr) as Hat. destruct res as [saved|]; [|subst; exists r; split; [lia|done]].
  exists (r + 1). split; [lia|]. by destruct Hat.
Qed.

(** Everything else leaves the configuration alone. *)
Lemma save_managed_same now c db : same_config db (save_managed_certificate now c db).2.
Proof. unfold save_managed_certificate, save_managed_certificate_locked. repeat case_match; done. Qed.
Lemma ensure_each_same now id n ds db : same_config db (ensure_each now id n ds db).2.
Proof.
  revert n db. induction ds as [|d ds IH]; intros n db; cbn [ensure_each]; [done|]. destruct (normalize_domain d) as [b|]; [|done].
  destruct (certificate_for_domain _ _) as [[|]|]; [done| |done]. pose proof (save_managed_same (now b) (automatic_certificate b id) db) as Hs.
  destruct (save_managed_certificate _ _ _) as [[|] db1]; cbn [snd] in Hs; [|done]. destruct (IH (S n) db1). destruct Hs. split; congruence.
Qed.
Lemma ensure_automatic_same now config db : same_config db (ensure_automatic_certificates now config db).2.
Proof. unfold ensure_automatic_certificates. destruct (negb _); [done|]. apply ensure_each_same. Qed.
Lemma api_save_provider_same p db : same_config db (StoreAcme.save_provider p db).2.
Proof. unfold StoreAcme.save_provider. repeat case_match; done. Qed.
Lemma api_delete_provider_same id db : same_config db (StoreAcme.delete_provider id db).2.
Proof. unfold StoreAcme.delete_provider. repeat case_match; done. Qed.
Lemma delete_managed_same id db : same_config db (delete_managed_certificate id db).2.
Proof. unfold delete_managed_certificate, deletion. repeat case_match; done. Qed.
Lemma save_token_same t db : same_config db (save_retrieval_token t db).2.
Proof. unfold save_retrieval_token. repeat case_match; done. Qed.
Lemma save_user_same u db : same_config db (save_user u db).2.
Proof. unfold save_user. repeat case_match; done. Qed.
Lemma apply_runtime_db previous saved b env (st : State) :
  ct_db (apply_runtime_config to_lowercase dns_is_match previous saved b env st) = ct_db st.
Proof.
  unfold apply_runtime_config. destruct (listener_settings_only _ _); [|done]. destruct (apply_hot_listener_settings _ _ _ _ _) as [[|] p]; [|done].
  unfold store_last_good. destruct b; repeat case_match; done.
Qed.

Definition imports (e : Endpoint (Export:=Export)) : bool := match e with ImportDatabase _ _ _ => true | _ => false end.
(** Use what a store operation leaves, after naming its result. *)
Ltac same_step lem :=
  let Hs := fresh "Hs" in
  pose proof lem as Hs; match type of Hs with same_config _ (snd ?t) => destruct t as [[] ?] end; cbn [snd] in Hs; apply same_config_grows; exact Hs.
Lemma put_config_grows s expected config env (st : State) :
  config_grows (ct_db st) (ct_db (put_config canonicalize is_dir to_lowercase dns_is_match s expected config env st).2).
Proof.
  unfold put_config. destruct (load_config _) as [current|]; [|apply config_grows_refl]. do 2 (destruct (negb _); [apply config_grows_refl|]).
  destruct (validate _ _ _); [|apply config_grows_refl]. destruct (if eqb_bytes _ _ then _ else _); [apply config_grows_refl|].
  pose proof (ensure_automatic_same (en_clock env) config (ct_db st)) as He. destruct (ensure_automatic_certificates _ _ _) as [[n|] db1]; cbn [snd] in He;
    apply same_config_grows in He; [|exact He]. cbv zeta. change (ct_db (set_ct_db db1 st)) with db1.
  destruct (save_config _ _ _ _ _ _ _) as [[saved|] db2] eqn:Es; apply save_config_grows in Es; cbn [snd]; rewrite ?apply_runtime_db;
    eapply config_grows_trans; eassumption.
Qed.
Lemma save_and_reload_grows config actor env (st : State) : config_grows (ct_db st) (ct_db (save_and_reload canonicalize is_dir config actor env st).2).
Proof. unfold save_and_reload. destruct (save_config _ _ _ _ _ _ _) as [[|] db] eqn:Es; by apply save_config_grows in Es. Qed.
Lemma save_operation_grows config actor l o env (st : State) : config_grows (ct_db st) (ct_db (save_operation canonicalize is_dir config actor l o env st).2).
Proof. unfold save_operation. destruct (save_config _ _ _ _ _ _ _) as [[|] db] eqn:Es; by apply save_config_grows in Es. Qed.
Lemma rollback_config_grows s target env (st : State) : config_grows (ct_db st) (ct_db (rollback_config canonicalize is_dir s target env st).2).
Proof.
  unfold rollback_config. destruct (config_revision _ _) as [previous|]; [|apply config_grows_refl]. destruct (load_config _); [|apply config_grows_refl].
  destruct (negb _); [apply config_grows_refl|]. destruct (_ && _); [apply config_grows_refl|].
  pose proof (ensure_automatic_same (en_clock env) (stored_config previous) (ct_db st)) as He.
  destruct (ensure_automatic_certificates _ _ _) as [[n|] db1]; cbn [snd] in He; apply same_config_grows in He; [|exact He].
  eapply config_grows_trans; [exact He|]. apply (save_and_reload_grows _ _ _ (set_ct_db db1 st)).
Qed.
Lemma listener_operation_grows s l o env (st : State) : config_grows (ct_db st) (ct_db (listener_operation canonicalize is_dir s l o env st).2).
Proof.
  unfold listener_operation. destruct (load_config _); [|apply config_grows_refl]. destruct (_ && _); [apply config_grows_refl|].
  destruct (eqb_bytes o _); [destruct (_ || _); [apply config_grows_refl|apply save_operation_grows]|].
  destruct (eqb_bytes o _); [destruct (_ || _); [apply config_grows_refl|apply save_operation_grows]|].
  destruct (eqb_bytes o _); [|apply config_grows_refl]. destruct (bool_decide _); apply config_grows_refl.
Qed.
Lemma dispatch_grows s hash e env (st : State) : imports e = false → config_grows (ct_db st) (ct_db (dispatch s hash e env st).2).
Proof.
  intros Hi. destruct (decide (method_of e = GET)) as [Hg|Hg]; [rewrite get_reads_only by done; apply config_grows_refl|].
  destruct e; try done; cbn [ControlApi.dispatch].
  - by apply same_config_grows.
  - unfold change_password. destruct (user _ _) as [u|]; [|apply config_grows_refl]. destruct (negb _); [apply config_grows_refl|].
    destruct (hash_password _ _) as [h|]; [|apply config_grows_refl]. pose proof (save_user_same (set_password h u) (ct_db st)) as Hs.
    destruct (save_user _ _) as [[] db]; cbn [snd] in Hs; apply same_config_grows; [|exact Hs]. by destruct logout_all.
  - apply put_config_grows.
  - apply rollback_config_grows.
  - unfold save_provider. cbv zeta. same_step (api_save_provider_same (keep_secret (provider (ap_id (pin_builtin p)) (ct_db st)) (pin_builtin p)) (ct_db st)).
  - unfold delete_provider. repeat (case_match; [apply config_grows_refl|]). case_match; [|apply config_grows_refl].
    repeat (case_match; [apply config_grows_refl|]). same_step (api_delete_provider_same id (ct_db st)).
  - unfold save_certificate. destruct (manual_certificate c) as [c'|]; [|apply config_grows_refl]. destruct (existsb _ _); [apply config_grows_refl|].
    same_step (save_managed_same (en_now env) c' (ct_db st)).
  - unfold delete_certificate. pose proof (delete_managed_same id (ct_db st)) as Hs. destruct (delete_managed_certificate _ _) as [[[]|] ?];
      cbn [snd] in Hs; apply same_config_grows; exact Hs.
  - unfold update_certificate_publish, publish_write. destruct (publish_read id st) as [c|]; [|apply config_grows_refl].
    same_step (save_managed_same (en_now env) (set_publish publish c) (ct_db st)).
  - by apply same_config_grows.
  - unfold create_retrieval_token. do 2 (destruct (_ || _) || destruct (negb _); [apply config_grows_refl|]). cbv zeta.
    match goal with |- context [save_retrieval_token ?t ?db] => same_step (save_token_same t db) end.
  - by apply same_config_grows.
  - apply listener_operation_grows.
Qed.

(** Any call of the API but a database import. *)
Inductive api_step : State → State → Prop :=
| step_protected rq env st : imports (rq_endpoint rq) = false → api_step st (serve_protected rq env st).2
| step_login form env st : api_step st (login form env st).2
| step_publish domain private_key authorization if_none_match env st :
    api_step st (publish_certificate domain private_key authorization if_none_match env st).2.
Lemma login_same form env (st : State) : same_config (ct_db st) (ct_db (login form env st).2).
Proof.
  unfold login, login_check. destruct (match _ with Some _ => _ | None => _ end); [done|]. unfold login_finish. cbn [ct_db ct_world set_login w_db].
  destruct (credentials_ok form _); [|done]. unfold save_session. by destruct (_ || _).
Qed.
Lemma publish_same domain private_key authorization if_none_match env (st : State) :
  same_config (ct_db st) (ct_db (publish_certificate domain private_key authorization if_none_match env st).2).
Proof.
  unfold publish_certificate, unauthorized, retrieval_rate_limited. destruct (count_attempt (en_now env) (lit "unauthorized") _) as [n m].
  destruct (value ← authorization; _) as [bearer|]; [|by destruct (60 <? n)].
  destruct (t ← retrieval_token_by_hash _ _; _) as [token|]; [|by destruct (60 <? n)].
  destruct (count_attempt _ _ _) as [n' m']. destruct (60 <? n'); [done|]. unfold publish_to.
  destruct (certificate_for_domain _ _); [|done]. repeat case_match; done.
Qed.
Lemma api_step_grows st st' : api_step st st' → config_grows (ct_db st) (ct_db st').
Proof.
  intros [rq env st0 Hi|form env st0|d p a i env st0].
  - destruct (serve_protected_cases rq env st0) as [[_ ->]|(s&hash&_&_&[[_ ->]|[_ ->]])]; [apply config_grows_refl|by apply dispatch_grows|apply config_grows_refl].
  - apply same_config_grows, login_same.
  - apply same_config_grows, publish_same.
Qed.

(** C17: No administrator overwrites another's configuration unseen.  Once a
    write that named revision [r] was accepted, then whatever calls follow
    (a database import apart), every other write that names [r] is refused
    with 409 and changes nothing. *)
Theorem no_lost_update r r0 s1 s2 config1 config2 env1 env2 resp (st st1 st2 : State) :
  let put := put_config canonicalize is_dir to_lowercase dns_is_match in
  config_at (ct_db st) r0 → put s1 r config1 env1 st = (resp, st1) → rsp_status resp = 200 → rtc api_step st1 st2 →
  put s2 r config2 env2 st2 = (with_text 409 (lit "Configuration revision changed"), st2).
Proof.
  cbv zeta. intros Hat Hput Hok Hrun. assert (config_at (ct_db st1) (r + 1)) as Hat1.
  { revert Hput. unfold put_config. destruct Hat as (cur&Hcur&Hrev&Hb&Hr). unfold load_config. rewrite Hcur.
    destruct (Z.eqb_spec (revision cur) r) as [Heq|]; cbn [negb]; [|intros [= <- <-]; done].
    destruct (negb _); [intros [= <- <-]; done|]. destruct (validate _ _ _) as [[]|]; [|intros [= <- <-]; done].
    destruct (if eqb_bytes _ _ then _ else _) as [refused|] eqn:Eref.
    { intros [= <- <-]. revert Eref. destruct (eqb_bytes _ _); [done|]. unfold hostname_switch. repeat case_match; try done; intros [= <-]; done. }
    pose proof (ensure_automatic_same (en_clock env1) config1 (ct_db st)) as [He1 He2]. destruct (ensure_automatic_certificates _ _ _) as [[n|] db1]; [|intros [= <- <-]; done].
    cbn [snd] in He1, He2. cbv zeta. change (ct_db (set_ct_db db1 st)) with db1. destruct (save_config _ _ _ _ _ _ _) as [[saved|] db2] eqn:Es; [|intros [= <- <-]; done].
    intros [= <- <-]. rewrite apply_runtime_db. change (ct_db (set_ct_db db2 _)) with db2.
    assert (config_at db1 r) as Hat1 by (exists cur; rewrite He1, He2, Hb; split_and!; [done|done|congruence|lia|lia]). by pose proof (save_config_at _ _ _ _ _ _ _ _ Es Hat1) as [_ ?]. }
  assert (∃ r', r + 1 ≤ r' ∧ config_at (ct_db st2) r') as (r'&Hle&cur&Hcur&Hrev&_).
  { clear Hput. induction Hrun as [st1|st1 st1' st2 Hstep _ IH] in r, Hat1 |- *; [exists (r + 1); split; [lia|done]|].
    destruct (api_step_grows _ _ Hstep _ Hat1) as (r2&Hle2&Hat2). destruct (IH (r2 - 1)) as (r3&Hle3&Hat3); [by replace (r2 - 1 + 1) with r2 by lia|].
    exists r3. split; [lia|done]. }
  unfold put_config, load_config. rewrite Hcur. destruct (Z.eqb_spec (revision cur) r); [lia|done].
Qed.

(** ** The publish race *)

(** Changing a certificate's publication is a read and a write with no
    lock around them: a certificate that is deleted in between is back
    afterwards, without its generations. *)
Theorem publish_race_resurrects id publish env1 env2 (st : State) c :
  acme_wf (ct_db st) → managed_certificate id (ct_db st) = Some c → contains 42 id = false →
  let read := publish_read id st in
  let '(deleted, st1) := delete_certificate id env1 st in
  let '(written, st2) := publish_write read publish env2 st1 in
  rsp_status deleted = 204 ∧ managed_certificate id (ct_db st1) = None ∧ rsp_status written = 204
  ∧ (∃ c', managed_certificate id (ct_db st2) = Some c' ∧ mc_publish c' = publish) ∧ active_generation id (ct_db st2) = None.
Proof.
  intros Hwf Hc Hwild. cbv zeta. unfold publish_read. rewrite Hc. unfold delete_certificate.
  destruct (delete_certificate_exact id (ct_db st) Hwf ltac:(eauto)) as (db1&Ed&Ec&Ei&Ea&Er&Eg). rewrite Ed.
  destruct (wf_certificate _ Hwf _ _ Hc) as (Hid&Hdom&Hcan). unfold publish_write, save_managed_certificate, save_managed_certificate_locked.
  change (ct_db (configuration_changed (set_ct_db db1 st))) with db1. cbn [set_publish mc_domains mc_id]. rewrite Hdom, Hid. cbn [length Nat.eqb negb normalize_all].
  rewrite Hcan. cbn [fmap option_fmap option_map head]. rewrite bool_decide_eq_true_2 by done. cbn [negb existsb]. rewrite Hwild. cbn [orb].
  rewrite bool_decide_eq_true_2 by (apply NoDup_singleton). cbn [negb]. unfold taken. rewrite Ei, lookup_delete_eq. cbn [orb].
  rewrite Ec, lookup_delete_eq. cbn [normalize_all mbind option_bind]. split; [done|]. split; [unfold managed_certificate; by rewrite Ec, lookup_delete_eq|].
  split; [done|]. split.
  - eexists. split; [unfold managed_certificate; cbn; apply lookup_insert_eq|done].
  - unfold active_generation. cbn. by rewrite Ea, lookup_delete_eq.
Qed.

(** An event stream says nothing after a check that found its session gone. *)
Theorem stream_stops hash pre now db sent post :
  stream_session_valid hash now db = false → stream_events hash (pre ++ (SessionTick now db, sent) :: post) = stream_events hash (pre ++ [(SessionTick now db, sent)]).
Proof.
  intros Hv. induction pre as [|[input b] pre IH]; cbn; [by rewrite Hv|]. destruct input as [n d| | | | | |[|]|]; rewrite ?IH; done.
Qed.
(** After a password change with [logout_all] no session of the user is left. *)
Theorem logout_all_ends_sessions session current new env (st : State) hash s :
  (change_password verify_password argon2 session current new true env st).1 = plain 204 →
  Store.session hash (ct_db (change_password verify_password argon2 session current new true env st).2) = Some s →
  ∀ u, user (sr_username session) (ct_db st) = Some u → sr_username s ≠ ur_username u.
Proof.
  unfold change_password. intros H1 H2 u Hu. rewrite Hu in *. destruct (negb _); [done|]. destruct (hash_password _ _) as [h|]; [|done].
  unfold save_user in *. destruct (_ || _); [done|]. cbn in H2. unfold Store.session in H2. cbn in H2. intros Heq.
  rewrite delete_all_in in H2; [done|]. apply list_elem_of_fmap. destruct (db_sessions (ct_db st) !! hash) as [s0|] eqn:E0.
  2: { exfalso. destruct (decide (hash ∈ map fst (List.filter (λ kv : bytes * SessionRecord, eqb_bytes (sr_username kv.2) (ur_username u)) (iter (db_sessions (ct_db st)))))) as [Hin|Hout].
    - by rewrite delete_all_in in H2.
    - rewrite delete_all_notin in H2 by done. congruence. }
  exists (hash, s0). split; [done|]. apply filter_elem. split; [rewrite iter_perm; by apply elem_of_map_to_list|].
  cbn. apply eqb_bytes_spec. destruct (decide (hash ∈ map fst (List.filter (λ kv : bytes * SessionRecord, eqb_bytes (sr_username kv.2) (ur_username u)) (iter (db_sessions (ct_db st)))))) as [Hin|Hout].
  - by rewrite delete_all_in in H2.
  - rewrite delete_all_notin in H2 by done. congruence.
Qed.
End props.

(** ** An administrator at work *)

Module control_example.
Import managed_example.
Definition hash_of (token : bytes) : bytes := take 64 (token ++ repeat 48 64).
Definition admin : UserRecord := MkUserRecord (lit "admin") (lit "secret") true None false.
Definition token : RetrievalToken := MkToken (lit "reader") (lit "r") (hash_of (lit "t0ken")) (lit "t0ken") {[ home ]} true None (Some 1000) false.
Definition open_cert : ManagedCertificate := MkManaged home [home] production_id true false (MkPublish true true) None None.
Definition renewal : RenewalState := MkRenewal home None None None None 0 None None None None None.
Definition db0 : Db := (bootstrap Some (λ _, true) 1 2 default_runtime_config admin db_empty).2.
Definition db1 : Db := (activate_generation gen renewal (save_managed_certificate 1 open_cert db0).2).2.
Definition db2 : Db := (save_retrieval_token token db1).2.
Definition start : Control (R:=unit) :=
  MkControl (MkWorld db2 default_runtime_config None false (MkTables ∅ ∅ [] []) (MkPools ∅ ∅ ∅ ∅ ∅ []) (MkSelf [] [] [])) ∅ ∅ 0 0 [].
Definition at_time (now : Z) : Env := MkEnv now (λ _, now) now (lit "cookie") (lit "csrf") (λ _, None).
Definition good : LoginForm := MkLogin (lit "admin") (lit "secret") None.
Definition bad : LoginForm := MkLogin (lit " Admin") (lit "guess") None.
Definition logged_in : Control (R:=unit) := (login eqb_bytes hash_of good (at_time 10) start).2.
Definition cookie : bytes := lit "theme=dark; tlsproxy_session=cookie".
Definition rq (csrf : option bytes) : ApiRequest (Export:=unit) := MkApiRequest DELETE (Some cookie) csrf (DeleteCertificate home).
Definition call := serve_protected Some (λ _, true) id (λ (_ : unit) (_ : bytes), false) eqb_bytes Some hash_of hash_of (λ (_ : unit) _ _ db, (Ok 0%nat, db)).
Definition put := put_config Some (λ _, true) id (λ (_ : unit) (_ : bytes), false).
Definition actor : SessionRecord := MkSessionRecord [] (lit "admin") [] None None.
Definition tuned : RuntimeConfig := scripted.
End control_example.
Import managed_example control_example.

Lemma changes_need_session_witness :
  (call (rq None) (at_time 20) logged_in).1 = with_text 403 (lit "Missing or invalid CSRF token")
  ∧ rsp_status (call (rq (Some (lit "csrf"))) (at_time 20) logged_in).1 = 204
  ∧ refusal (call (rq (Some (lit "csrf"))) (at_time 20) start).1
  ∧ mutating (rq_method (rq (Some (lit "csrf")))) = true.
Proof.
  split; [vm_compute; reflexivity|]. split; [vm_compute; reflexivity|].
  pose proof (changes_need_session Some (λ _, true) id (λ (_ : unit) (_ : bytes), false) eqb_bytes Some hash_of hash_of (λ (_ : unit) _ _ db, (Ok 0%nat, db))
    (ProtectedCall (rq (Some (lit "csrf")))) (at_time 20)) as Hall. split.
  - apply (proj2 (Hall start)). intros (s&tok&expiry&u&Hc&Hs&_). assert (tok = lit "cookie") as -> by (vm_compute in Hc; by injection Hc as <-).
    vm_compute in Hs. discriminate.
  - apply (proj1 (Hall logged_in)). intros Heq. apply (f_equal (λ st, managed_certificate managed_example.home (ct_db st))) in Heq. vm_compute in Heq. discriminate.
Defined.

Lemma publication_guarded_witness : ∃ c t,
  rsp_body (publish_certificate hash_of home true (Some (lit "Bearer t0ken")) None (at_time 20) start).1 = PublishedBody c
  ∧ pc_private_key_pem c = Some (lit "key") ∧ retrieval_token_by_hash (hash_of (lit "t0ken")) db2 = Some t ∧ rt_allow_private_key t = true.
Proof.
  destruct (publish_certificate hash_of home true (Some (lit "Bearer t0ken")) None (at_time 20) start) as [resp st'] eqn:E.
  assert (∃ c, rsp_body (publish_certificate hash_of home true (Some (lit "Bearer t0ken")) None (at_time 20) start).1 = PublishedBody c
    ∧ pc_private_key_pem c = Some (lit "key")) as (c&Hc&Hk) by (eexists; split; vm_compute; reflexivity).
  rewrite E in Hc. cbn [fst] in Hc.
  pose proof (publication_guarded hash_of home true (Some (lit "Bearer t0ken")) None (at_time 20) start resp st' c E Hc)
    as (h&b&t&m&g&Hh&Hb&Ht&_&_&_&_&_&_&Hg&_&Hpem&Hkey). destruct (Hkey _ Hk) as (_&_&Ha&_).
  exists c, t. split; [exact Hc|]. split; [exact Hk|]. split; [|exact Ha]. injection Hh as <-. assert (b = lit "t0ken") as -> by (vm_compute in Hb; by injection Hb as <-). exact Ht.
Defined.

(** Six wrong guesses in a minute, the last under way when the right one
    comes. *)
Lemma login_throttled_witness :
  (login eqb_bytes hash_of good (at_time (7 * NS)) (run_logins eqb_bytes hash_of ((bad, at_time NS) :: repeat (bad, at_time (2 * NS)) 4) start)).1
  = with_text 429 (lit "Too many login attempts").
Proof.
  apply (login_throttled eqb_bytes hash_of bad (at_time NS) (repeat (bad, at_time (2 * NS)) 4) good (at_time (7 * NS)) start).
  - vm_compute. reflexivity.
  - vm_compute. reflexivity.
  - apply Forall_forall. intros c Hc%list_elem_of_In%repeat_spec. subst c. cbn. unfold NS. lia.
  - apply Forall_forall. intros c Hc%list_elem_of_In%repeat_spec _. subst c. vm_compute. reflexivity.
  - vm_compute. lia.
  - vm_compute. reflexivity.
  - cbn. unfold NS. lia.
Defined.

Lemma parallel_logins_unthrottled_witness : ∃ r,
  (finish_all eqb_bytes hash_of (repeat (bad, at_time 10) 7 ++ [(good, at_time 10)]) (check_all (repeat (bad, at_time 10) 7 ++ [(good, at_time 10)]) start).2).1 !! 7%nat = Some r
  ∧ rsp_status r ≠ 429 ∧ rsp_status r ≠ 401.
Proof.
  pose proof (parallel_logins_unthrottled eqb_bytes hash_of (repeat (bad, at_time 10) 7 ++ [(good, at_time 10)]) start) as Hp.
  destruct (check_all _ start) as [checks st1] eqn:E. destruct Hp as [_ Hp].
  { apply Forall_forall. intros c _. apply lookup_empty. }
  destruct (Hp 7%nat good (at_time 10) eq_refl) as (r&Hr&Hs&Hc). exists r. split; [exact Hr|]. split; [exact Hs|].
  intros H401. apply Hc in H401. vm_compute in H401. discriminate.
Defined.

Lemma no_lost_update_witness :
  (put actor 1 default_runtime_config (at_time 40) (put actor 1 tuned (at_time 30) start).2).1 = with_text 409 (lit "Configuration revision changed").
Proof.
  destruct (put actor 1 tuned (at_time 30) start) as [resp st1] eqn:E.
  assert (rsp_status (put actor 1 tuned (at_time 30) start).1 = 200) as Hok by (vm_compute; reflexivity). rewrite E in Hok. cbn [fst snd] in *.
  pose proof (no_lost_update Some (λ _, true) id (λ (_ : unit) (_ : bytes), false) eqb_bytes Some hash_of hash_of (λ (_ : unit) _ _ db, (Ok 0%nat, db))
    1 1 actor actor tuned default_runtime_config (at_time 30) (at_time 40) resp start st1 st1) as H409. cbv zeta in H409.
  assert (put actor 1 default_runtime_config (at_time 40) st1 = (with_text 409 (lit "Configuration revision changed"), st1)) as Hput.
  { apply H409; [|exact E|exact Hok|apply rtc_refl]. eexists. split; [vm_compute; reflexivity|]. split; [vm_compute; reflexivity|]. split; [vm_compute; reflexivity|].
    split; vm_compute; discriminate. }
  rewrite Hput. reflexivity.
Defined.

Lemma publish_race_resurrects_witness : ∃ c',
  managed_certificate home (ct_db (publish_write (publish_read home start) (MkPublish true false) (at_time 60) (delete_certificate home (at_time 50) start).2).2) = Some c'.
Proof.
  assert (acme_run (ct_db start)) as Hrun.
  { apply (acme_other db1); [|by repeat split]. apply acme_activate; [|apply (bool_decide_unpack _); vm_compute; exact I]. apply acme_save.
    - apply acme_bootstrap; [constructor|]. intros d Hd. vm_compute in Hd. discriminate.
    - apply Forall_singleton. apply graphic_clean. apply (bool_decide_unpack _). vm_compute. exact I. }
  assert (∃ c, managed_certificate home (ct_db start) = Some c) as [c Hc] by (eexists; vm_compute; reflexivity).
  pose proof (publish_race_resurrects home (MkPublish true false) (at_time 50) (at_time 60) start c (acme_run_wf _ Hrun) Hc ltac:(vm_compute; reflexivity)) as Hrace.
  cbv zeta in Hrace. destruct (delete_certificate home (at_time 50) start) as [r1 st1]. cbn [snd]. destruct (publish_write _ _ _ st1) as [r2 st2].
  destruct Hrace as (_&_&_&(c'&Hc'&_)&_). exists c'. exact Hc'.
Defined.
