(* ===== verification/Setup.v ===== *)
(** * First-run setup and offline commands (src/bootstrap.rs, src/main.rs)

    The temporary setup server up to the first administrator, and the
    commands that work on a stopped service's database.  SHA-256, Argon2 and
    the sockets are parameters. *)

From S2P Require Import Prelude RustStd Net BindAddr FilePath AcmeDns Config RuntimeConfig Store StoreProps StoreAcme StoreAcmeProps Lru LocalCa ManagedTls Resolver Forward Health Relay Runtime ControlApi.
Open Scope Z_scope.

(** ** The setup server *)

Definition RANDOM_PORT_START : Z := 40000.
Definition RANDOM_PORT_END : Z := 50000.
Definition DEFAULT_TOKEN_LIFETIME : Z := 30 * 60 * NS.
Record SetupOptions := MkSetupOptions { so_bind_address : IpAddr; so_requested_port : option Z; so_token : option bytes; so_token_lifetime : Z }.
Record SetupRequest := MkSetupRequest {
  sq_token : bytes;
  sq_username : bytes;
  sq_password : bytes;
  sq_control_hostname : bytes;
  sq_self_ips : list bytes;
  sq_public_resolvers : list bytes;
  sq_provider_id : bytes;
}.
Inductive setup_error :=
| AlreadyComplete | TokenExpired | InvalidToken | BadUsername | BadHostname | BadSelfAddress | NoResolvers | BadResolver | BadPassword
| SetupStore (e : store_error) | ShortToken | PortBusy | NoFreePort.
Record SetupState := MkSetupState {
  ss_db : Db;
  ss_token_digest : bytes;
  ss_expires_at : Z;
  ss_failed_attempts : Z * Z;
  ss_completed : bool;
}.

Inductive BindOutcome := Bound | InUse | BindError.
Fixpoint first_free (bind : Z → BindOutcome) (ports : list Z) : result setup_error Z :=
  match ports with
  | [] => Err NoFreePort
  | port :: ports => match bind port with Bound => Ok port | InUse => first_free bind ports | BindError => Err PortBusy end
  end.
(** [shuffled] is the order in which the random ports are tried. *)
Definition bind_setup_listener (bind : Z → BindOutcome) (shuffled : list Z) (requested_port : option Z) : result setup_error Z :=
  match requested_port with
  | Some port => match bind port with Bound => Ok port | _ => Err PortBusy end
  | None => first_free bind shuffled
  end.

Section setup.
Context (canonicalize : bytes → option bytes) (is_dir : bytes → bool) (sha256 : bytes → bytes) (argon2 : bytes → option bytes).

(** [SetupServer::prepare]: the port and the state of the server.  The
    ephemeral certificate of the server is not modelled. *)
Definition prepare (now : Z) (bind : Z → BindOutcome) (shuffled : list Z) (random : bytes) (options : SetupOptions) (db : Db) : result setup_error (Z * SetupState) :=
  guard! negb (is_initialized db) else AlreadyComplete;
  port ← bind_setup_listener bind shuffled (so_requested_port options);
  let token := default random (so_token options) in
  guard! (32 <=? length token)%nat else ShortToken;
  Ok (port, MkSetupState db (sha256 token) (now + so_token_lifetime options) (0, now) false).

Fixpoint canonical_ips (ips : list bytes) : option (list bytes) :=
  match ips with
  | [] => Some []
  | s :: ips => ip ← parse_ip s; rest ← canonical_ips ips; Some (show_ip ip :: rest)
  end.
Definition setup_config (hostname : bytes) (ips : list bytes) (request : SetupRequest) : RuntimeConfig.RuntimeConfig :=
  let c := default_runtime_config in
  MkRuntimeConfig (default_listener c) (additional_listeners c) (disabled_listeners c) (dns_overrides c) (accounting c)
    (MkControlPlane hostname ips (sq_public_resolvers request) (require_all_resolvers (control_plane c)) (sq_provider_id request))
    (acme c) (certificate_fallback c).
Definition complete_setup_inner (env : Env) (request : SetupRequest) (st : SetupState) : result setup_error () * Db :=
  let db := ss_db st in
  match (guard! negb (is_initialized db) else AlreadyComplete;
         guard! (en_now env <? ss_expires_at st) else TokenExpired;
         guard! eqb_bytes (ss_token_digest st) (sha256 (sq_token request)) else InvalidToken;
         let username := trim (sq_username request) in
         guard! negb (bool_decide (username = []) || (128 <? length username)%nat) else BadUsername;
         hostname ← ok_or (normalize_domain (sq_control_hostname request)) BadHostname;
         ips ← ok_or (canonical_ips (sq_self_ips request)) BadSelfAddress;
         guard! negb (bool_decide (sq_public_resolvers request = [])) else NoResolvers;
         guard! forallb (λ r, bool_decide (is_Some (parse_resolver r))) (sq_public_resolvers request) else BadResolver;
         hash ← ok_or (hash_password argon2 (sq_password request)) BadPassword;
         Ok (setup_config hostname ips request, MkUserRecord username hash true (Some (en_now env)) false)) with
  | Err e => (Err e, db)
  | Ok (config, administrator) =>
      match bootstrap canonicalize is_dir (en_now env) (en_key_now env) config administrator db with
      | (Err e, db) => (Err (SetupStore e), db)
      | (Ok _, db) => (Ok (), db)
      end
  end.
Definition complete_setup (env : Env) (request : SetupRequest) (st : SetupState) : Z * SetupState :=
  let attempts := if 300 * NS <=? en_now env - (ss_failed_attempts st).2 then (0, en_now env) else ss_failed_attempts st in
  if 20 <=? attempts.1 then (429, MkSetupState (ss_db st) (ss_token_digest st) (ss_expires_at st) attempts (ss_completed st))
  else match complete_setup_inner env request st with
       | (Ok _, db) => (201, MkSetupState db (ss_token_digest st) (ss_expires_at st) attempts true)
       | (Err _, db) => (400, MkSetupState db (ss_token_digest st) (ss_expires_at st) (attempts.1 + 1, attempts.2) (ss_completed st))
       end.
(** The requests a setup server answers, in turn. *)
Fixpoint serve_setup (requests : list (Env * SetupRequest)) (st : SetupState) : list Z * SetupState :=
  match requests with
  | [] => ([], st)
  | (env, request) :: requests =>
      let '(status, st) := complete_setup env request st in
      let '(statuses, st) := serve_setup requests st in (status :: statuses, st)
  end.

(** *** Lemmas *)

(** A failed bootstrap writes nothing; a successful one stores revision 1
    and the administrator. *)
Lemma bootstrap_spec now key_now config u db r db' : bootstrap canonicalize is_dir now key_now config u db = (r, db') →
  match r with
  | Ok stored => is_initialized db' = true ∧ db_config db' = Some stored ∧ revision stored = 1 ∧ stored_config stored = config
      ∧ db_users db' = <[ur_username u := u]> (db_users db) ∧ db_sessions db' = db_sessions db
  | Err _ => db' = db
  end.
Proof. unfold bootstrap. intros Hb. repeat case_match; simplify_eq; done. Qed.
Lemma setup_inner_spec env request st r db' : complete_setup_inner env request st = (r, db') →
  match r with
  | Ok _ => is_initialized (ss_db st) = false ∧ en_now env < ss_expires_at st ∧ ss_token_digest st = sha256 (sq_token request)
      ∧ is_initialized db' = true
      ∧ ∃ hash, hash_password argon2 (sq_password request) = Some hash
          ∧ db_users db' = <[trim (sq_username request) := MkUserRecord (trim (sq_username request)) hash true (Some (en_now env)) false]> (db_users (ss_db st))
  | Err _ => db' = ss_db st
  end.
Proof.
  unfold complete_setup_inner. destruct (is_initialized (ss_db st)) eqn:Ei; cbn [negb]; [by intros [= <- <-]|].
  destruct (Z.ltb_spec (en_now env) (ss_expires_at st)); [|by intros [= <- <-]].
  destruct (eqb_bytes _ _) eqn:Et; [|by intros [= <- <-]]. destruct (negb _); [|by intros [= <- <-]].
  destruct (normalize_domain _) as [hostname|]; [cbn [ok_or mbind result_bind]|by intros [= <- <-]].
  destruct (canonical_ips _) as [ips|]; [cbn [ok_or mbind result_bind]|by intros [= <- <-]].
  destruct (negb _); [|by intros [= <- <-]]. destruct (forallb _ _); [|by intros [= <- <-]].
  destruct (hash_password _ _) as [hash|] eqn:Eh; [cbn [ok_or mbind result_bind]|by intros [= <- <-]].
  destruct (bootstrap _ _ _ _ _ _ _) as [[stored|] db1] eqn:Eb; apply bootstrap_spec in Eb; intros [= <- <-]; [|done].
  destruct Eb as (Hi&_&_&_&Hu&_). apply eqb_bytes_spec in Et. split_and!; [done..|]. exists hash. done.
Qed.
Lemma serve_initialized requests st : is_initialized (ss_db st) = true →
  ss_db (serve_setup requests st).2 = ss_db st ∧ Forall (λ s, s ≠ 201) (serve_setup requests st).1.
Proof.
  revert st. induction requests as [|[env request] requests IH]; intros st Hi; cbn [serve_setup]; [done|].
  assert ((complete_setup env request st).1 ≠ 201 ∧ ss_db (complete_setup env request st).2 = ss_db st) as [Hs Hd].
  { unfold complete_setup. destruct (20 <=? _); [done|]. unfold complete_setup_inner. rewrite Hi. done. }
  destruct (complete_setup env request st) as [status st1]. cbn [fst snd] in *. rewrite <- Hd in Hi. destruct (IH st1 Hi) as [H1 H2].
  destruct (serve_setup requests st1) as [statuses st2]. cbn [fst snd] in *. split; [congruence|]. by constructor.
Qed.

(** C18: There is one first administrator.  Whatever requests a setup server
    answers, the database is left untouched except by one request at most:
    the one answered 201, which came before the token expired, carried the
    token and whose user name and password are now an enabled administrator.
    After it every request is refused, and a database that is already set up
    is never changed. *)
Theorem setup_once requests st :
  let out := serve_setup requests st in
  (Forall (λ s, s ≠ 201) out.1 ∧ ss_db out.2 = ss_db st)
  ∨ ∃ i env request hash, is_initialized (ss_db st) = false ∧ is_initialized (ss_db out.2) = true
      ∧ requests !! i = Some (env, request) ∧ out.1 !! i = Some 201 ∧ (∀ j, out.1 !! j = Some 201 → j = i)
      ∧ en_now env < ss_expires_at st ∧ ss_token_digest st = sha256 (sq_token request)
      ∧ hash_password argon2 (sq_password request) = Some hash
      ∧ user (trim (sq_username request)) (ss_db out.2) = Some (MkUserRecord (trim (sq_username request)) hash true (Some (en_now env)) false).
Proof.
  cbv zeta. induction requests as [|[env request] requests IH] in st |- *; cbn [serve_setup]; [by left|].
  unfold complete_setup. set (attempts := if 300 * NS <=? _ then (0, en_now env) else ss_failed_attempts st). destruct (20 <=? attempts.1).
  { set (st1 := MkSetupState _ _ _ _ _). destruct (IH st1) as [[H1 H2]|(i&e&r&h&H1&H2&H3&H4&H5&H6)]; destruct (serve_setup requests st1) as [ss st2]; cbn [fst snd] in *.
    - left. split; [by constructor|done].
    - right. exists (S i), e, r, h. do 4 (split; [done|]). split; [|done]. intros [|j] Hj; [done|]. by rewrite (H5 j Hj). }
  destruct (complete_setup_inner env request st) as [[[]|e] db'] eqn:Ei; apply setup_inner_spec in Ei.
  - destruct Ei as (Hn&Ht&Hd&Hi&hash&Hh&Hu). right. set (st1 := MkSetupState _ _ _ _ _). destruct (serve_initialized requests st1 Hi) as [H1 H2].
    destruct (serve_setup requests st1) as [ss st2]. cbn [fst snd] in *. exists 0%nat, env, request, hash. rewrite H1. split_and!; try done.
    + intros [|j] Hj; [done|]. rewrite Forall_lookup in H2. by apply H2 in Hj.
    + unfold user, st1. cbn. rewrite Hu. apply lookup_insert_eq.
  - subst db'. set (st1 := MkSetupState _ _ _ _ _). destruct (IH st1) as [[H1 H2]|(i&e0&r&h&H1&H2&H3&H4&H5&H6)]; destruct (serve_setup requests st1) as [ss st2]; cbn [fst snd] in *.
    + left. split; [by constructor|done].
    + right. exists (S i), e0, r, h. do 4 (split; [done|]). split; [|done]. intros [|j] Hj; [done|]. by rewrite (H5 j Hj).
Qed.

(** At most twenty wrong tokens are judged per five minutes. *)
Theorem setup_throttled env request st :
  0 ≤ (ss_failed_attempts st).1 ≤ 20 →
  0 ≤ (ss_failed_attempts (complete_setup env request st).2).1 ≤ 20
  ∧ ((ss_failed_attempts st).1 = 20 → en_now env < (ss_failed_attempts st).2 + 300 * NS → (complete_setup env request st).1 = 429).
Proof.
  intros Hn. unfold complete_setup. destruct (Z.leb_spec (300 * NS) (en_now env - (ss_failed_attempts st).2)).
  - cbn [fst snd]. destruct (Z.leb_spec 20 0); [lia|]. destruct (complete_setup_inner _ _ _) as [[|] ?]; cbn; split; lia.
  - destruct (Z.leb_spec 20 (ss_failed_attempts st).1); cbn [fst snd ss_failed_attempts]; [done|].
    destruct (complete_setup_inner _ _ _) as [[|] ?]; cbn; split; lia.
Qed.
End setup.

(** ** Commands on a stopped service *)

Inductive command_error :=
| NotInitialized | NoAdministrator | SeveralAdministrators | NoSuchAccount | PasswordUnread | PasswordMismatch | PasswordRejected
| CommandStore (e : store_error) | CommandHostname | KeepNoGeneration | LegacyUnread | BothTokens | TokenUnread | SetupFailed (e : setup_error) | NoConfiguration.

Definition sole_administrator (db : Db) : result command_error bytes :=
  match map ur_username (List.filter ur_administrator (users db)) with
  | [] => Err NoAdministrator
  | [first] => Ok first
  | _ => Err SeveralAdministrators
  end.
(** [prompt_new_password], from the two lines the terminal gives. *)
Definition prompt_new_password (terminal : option (bytes * bytes)) : result command_error bytes :=
  match terminal with
  | None => Err PasswordUnread
  | Some (password, confirmation) => if eqb_bytes password confirmation then Ok password else Err PasswordMismatch
  end.
(** [ra_password_file] is [Some] with what reading the file gave. *)
Record RecoverAdminArgs := MkRecover { ra_user : option bytes; ra_create : bool; ra_password_file : option (option bytes) }.

Section commands.
Context (canonicalize : bytes → option bytes) (is_dir : bytes → bool) (argon2 : bytes → option bytes).

Definition new_password (args : RecoverAdminArgs) (terminal : option (bytes * bytes)) : result command_error bytes :=
  match ra_password_file args with
  | Some (Some text) => Ok (trim text)
  | Some None => Err PasswordUnread
  | None => prompt_new_password terminal
  end.
(** [recover_admin], without [--list]. *)
Definition recover_admin (env : Env) (args : RecoverAdminArgs) (terminal : option (bytes * bytes)) (db : Db) : result command_error () * Db :=
  match (guard! is_initialized db else NotInitialized;
         username ← match ra_user args with Some username => Ok username | None => sole_administrator db end;
         let existing := user username db in
         guard! negb (bool_decide (existing = None)) || ra_create args else NoSuchAccount;
         password ← new_password args terminal;
         hash ← ok_or (hash_password argon2 password) PasswordRejected;
         Ok (username, existing, hash)) with
  | Err e => (Err e, db)
  | Ok (username, existing, hash) =>
      let u := match existing with Some old => set_password hash old | None => MkUserRecord username hash true (Some (en_now env)) false end in
      match save_user u db with
      | (Err e, db) => (Err (CommandStore e), db)
      | (Ok _, db) =>
          let '(revoked, db) := delete_user_sessions username db in
          (Ok (), append_audit (en_now env) (en_key_now env) (lit "account_recovered") (username ++ [32] ++ (if bool_decide (existing = None) then lit "created " else []) ++ show_dec (Z.of_nat revoked)) db)
      end
  end.

Definition cleanup (now : Z) (generations : nat) (audit_days : Z) (db : Db) : result command_error RetentionSummary * Db :=
  if (generations =? 0)%nat then (Err KeepNoGeneration, db)
  else let '(summary, db) := cleanup_retention now generations audit_days db in (Ok summary, db).

(** [migrate]: the legacy file and the password file as they were read. *)
Record MigrateArgs := MkMigrate { mg_admin_username : bytes; mg_control_hostname : bytes; mg_self_ips : list IpAddr; mg_provider_id : bytes }.
Definition migrated_config (hostname : bytes) (args : MigrateArgs) (legacy : LegacyConfig) : RuntimeConfig.RuntimeConfig :=
  let c := from_legacy legacy in
  MkRuntimeConfig (default_listener c) (additional_listeners c) (disabled_listeners c) (dns_overrides c) (accounting c)
    (MkControlPlane hostname (map show_ip (mg_self_ips args)) (public_resolvers (control_plane c)) (require_all_resolvers (control_plane c)) (mg_provider_id args))
    (acme c) (certificate_fallback c).
Definition migrate (env : Env) (args : MigrateArgs) (legacy : option LegacyConfig) (password : option bytes) (db : Db) : result command_error () * Db :=
  match (guard! negb (is_initialized db) else CommandStore AlreadyInitialized;
         legacy ← ok_or legacy LegacyUnread;
         password ← ok_or password PasswordUnread;
         hash ← ok_or (hash_password argon2 (trim password)) PasswordRejected;
         hostname ← ok_or (normalize_domain (mg_control_hostname args)) CommandHostname;
         Ok (migrated_config hostname args legacy, MkUserRecord (mg_admin_username args) hash true (Some (en_now env)) false)) with
  | Err e => (Err e, db)
  | Ok (config, administrator) =>
      match bootstrap canonicalize is_dir (en_now env) (en_key_now env) config administrator db with
      | (Err e, db) => (Err (CommandStore e), db)
      | (Ok _, db) => (Ok (), db)
      end
  end.

(** [run], up to the configuration the runtime starts with; [life] is what
    the setup server is asked while it lives. *)
Context (sha256 : bytes → bytes).
Definition setup_token (argument : option bytes) (file : option (option bytes)) : result command_error (option bytes) :=
  match argument, file with
  | Some token, None => Ok (Some token)
  | None, Some (Some text) => Ok (Some (trim text))
  | None, Some None => Err TokenUnread
  | None, None => Ok None
  | Some _, Some _ => Err BothTokens
  end.
Definition start (now : Z) (bind : Z → BindOutcome) (shuffled : list Z) (random : bytes) (bind_address : IpAddr) (port : option Z)
  (argument : option bytes) (file : option (option bytes)) (life : list (Env * SetupRequest)) (db : Db) : result command_error StoredConfig * Db :=
  let '(r, db) :=
    if is_initialized db then (Ok (), db)
    else match setup_token argument file with
         | Err e => (Err e, db)
         | Ok token =>
             match prepare sha256 now bind shuffled random (MkSetupOptions bind_address port token DEFAULT_TOKEN_LIFETIME) db with
             | Err e => (Err (SetupFailed e), db)
             | Ok (_, st) => (Ok (), ss_db (serve_setup canonicalize is_dir sha256 argon2 life st).2)
             end
         end in
  match r with
  | Err e => (Err e, db)
  | Ok _ => match load_config db with Some stored => (Ok stored, db) | None => (Err NoConfiguration, db) end
  end.
End commands.

(** *** Recovery *)

Lemma delete_user_sessions_spec username db hash s :
  session hash (delete_user_sessions username db).2 = Some s ↔ session hash db = Some s ∧ sr_username s ≠ username.
Proof.
  unfold delete_user_sessions, session. cbn [snd db_sessions set_access].
  set (keys := map fst (List.filter (λ kv, eqb_bytes (sr_username kv.2) username) (iter (db_sessions db)))).
  assert (hash ∈ keys ↔ ∃ s', db_sessions db !! hash = Some s' ∧ sr_username s' = username) as Hin.
  { unfold keys. rewrite list_elem_of_fmap. split.
    - intros ([k s']&->&[Hk Hu]%filter_elem). rewrite iter_perm, elem_of_map_to_list in Hk. apply eqb_bytes_spec in Hu. eauto.
    - intros (s'&Hs&Hu). exists (hash, s'). split; [done|]. apply filter_elem. split; [rewrite iter_perm; by apply elem_of_map_to_list|by apply eqb_bytes_spec]. }
  destruct (decide (hash ∈ keys)) as [Hk|Hk].
  - rewrite delete_all_in by done. apply Hin in Hk as (s'&Hs&Hu). split; [done|]. intros [Hs2 Hne]. congruence.
  - rewrite delete_all_notin by done. split; [|tauto]. intros Hs. split; [done|]. intros Hu. apply Hk, Hin. eauto.
Qed.

Section recovery.
Context (argon2 : bytes → option bytes).
(** Account recovery replaces a secret and nothing else.  The account it
    resets keeps its name, its rights and its disabled state, with the new
    password's hash; an account is created only when its name was given and
    creation was asked for, and without a name the account is the only
    administrator; all sessions of the account are gone, and every other
    account and session is as it was.  A failed recovery changes nothing. *)
Theorem recovery_keeps_rights env args terminal db r db' :
  recover_admin argon2 env args terminal db = (r, db') →
  match r with
  | Ok _ => ∃ username hash u, (ra_user args = Some username ∨ (ra_user args = None ∧ sole_administrator db = Ok username))
      ∧ (∀ old, user username db = Some old → u = set_password hash old)
      ∧ (user username db = None → ra_create args = true ∧ ur_administrator u = true ∧ ur_disabled u = false)
      ∧ (∃ password, hash_password argon2 password = Some hash ∧ ur_password_hash u = hash)
      ∧ user (ur_username u) db' = Some u ∧ (∀ n, n ≠ ur_username u → user n db' = user n db)
      ∧ (∀ h s, session h db' = Some s ↔ session h db = Some s ∧ sr_username s ≠ username)
  | Err _ => db' = db
  end.
Proof.
  unfold recover_admin. destruct (is_initialized db); [|by intros [= <- <-]].
  destruct (match ra_user args with Some _ => _ | None => _ end) as [username|] eqn:Eu; [cbn [mbind result_bind]|by intros [= <- <-]].
  destruct (negb _ || _) eqn:Ec; [|by intros [= <- <-]]. destruct (new_password _ _) as [password|]; [cbn [mbind result_bind]|by intros [= <- <-]].
  destruct (hash_password argon2 password) as [hash|] eqn:Eh; [cbn [ok_or mbind result_bind]|by intros [= <- <-]].
  set (u := match user username db with Some _ => _ | None => _ end). unfold save_user. destruct (bool_decide (trim (ur_username u) = []) || _); [by intros [= <- <-]|].
  set (db1 := set_access _ _ _ _ _). pose proof (delete_user_sessions_spec username db1) as Hsess.
  assert (db_users (delete_user_sessions username db1).2 = <[ur_username u := u]> (db_users db)) as Husers by done.
  destruct (delete_user_sessions username db1) as [revoked db2]. cbn [snd] in *. intros [= <- <-]. exists username, hash, u. split_and!.
  - destruct (ra_user args); [injection Eu as ->; by left|by right].
  - intros old Hold. unfold u. by rewrite Hold.
  - intros Hnone. unfold u. rewrite Hnone in *. rewrite bool_decide_eq_true_2 in Ec by done. done.
  - exists password. split; [done|]. unfold u. by destruct (user username db).
  - unfold user. cbn. rewrite Husers. apply lookup_insert_eq.
  - intros n Hn. unfold user. cbn. by rewrite Husers, lookup_insert_ne.
  - intros h s. apply (Hsess h s).
Qed.
End recovery.

(** ** A first run *)

Module setup_example.
Definition at_time (now : Z) : Env := MkEnv now (λ _, now) now [] [] (λ _, None).
Definition hash16 (s : bytes) : bytes := lit "h:" ++ s.
Definition secret : bytes := lit "0123456789abcdef0123456789abcdef".
Definition ask (token : bytes) : SetupRequest :=
  MkSetupRequest token (lit " admin ") (lit "correct horse battery") (lit "Control.Example.") [lit "192.0.2.1"] [lit "1.1.1.1"] production_id.
Definition fresh : SetupState := MkSetupState db_empty (hash16 secret) (1800 * NS) (0, 0) false.
Definition answers := serve_setup Some (λ _, true) hash16 Some [(at_time 1, ask (lit "wrong")); (at_time 2, ask secret); (at_time 3, ask secret)] fresh.
Definition args : RecoverAdminArgs := MkRecover None false (Some (Some (lit "a new long password "))).
Definition recovered := recover_admin Some (at_time 9) args None (ss_db answers.2).
End setup_example.
Import setup_example.

Example setup_answers : answers.1 = [400; 201; 400].
Proof. vm_compute. reflexivity. Qed.
Lemma setup_once_witness : ∃ u, user (lit "admin") (ss_db answers.2) = Some u ∧ ur_administrator u = true.
Proof.
  pose proof (setup_once Some (λ _, true) hash16 Some [(at_time 1, ask (lit "wrong")); (at_time 2, ask secret); (at_time 3, ask secret)] fresh) as Hs.
  cbv zeta in Hs. fold answers in Hs. pose proof setup_answers as Ha. destruct answers as [ss st]. cbn [fst snd] in *. subst ss.
  destruct Hs as [[Hf _]|(i&env&request&hash&_&_&Hr&Hi&_&_&_&_&Hu)].
  - exfalso. apply Forall_lookup_1 with (i := 1%nat) (x := 201) in Hf; [|reflexivity]. apply Hf. reflexivity.
  - destruct i as [|[|[|]]]; [discriminate Hi| |discriminate Hi|discriminate Hr]. injection Hr as <- <-. eexists. split; [exact Hu|reflexivity].
Defined.
Lemma recovery_keeps_rights_witness : recovered.1 = Ok () ∧ ∃ u, user (lit "admin") recovered.2 = Some u ∧ ur_password_hash u = lit "a new long password".
Proof.
  destruct recovered as [r db'] eqn:E. assert (r = Ok ()) as -> by (transitivity recovered.1; [by rewrite E|vm_compute; reflexivity]).
  split; [reflexivity|].
  pose proof (recovery_keeps_rights Some (at_time 9) args None (ss_db answers.2) (Ok ()) db' E) as (username&hash&u&Hname&Hold&_&(p&Hh&Hp)&Hu&_).
  assert (username = lit "admin") as -> by (destruct Hname as [Hn|[_ Hn]]; [discriminate Hn|vm_compute in Hn; by injection Hn as <-]).
  assert (∃ old, user (lit "admin") (ss_db answers.2) = Some old ∧ ur_username old = lit "admin") as (old&Ho&Hon) by (eexists; split; vm_compute; reflexivity).
  rewrite (Hold old Ho) in *. cbn [ur_username set_password] in Hu. rewrite Hon in Hu. cbn [snd]. exists (set_password hash old). split; [exact Hu|].
  assert (ur_password_hash <$> user (lit "admin") recovered.2 = Some (lit "a new long password")) as Hv by (vm_compute; reflexivity).
  rewrite E in Hv. cbn [snd] in Hv. rewrite Hu in Hv. injection Hv as Hv. exact Hv.
Defined.
