(* ===== verification/Access.v ===== *)
(** * Getting in: recovery, login, session (src/auth.rs)

    Tokens and password hashes, and the way from a recovered account over the
    login form to an admitted request: [Setup.recover_admin], then
    [ControlApi.login], then [ControlApi.serve_protected].  SHA-256 and Argon2
    are parameters. *)

From S2P Require Import Prelude RustStd Net BindAddr FilePath AcmeDns Config RuntimeConfig Store StoreProps StoreAcme StoreAcmeProps Lru LocalCa ManagedTls Resolver Forward Health Relay Runtime ControlApi Setup.
Open Scope Z_scope.

(** ** Tokens and passwords *)

(** [hex::encode] *)
Definition hex_encode (s : bytes) : bytes := concat (map (λ b, [hex_digit (b / 16); hex_digit (b mod 16)]) s).
(** [random_token]; [random] are the 32 bytes drawn. *)
Definition random_token (random : bytes) : bytes := hex_encode random.
Definition token_hash (sha256 : bytes → bytes) (token : bytes) : bytes := hex_encode (sha256 token).
(** [verify_password]: Argon2 on a hash that parses. *)
Definition verify_password {H : Type} (parse_hash : bytes → option H) (argon2_verify : bytes → H → bool) (encoded candidate : bytes) : bool :=
  match parse_hash encoded with None => false | Some hash => argon2_verify candidate hash end.

(** A byte that a cookie value can hold as it is. *)
Definition cookie_byte (c : byte) : bool := graphic c && negb (c =? SEMI) && negb (c =? 61).
Lemma hex_digit_cookie d : 0 ≤ d < 16 → cookie_byte (hex_digit d) = true.
Proof. intros Hd. unfold cookie_byte, hex_digit, graphic, SEMI. destruct (Z.ltb_spec d 10); lia. Qed.
Lemma hex_encode_cookie s : Forall (λ b, 0 ≤ b < 256) s → Forall (λ c, cookie_byte c = true) (hex_encode s).
Proof.
  induction 1 as [|b s Hb _ IH]; [constructor|]. unfold hex_encode. cbn. constructor; [|constructor; [|exact IH]]; apply hex_digit_cookie.
  - split; [apply Z.div_pos; lia|apply Z.div_lt_upper_bound; lia].
  - apply Z.mod_pos_bound. lia.
Qed.
Lemma hex_encode_nonempty s : s ≠ [] → hex_encode s ≠ [].
Proof. by destruct s. Qed.

(** The cookie a browser sends back is read as the token. *)
Lemma cookie_roundtrip token : Forall (λ c, cookie_byte c = true) token → cookie_value (Some (SESSION_COOKIE ++ [61] ++ token)) SESSION_COOKIE = Some token.
Proof.
  intros Ht. assert (Forall (λ c, graphic c = true ∧ c ≠ SEMI) token) as Hg.
  { eapply Forall_impl; [exact Ht|]. intros c. unfold cookie_byte. intros [[Hc Hs]%andb_true_iff _]%andb_true_iff. split; [done|]. by apply negb_true_iff, Z.eqb_neq in Hs. }
  set (text := SESSION_COOKIE ++ [61] ++ token). assert (Forall (λ c, graphic c = true) text) as Htext.
  { apply Forall_app. split; [apply (bool_decide_unpack _); vm_compute; exact I|]. apply Forall_app. split; [by repeat constructor|]. eapply Forall_impl; [exact Hg|]. by intros c [? _]. }
  unfold cookie_value. cbn [mbind option_bind]. assert (header_str text = Some text) as ->.
  { unfold header_str. assert (forallb (λ b, (32 <=? b) && (b <? 127) || (b =? 9)) text = true) as ->; [|done]. apply forallb_forall. intros c Hc%list_elem_of_In.
    rewrite Forall_forall in Htext. apply Htext in Hc. unfold graphic in Hc. lia. }
  cbn [mbind option_bind]. assert (split_char SEMI text = [text]) as ->.
  { apply split_by_none. apply Forall_app. split; [apply (bool_decide_unpack _); vm_compute; exact I|]. apply Forall_app. split; [by repeat constructor|].
    eapply Forall_impl; [exact Hg|]. intros c [_ Hc]. by apply Z.eqb_neq. }
  cbn [omap list_omap]. rewrite (trim_all_graphic text Htext). assert (split_once 61 text = Some (SESSION_COOKIE, token)) as ->.
  { apply split_once_Some. split; [done|]. apply (bool_decide_unpack _). vm_compute. exact I. }
  cbn. by rewrite (proj2 (eqb_bytes_spec _ _) eq_refl).
Qed.

(** ** From recovery to an admitted request *)

Section access.
Context (canonicalize : bytes → option bytes) (is_dir : bytes → bool).
Context (to_lowercase : bytes → bytes) {R : Type} (dns_is_match : R → bytes → bool).
Context {tls : TlsLibrary}.
Context {H : Type} (parse_hash : bytes → option H) (argon2_verify : bytes → H → bool) (argon2 : bytes → option bytes) (sha256 : bytes → bytes) (token_id : bytes → bytes).
Context {Export : Type} (import_json : Export → bool → option (gset bytes) → Db → result store_error nat * Db).
(** A password verifies against its own hash; a digest has bytes. *)
Context (argon2_complete : ∀ password hash, argon2 password = Some hash → verify_password parse_hash argon2_verify hash password = true).
Context (sha256_nonempty : ∀ token, sha256 token ≠ []).
Abbreviation verify := (verify_password parse_hash argon2_verify).
Abbreviation dispatch := (ControlApi.dispatch canonicalize is_dir to_lowercase dns_is_match verify argon2 (token_hash sha256) token_id import_json).
Abbreviation serve_protected := (ControlApi.serve_protected canonicalize is_dir to_lowercase dns_is_match verify argon2 (token_hash sha256) token_id import_json).
Abbreviation login := (ControlApi.login (R := R) verify (token_hash sha256)).

(** The account a recovery is about. *)
Definition recovers (args : RecoverAdminArgs) (db : Db) (username : bytes) : Prop :=
  ra_user args = Some username ∨ (ra_user args = None ∧ sole_administrator db = Ok username).
(** The rights of the account: as they were, or those of a new administrator. *)
Definition rights_after (username : bytes) (db : Db) : bool * bool :=
  match user username db with Some old => (ur_administrator old, ur_disabled old) | None => (true, false) end.
Lemma recovered_account env args terminal db db' username password :
  recover_admin argon2 env args terminal db = (Ok (), db') → recovers args db username → new_password args terminal = Ok password → (∀ old, user username db = Some old → ur_username old = username) →
  ∃ u, user username db' = Some u ∧ ur_username u = username ∧ username ≠ [] ∧ argon2 password = Some (ur_password_hash u) ∧ (ur_administrator u, ur_disabled u) = rights_after username db
    ∧ ∀ h s, session h db' = Some s → sr_username s ≠ username.
Proof.
  intros Hrun Hname Hpw Hacc. unfold recover_admin in Hrun. destruct (is_initialized db); [|done].
  assert (match ra_user args with Some username => Ok username | None => sole_administrator db end = Ok username) as Hu by (destruct Hname as [->|[-> ?]]; done).
  rewrite Hu in Hrun. cbn [mbind result_bind] in Hrun. destruct (negb _ || _); [|done]. rewrite Hpw in Hrun. cbn [mbind result_bind] in Hrun.
  destruct (hash_password argon2 password) as [hash|] eqn:Eh; [|done]. cbn [ok_or mbind result_bind] in Hrun. unfold hash_password in Eh. destruct (_ <? 12)%nat; [done|].
  set (u := match user username db with Some _ => _ | None => _ end) in Hrun.
  assert (ur_username u = username ∧ ur_password_hash u = hash ∧ (ur_administrator u, ur_disabled u) = rights_after username db) as (Hn&Hh&Ha).
  { unfold u, rights_after. destruct (user username db) as [old|] eqn:Eo; [|done]. split_and!; [exact (Hacc old eq_refl)|done..]. }
  unfold save_user in Hrun. destruct (bool_decide (trim (ur_username u) = [])) eqn:Et; [done|]. apply bool_decide_eq_false in Et. cbn [orb] in Hrun. destruct (bool_decide _); [done|].
  set (db1 := set_access _ _ _ _ _) in Hrun. pose proof (delete_user_sessions_spec username db1) as Hsess.
  assert (db_users (delete_user_sessions username db1).2 = <[ur_username u := u]> (db_users db)) as Husers by done.
  destruct (delete_user_sessions username db1) as [revoked db2]. cbn [snd] in *. injection Hrun as <-. exists u. split_and!; try done.
  - unfold user. cbn. rewrite Husers, Hn. apply lookup_insert_eq.
  - intros E. rewrite Hn, E in Et. by apply Et.
  - by rewrite Hh.
  - intros h s Hs. by apply (Hsess h s) in Hs as [_ ?].
Qed.

(** A login with the account's password is given a session. *)
Lemma login_granted form env (st : Control (R := R)) u :
  login_attempts st = ∅ → user (lf_username form) (ct_db st) = Some u → ur_disabled u = false → ur_username u ≠ [] → verify (ur_password_hash u) (lf_password form) = true →
  let session := MkSessionRecord (token_hash sha256 (en_token env)) (ur_username u) (en_csrf env) (Some (en_now env)) (Some (en_now env + session_lifetime form * NS)) in
  ∃ st', login form env st = (MkResponse 303 [(lit "location", lit "/"); (lit "set-cookie", session_cookie (en_token env) (session_lifetime form))] NoBody, st')
    ∧ Store.session (token_hash sha256 (en_token env)) (ct_db st') = Some session ∧ db_users (ct_db st') = db_users (ct_db st).
Proof.
  intros Hla Hu Hd Hn Hv. cbv zeta. unfold ControlApi.login, login_check. rewrite Hla. unfold open_windows. rewrite map_filter_empty, lookup_empty. unfold login_finish, credentials_ok.
  assert (ct_db (set_login ∅ st) = ct_db st) as -> by done. rewrite Hu. cbn [mbind option_bind]. rewrite Hd, Hv. cbn [negb andb]. unfold save_session. cbn [sr_token_hash sr_username].
  rewrite bool_decide_eq_false_2 by (apply hex_encode_nonempty, sha256_nonempty). rewrite bool_decide_eq_false_2 by done. cbn [orb].
  eexists. split; [reflexivity|]. split; [|done]. unfold session. cbn. apply lookup_insert_eq.
Qed.
(** A disabled account is refused, whatever the password. *)
Lemma login_refused form env (st : Control (R := R)) u :
  login_attempts st = ∅ → user (lf_username form) (ct_db st) = Some u → ur_disabled u = true →
  ∃ attempts, login form env st = (with_text 401 (lit "Invalid username or password"), set_login attempts st).
Proof.
  intros Hla Hu Hd. unfold ControlApi.login, login_check. rewrite Hla. unfold open_windows. rewrite map_filter_empty, lookup_empty. unfold login_finish, credentials_ok.
  assert (ct_db (set_login ∅ st) = ct_db st) as -> by done. rewrite Hu. cbn [mbind option_bind]. rewrite Hd. cbn [negb andb]. by eexists.
Qed.
(** A live session of an enabled administrator is admitted, one of another
    account is not. *)
Lemma session_admitted rq env (st : Control (R := R)) token s u expiry :
  rq_cookie rq = Some (SESSION_COOKIE ++ [61] ++ token) → Forall (λ c, cookie_byte c = true) token →
  session (token_hash sha256 token) (ct_db st) = Some s → sr_expires_at s = Some expiry → en_now env < expiry →
  user (sr_username s) (ct_db st) = Some u → ur_disabled u = false →
  route_accepts (rq_method rq) (rq_endpoint rq) = true → (mutating (rq_method rq) = true → rq_csrf rq ≫= header_str = Some (sr_csrf_token s)) →
  serve_protected rq env st = if ur_administrator u then dispatch s (token_hash sha256 token) (rq_endpoint rq) env st
                              else (with_text 403 (lit "Administrator access required"), st).
Proof.
  intros Hc Ht Hs Hx Hnow Hu Hd Hr Hm. unfold ControlApi.serve_protected, require_session. rewrite Hc, cookie_roundtrip by done. rewrite Hs. cbn [mbind option_bind].
  unfold session_live. rewrite Hx. destruct (Z.ltb_spec (en_now env) expiry); [|lia]. unfold live_administrator. rewrite Hu, Hd.
  destruct (ur_administrator u); cbn [negb andb]; [|done].
  rewrite Hr. destruct (mutating (rq_method rq)) eqn:Em; cbn [andb]; [|done]. by rewrite bool_decide_eq_true_2 by auto.
Qed.

(** C14: what [recover-admin] gives the operator.  After it has reset (or, if
    asked to, created) an account on the stopped service, no session of the
    account from before is left, and it has the rights it had, or those of an
    administrator if it is new.  If the account is disabled, a login with the
    new password on the restarted service is refused, until someone enables
    it.  If not, it answers with a session cookie, and every request that
    sends this cookie back before it expires, with the CSRF token where one
    is needed, reaches its handler if the account is an administrator's, and
    otherwise is told that it takes one. *)
Theorem recovered_account_admitted env args terminal db db' username password form env1 (st : Control (R := R)) random :
  recover_admin argon2 env args terminal db = (Ok (), db') → recovers args db username → new_password args terminal = Ok password →
  (∀ old, user username db = Some old → ur_username old = username) →
  ct_db st = db' → login_attempts st = ∅ → lf_username form = username → lf_password form = password →
  en_token env1 = random_token random → Forall (λ b, 0 ≤ b < 256) random →
  (∀ h s, session h db' = Some s → sr_username s ≠ username)
  ∧ (∃ u, user username db' = Some u ∧ (ur_administrator u, ur_disabled u) = rights_after username db)
  ∧ if (rights_after username db).2
    then ∃ attempts, login form env1 st = (with_text 401 (lit "Invalid username or password"), set_login attempts st)
    else ∃ st' s, login form env1 st = (MkResponse 303 [(lit "location", lit "/"); (lit "set-cookie", session_cookie (en_token env1) (session_lifetime form))] NoBody, st')
      ∧ sr_username s = username
      ∧ ∀ rq env2, rq_cookie rq = Some (SESSION_COOKIE ++ [61] ++ en_token env1) → en_now env2 < en_now env1 + session_lifetime form * NS →
          route_accepts (rq_method rq) (rq_endpoint rq) = true → (mutating (rq_method rq) = true → rq_csrf rq ≫= header_str = Some (en_csrf env1)) →
          serve_protected rq env2 st' = if (rights_after username db).1 then dispatch s (token_hash sha256 (en_token env1)) (rq_endpoint rq) env2 st'
                                        else (with_text 403 (lit "Administrator access required"), st').
Proof.
  intros Hrun Hname Hpw Hacc Hdb Hla Hfu Hfp Htok Hrand. destruct (recovered_account _ _ _ _ _ _ _ Hrun Hname Hpw Hacc) as (u&Hu&Hn&Hne&Hh&Hrights&Hold).
  split; [exact Hold|]. split; [by exists u|]. rewrite <-Hrights. cbn [fst snd]. destruct (ur_disabled u) eqn:Hd.
  { by apply (login_refused form env1 st u); [|rewrite Hdb, Hfu|]. }
  destruct (login_granted form env1 st u) as (st'&Hlogin&Hs&Husers); [done|by rewrite Hdb, Hfu|done|by rewrite Hn|rewrite Hfp; by apply argon2_complete|].
  exists st', (MkSessionRecord (token_hash sha256 (en_token env1)) (ur_username u) (en_csrf env1) (Some (en_now env1)) (Some (en_now env1 + session_lifetime form * NS))). split; [exact Hlogin|]. split; [exact Hn|]. intros rq env2 Hc Hnow Hr Hm.
  eapply (session_admitted rq env2 st' (en_token env1) _ u); [done|rewrite Htok; by apply hex_encode_cookie|exact Hs|reflexivity|done| |done|done|exact Hm].
  cbn [sr_username]. rewrite Hn. unfold user. rewrite Husers, Hdb. exact Hu.
Qed.
End access.

(** ** A forgotten password *)

Module access_example.
Definition argon2 (password : bytes) : option bytes := Some (lit "$argon2$" ++ password).
Definition parse_hash (encoded : bytes) : option bytes := strip_prefix (lit "$argon2$") encoded.
Definition sha (token : bytes) : bytes := 1 :: token.
Definition admin : bytes := lit "admin".
Definition forgotten : UserRecord := MkUserRecord admin (lit "$argon2$forgotten") true (Some 1) false.
Definition database : Db :=
  MkDb (Some [0; 0; 0; 1]) None (Some (MkStored 1 1 admin default_runtime_config)) ∅ ∅ ∅ ∅ ∅ ∅ ∅ ∅ ∅ {[ admin := forgotten ]}
    {[ lit "old" := MkSessionRecord (lit "old") admin [] None (Some 1000) ]} ∅ ∅ ∅.
Definition env (now : Z) : Env := MkEnv now (λ _, now) now (random_token [10; 255]) (lit "csrf") (λ _, None).
Definition args : RecoverAdminArgs := MkRecover None false (Some (Some (lit "a new long password "))).
Definition recovered : Db := (recover_admin argon2 (env 5) args None database).2.
Definition service : Control (R := ()) := MkControl (MkWorld recovered default_runtime_config None false (MkTables ∅ ∅ [] []) (MkPools ∅ ∅ ∅ ∅ ∅ []) (MkSelf [] [] [])) ∅ ∅ 0 0 [].
Definition form : LoginForm := MkLogin admin (lit "a new long password") None.
Definition request : ApiRequest (Export := ()) := MkApiRequest DELETE (Some (SESSION_COOKIE ++ [61] ++ random_token [10; 255])) (Some (lit "csrf")) (DeleteCertificate (lit "gone.example")).
Definition logged_in : Control (R := ()) := (login (verify_password parse_hash eqb_bytes) (token_hash sha) form (env 20) service).2.
End access_example.
Import access_example.

(** The old session is gone; the new one may delete (and finds nothing). *)
Lemma recovered_account_admitted_witness : (recover_admin argon2 (env 5) args None database).1 = Ok () ∧ session (lit "old") recovered = None
  ∧ rsp_status (login (verify_password parse_hash eqb_bytes) (token_hash sha) form (env 20) service).1 = 303
  ∧ rsp_status (serve_protected Some (λ _, true) id (λ (_ : unit) (_ : bytes), false) (tls := managed_example.toy_tls) (verify_password parse_hash eqb_bytes) argon2 (token_hash sha) id
      (λ (_ : unit) _ _ db, (Ok 0%nat, db)) request (env 30) logged_in).1 = 404.
Proof.
  destruct (recover_admin argon2 (env 5) args None database) as [r db'] eqn:E.
  assert (r = Ok ()) as -> by (transitivity (recover_admin argon2 (env 5) args None database).1; [by rewrite E|vm_compute; reflexivity]).
  assert (∀ password hash, argon2 password = Some hash → verify_password parse_hash eqb_bytes hash password = true) as Hv.
  { intros password hash Hh. assert (parse_hash hash = Some password) as Hp by (injection Hh as <-; reflexivity). unfold verify_password. rewrite Hp. by apply eqb_bytes_spec. }
  assert (ct_db service = db') as Hdb by (unfold service, recovered; by rewrite E).
  pose proof (recovered_account_admitted Some (λ _, true) id (λ (_ : unit) (_ : bytes), false) (tls := managed_example.toy_tls) parse_hash eqb_bytes argon2 sha id (λ (_ : unit) _ _ db, (Ok 0%nat, db))
    Hv ltac:(by intros t) (env 5) args None database db' admin (lit "a new long password") form (env 20) service [10; 255] E) as Hin.
  destruct Hin as (Hold&_&st'&s&Hl&_&Hreq).
  - right. split; [reflexivity|vm_compute; reflexivity].
  - vm_compute. reflexivity.
  - intros old Hold. assert (user admin database = Some forgotten) as Ha by (vm_compute; reflexivity). rewrite Ha in Hold. assert (old = forgotten) as -> by congruence. reflexivity.
  - exact Hdb.
  - reflexivity.
  - reflexivity.
  - reflexivity.
  - reflexivity.
  - apply (bool_decide_unpack _). vm_compute. exact I.
  - split; [reflexivity|]. split.
    + destruct (session (lit "old") recovered) as [o|] eqn:Eo; [|reflexivity]. exfalso. assert (session (lit "old") db' = Some o) as Eo' by (unfold recovered in Eo; by rewrite E in Eo).
      apply (Hold _ _ Eo'). assert (sr_username <$> session (lit "old") database = Some admin) as Hs by (vm_compute; reflexivity). vm_compute in Eo. discriminate.
    + split; [by rewrite Hl|]. unfold logged_in. rewrite Hl. cbn [snd]. rewrite (Hreq request (env 30)); [|reflexivity|vm_compute; reflexivity|reflexivity|reflexivity].
      assert (st' = logged_in) as -> by (unfold logged_in; by rewrite Hl). vm_compute. reflexivity.
Defined.
