(* ===== verification/Backup.v ===== *)
(** * Backup and restore (src/main.rs, src/store/mod.rs)

    The file system is a finite map from paths (their components) to nodes.
    What RocksDB keeps in a database directory is the interface [RocksDisk]:
    a checkpoint is a set of files, and files that are a checkpoint open as
    the database it was taken of. *)

From S2P Require Import Prelude RustStd Net FilePath AcmeDns Config RuntimeConfig Store.
Open Scope Z_scope.

Abbreviation Path := (list bytes).
(** [C] is the content of a file, which only RocksDB looks at. *)
Inductive Node (C : Type) := Directory | Regular (content : C).
Arguments Directory {C}.
Arguments Regular {C} content.

Section files.
Context {C : Type}.
Abbreviation Fs := (gmap Path (Node C)).
#[export] Instance directory_dec (o : option (Node C)) : Decision (o = Some Directory).
Proof. destruct o as [[|content]|]; [by left|by right..]. Defined.

(** ** std::fs *)

Definition exists_ (p : Path) (fs : Fs) : bool := bool_decide (is_Some (fs !! p)).
Definition is_dir (p : Path) (fs : Fs) : bool := bool_decide (fs !! p = Some Directory).
Definition parent (p : Path) : Path := take (length p - 1) p.
(** The entries of a directory. *)
Definition read_dir (p : Path) (fs : Fs) : list bytes :=
  omap (λ x, match drop (length p) x.1 with [n] => if bool_decide (x.1 = p ++ [n]) then Some n else None | _ => None end) (map_to_list fs).
Definition create_dir (p : Path) (fs : Fs) : option Fs :=
  if exists_ p fs || negb (is_dir (parent p) fs) then None else Some (<[p := Directory]> fs).
Fixpoint create_dirs (done rest : Path) (fs : Fs) : option Fs :=
  match rest with
  | [] => Some fs
  | n :: rest =>
      match fs !! (done ++ [n]) with
      | Some Directory => create_dirs (done ++ [n]) rest fs
      | Some (Regular _) => None
      | None => create_dirs (done ++ [n]) rest (<[done ++ [n] := Directory]> fs)
      end
  end.
Definition create_dir_all (p : Path) (fs : Fs) : option Fs := create_dirs [] p fs.
Definition copy_file (from to : Path) (fs : Fs) : option Fs :=
  match fs !! from with
  | Some (Regular content) => if is_dir to fs || negb (is_dir (parent to) fs) then None else Some (<[to := Regular content]> fs)
  | _ => None
  end.

(** ** Copying a directory *)

Inductive copy_outcome := Copied (fs : Fs) | CopyFailed (fs : Fs) | OutOfFuel.
(** The loop over the entries, [sub] being the recursive call. *)
Fixpoint copy_entries (sub : Path → Path → Fs → copy_outcome) (source target : Path) (names : list bytes) (fs : Fs) : copy_outcome :=
  match names with
  | [] => Copied fs
  | n :: names =>
      match (if is_dir (source ++ [n]) fs then sub (source ++ [n]) (target ++ [n]) fs
             else match copy_file (source ++ [n]) (target ++ [n]) fs with Some fs => Copied fs | None => CopyFailed fs end) with
      | Copied fs => copy_entries sub source target names fs
      | stopped => stopped
      end
  end.
Fixpoint copy_directory (fuel : nat) (source target : Path) (fs : Fs) : copy_outcome :=
  match fuel with
  | O => OutOfFuel
  | S fuel =>
      match create_dir target fs with
      | None => CopyFailed fs
      | Some fs => if is_dir source fs then copy_entries (copy_directory fuel) source target (read_dir source fs) fs else CopyFailed fs
      end
  end.

(** *** A copy is the directory *)

(** Every node lies in a directory. *)
Definition fs_ok (fs : Fs) : Prop := ∀ p n, is_Some (fs !! (p ++ [n])) → fs !! p = Some Directory.
(** What [target] is to become: the part of [source] below [names]. *)
Definition copied (source target : Path) (names : list bytes) (fs : Fs) (p : Path) : option (Node C) :=
  if decide (target `prefix_of` p)
  then match drop (length target) p with
       | [] => Some Directory
       | n :: q => if bool_decide (n ∈ names) then fs !! (source ++ n :: q) else None
       end
  else fs !! p.

Lemma read_dir_spec p fs n : n ∈ read_dir p fs ↔ is_Some (fs !! (p ++ [n])).
Proof.
  unfold read_dir. rewrite list_elem_of_omap. split.
  - intros ([q v]&Hin%elem_of_map_to_list&Hd). cbn in Hd. destruct (drop (length p) q) as [|m [|? ?]]; try done. case_bool_decide; [|done]. injection Hd as <-. subst q. eauto.
  - intros [v Hv]. exists (p ++ [n], v). split; [by apply elem_of_map_to_list|]. cbn. rewrite drop_app_length. by rewrite bool_decide_eq_true_2.
Qed.
Lemma copied_below source target names fs q : copied source target names fs (target ++ q) =
  match q with [] => Some Directory | n :: q => if bool_decide (n ∈ names) then fs !! (source ++ n :: q) else None end.
Proof. unfold copied. rewrite decide_True by (by exists q). by rewrite drop_app_length. Qed.
Lemma copied_else source target names fs p : ¬ target `prefix_of` p → copied source target names fs p = fs !! p.
Proof. intros Hp. unfold copied. by rewrite decide_False. Qed.
Lemma directory_names_nodup p fs : NoDup (read_dir p fs).
Proof.
  unfold read_dir. pose proof (NoDup_fst_map_to_list fs) as Hnd. induction (map_to_list fs) as [|[q v] l IH]; [constructor|]. apply NoDup_cons in Hnd as [Hq Hnd].
  cbn. destruct (drop (length p) q) as [|n [|? ?]]; [by apply IH| |by apply IH]. case_bool_decide as Hp; [|by apply IH]. subst q. apply NoDup_cons. split; [|by apply IH].
  intros ([q' v']&Hin&Hd)%list_elem_of_omap. cbn in Hd. destruct (drop (length p) q') as [|m [|? ?]]; try done. case_bool_decide; [|done]. injection Hd as <-. subst q'.
  apply Hq. apply list_elem_of_fmap. by exists (p ++ [m], v').
Qed.
Lemma fs_ok_above fs p q : fs_ok fs → is_Some (fs !! (p ++ q)) → q ≠ [] → fs !! p = Some Directory.
Proof.
  intros Hok. induction q as [|n q IH] using rev_ind; [done|]. intros Hs _. rewrite app_assoc in Hs. apply Hok in Hs. destruct q as [|m q]; [by rewrite app_nil_r in Hs|]. apply IH; [eauto|done].
Qed.
Lemma fs_leaf fs p : fs_ok fs → fs !! p ≠ Some Directory → ∀ n, fs !! (p ++ [n]) = None.
Proof. intros Hok Hp n. destruct (fs !! (p ++ [n])) eqn:E; [|done]. apply mk_is_Some, Hok in E. done. Qed.
Lemma parent_snoc p n : parent (p ++ [n]) = p.
Proof. unfold parent. rewrite length_app. cbn. rewrite Nat.add_sub. apply take_app_length. Qed.
Lemma prefix_apart (source target q : Path) : ¬ source `prefix_of` target → ¬ target `prefix_of` source → ¬ target `prefix_of` source ++ q.
Proof. intros H1 H2 H3. destruct (prefix_weak_total source target (source ++ q)) as [?|?]; [by exists q|done|done|done]. Qed.
Lemma snoc_prefix (p q : Path) n m : p ++ [n] `prefix_of` q ++ [m] → p `prefix_of` q.
Proof.
  intros [r Hr]. destruct r as [|x r _] using rev_ind.
  - rewrite app_nil_r in Hr. by apply app_inj_tail in Hr as [-> _].
  - rewrite app_assoc in Hr. apply app_inj_tail in Hr as [-> _]. rewrite <- app_assoc. by eexists.
Qed.
(** An insertion keeps the tree when its place is in a directory. *)
Lemma fs_ok_insert fs p n v : fs_ok fs → fs !! p = Some Directory → (v = Directory ∨ ∀ m, fs !! ((p ++ [n]) ++ [m]) = None) → fs_ok (<[p ++ [n] := v]> fs).
Proof.
  intros Hok Hp Hv q m. destruct (decide (q ++ [m] = p ++ [n])) as [E|E].
  - apply app_inj_tail in E as [-> ->]. intros _. rewrite lookup_insert_ne; [done|]. intros E%(f_equal length). rewrite length_app in E. cbn in E. lia.
  - rewrite lookup_insert_ne by done. intros Hs. destruct (decide (q = p ++ [n])) as [->|Hq].
    + rewrite lookup_insert_eq. destruct Hv as [->|Hv]; [done|]. rewrite Hv in Hs. by destruct Hs.
    + rewrite lookup_insert_ne by done. by apply Hok with m.
Qed.

(** The same, as a check. *)
Definition fs_okb (fs : Fs) : bool := forallb (λ x, bool_decide (x.1 = []) || is_dir (parent x.1) fs) (map_to_list fs).
Lemma fs_okb_sound fs : fs_okb fs = true → fs_ok fs.
Proof.
  intros Hc p n [v Hv]. unfold fs_okb in Hc. rewrite forallb_forall in Hc. specialize (Hc (p ++ [n], v)). cbn [fst] in Hc. rewrite parent_snoc in Hc.
  apply elem_of_map_to_list, list_elem_of_In in Hv. apply Hc in Hv. rewrite bool_decide_eq_false_2 in Hv by (by destruct p). by apply bool_decide_eq_true in Hv.
Qed.

Section copy.
Context (source target : Path) (fs : Fs).
Context (Hok : fs_ok fs) (Hsource : fs !! source = Some Directory) (Htarget : ∀ q, fs !! (target ++ q) = None) (Hapart : ¬ source `prefix_of` target).

Lemma target_apart : ¬ target `prefix_of` source.
Proof. intros [q Hq]. rewrite Hq, Htarget in Hsource. done. Qed.
Lemma copied_source names q : copied source target names fs (source ++ q) = fs !! (source ++ q).
Proof. apply copied_else, prefix_apart; [done|apply target_apart]. Qed.

(** Copying one more entry. *)
Lemma copied_snoc names n p : n ∉ names →
  copied source target (names ++ [n]) fs p = if decide ((target ++ [n]) `prefix_of` p) then fs !! (source ++ n :: drop (length (target ++ [n])) p) else copied source target names fs p.
Proof.
  intros Hn. destruct (decide (target `prefix_of` p)) as [[q ->]|Hp].
  - rewrite !copied_below. destruct q as [|m q].
    + rewrite decide_False; [done|]. intros Hpre%prefix_length. rewrite !length_app in Hpre. cbn in Hpre. lia.
    + destruct (decide (m = n)) as [->|Hm].
      * rewrite decide_True by (exists q; by rewrite <- app_assoc). rewrite bool_decide_eq_true_2 by (apply elem_of_app; right; by apply list_elem_of_singleton).
        replace (target ++ n :: q) with ((target ++ [n]) ++ q) by (by rewrite <- app_assoc). by rewrite drop_app_length.
      * rewrite decide_False. 2: { intros [r Hr]. rewrite <- app_assoc in Hr. apply app_inv_head in Hr. by injection Hr. }
        rewrite (bool_decide_ext (m ∈ names ++ [n]) (m ∈ names)); [done|]. rewrite elem_of_app, list_elem_of_singleton. naive_solver.
  - rewrite !copied_else by done. rewrite decide_False; [done|]. intros Hpre. apply Hp. etrans; [|exact Hpre]. by eexists.
Qed.
(** What the recursive call does for an entry that is a directory. *)
Definition copies_below (fuel : nat) (n : bytes) : Prop := ∀ fsC,
  fs_ok fsC → fsC !! (source ++ [n]) = Some Directory → (∀ q, fsC !! ((target ++ [n]) ++ q) = None) → fsC !! target = Some Directory →
  (∀ q, fsC !! (source ++ n :: q) = fs !! (source ++ n :: q)) →
  ∃ fs', copy_directory fuel (source ++ [n]) (target ++ [n]) fsC = Copied fs' ∧ fs_ok fs'
    ∧ ∀ p, fs' !! p = if decide ((target ++ [n]) `prefix_of` p) then fsC !! ((source ++ [n]) ++ drop (length (target ++ [n])) p) else fsC !! p.
Definition copy_entry (fuel : nat) (n : bytes) (fsC : Fs) : copy_outcome :=
  if is_dir (source ++ [n]) fsC then copy_directory fuel (source ++ [n]) (target ++ [n]) fsC
  else match copy_file (source ++ [n]) (target ++ [n]) fsC with Some fs => Copied fs | None => CopyFailed fsC end.
Lemma copy_entry_spec fuel n names fsC : copies_below fuel n → fs_ok fsC → (∀ p, fsC !! p = copied source target names fs p) →
  is_Some (fs !! (source ++ [n])) → n ∉ names →
  ∃ fsD, copy_entry fuel n fsC = Copied fsD ∧ fs_ok fsD ∧ ∀ p, fsD !! p = copied source target (names ++ [n]) fs p.
Proof.
  intros Hsub HokC HC [node Hnode] Hn. assert (∀ q, fsC !! (source ++ q) = fs !! (source ++ q)) as HCs by (intros q; rewrite HC; apply copied_source).
  assert (∀ q, fsC !! ((target ++ [n]) ++ q) = None) as HCt.
  { intros q. rewrite HC, <- app_assoc. rewrite copied_below. cbn. by rewrite bool_decide_eq_false_2. }
  assert (fsC !! target = Some Directory) as HCd by (rewrite HC; pose proof (copied_below source target names fs []) as Hb; by rewrite app_nil_r in Hb).
  unfold copy_entry, is_dir at 1. rewrite HCs, Hnode. destruct node as [|content].
  - rewrite bool_decide_eq_true_2 by done. destruct (Hsub fsC HokC) as (fsD&HD&HokD&HDp); [by rewrite HCs|exact HCt|exact HCd|by intros q; apply HCs|].
    exists fsD. split; [done|]. split; [done|]. intros p. rewrite HDp, copied_snoc by done. rewrite <- HC. case_decide; [|done]. rewrite <- app_assoc. cbn. by rewrite HCs.
  - rewrite bool_decide_eq_false_2 by done. unfold copy_file. rewrite HCs, Hnode. unfold is_dir. rewrite parent_snoc, HCd.
    specialize (HCt []) as HCt0. rewrite app_nil_r in HCt0. rewrite HCt0. rewrite bool_decide_eq_false_2, bool_decide_eq_true_2 by done. cbn [orb negb].
    eexists. split; [done|]. split; [apply fs_ok_insert; [done|done|right; intros m; apply HCt]|]. intros p. rewrite copied_snoc by done. rewrite <- HC. case_decide as Hp.
    + destruct Hp as [q ->]. rewrite drop_app_length. destruct q as [|m q]; [rewrite app_nil_r, lookup_insert_eq; by rewrite Hnode|].
      rewrite lookup_insert_ne. 2: { intros E%(f_equal length). rewrite !length_app in E. cbn in E. lia. } rewrite HCt. symmetry.
      destruct (fs !! (source ++ n :: m :: q)) eqn:E; [|done]. replace (source ++ n :: m :: q) with ((source ++ [n]) ++ m :: q) in E by (by rewrite <- app_assoc).
      apply mk_is_Some in E. apply fs_ok_above in E; [|done|done]. congruence.
    + rewrite lookup_insert_ne; [done|]. intros <-. by apply Hp.
Qed.
Lemma copy_entries_spec fuel names : ∀ done fsC,
  Forall (copies_below fuel) names → fs_ok fsC → (∀ p, fsC !! p = copied source target done fs p) →
  (∀ n, n ∈ names → is_Some (fs !! (source ++ [n]))) → NoDup names → (∀ n, n ∈ names → n ∉ done) →
  ∃ fs', copy_entries (copy_directory fuel) source target names fsC = Copied fs' ∧ fs_ok fs' ∧ ∀ p, fs' !! p = copied source target (done ++ names) fs p.
Proof.
  induction names as [|n names IH]; intros done fsC Hsub HokC HC Hex Hnd Hdone; [exists fsC; by rewrite app_nil_r|].
  apply NoDup_cons in Hnd as [Hn Hnd]. apply Forall_cons in Hsub as [Hn1 Hsub].
  destruct (copy_entry_spec fuel n done fsC Hn1 HokC HC (Hex n ltac:(left)) (Hdone n ltac:(left))) as (fsD&HD&HokD&HDp).
  cbn [copy_entries]. unfold copy_entry in HD. rewrite HD. destruct (IH (done ++ [n]) fsD) as (fs'&Hrun&Hok'&Hfs'); try done.
  - intros m Hm. apply Hex. by right.
  - intros m Hm. rewrite elem_of_app, list_elem_of_singleton. intros [Hd| ->]; [|done]. by apply (Hdone m); [right|].
  - exists fs'. split; [done|]. split; [done|]. intros p. rewrite Hfs', <- app_assoc. done.
Qed.
End copy.

(** A directory is copied whole, into a place outside it that does not exist
    yet; fuel for its depth is enough. *)
Lemma copy_directory_spec fuel : ∀ source target n fs,
  fs_ok fs → fs !! source = Some Directory → (∀ q, fs !! ((target ++ [n]) ++ q) = None) → fs !! target = Some Directory → ¬ source `prefix_of` target ++ [n] →
  (∀ q, is_Some (fs !! (source ++ q)) → (length q < fuel)%nat) →
  ∃ fs', copy_directory fuel source (target ++ [n]) fs = Copied fs' ∧ fs_ok fs'
    ∧ ∀ p, fs' !! p = if decide ((target ++ [n]) `prefix_of` p) then fs !! (source ++ drop (length (target ++ [n])) p) else fs !! p.
Proof.
  induction fuel as [|fuel IH]; intros source target n fs Hok Hs Ht Htd Hap Hdepth.
  { specialize (Hdepth []). rewrite app_nil_r in Hdepth. cbn in Hdepth. specialize (Hdepth ltac:(by eexists)). lia. }
  cbn [copy_directory]. pose proof (Ht []) as Ht0. rewrite app_nil_r in Ht0. set (fs1 := <[target ++ [n] := Directory]> fs).
  assert (create_dir (target ++ [n]) fs = Some fs1) as ->.
  { unfold create_dir, exists_, is_dir. rewrite Ht0, parent_snoc, Htd. rewrite bool_decide_eq_false_2, bool_decide_eq_true_2 by (done || by intros [? ?]). done. }
  assert (¬ target ++ [n] `prefix_of` source) as Hap2 by (intros [q Hq]; rewrite Hq, Ht in Hs; done).
  assert (∀ q, fs1 !! (source ++ q) = fs !! (source ++ q)) as H1s.
  { intros q. unfold fs1. rewrite lookup_insert_ne; [done|]. intros E. apply (prefix_apart source (target ++ [n]) q Hap Hap2). by rewrite E. }
  assert (is_dir source fs1 = true) as ->. { unfold is_dir. specialize (H1s []). rewrite app_nil_r in H1s. rewrite H1s, Hs. by apply bool_decide_eq_true_2. }
  assert (∀ m, m ∈ read_dir source fs1 ↔ is_Some (fs !! (source ++ [m]))) as Hrd by (intros m; by rewrite read_dir_spec, H1s).
  assert (fs_ok fs1) as Hok1 by (apply fs_ok_insert; [done|done|by left]).
  destruct (copy_entries_spec source (target ++ [n]) fs Hok Hs Ht Hap fuel (read_dir source fs1) [] fs1) as (fs'&Hrun&Hok'&Hfs').
  - apply Forall_forall. intros m _ fsC HokC HsC HtC HdC HCs. apply IH; [done|done|done|done| |].
    + intros Hpre%snoc_prefix. done.
    + intros q Hq. rewrite <- app_assoc in Hq. cbn in Hq. rewrite HCs in Hq. apply Hdepth in Hq. cbn in Hq. lia.
  - done.
  - intros p. destruct (decide (target ++ [n] `prefix_of` p)) as [[q ->]|Hp].
    + rewrite copied_below. unfold fs1. destruct q as [|m q]; [by rewrite app_nil_r, lookup_insert_eq|].
      rewrite bool_decide_eq_false_2 by apply not_elem_of_nil. rewrite lookup_insert_ne; [apply Ht|]. intros E%(f_equal length). rewrite !length_app in E. cbn in E. lia.
    + rewrite copied_else by done. unfold fs1. rewrite lookup_insert_ne; [done|]. intros <-. done.
  - intros m Hm. by apply Hrd.
  - apply directory_names_nodup.
  - intros m _. apply not_elem_of_nil.
  - exists fs'. split; [done|]. split; [done|]. intros p. rewrite Hfs'. cbn [app]. unfold copied. case_decide as Hp; [|done]. destruct Hp as [q ->]. rewrite drop_app_length.
    destruct q as [|m q]; [by rewrite app_nil_r|]. case_bool_decide as Hm; [done|]. symmetry. destruct (fs !! (source ++ m :: q)) as [v|] eqn:E; [|done]. destruct Hm. apply Hrd.
    destruct q as [|x q]; [by rewrite E|]. replace (source ++ m :: x :: q) with ((source ++ [m]) ++ x :: q) in E by (by rewrite <- app_assoc).
    apply mk_is_Some in E. apply fs_ok_above in E; [|done|done]. by rewrite E.
Qed.

(** *** A copy into itself *)

Lemma copy_keeps_dirs fuel : ∀ source target fs fs' p, copy_directory fuel source target fs = Copied fs' → fs !! p = Some Directory → fs' !! p = Some Directory.
Proof.
  induction fuel as [|fuel IH]; intros source target fs fs' p; cbn [copy_directory]; [done|]. unfold create_dir. destruct (exists_ target fs || _) eqn:E; [done|].
  apply orb_false_iff in E as [E _]. apply bool_decide_eq_false in E. destruct (is_dir source _); [|done]. intros Hc Hp.
  assert (<[target := Directory]> fs !! p = Some Directory) as Hp1 by (destruct (decide (target = p)) as [->|]; [by rewrite lookup_insert_eq|by rewrite lookup_insert_ne]).
  revert Hc Hp1. generalize (read_dir source (<[target := Directory]> fs)) as names. generalize (<[target := Directory]> fs) as fs1. clear E Hp. intros fs1 names. revert fs1.
  induction names as [|n names IHn]; intros fs1; cbn [copy_entries]; [by intros [= <-]|].
  destruct (is_dir (source ++ [n]) fs1).
  - destruct (copy_directory fuel (source ++ [n]) (target ++ [n]) fs1) as [fs2| |] eqn:E2; try done. intros Hc Hp1. eapply IHn; [exact Hc|]. by eapply IH.
  - unfold copy_file. destruct (fs1 !! (source ++ [n])) as [[|content]|]; try done. unfold is_dir at 1. case_bool_decide as Hd; [done|]. cbn [orb].
    destruct (negb _); [done|]. intros Hc Hp1. eapply IHn; [exact Hc|]. rewrite lookup_insert_ne; [done|]. intros E. by rewrite E in Hd.
Qed.
Lemma create_dir_ok p n fs fs' : fs_ok fs → create_dir (p ++ [n]) fs = Some fs' → fs_ok fs' ∧ fs' = <[p ++ [n] := Directory]> fs ∧ fs !! p = Some Directory.
Proof.
  intros Hok. unfold create_dir. destruct (exists_ _ _); [done|]. cbn [orb]. unfold is_dir. rewrite parent_snoc. case_bool_decide as Hd; [|done]. intros [= <-].
  split; [|done]. apply fs_ok_insert; [done|done|by left].
Qed.
Lemma copied_fs_ok fuel : ∀ source target n fs fs', fs_ok fs → copy_directory fuel source (target ++ [n]) fs = Copied fs' → fs_ok fs'.
Proof.
  induction fuel as [|fuel IH]; intros source target n fs fs' Hok; cbn [copy_directory]; [done|]. destruct (create_dir (target ++ [n]) fs) as [fs1|] eqn:Ec; [|done].
  apply create_dir_ok in Ec as (Hok1&_&_); [|done]. destruct (is_dir source fs1); [|done]. revert Hok1. generalize (read_dir source fs1) as names.
  intros names. revert fs1. induction names as [|m names IHn]; intros fs1 Hok1; cbn [copy_entries]; [by intros [= <-]|].
  destruct (is_dir (source ++ [m]) fs1).
  - destruct (copy_directory fuel (source ++ [m]) ((target ++ [n]) ++ [m]) fs1) as [fs2| |] eqn:E2; try done. apply IHn. by eapply IH.
  - unfold copy_file. destruct (fs1 !! (source ++ [m])) as [[|content]|]; try done. unfold is_dir. rewrite parent_snoc. case_bool_decide as Hd; [done|]. case_bool_decide as Hp; [|done]. cbn.
    apply IHn. apply fs_ok_insert; [done|done|]. right. by apply fs_leaf.
Qed.

(** Copying a directory into itself never completes: the copy is among the
    entries to copy. *)
Theorem copy_into_itself fuel : ∀ source q n fs fs', fs_ok fs → copy_directory fuel source ((source ++ q) ++ [n]) fs ≠ Copied fs'.
Proof.
  induction fuel as [|fuel IH]; intros source q n fs fs' Hok; cbn [copy_directory]; [done|]. destruct (create_dir ((source ++ q) ++ [n]) fs) as [fs1|] eqn:Ec; [|done].
  pose proof Ec as (Hok1&->&Hd)%create_dir_ok; [|done]. set (fs1 := <[(source ++ q) ++ [n] := Directory]> fs) in *. destruct (is_dir source fs1); [|done].
  destruct (q ++ [n]) as [|d r] eqn:Eq; [by destruct q|].
  assert (fs1 !! (source ++ [d]) = Some Directory) as Hdir.
  { assert (fs1 !! ((source ++ q) ++ [n]) = Some Directory) as Ht by apply lookup_insert_eq. rewrite <- app_assoc, Eq in Ht. destruct r as [|x r]; [done|].
    apply (fs_ok_above fs1 (source ++ [d]) (x :: r)); [done|by rewrite <- app_assoc; eexists|done]. }
  assert (d ∈ read_dir source fs1) as Hin by (apply read_dir_spec; by eexists). clear Ec Hd. revert Hin Hok1 Hdir. generalize (read_dir source fs1) as names. generalize fs1. clear fs1 Hok fs.
  intros fs1 names. revert fs1. induction names as [|m names IHn]; intros fs1 Hin Hok1 Hdir; [by apply elem_of_nil in Hin|]. cbn [copy_entries].
  destruct (decide (m = d)) as [->|Hm].
  - unfold is_dir. rewrite bool_decide_eq_true_2 by done. destruct (copy_directory fuel (source ++ [d]) _ fs1) as [fs2| |] eqn:E2; try done.
    rewrite <- (app_assoc source), Eq in E2. assert ((source ++ d :: r) ++ [d] = ((source ++ [d]) ++ r) ++ [d]) as Er by (by rewrite <- !app_assoc). rewrite Er in E2. by apply IH in E2.
  - apply elem_of_cons in Hin as [->|Hin]; [done|]. destruct (is_dir (source ++ [m]) fs1).
    + destruct (copy_directory fuel (source ++ [m]) _ fs1) as [fs2| |] eqn:E2; try done. apply IHn; [done|by eapply copied_fs_ok|by eapply copy_keeps_dirs].
    + unfold copy_file. destruct (fs1 !! (source ++ [m])) as [[|content]|]; try done. unfold is_dir. rewrite parent_snoc. case_bool_decide as Hd; [done|]. case_bool_decide as Hp; [|done]. cbn.
      apply IHn; [done| |].
      * apply fs_ok_insert; [done|done|]. right. by apply fs_leaf.
      * rewrite lookup_insert_ne; [done|]. intros E. by rewrite E in Hd.
Qed.

(** ** Databases on disk *)

(** The files of a database directory, relative to it. *)
Definition below (p : Path) (fs : Fs) : Fs :=
  list_to_map (omap (λ x, if decide (p `prefix_of` x.1) then Some (drop (length p) x.1, x.2) else None) (map_to_list fs)).
#[export] Instance app_path_inj (p : Path) : Inj (=) (=) (app p).
Proof. intros a b. apply app_inv_head. Qed.
Definition graft (p : Path) (files fs : Fs) : Fs := kmap (app p) files ∪ fs.

(** RocksDB: [rocks_open] reads the files of a database directory (none when
    the directory is new); [rocks_checkpoint] are the files of a checkpoint. *)
Class RocksDisk := {
  rocks_open : Fs → option Db;
  rocks_checkpoint : Db → Fs;
  checkpoint_tree db : fs_ok (rocks_checkpoint db) ∧ rocks_checkpoint db !! [] = Some Directory;
  checkpoint_opens db : rocks_open (rocks_checkpoint db) = Some db;
}.

Inductive disk_error := RuntimeDirectory | OpenFailed | SchemaRejected (e : store_error) | DestinationExists | CheckpointFailed
| CheckpointNotDirectory | RuntimeNotEmpty | CopyError | NotInitialised.

Section disk.
Context `{RocksDisk}.

Definition DATABASE : bytes := lit "tlsproxy.rocksdb".
(** [Store::open]; what an open database writes below its directory is the
    database's own state. *)
Definition store_open (runtime_dir : Path) (fs : Fs) : result disk_error Db * Fs :=
  match create_dir_all runtime_dir fs with
  | None => (Err RuntimeDirectory, fs)
  | Some fs =>
      match rocks_open (below (runtime_dir ++ [DATABASE]) fs) with
      | None => (Err OpenFailed, fs)
      | Some db => match initialize_schema db with
                   | (Err e, _) => (Err (SchemaRejected e), fs)
                   | (Ok _, db) => (Ok db, fs)
                   end
      end
  end.
Definition checkpoint (destination : Path) (db : Db) (fs : Fs) : result disk_error () * Fs :=
  if exists_ destination fs then (Err DestinationExists, fs)
  else if negb (is_dir (parent destination) fs) then (Err CheckpointFailed, fs)
  else (Ok (), graft destination (rocks_checkpoint db) fs).
Definition backup (runtime_dir output : Path) (fs : Fs) : result disk_error () * Fs :=
  match store_open runtime_dir fs with
  | (Err e, fs) => (Err e, fs)
  | (Ok db, fs) => checkpoint output db fs
  end.

(** Enough for any directory of the file system. *)
Definition depth (fs : Fs) : nat := foldr (λ x d, Nat.max (length x.1) d) 0%nat (map_to_list fs).
(** [None] stands for a copy that does not end. *)
Definition restore (from runtime_dir : Path) (fs : Fs) : option (result disk_error () * Fs) :=
  if negb (is_dir from fs) then Some (Err CheckpointNotDirectory, fs)
  else if exists_ runtime_dir fs && negb (is_dir runtime_dir fs && bool_decide (read_dir runtime_dir fs = [])) then Some (Err RuntimeNotEmpty, fs)
  else match create_dir_all runtime_dir fs with
       | None => Some (Err RuntimeDirectory, fs)
       | Some fs =>
           match copy_directory (S (depth fs)) from (runtime_dir ++ [DATABASE]) fs with
           | OutOfFuel => None
           | CopyFailed fs => Some (Err CopyError, fs)
           | Copied fs =>
               match store_open runtime_dir fs with
               | (Err e, fs) => Some (Err e, fs)
               | (Ok db, fs) => Some (if is_initialized db then Ok () else Err NotInitialised, fs)
               end
           end
       end.

(** *** Lemmas *)

Lemma below_lookup p fs q : below p fs !! q = fs !! (p ++ q).
Proof.
  unfold below. set (l := omap _ _). assert (NoDup l.*1) as Hnd.
  { unfold l. pose proof (NoDup_fst_map_to_list fs) as Hm. induction (map_to_list fs) as [|[r v] m IH]; [constructor|]. apply NoDup_cons in Hm as [Hr Hm]. cbn.
    case_decide as Hp; [|by apply IH]. cbn. apply NoDup_cons. split; [|by apply IH]. intros ([r' v']&Hr'&Hin)%list_elem_of_fmap. apply list_elem_of_omap in Hin as ([s w]&Hs&Hd). cbn in Hd.
    case_decide as Hp'; [|done]. injection Hd as <- <-. cbn in Hr'. destruct Hp as [a ->], Hp' as [b ->]. rewrite !drop_app_length in Hr'. subst b. apply Hr. apply list_elem_of_fmap. by exists (p ++ a, w). }
  destruct (fs !! (p ++ q)) as [v|] eqn:E.
  - apply elem_of_list_to_map_1; [done|]. apply list_elem_of_omap. exists (p ++ q, v). split; [by apply elem_of_map_to_list|]. cbn. rewrite decide_True by (by exists q). by rewrite drop_app_length.
  - apply not_elem_of_list_to_map_1. intros ([q' v]&->&Hin)%list_elem_of_fmap. apply list_elem_of_omap in Hin as ([r w]&Hr&Hd). cbn in Hd. case_decide as Hp; [|done]. injection Hd as <- <-.
    destruct Hp as [a ->]. cbn in E. rewrite drop_app_length in E. apply elem_of_map_to_list in Hr. congruence.
Qed.
Lemma below_checkpoint p fs db : (∀ q, fs !! (p ++ q) = rocks_checkpoint db !! q) → rocks_open (below p fs) = Some db.
Proof. intros Hf. rewrite <- (checkpoint_opens db). f_equal. apply map_eq. intros q. by rewrite below_lookup. Qed.
Lemma graft_below p files fs q : (∀ q, fs !! (p ++ q) = None) → graft p files fs !! (p ++ q) = files !! q.
Proof. intros Hn. unfold graft. rewrite lookup_union, (lookup_kmap (app p)), Hn. by destruct (files !! q). Qed.
Lemma graft_else p files fs r : ¬ p `prefix_of` r → graft p files fs !! r = fs !! r.
Proof.
  intros Hr. unfold graft. rewrite lookup_union. rewrite (proj2 (lookup_kmap_None (app p) files r)); [by destruct (fs !! r)|]. intros q ->. destruct Hr. by exists q.
Qed.
Lemma depth_bound fs p : is_Some (fs !! p) → (length p ≤ depth fs)%nat.
Proof.
  intros [v Hv%elem_of_map_to_list]. unfold depth. induction (map_to_list fs) as [|x l IH]; [by apply elem_of_nil in Hv|]. apply elem_of_cons in Hv as [<-|Hv]; cbn; [lia|].
  apply IH in Hv. lia.
Qed.
Lemma absent_below fs p : fs_ok fs → fs !! p = None → ∀ q, fs !! (p ++ q) = None.
Proof.
  intros Hok Hp q. destruct q as [|n q]; [by rewrite app_nil_r|]. destruct (fs !! (p ++ n :: q)) eqn:E; [|done]. apply mk_is_Some in E. apply fs_ok_above in E; [congruence|done|done].
Qed.
Lemma graft_ok p n files fs : fs_ok fs → fs_ok files → files !! [] = Some Directory → fs !! p = Some Directory → fs !! (p ++ [n]) = None → fs_ok (graft (p ++ [n]) files fs).
Proof.
  intros Hok Hf Hroot Hp Hn r m. pose proof (absent_below fs _ Hok Hn) as Hab. destruct (decide (p ++ [n] `prefix_of` r ++ [m])) as [[q Hq]|Hne].
  - destruct q as [|x q _] using rev_ind.
    + rewrite app_nil_r in Hq. apply app_inj_tail in Hq as [-> ->]. intros _. rewrite graft_else; [done|]. intros E%prefix_length. rewrite length_app in E. cbn in E. lia.
    + rewrite app_assoc in Hq. apply app_inj_tail in Hq as [-> ->]. rewrite <- app_assoc. rewrite !graft_below by done. destruct q as [|y q]; [done|]. apply Hf.
  - rewrite graft_else by done. intros Hs. assert (¬ p ++ [n] `prefix_of` r) as Hr by (intros E; apply Hne; etrans; [exact E|by eexists]). rewrite graft_else by done. by apply Hok with m.
Qed.
Lemma create_dirs_spec rest : ∀ done fs fs', fs_ok fs → fs !! done = Some Directory → create_dirs done rest fs = Some fs' →
  fs_ok fs' ∧ fs' !! (done ++ rest) = Some Directory ∧ (∀ p v, fs !! p = Some v → fs' !! p = Some v)
  ∧ ∀ p, fs !! p = None → is_Some (fs' !! p) → p `prefix_of` done ++ rest.
Proof.
  induction rest as [|n rest IH]; intros done fs fs' Hok Hd; cbn [create_dirs].
  { intros [= <-]. rewrite app_nil_r. split_and!; try done. intros p Hp [v Hv]. congruence. }
  replace (done ++ n :: rest) with ((done ++ [n]) ++ rest) by (by rewrite <- app_assoc). destruct (fs !! (done ++ [n])) as [[|?]|] eqn:E; [by apply IH|done|]. intros Hc.
  apply IH in Hc as (H1&H2&H3&H4); [|by apply fs_ok_insert; [| |left]|apply lookup_insert_eq]. split_and!; [done|done| |].
  - intros p v Hv. apply H3. rewrite lookup_insert_ne; [done|]. intros <-. congruence.
  - intros p Hp Hs. destruct (decide (p = done ++ [n])) as [->|Hne]; [by eexists|]. apply H4; [by rewrite lookup_insert_ne|done].
Qed.
Lemma create_dirs_exists rest : ∀ pre fs, fs_ok fs → fs !! (pre ++ rest) = Some Directory → create_dirs pre rest fs = Some fs.
Proof.
  induction rest as [|n rest IH]; intros pre fs Hok Hd; cbn [create_dirs]; [done|]. replace (pre ++ n :: rest) with ((pre ++ [n]) ++ rest) in Hd by (by rewrite <- app_assoc).
  assert (fs !! (pre ++ [n]) = Some Directory) as ->; [|by apply IH]. destruct rest as [|m rest]; [by rewrite app_nil_r in Hd|]. by apply (fs_ok_above fs (pre ++ [n]) (m :: rest)); [|eexists|].
Qed.
Lemma initialize_schema_idem db0 db : initialize_schema db0 = (Ok (), db) → initialize_schema db = (Ok (), db).
Proof.
  unfold initialize_schema. destruct (db_schema db0) as [b|] eqn:E.
  - intros H'. assert (db0 = db) as <- by (by injection H'). by rewrite E.
  - intros [= <-]. cbn [db_schema]. reflexivity.
Qed.
Lemma store_open_inv runtime_dir fs db fs' : store_open runtime_dir fs = (Ok db, fs') → create_dir_all runtime_dir fs = Some fs' ∧ initialize_schema db = (Ok (), db).
Proof.
  unfold store_open. destruct (create_dir_all runtime_dir fs) as [fs1|]; [|done]. destruct (rocks_open _) as [db0|]; [|done].
  destruct (initialize_schema db0) as [[[]|] db1] eqn:Ei; [|done]. intros [= <- <-]. split; [done|]. by eapply initialize_schema_idem.
Qed.
(** A directory that holds a checkpoint's files opens as its database. *)
Lemma store_open_checkpoint runtime_dir fs db : fs_ok fs → fs !! runtime_dir = Some Directory → (∀ q, fs !! ((runtime_dir ++ [DATABASE]) ++ q) = rocks_checkpoint db !! q) →
  initialize_schema db = (Ok (), db) → store_open runtime_dir fs = (Ok db, fs).
Proof.
  intros Hok Hd Hc Hi. unfold store_open, create_dir_all. rewrite create_dirs_exists by done. rewrite (below_checkpoint _ _ db Hc). by rewrite Hi.
Qed.

(** C34: a backup can be restored: after a backup, restoring it into a new or
    empty runtime directory outside it ends, succeeds, and the database
    opened there is the one that was backed up.  The backup itself is not
    changed. *)
Theorem backup_restores runtime_dir output new_dir fs fs0 fs1 db :
  fs_ok fs → fs !! [] = Some Directory → store_open runtime_dir fs = (Ok db, fs0) → is_initialized db = true → backup runtime_dir output fs = (Ok (), fs1) →
  (fs1 !! new_dir = None ∨ fs1 !! new_dir = Some Directory ∧ read_dir new_dir fs1 = []) → ¬ output `prefix_of` new_dir ++ [DATABASE] → is_Some (create_dir_all new_dir fs1) →
  ∃ fs2, restore output new_dir fs1 = Some (Ok (), fs2) ∧ store_open new_dir fs2 = (Ok db, fs2) ∧ ∀ q, fs2 !! (output ++ q) = fs1 !! (output ++ q).
Proof.
  intros Hok Hroot Hopen Hinit. unfold backup. rewrite Hopen. apply store_open_inv in Hopen as [Hcd Hschema]. unfold create_dir_all in Hcd.
  apply create_dirs_spec in Hcd as (Hok0&_&Hkeep0&_); [|done|done]. apply Hkeep0 in Hroot. unfold checkpoint, exists_, is_dir. case_bool_decide as Hex; [done|].
  destruct output as [|n output _] using rev_ind; [by destruct Hex; eexists|]. rewrite parent_snoc. case_bool_decide as Hpd; [|done]. intros [= <-].
  apply eq_None_not_Some in Hex. destruct (checkpoint_tree db) as [Hcok Hcroot]. pose proof (absent_below _ _ Hok0 Hex) as Hab.
  set (fs1 := graft (output ++ [n]) (rocks_checkpoint db) fs0) in *. assert (fs_ok fs1) as Hok1 by (by apply graft_ok).
  assert (∀ q, fs1 !! ((output ++ [n]) ++ q) = rocks_checkpoint db !! q) as Hout by (intros q; by apply graft_below).
  intros Hnew Hap [fs2 Hcd]. assert (fs1 !! (output ++ [n]) = Some Directory) as Hod. { rewrite <- (app_nil_r (output ++ [n])). by rewrite Hout. }
  unfold restore, exists_, is_dir. rewrite (bool_decide_eq_true_2 _ Hod). cbn [negb].
  assert (bool_decide (is_Some (fs1 !! new_dir)) && negb (bool_decide (fs1 !! new_dir = Some Directory) && bool_decide (read_dir new_dir fs1 = [])) = false) as ->.
  { destruct Hnew as [E|[E1 E2]]; [rewrite E; by rewrite bool_decide_eq_false_2 by (by intros [? ?])|]. rewrite E2, E1. by rewrite !bool_decide_eq_true_2. }
  rewrite Hcd. unfold create_dir_all in Hcd. assert (fs1 !! [] = Some Directory) as Hroot1. { unfold fs1. rewrite graft_else; [done|]. intros E%prefix_length. rewrite length_app in E. cbn in E. lia. }
  apply create_dirs_spec in Hcd as (Hok2&Hnd&Hkeep&Hold); [|done|done]. cbn [app] in Hnd, Hold.
  assert (∀ q, fs2 !! ((output ++ [n]) ++ q) = fs1 !! ((output ++ [n]) ++ q)) as Hsame.
  { intros q. destruct (fs1 !! ((output ++ [n]) ++ q)) as [v|] eqn:E; [by apply Hkeep|]. apply eq_None_not_Some. intros Hs. apply (Hold _ E) in Hs. apply Hap.
    etrans; [|etrans; [exact Hs|by eexists]]. by eexists. }
  assert (fs2 !! (new_dir ++ [DATABASE]) = None) as Hdb.
  { apply eq_None_not_Some. intros Hs. assert (fs1 !! (new_dir ++ [DATABASE]) = None) as E1.
    { destruct Hnew as [E|[E1 E2]]; [by apply absent_below|]. apply eq_None_not_Some. intros Hs1%read_dir_spec. rewrite E2 in Hs1. by apply elem_of_nil in Hs1. }
    apply (Hold _ E1) in Hs. apply prefix_length in Hs. rewrite length_app in Hs. cbn in Hs. lia. }
  destruct (copy_directory_spec (S (depth fs2)) (output ++ [n]) new_dir DATABASE fs2) as (fs3&Hcopy&Hok3&Hfs3); try done.
  - by apply Hkeep.
  - by apply absent_below.
  - intros q Hq. apply depth_bound in Hq. rewrite length_app in Hq. lia.
  - rewrite Hcopy. assert (∀ q, fs3 !! ((new_dir ++ [DATABASE]) ++ q) = rocks_checkpoint db !! q) as Hfiles.
    { intros q. rewrite Hfs3, decide_True by (by exists q). rewrite drop_app_length. by rewrite Hsame. }
    assert (fs3 !! new_dir = Some Directory) as Hnd3. { rewrite Hfs3, decide_False; [done|]. intros E%prefix_length. rewrite length_app in E. cbn in E. lia. }
    exists fs3. rewrite (store_open_checkpoint new_dir fs3 db Hok3 Hnd3 Hfiles Hschema), Hinit. split; [done|]. split; [done|].
    intros q. rewrite <- Hsame, Hfs3, decide_False; [done|]. apply prefix_apart; [done|]. intros [r Hr]. rewrite Hr in Hod. apply Hkeep in Hod. rewrite absent_below in Hod; done.
Qed.
End disk.
End files.

(** ** A backup and its restoration *)

Module backup_example.
Definition CURRENT : bytes := lit "CURRENT".
(** A database directory with one file, which holds the database. *)
Definition disk_files (db : Db) : gmap Path (Node Db) := {[ [] := Directory; [CURRENT] := Regular db ]}.
Definition disk_open (files : gmap Path (Node Db)) : option Db :=
  match files !! [CURRENT] with Some (Regular db) => Some db | Some Directory => None | None => Some db_empty end.
Lemma disk_tree db : fs_ok (disk_files db) ∧ disk_files db !! [] = Some Directory.
Proof.
  split; [|done]. intros p n [v Hv]. unfold disk_files in Hv. apply lookup_insert_Some in Hv as [[E _]|[_ Hv]]; [by destruct p|].
  apply lookup_singleton_Some in Hv as [E _]. by destruct p as [|? [|? ?]].
Qed.
#[export] Instance toy_disk : RocksDisk (C := Db) :=
  {| rocks_open := disk_open; rocks_checkpoint := disk_files; checkpoint_tree := disk_tree; checkpoint_opens db := eq_refl |}.
Definition stored : Db := MkDb (Some [0; 0; 0; 1]) (Some [0; 0; 0; 0; 0; 0; 0; 1]) (Some (MkStored 1 1 (lit "admin") default_runtime_config)) ∅ ∅ ∅ ∅ ∅ ∅ ∅ ∅ ∅ ∅ ∅ ∅ ∅ ∅.
(** A service's directory with its database, and one for backups. *)
Definition srv : Path := [lit "srv"].
Definition saves : Path := [lit "saves"].
Definition dirs : gmap Path (Node Db) := {[ [] := Directory; srv := Directory; saves := Directory ]}.
Definition before : gmap Path (Node Db) := graft (srv ++ [DATABASE]) (disk_files stored) dirs.
Definition output : Path := saves ++ [lit "monday"].
Definition after : gmap Path (Node Db) := (backup srv output before).2.
End backup_example.
Import backup_example.

Lemma before_open : fs_ok before ∧ store_open srv before = (Ok stored, before).
Proof.
  assert (fs_ok dirs) as Hd by (apply fs_okb_sound; vm_compute; reflexivity). destruct (disk_tree stored) as [Hf Hr].
  assert (fs_ok before) as Hok by (by apply graft_ok). split; [done|]. apply store_open_checkpoint; [done| |intros q; apply graft_below, absent_below; done|done].
  unfold before. rewrite graft_else; [done|]. intros E%prefix_length. cbn in E. lia.
Qed.
Lemma backup_restores_witness : (backup srv output before).1 = Ok () ∧ ∃ fs2, restore output [lit "new"] after = Some (Ok (), fs2) ∧ store_open [lit "new"] fs2 = (Ok stored, fs2).
Proof.
  assert ((backup srv output before).1 = Ok ()) as Hb by (vm_compute; reflexivity). split; [exact Hb|].
  assert (bool_decide (after !! [lit "new"] = None) = true) as Hn%bool_decide_eq_true by (vm_compute; reflexivity).
  assert (bool_decide (is_Some (create_dir_all [lit "new"] after)) = true) as Hc%bool_decide_eq_true by (vm_compute; reflexivity).
  destruct (backup_restores srv output [lit "new"] before before after stored (proj1 before_open) eq_refl (proj2 before_open) eq_refl) as (fs2&H1&H2&_).
  - rewrite <- Hb. apply surjective_pairing.
  - left. exact Hn.
  - intros [q Hq]. vm_compute in Hq. discriminate.
  - exact Hc.
  - exists fs2. split; [exact H1|exact H2].
Defined.
